(** * Image-Denoising: the MPI worker and coordinator of [denoiser.c]

    A shallow embedding of [src/denoiser.c]: the 3x3 neighbour sum, the
    boundary question/answer engine, the Metropolis-Hastings sampler loop,
    the termination handshake and the coordinator's partitioning prefix,
    followed by the properties of the specification that they decide.

    Conventions.
    - A C [int] is a [Z] kept in the 32-bit signed range; every arithmetic
      operation of the source is followed by its wrap-around ([int_wrap]).
      A [char] pixel is a [Z] in the signed 8-bit range ([char_wrap]).
    - A [double] is a primitive binary64 float.
    - A C array is a list; reading outside it is an error ([None]).
    - A loop whose number of rounds the code does not bound takes a [fuel];
      [None] also stands for a loop that has not ended within it.
    - The MPI library, [rand] and libm's [log] are the environment: the
      answers they give are read from an [oracle]; the calls the worker
      makes are recorded, in order, in the [trace] of its state. *)

From Stdlib Require Import ZArith Lia Floats.
From stdpp Require Import base option list numbers strings.

Open Scope Z_scope.

(** ** C integers *)

Module CInt.

Definition INT_MIN : Z := -2147483648.
Definition INT_MAX : Z := 2147483647.

(** Two's complement wrap-around to 32 and to 8 signed bits. *)
Definition int_wrap (z : Z) : Z := (z + 2147483648) mod 4294967296 - 2147483648.
Definition char_wrap (z : Z) : Z := (z + 128) mod 256 - 128.

Definition int_add (a b : Z) : Z := int_wrap (a + b).
Definition int_sub (a b : Z) : Z := int_wrap (a - b).
Definition int_mul (a b : Z) : Z := int_wrap (a * b).

(** [a / b] and [a % b] of C truncate towards zero; a zero divisor is an
    error. *)
Definition int_div (a b : Z) : option Z :=
  if b =? 0 then None else Some (int_wrap (Z.quot a b)).
Definition int_rem (a b : Z) : option Z :=
  if b =? 0 then None else Some (int_wrap (Z.rem a b)).

Definition is_int (z : Z) : Prop := INT_MIN <= z <= INT_MAX.
Definition is_char (z : Z) : Prop := -128 <= z <= 127.

End CInt.
Import CInt.

(** ** Message tags ([enum MessageType]) and constants *)

Definition TOP : Z := 0.
Definition RIGHT : Z := 1.
Definition BOTTOM : Z := 2.
Definition LEFT : Z := 3.
Definition TOP_RIGHT : Z := 4.
Definition BOTTOM_RIGHT : Z := 5.
Definition BOTTOM_LEFT : Z := 6.
Definition TOP_LEFT : Z := 7.
Definition ROWS : Z := 20.
Definition COLUMNS : Z := 21.
Definition QUESTION : Z := 500.
Definition ANSWER : Z := 600.
Definition FINISHED : Z := 700.
Definition IMAGE_START : Z := 1000.
Definition FINAL_IMAGE_START : Z := 60000.

Definition TOTAL_ITERATIONS : Z := 5000000.
Definition MASTER_RANK : Z := 0.
Definition DIRECTIONS : Z := 8.
Definition N : Z := 8.
Definition THREADS : Z := 4.

(** ** Tiles *)

(** [char **subImage]: the rows of a tile. *)
Definition image := list (list Z).

(** [subImage[i][j]], an error outside the allocated rows. *)
Definition pixel (subImage : image) (i j : Z) : option Z :=
  if (i <? 0) || (j <? 0) then None
  else row ← subImage !! Z.to_nat i; row !! Z.to_nat j.

(** [subImage[i][j] = v]. *)
Definition set_pixel (subImage : image) (i j v : Z) : image :=
  match subImage !! Z.to_nat i with
  | Some row => <[Z.to_nat i := <[Z.to_nat j := v]> row]> subImage
  | None => subImage
  end.

(** A tile of [rows] rows of [columns] pixels each. *)
Definition tile_shape (rows columns : Z) (subImage : image) : Prop :=
  Z.of_nat (length subImage) = rows /\
  Forall (fun row => Z.of_nat (length row) = columns) subImage.

(** ** Loops *)

(** [for (i = lo; i <= hi; ++i) body], the counter a wrapping [int]. *)
Fixpoint for_le {A : Type} (fuel : nat) (i hi : Z)
    (body : Z -> A -> option A) (acc : A) : option A :=
  match fuel with
  | O => None
  | S fuel' =>
      if i <=? hi then
        acc' ← body i acc; for_le fuel' (int_add i 1) hi body acc'
      else Some acc
  end.

(** ** [summer] (lines 127-148) *)

Definition summer (fuel : nat) (subImage : image)
    (rows columns rowCenter columnCenter : Z) : option Z :=
  for_le fuel (int_sub rowCenter 1) (int_add rowCenter 1)
    (fun i sum =>
       if (0 <=? i) && (i <? rows) then
         for_le fuel (int_sub columnCenter 1) (int_add columnCenter 1)
           (fun j sum =>
              if (0 <=? j) && (j <? columns) then
                if negb (i =? rowCenter) || negb (j =? columnCenter) then
                  x ← pixel subImage i j; Some (int_add sum x)
                else Some sum
              else Some sum)
           sum
       else Some sum)
    0.

(** ** The MPI environment *)

(** The value of an [MPI_Request] variable: the C null pointer the code
    stores itself, [MPI_REQUEST_NULL] as the library leaves it behind a
    completed request, or an active request. *)
Inductive request := NULL | REQUEST_NULL | PENDING.

(** The request arrays of [slave]; a handle is a slot of one of them. *)
Inductive array :=
| AskRequests | AskResponses
| AnswerRequests | AnswerResponses
| FinishedRequests | FinishedResponses.

Definition handle : Type := array * Z.

(** The library calls a worker makes, with what they returned. An [int]
    payload is [Some v], the empty payload of FINISHED is [None]. *)
Inductive event :=
| MPI_Isend (payload : option Z) (dest tag : Z) (h : handle)
| MPI_Irecv (source tag : Z) (h : handle)
| MPI_Test (h : handle) (flag : bool) (received : option Z)
| MPI_Testall (a : array) (count : Z) (flag : bool)
| MPI_Wait (h : handle)
| MPI_Send (payload : list Z) (dest tag : Z)
| rand_call (result : Z).

(** What the environment answers. [completes t h] tells whether the active
    request in slot [h] has completed when the library is asked at time [t],
    and the [int] a completed receive has stored; [rand t] is the result of
    a call of [rand] at time [t], [RAND_MAX] its largest value and [log]
    libm's natural logarithm. *)
Record oracle := {
  completes : nat -> handle -> option Z;
  rand : nat -> Z;
  RAND_MAX : Z;
  log : float -> float;
}.

(** What the coordinator sends a worker before it starts: ROWS, COLUMNS,
    the eight neighbour ranks (-1: none) and the rows of its tile. *)
Record tile := {
  rows : Z;
  columns : Z;
  neighbours : list Z;
  initialSubImage : image;
}.

(** The variables of [slave] that change, the time and the calls made. *)
Record worker := mkWorker {
  subImage : image;
  positions : list Z;
  answerRequests : list request;
  answerResponses : list request;
  askRequests : list request;
  askResponses : list request;
  askResponseValues : list Z;
  askReqResCount : Z;
  finishedRequests : list request;
  finishedResponses : list request;
  finishedReqResCount : Z;
  clock : nat;
  trace : list event;
}.

Definition set_subImage (v : image) (w : worker) : worker :=
  mkWorker v (positions w) (answerRequests w) (answerResponses w)
    (askRequests w) (askResponses w) (askResponseValues w) (askReqResCount w)
    (finishedRequests w) (finishedResponses w) (finishedReqResCount w)
    (clock w) (trace w).

Definition set_positions (v : list Z) (w : worker) : worker :=
  mkWorker (subImage w) v (answerRequests w) (answerResponses w)
    (askRequests w) (askResponses w) (askResponseValues w) (askReqResCount w)
    (finishedRequests w) (finishedResponses w) (finishedReqResCount w)
    (clock w) (trace w).

Definition set_answerRequests (v : list request) (w : worker) : worker :=
  mkWorker (subImage w) (positions w) v (answerResponses w)
    (askRequests w) (askResponses w) (askResponseValues w) (askReqResCount w)
    (finishedRequests w) (finishedResponses w) (finishedReqResCount w)
    (clock w) (trace w).

Definition set_answerResponses (v : list request) (w : worker) : worker :=
  mkWorker (subImage w) (positions w) (answerRequests w) v
    (askRequests w) (askResponses w) (askResponseValues w) (askReqResCount w)
    (finishedRequests w) (finishedResponses w) (finishedReqResCount w)
    (clock w) (trace w).

Definition set_askRequests (v : list request) (w : worker) : worker :=
  mkWorker (subImage w) (positions w) (answerRequests w) (answerResponses w)
    v (askResponses w) (askResponseValues w) (askReqResCount w)
    (finishedRequests w) (finishedResponses w) (finishedReqResCount w)
    (clock w) (trace w).

Definition set_askResponses (v : list request) (w : worker) : worker :=
  mkWorker (subImage w) (positions w) (answerRequests w) (answerResponses w)
    (askRequests w) v (askResponseValues w) (askReqResCount w)
    (finishedRequests w) (finishedResponses w) (finishedReqResCount w)
    (clock w) (trace w).

Definition set_askResponseValues (v : list Z) (w : worker) : worker :=
  mkWorker (subImage w) (positions w) (answerRequests w) (answerResponses w)
    (askRequests w) (askResponses w) v (askReqResCount w)
    (finishedRequests w) (finishedResponses w) (finishedReqResCount w)
    (clock w) (trace w).

Definition set_askReqResCount (v : Z) (w : worker) : worker :=
  mkWorker (subImage w) (positions w) (answerRequests w) (answerResponses w)
    (askRequests w) (askResponses w) (askResponseValues w) v
    (finishedRequests w) (finishedResponses w) (finishedReqResCount w)
    (clock w) (trace w).

Definition set_finishedRequests (v : list request) (w : worker) : worker :=
  mkWorker (subImage w) (positions w) (answerRequests w) (answerResponses w)
    (askRequests w) (askResponses w) (askResponseValues w) (askReqResCount w)
    v (finishedResponses w) (finishedReqResCount w)
    (clock w) (trace w).

Definition set_finishedResponses (v : list request) (w : worker) : worker :=
  mkWorker (subImage w) (positions w) (answerRequests w) (answerResponses w)
    (askRequests w) (askResponses w) (askResponseValues w) (askReqResCount w)
    (finishedRequests w) v (finishedReqResCount w)
    (clock w) (trace w).

Definition set_finishedReqResCount (v : Z) (w : worker) : worker :=
  mkWorker (subImage w) (positions w) (answerRequests w) (answerResponses w)
    (askRequests w) (askResponses w) (askResponseValues w) (askReqResCount w)
    (finishedRequests w) (finishedResponses w) v
    (clock w) (trace w).

(** Record a call; a call that asks the environment also advances time. *)
Definition emit (e : event) (w : worker) : worker :=
  mkWorker (subImage w) (positions w) (answerRequests w) (answerResponses w)
    (askRequests w) (askResponses w) (askResponseValues w) (askReqResCount w)
    (finishedRequests w) (finishedResponses w) (finishedReqResCount w)
    (clock w) (trace w ++ [e]).

Definition tick (w : worker) : worker :=
  mkWorker (subImage w) (positions w) (answerRequests w) (answerResponses w)
    (askRequests w) (askResponses w) (askResponseValues w) (askReqResCount w)
    (finishedRequests w) (finishedResponses w) (finishedReqResCount w)
    (S (clock w)) (trace w).

(** The request array [a] of a worker, and its replacement. *)
Definition requests (a : array) (w : worker) : list request :=
  match a with
  | AskRequests => askRequests w
  | AskResponses => askResponses w
  | AnswerRequests => answerRequests w
  | AnswerResponses => answerResponses w
  | FinishedRequests => finishedRequests w
  | FinishedResponses => finishedResponses w
  end.

Definition set_requests (a : array) (v : list request) (w : worker) : worker :=
  match a with
  | AskRequests => set_askRequests v w
  | AskResponses => set_askResponses v w
  | AnswerRequests => set_answerRequests v w
  | AnswerResponses => set_answerResponses v w
  | FinishedRequests => set_finishedRequests v w
  | FinishedResponses => set_finishedResponses v w
  end.

(** [arr[i]] and [arr[i] = v]; outside the array both are errors. *)
Definition load {A : Type} (arr : list A) (i : Z) : option A :=
  if i <? 0 then None else arr !! Z.to_nat i.

Definition store {A : Type} (arr : list A) (i : Z) (v : A) : option (list A) :=
  if (0 <=? i) && (i <? Z.of_nat (length arr))
  then Some (<[Z.to_nat i := v]> arr) else None.

(** [MPI_Isend] and [MPI_Irecv] leave an active request in slot [h]. *)
Definition post (e : event) (h : handle) (w : worker) : option worker :=
  reqs ← store (requests h.1 w) h.2 PENDING;
  Some (emit e (set_requests h.1 reqs w)).

(** [MPI_Wait(&arr[i])] returns once the request has completed and leaves
    [MPI_REQUEST_NULL] in the slot. *)
Definition wait (h : handle) (w : worker) : option worker :=
  reqs ← store (requests h.1 w) h.2 REQUEST_NULL;
  Some (emit (MPI_Wait h) (set_requests h.1 reqs w)).

(** [MPI_Test(&arr[i], &flag)] on a request whose receive stores into
    [buffer]. An active request is complete when the environment says so:
    the [int] received is stored, the request freed and the flag set. A
    request freed before tests complete at once; the C null pointer is not
    a request. *)
Definition test (o : oracle) (h : handle)
    (buffer : Z -> worker -> option worker) (w : worker)
    : option (bool * worker) :=
  r ← load (requests h.1 w) h.2;
  match r with
  | PENDING =>
      match completes o (clock w) h with
      | Some v =>
          w ← buffer v w;
          reqs ← store (requests h.1 w) h.2 REQUEST_NULL;
          Some (true, tick (emit (MPI_Test h true (Some v))
                              (set_requests h.1 reqs w)))
      | None => Some (false, tick (emit (MPI_Test h false None) w))
      end
  | REQUEST_NULL => Some (true, tick (emit (MPI_Test h true None) w))
  | NULL => None
  end.

(** The slots [0 .. count-1]. *)
Definition slots (count : Z) : list Z := seqZ 0 count.

(** [MPI_Testall(count, arr, &flag)]: the flag is set when every active
    request among the first [count] has completed; they are then all freed.
    Otherwise nothing changes. *)
Definition all_complete (o : oracle) (a : array) (count : Z) (w : worker) : bool :=
  forallb
    (fun i => match load (requests a w) i with
              | Some PENDING => bool_decide (is_Some (completes o (clock w) (a, i)))
              | Some _ => true
              | None => false
              end)
    (slots count).

Definition free_all (count : Z) (reqs : list request) : list request :=
  imap (fun i r => if Z.of_nat i <? count then REQUEST_NULL else r) reqs.

Definition testall (o : oracle) (a : array) (count : Z) (w : worker)
    : bool * worker :=
  if all_complete o a count w then
    (true, tick (emit (MPI_Testall a count true)
                   (set_requests a (free_all count (requests a w)) w)))
  else (false, tick (emit (MPI_Testall a count false) w)).

(** [for (i = 0; i < 8; ++i) body] and the like, over the values [i] takes. *)
Fixpoint for_each {A : Type} (l : list Z) (body : Z -> A -> option A) (acc : A)
    : option A :=
  match l with
  | [] => Some acc
  | i :: l' => acc' ← body i acc; for_each l' body acc'
  end.

Definition directions : list Z := seqZ 0 DIRECTIONS.

(** ** The answering side (lines 88-224) *)

(** [initializeAnAnswer]: the standing receive for the next question of
    the neighbour in [direction]; it will store into [positions[direction]]. *)
Definition initializeAnAnswer (neighbour direction : Z) (w : worker)
    : option worker :=
  post (MPI_Irecv neighbour QUESTION (AnswerRequests, direction))
       (AnswerRequests, direction) w.

Definition initializeAnswers (t : tile) (w : worker) : option worker :=
  for_each directions
    (fun direction w =>
       neighbour ← load (neighbours t) direction;
       if neighbour =? -1 then Some w
       else
         w ← initializeAnAnswer neighbour direction w;
         resps ← store (answerResponses w) direction NULL;
         Some (set_answerResponses resps w))
    w.

(** The two [switch] statements of [answerAll]; a direction outside the
    eight leaves the centre unset. *)
Definition rowCenter_of (direction rows position : Z) : option Z :=
  if (direction =? TOP) || (direction =? TOP_LEFT) || (direction =? TOP_RIGHT)
  then Some (-1)
  else if (direction =? BOTTOM) || (direction =? BOTTOM_LEFT)
          || (direction =? BOTTOM_RIGHT)
  then Some rows
  else if (direction =? LEFT) || (direction =? RIGHT)
  then Some position
  else None.

Definition columnCenter_of (direction columns position : Z) : option Z :=
  if (direction =? LEFT) || (direction =? TOP_LEFT) || (direction =? BOTTOM_LEFT)
  then Some (-1)
  else if (direction =? RIGHT) || (direction =? TOP_RIGHT)
          || (direction =? BOTTOM_RIGHT)
  then Some columns
  else if (direction =? TOP) || (direction =? BOTTOM)
  then Some position
  else None.

(** One round of the loop of [answerAll]. The [int] handed to [MPI_Isend]
    is the value of [sum] at the call. *)
Definition answerOne (fuel : nat) (o : oracle) (t : tile) (direction : Z)
    (w : worker) : option worker :=
  neighbour ← load (neighbours t) direction;
  if neighbour =? -1 then Some w
  else
    '(flag, w) ← test o (AnswerRequests, direction)
                   (fun v w => ps ← store (positions w) direction v;
                               Some (set_positions ps w)) w;
    if (flag : bool) then
      position ← load (positions w) direction;
      w ← initializeAnAnswer neighbour direction w;
      response ← load (answerResponses w) direction;
      w ← match response with
          | NULL => Some w
          | _ =>
              w ← wait (AnswerResponses, direction) w;
              resps ← store (answerResponses w) direction NULL;
              Some (set_answerResponses resps w)
          end;
      rowCenter ← rowCenter_of direction (rows t) position;
      columnCenter ← columnCenter_of direction (columns t) position;
      sum ← summer fuel (subImage w) (rows t) (columns t) rowCenter columnCenter;
      post (MPI_Isend (Some sum) neighbour ANSWER (AnswerResponses, direction))
           (AnswerResponses, direction) w
    else Some w.

Definition answerAll (fuel : nat) (o : oracle) (t : tile) (w : worker)
    : option worker :=
  for_each directions (answerOne fuel o t) w.

(** ** The termination handshake (lines 235-269) *)

Definition sendFinishedAll (t : tile) (w : worker) : option worker :=
  for_each directions
    (fun direction w =>
       neighbour ← load (neighbours t) direction;
       if negb (neighbour =? -1) then
         let i := finishedReqResCount w in
         w ← post (MPI_Isend None neighbour FINISHED (FinishedRequests, i))
                  (FinishedRequests, i) w;
         w ← post (MPI_Irecv neighbour FINISHED (FinishedResponses, i))
                  (FinishedResponses, i) w;
         Some (set_finishedReqResCount (int_add i 1) w)
       else Some w)
    w.

Definition testFinishedAll (o : oracle) (w : worker) : bool * worker :=
  if finishedReqResCount w >? 0 then
    let '(requestResult, w) := testall o FinishedRequests (finishedReqResCount w) w in
    let '(responseResult, w) := testall o FinishedResponses (finishedReqResCount w) w in
    (requestResult && responseResult, w)
  else (true, w).

(** ** The asking side (lines 283-338) *)

(** [askAsync]; [&position] is sent with the value it has at the call. *)
Definition askAsync (neighbour position : Z) (w : worker) : option worker :=
  if neighbour =? -1 then Some w
  else
    let i := askReqResCount w in
    w ← post (MPI_Isend (Some position) neighbour QUESTION (AskRequests, i))
             (AskRequests, i) w;
    w ← post (MPI_Irecv neighbour ANSWER (AskResponses, i)) (AskResponses, i) w;
    Some (set_askReqResCount (int_add i 1) w).

(** A completed [MPI_Testall] over [askResponses] means every answer has
    been stored into its slot of [askResponseValues]. *)
Definition deliver_answers (o : oracle) (time : nat) (count : Z)
    (reqs : list request) (values : list Z) : list Z :=
  imap (fun i v =>
          if Z.of_nat i <? count then
            match reqs !! i, completes o time (AskResponses, Z.of_nat i) with
            | Some PENDING, Some received => received
            | _, _ => v
            end
          else v)
       values.

Definition testAskAll (o : oracle) (w : worker) : bool * worker :=
  if askReqResCount w >? 0 then
    let '(requestResult, w) := testall o AskRequests (askReqResCount w) w in
    let values :=
      deliver_answers o (clock w) (askReqResCount w) (askResponses w)
        (askResponseValues w) in
    let '(responseResult, w) := testall o AskResponses (askReqResCount w) w in
    let w := if responseResult then set_askResponseValues values w else w in
    (requestResult && responseResult, w)
  else (true, w).

(** The [while] loop of [askResult], which runs until the count is 0. *)
Fixpoint askResult_loop (fuel : nat) (result : Z) (w : worker)
    : option (Z * worker) :=
  match fuel with
  | O => None
  | S fuel' =>
      if negb (askReqResCount w =? 0) then
        let w := set_askReqResCount (int_sub (askReqResCount w) 1) w in
        v ← load (askResponseValues w) (askReqResCount w);
        askResult_loop fuel' (int_add result v) w
      else Some (result, w)
  end.

Definition askResult (fuel : nat) (w : worker) : option (Z * worker) :=
  if askReqResCount w >? 0 then askResult_loop fuel 0 w else Some (0, w).

(** ** The sampler (lines 29-32 and 349-470) *)

(** The conversion of an [int] to [double]; it is exact. *)
Definition double_of_int (z : Z) : float :=
  if z <? 0 then PrimFloat.opp (PrimFloat.of_uint63 (Uint63.of_Z (- z)))
  else PrimFloat.of_uint63 (Uint63.of_Z z).

(** [rand()]. *)
Definition call_rand (o : oracle) (w : worker) : Z * worker :=
  let r := rand o (clock w) in (r, tick (emit (rand_call r) w)).

(** [randomProbability]: [((double)rand()) / RAND_MAX]. *)
Definition randomProbability (o : oracle) (w : worker) : float * worker :=
  let '(r, w) := call_rand o w in
  (PrimFloat.div (double_of_int r) (double_of_int (RAND_MAX o)), w).

(** Line 446: every operand is converted to [double] as it meets one, and
    the products associate to the left. *)
Definition deltaE (beta gammaValue : float) (initial current sum : Z) : float :=
  PrimFloat.sub
    (PrimFloat.mul
       (PrimFloat.mul (PrimFloat.mul (double_of_int (-2)) gammaValue)
          (double_of_int initial))
       (double_of_int current))
    (PrimFloat.mul
       (PrimFloat.mul (PrimFloat.mul (double_of_int 2) beta)
          (double_of_int current))
       (double_of_int sum)).

(** The questions of lines 404-435 for the pixel picked. *)
Definition askNeighbours (t : tile) (rowPosition columnPosition : Z)
    (w : worker) : option worker :=
  let ask direction position w :=
    neighbour ← load (neighbours t) direction; askAsync neighbour position w in
  w ← (if rowPosition =? 0 then
         w ← ask TOP columnPosition w;
         w ← (if columnPosition =? 0 then ask TOP_LEFT 0 w else Some w);
         if columnPosition =? int_sub (columns t) 1
         then ask TOP_RIGHT 0 w else Some w
       else Some w);
  w ← (if rowPosition =? int_sub (rows t) 1 then
         w ← ask BOTTOM columnPosition w;
         w ← (if columnPosition =? 0 then ask BOTTOM_LEFT 0 w else Some w);
         if columnPosition =? int_sub (columns t) 1
         then ask BOTTOM_RIGHT 0 w else Some w
       else Some w);
  w ← (if columnPosition =? 0 then ask LEFT rowPosition w else Some w);
  if columnPosition =? int_sub (columns t) 1
  then ask RIGHT rowPosition w else Some w.

(** [while (!testAskAll(...)) answerAll(...)]: [n] bounds the rounds. *)
Fixpoint awaitAnswers (n fuel : nat) (o : oracle) (t : tile) (w : worker)
    : option worker :=
  match n with
  | O => None
  | S n' =>
      let '(done, w) := testAskAll o w in
      if done then Some w
      else w ← answerAll fuel o t w; awaitAnswers n' fuel o t w
  end.

(** The pixel is negated as an [int] and stored back as a [char]. *)
Definition flip (rowPosition columnPosition : Z) (w : worker) : option worker :=
  current ← pixel (subImage w) rowPosition columnPosition;
  Some (set_subImage
          (set_pixel (subImage w) rowPosition columnPosition
             (char_wrap (- current))) w).

(** The body of the [while (iterations--)] loop, without its progress
    report on standard output. *)
Definition iteration (fuel : nat) (o : oracle) (beta gammaValue : float)
    (t : tile) (w : worker) : option worker :=
  let '(r, w) := call_rand o w in
  rowPosition ← int_rem r (rows t);
  let '(r, w) := call_rand o w in
  columnPosition ← int_rem r (columns t);
  sum ← summer fuel (subImage w) (rows t) (columns t) rowPosition columnPosition;
  w ← askNeighbours t rowPosition columnPosition w;
  w ← awaitAnswers fuel fuel o t w;
  '(answers, w) ← askResult fuel w;
  let sum := int_add sum answers in
  initial ← pixel (initialSubImage t) rowPosition columnPosition;
  current ← pixel (subImage w) rowPosition columnPosition;
  let dE := deltaE beta gammaValue initial current sum in
  let '(u, w) := randomProbability o w in
  if PrimFloat.leb (log o u) dE then flip rowPosition columnPosition w
  else Some w.

(** [while (iterations--)]: the count is tested, then decremented. *)
Fixpoint sampler (n fuel : nat) (o : oracle) (beta gammaValue : float)
    (t : tile) (iterations : Z) (w : worker) : option worker :=
  match n with
  | O => None
  | S n' =>
      if negb (iterations =? 0) then
        w ← iteration fuel o beta gammaValue t w;
        sampler n' fuel o beta gammaValue t (int_sub iterations 1) w
      else Some w
  end.

(** [while (!testFinishedAll(...)) answerAll(...)]. *)
Fixpoint awaitFinished (n fuel : nat) (o : oracle) (t : tile) (w : worker)
    : option worker :=
  match n with
  | O => None
  | S n' =>
      let '(done, w) := testFinishedAll o w in
      if done then Some w
      else w ← answerAll fuel o t w; awaitFinished n' fuel o t w
  end.

(** [for (i = lo; i < hi; ++i) body]. *)
Fixpoint for_lt {A : Type} (fuel : nat) (i hi : Z)
    (body : Z -> A -> option A) (acc : A) : option A :=
  match fuel with
  | O => None
  | S fuel' =>
      if i <? hi then
        acc' ← body i acc; for_lt fuel' (int_add i 1) hi body acc'
      else Some acc
  end.

(** The final loop of [slave]: the tile goes back row by row. *)
Definition sendTile (fuel : nat) (t : tile) (w : worker) : option worker :=
  for_lt fuel 0 (rows t)
    (fun i w =>
       row ← load (subImage w) i;
       Some (emit (MPI_Send row MASTER_RANK (int_add FINAL_IMAGE_START i)) w))
    w.

(** The worker as it stands after the coordinator's messages have been
    received and the tile copied: no request posted, no call made. A slot
    the code has not written yet holds [NULL] (0 for an [int]). *)
Definition start (t : tile) : worker :=
  {| subImage := initialSubImage t;
     positions := replicate 8 0;
     answerRequests := replicate 8 NULL;
     answerResponses := replicate 8 NULL;
     askRequests := replicate 8 NULL;
     askResponses := replicate 8 NULL;
     askResponseValues := replicate 8 0;
     askReqResCount := 0;
     finishedRequests := replicate 8 NULL;
     finishedResponses := replicate 8 NULL;
     finishedReqResCount := 0;
     clock := 0;
     trace := [] |}.

(** [slave]: the return value and the final state. *)
Definition slave (fuel : nat) (o : oracle) (world_size world_rank : Z)
    (beta gammaValue : float) (t : tile) : option (Z * worker) :=
  iterations ← int_div TOTAL_ITERATIONS (int_sub world_size 1);
  w ← initializeAnswers t (start t);
  w ← sampler fuel fuel o beta gammaValue t iterations w;
  w ← sendFinishedAll t w;
  w ← awaitFinished fuel fuel o t w;
  w ← sendTile fuel t w;
  Some (0, w).

(** ** The coordinator (lines 500-637) and [main] (lines 645-690) *)

(** What the coordinator does that can be seen from outside. *)
Inductive output :=
| to_stderr (message : string) (args : list Z)
| to_stdout (message : string) (args : list Z)
| sendMessage (data : list Z) (destination tag : Z)
| receiveMessage (source tag : Z)
| to_file (row : list Z).

(** How the process ends: [main] returns a value; an integer division by
    zero stops the process; a message for a rank that does not exist aborts
    the job; [pthread_exit] ends the calling thread, never to return to
    [main], and the process then ends with status 0. *)
Inductive outcome :=
| Returned (code : Z)
| DivisionByZero
| InvalidRank
| ThreadExit.

Definition EXIT_FAILURE : Z := 1.

(** A step of the coordinator: the output so far grows, and the run goes on
    with a value or stops with an [outcome]. *)
Definition step (A : Type) : Type := list output -> list output * (outcome + A).

Definition ret {A : Type} (a : A) : step A := fun out => (out, inr a).
Definition stop {A : Type} (e : outcome) : step A := fun out => (out, inl e).
Definition say (e : output) : step unit := fun out => (out ++ [e], inr tt).
Definition bind {A B : Type} (m : step A) (k : A -> step B) : step B :=
  fun out =>
    match m out with
    | (out', inl e) => (out', inl e)
    | (out', inr a) => k a out'
    end.

Declare Scope step_scope.
Delimit Scope step_scope with step.
Notation "'do' x <- m ; k" := (bind m (fun x => k))
  (at level 10, x name, m at level 100, k at level 200) : step_scope.
Notation "m ;; k" := (bind m (fun _ => k))
  (at level 100, k at level 200, right associativity) : step_scope.

(** [sendMessage] to a rank of the communicator. *)
Definition send_to (world_size : Z) (data : list Z) (destination tag : Z)
    : step unit :=
  if (0 <=? destination) && (destination <? world_size)
  then say (sendMessage data destination tag)
  else stop InvalidRank.

Definition divide (a b : Z) : step Z :=
  match int_div a b with Some q => ret q | None => stop DivisionByZero end.

Definition modulo (a b : Z) : step Z :=
  match int_rem a b with Some q => ret q | None => stop DivisionByZero end.

Fixpoint each (l : list Z) (body : Z -> step unit) : step unit :=
  match l with
  | [] => ret tt
  | i :: l' => bind (body i) (fun _ => each l' body)
  end.

(** A loop that a [return] inside its body leaves: [body] yields [false]
    to return, and the loop tells whether it ran to its end. *)
Fixpoint each_until (l : list Z) (body : Z -> step bool) : step bool :=
  match l with
  | [] => ret true
  | i :: l' => bind (body i) (fun go => if go then each_until l' body else ret false)
  end.

Section Coordinator.

Open Scope step_scope.

(** Whether the [i]-th [pthread_create] succeeds, and the bytes of row
    [i] of [matrix] as the reader threads have left them. *)
Variable pthread_created : Z -> bool.
Variable matrix : Z -> list Z.

(** The topology and tile size messages for one worker (lines 568-586),
    with [slavesPerRow = 1]. *)
Definition sendTopology (world_size slaveCount rowsPerSlave columnsPerSlave
    slaveRank : Z) : step unit :=
  let slavesPerRow := 1 in
  let send := send_to world_size in
  send [rowsPerSlave] slaveRank ROWS ;;
  send [columnsPerSlave] slaveRank COLUMNS ;;
  let top := if slaveRank <=? slavesPerRow then -1
             else int_sub slaveRank slavesPerRow in
  let right := if Z.rem slaveRank slavesPerRow =? 0 then -1
               else int_add slaveRank 1 in
  let bottom := if slaveRank >? int_sub slaveCount slavesPerRow then -1
                else int_add slaveRank slavesPerRow in
  let left := if Z.rem (int_sub slaveRank 1) slavesPerRow =? 0 then -1
              else int_sub slaveRank 1 in
  let topRight := if (top =? -1) || (right =? -1) then -1
                  else int_add (int_sub slaveRank slavesPerRow) 1 in
  let bottomRight := if (bottom =? -1) || (right =? -1) then -1
                     else int_add (int_add slaveRank slavesPerRow) 1 in
  let bottomLeft := if (bottom =? -1) || (left =? -1) then -1
                    else int_sub (int_add slaveRank slavesPerRow) 1 in
  let topLeft := if (top =? -1) || (left =? -1) then -1
                 else int_sub (int_sub slaveRank slavesPerRow) 1 in
  send [top] slaveRank TOP ;;
  send [right] slaveRank RIGHT ;;
  send [bottom] slaveRank BOTTOM ;;
  send [left] slaveRank LEFT ;;
  send [topRight] slaveRank TOP_RIGHT ;;
  send [bottomRight] slaveRank BOTTOM_RIGHT ;;
  send [bottomLeft] slaveRank BOTTOM_LEFT ;;
  send [topLeft] slaveRank TOP_LEFT.

(** The main thread of [master] from the point where [rowCount] and
    [columnCount] have their values. The reader threads that a successful
    [pthread_create] starts run beside it; what they do to the process is
    the matter of [main_process] below. *)
Definition master_from (rowCount columnCount world_size : Z) : step Z :=
  let slavesPerRow := 1 in
  do created <- each_until (seqZ 0 THREADS)
    (fun i =>
       if pthread_created i then ret true
       else (say (to_stderr "pthread_create failed!" []) ;; ret false)) ;
  if negb created then ret EXIT_FAILURE else
  say (to_stdout "ok" []) ;;
  let slaveCount := int_sub world_size 1 in
  do rowsPerSlave <- divide rowCount slaveCount ;
  let columnsPerSlave := columnCount in
  (if negb (int_mul rowsPerSlave slaveCount =? rowCount) then
     say (to_stderr
            "Error (Row Mode): rowCount is not divisible by the slave count"
            [int_sub world_size 1; rowCount])
   else ret tt) ;;
  each (seqZ 1 slaveCount)
    (sendTopology world_size slaveCount rowsPerSlave columnsPerSlave) ;;
  each (seqZ 0 N)
    (fun rowNumber =>
       do q <- divide rowNumber rowsPerSlave ;
       let slaveRankStart := int_add (int_mul q slavesPerRow) 1 in
       do slaveRowNumber <- modulo rowNumber rowsPerSlave ;
       send_to world_size
         (take (Z.to_nat columnsPerSlave) (matrix rowNumber))
         slaveRankStart (int_add IMAGE_START slaveRowNumber)) ;;
  say (to_stdout "All slaves received their input from master" []) ;;
  each (seqZ 0 rowCount)
    (fun rowNumber =>
       do q <- divide rowNumber rowsPerSlave ;
       let slaveRank := int_add (int_mul q slavesPerRow) 1 in
       do slaveRowNumber <- modulo rowNumber rowsPerSlave ;
       say (receiveMessage slaveRank (int_add FINAL_IMAGE_START slaveRowNumber))) ;;
  say (to_stdout "finished calculations and communciations" []) ;;
  each (seqZ 0 rowCount) (fun rowNumber => say (to_file [])) ;;
  say (to_stdout "finished successfully!" []) ;;
  say (to_stdout "Running time" [world_size]) ;;
  stop ThreadExit.

(** [master]: [int rowCount = 0; int columnCount = 0;] and nothing
    assigns them afterwards. *)
Definition master (world_size : Z) : step Z := master_from 0 0 world_size.

(** The coordinator's branch of [main] as its main thread runs it when
    the reader threads leave the process alone: what is written and how the
    thread ends. *)
Definition main_master (argc world_size : Z) : list output * outcome :=
  let run : step Z :=
    if negb (argc =? 5) then
      say (to_stderr "Please, run the program as denoiser <input> <output> <beta> <pi>" []) ;;
      stop (Returned 1)
    else
      say (to_stdout "Running in row mode." []) ;;
      do error <- master world_size ;
      if negb (error =? 0) then
        say (to_stderr "Error in master" []) ;; stop (Returned error)
      else ret 0 in
  match run [] with
  | (out, inl e) => (out, e)
  | (out, inr code) => (out, Returned code)
  end.

(** The reader threads (lines 472-489 and 524-533). [pthread_create]
    hands [thread] the address of the pointer [args] and not the structure
    it points to, and [thread] reads a file name and a matrix through it:
    what a reader thread does is undefined. It is taken to be what it is in
    practice: from the moment the first thread exists a signal may end the
    process, at any point of the main thread. A [fate] tells whether one
    does, and after how many further outputs of the main thread. What the
    threads themselves print on standard output is not recorded. *)
Inductive fate := Spared | Hit (after : nat).

(** How the process of the coordinator ends: as its main thread does, or by
    the signal. *)
Inductive ending := Ended (e : outcome) | Signalled.

(** The coordinator's process: the main thread beside its reader threads.
    No thread exists before [master] is called, that is before the first
    output of [main] for five arguments, nor when the first
    [pthread_create] fails. *)
Definition main_process (f : fate) (argc world_size : Z)
    : list output * ending :=
  let '(out, e) := main_master argc world_size in
  match f with
  | Hit after =>
      if (argc =? 5) && pthread_created 0 && (S after <=? length out)%nat
      then (take (S after) out, Signalled)
      else (out, Ended e)
  | Spared => (out, Ended e)
  end.

End Coordinator.

(** ** The specification's words *)

(** The eight directions of a tile's neighbours and their tags. *)
Inductive direction :=
| Top | Right | Bottom | Left | TopRight | BottomRight | BottomLeft | TopLeft.

Definition tag_of (D : direction) : Z :=
  match D with
  | Top => TOP | Right => RIGHT | Bottom => BOTTOM | Left => LEFT
  | TopRight => TOP_RIGHT | BottomRight => BOTTOM_RIGHT
  | BottomLeft => BOTTOM_LEFT | TopLeft => TOP_LEFT
  end.

(** The virtual off-edge centre of a question from direction [D] with
    position [p]. *)
Definition row_centre (D : direction) (rows p : Z) : Z :=
  match D with
  | Top | TopLeft | TopRight => -1
  | Bottom | BottomLeft | BottomRight => rows
  | Left | Right => p
  end.

Definition column_centre (D : direction) (columns p : Z) : Z :=
  match D with
  | Left | TopLeft | BottomLeft => -1
  | Right | TopRight | BottomRight => columns
  | Top | Bottom => p
  end.

(** [current[i,j]], 0 where the tile has no such pixel. *)
Definition px (current : image) (i j : Z) : Z := default 0 (pixel current i j).

(** The nine cells of the 3x3 window centred at [(rc, cc)]. *)
Definition window (rc cc : Z) : list (Z * Z) :=
  i ← [rc - 1; rc; rc + 1]; j ← [cc - 1; cc; cc + 1]; [(i, j)].

(** The sum of [current] over the window, without the centre and without
    the cells outside [0,rows) x [0,columns). *)
Definition window_sum (current : image) (rows columns rc cc : Z) : Z :=
  foldr Z.add 0
    ((fun c => px current c.1 c.2) <$>
     filter (fun c => 0 <= c.1 < rows /\ 0 <= c.2 < columns /\ c <> (rc, cc))
       (window rc cc)).

(** A tile whose pixels are [char]s. *)
Definition char_pixels (img : image) : Prop := Forall (Forall is_char) img.

(** What one cell of the window, and one row of it, add to the sum. *)
Definition cell (img : image) (rows columns rc cc i j : Z) : Z :=
  if (0 <=? i) && (i <? rows) && ((0 <=? j) && (j <? columns))
     && (negb (i =? rc) || negb (j =? cc))
  then px img i j else 0.

Definition row_part (img : image) (rows columns rc cc i : Z) : Z :=
  cell img rows columns rc cc i (cc - 1) + cell img rows columns rc cc i cc
  + cell img rows columns rc cc i (cc + 1).

(** ** Well-formed tiles and workers *)

(** The tile a coordinator sends: eight neighbour slots, and [rows] rows of
    [columns] [char]s, with sizes that leave room for the off-edge centres
    of a window. *)
Record well_formed (t : tile) : Prop := {
  neighbours_eight : length (neighbours t) = 8%nat;
  rows_range : 0 <= rows t < INT_MAX - 1;
  columns_range : 0 <= columns t < INT_MAX - 1;
  initial_shape : tile_shape (rows t) (columns t) (initialSubImage t);
  initial_chars : char_pixels (initialSubImage t);
}.

(** The answering side between two calls of [answerAll]: a receive stands
    for every neighbour that exists, and the tile has kept its shape. *)
Record answering (t : tile) (w : worker) : Prop := {
  positions_eight : length (positions w) = 8%nat;
  answerRequests_eight : length (answerRequests w) = 8%nat;
  answerResponses_eight : length (answerResponses w) = 8%nat;
  receive_standing : forall d nb,
    load (neighbours t) d = Some nb -> nb <> -1 ->
    load (answerRequests w) d = Some PENDING;
  current_shape : tile_shape (rows t) (columns t) (subImage w);
  current_chars : char_pixels (subImage w);
}.

(** The questions the environment delivers carry a position whose window
    can be walked without the counter wrapping. *)
Definition questions_in_range (o : oracle) : Prop :=
  forall time d p,
    completes o time (AnswerRequests, d) = Some p -> INT_MIN < p < INT_MAX - 1.

(** The sum [answerAll] computes for a question from [direction] carrying
    [position], with the specification's sum in the place of [summer]. *)
Definition answer_value (t : tile) (img : image) (direction position : Z) : Z :=
  window_sum img (rows t) (columns t)
    (default 0 (rowCenter_of direction (rows t) position))
    (default 0 (columnCenter_of direction (columns t) position)).

(** The state [answerOne] leaves, written without the error cases. *)
Definition answered (o : oracle) (t : tile) (direction : Z) (w : worker)
    : worker :=
  let d := Z.to_nat direction in
  let neighbour := default 0 (load (neighbours t) direction) in
  if neighbour =? -1 then w
  else
    match completes o (clock w) (AnswerRequests, direction) with
    | None => tick (emit (MPI_Test (AnswerRequests, direction) false None) w)
    | Some p =>
        let w1 :=
          tick (emit (MPI_Test (AnswerRequests, direction) true (Some p))
                  (set_positions (<[d := p]> (positions w)) w)) in
        let w2 :=
          emit (MPI_Irecv neighbour QUESTION (AnswerRequests, direction))
            (set_answerRequests (<[d := PENDING]> (answerRequests w1)) w1) in
        let w3 :=
          match load (answerResponses w2) direction with
          | Some NULL => w2
          | _ => emit (MPI_Wait (AnswerResponses, direction))
                   (set_answerResponses (<[d := NULL]> (answerResponses w2)) w2)
          end in
        emit (MPI_Isend (Some (answer_value t (subImage w) direction p))
                neighbour ANSWER (AnswerResponses, direction))
          (set_answerResponses (<[d := PENDING]> (answerResponses w3)) w3)
    end.

Definition answeredAll (o : oracle) (t : tile) (w : worker) : worker :=
  foldl (fun w direction => answered o t direction w) w directions.

(** The calls one round of the loop of [answerAll] makes. *)
Definition answer_events (o : oracle) (t : tile) (direction : Z) (w : worker)
    : list event :=
  let neighbour := default 0 (load (neighbours t) direction) in
  if neighbour =? -1 then []
  else
    match completes o (clock w) (AnswerRequests, direction) with
    | None => [MPI_Test (AnswerRequests, direction) false None]
    | Some p =>
        [MPI_Test (AnswerRequests, direction) true (Some p);
         MPI_Irecv neighbour QUESTION (AnswerRequests, direction)]
        ++ match load (answerResponses w) direction with
           | Some NULL => []
           | _ => [MPI_Wait (AnswerResponses, direction)]
           end
        ++ [MPI_Isend (Some (answer_value t (subImage w) direction p))
              neighbour ANSWER (AnswerResponses, direction)]
    end.

(** The answer the specification prescribes to a question from direction
    [D] that carries position [p]: the sum of the window centred at the
    virtual off-edge coordinates. *)
Definition reply (t : tile) (current : image) (D : direction) (p : Z) : Z :=
  window_sum current (rows t) (columns t)
    (row_centre D (rows t) p) (column_centre D (columns t) p).

(** In a run of calls, every question received is answered with the
    prescribed sum, and nothing else is sent as an answer. A question from
    direction [D] is received when the test of the standing receive of [D]
    reports the position stored. *)
Definition answers_questions (t : tile) (current : image) (evs : list event)
    : Prop :=
  (forall D p,
     MPI_Test (AnswerRequests, tag_of D) true (Some p) ∈ evs ->
     exists neighbour,
       load (neighbours t) (tag_of D) = Some neighbour /\
       MPI_Isend (Some (reply t current D p)) neighbour ANSWER
         (AnswerResponses, tag_of D) ∈ evs) /\
  (forall v dest h,
     MPI_Isend (Some v) dest ANSWER h ∈ evs ->
     exists D p,
       h = (AnswerResponses, tag_of D) /\
       MPI_Test (AnswerRequests, tag_of D) true (Some p) ∈ evs /\
       v = reply t current D p).

(** ** Footprints *)

(** The side of the protocol a call belongs to. *)
Inductive kind := Asking | Answering | Finishing | Random | Returning.

Definition array_kind (a : array) : kind :=
  match a with
  | AskRequests | AskResponses => Asking
  | AnswerRequests | AnswerResponses => Answering
  | FinishedRequests | FinishedResponses => Finishing
  end.

Definition kind_of (e : event) : kind :=
  match e with
  | MPI_Isend _ _ _ h | MPI_Irecv _ _ h | MPI_Test h _ _ | MPI_Wait h =>
      array_kind h.1
  | MPI_Testall a _ _ => array_kind a
  | MPI_Send _ _ _ => Returning
  | rand_call _ => Random
  end.

(** The tag that goes with the requests of an array: a question is sent
    with a request of [askRequests] and received with one of
    [answerRequests], and so on. *)
Definition send_tag (a : array) : option Z :=
  match a with
  | AskRequests => Some QUESTION
  | AnswerResponses => Some ANSWER
  | FinishedRequests => Some FINISHED
  | _ => None
  end.

Definition receive_tag (a : array) : option Z :=
  match a with
  | AskResponses => Some ANSWER
  | AnswerRequests => Some QUESTION
  | FinishedResponses => Some FINISHED
  | _ => None
  end.

Definition well_tagged (e : event) : Prop :=
  match e with
  | MPI_Isend _ _ tag h => send_tag h.1 = Some tag
  | MPI_Irecv _ tag h => receive_tag h.1 = Some tag
  | _ => True
  end.

(** [w'] comes after [w]: the calls made from [w] to [w'] are all of the
    kinds [ks], and each message goes with a request of its own array. *)
Definition extends (ks : list kind) (w w' : worker) : Prop :=
  exists evs, trace w' = trace w ++ evs
              /\ Forall (fun e => kind_of e ∈ ks /\ well_tagged e) evs.

Definition same_tile (w w' : worker) : Prop := subImage w' = subImage w.

Definition same_answers (w w' : worker) : Prop :=
  positions w' = positions w /\ answerRequests w' = answerRequests w
  /\ answerResponses w' = answerResponses w.

Definition same_asks (w w' : worker) : Prop :=
  askRequests w' = askRequests w /\ askResponses w' = askResponses w
  /\ askResponseValues w' = askResponseValues w
  /\ askReqResCount w' = askReqResCount w.

Definition same_finished (w w' : worker) : Prop :=
  finishedRequests w' = finishedRequests w
  /\ finishedResponses w' = finishedResponses w
  /\ finishedReqResCount w' = finishedReqResCount w.

(** The footprint of a piece of the worker that makes calls of the kinds
    [ks] only: the variables of a side of the protocol change only if the
    calls of that side are among them. *)
Definition footprint (ks : list kind) (w w' : worker) : Prop :=
  extends ks w w'
  /\ (Asking ∉ ks -> same_asks w w')
  /\ (Answering ∉ ks -> same_answers w w')
  /\ (Finishing ∉ ks -> same_finished w w').

(** A piece of the worker that leaves the tile alone. *)
Definition quiet (ks : list kind) (w w' : worker) : Prop :=
  footprint ks w w' /\ same_tile w w'.

(** A tile of pixels in {-1, +1}. *)
Definition binary (img : image) : Prop :=
  Forall (Forall (fun x => x = -1 \/ x = 1)) img.

(** [n] runs of [f], one after the other. *)
Fixpoint iterate (n : nat) (f : worker -> option worker) (w : worker)
    : option worker :=
  match n with
  | O => Some w
  | S n' => w' ← f w; iterate n' f w'
  end.

(** ** The questions of an iteration, in the specification's words *)

(** The directions the picked pixel [(r, c)] touches, each with the
    position to ask about. *)
Definition questions_for (t : tile) (r c : Z) : list (direction * Z) :=
  (if decide (r = 0) then
     [(Top, c)]
     ++ (if decide (c = 0) then [(TopLeft, 0)] else [])
     ++ (if decide (c = columns t - 1) then [(TopRight, 0)] else [])
   else [])
  ++ (if decide (r = rows t - 1) then
        [(Bottom, c)]
        ++ (if decide (c = 0) then [(BottomLeft, 0)] else [])
        ++ (if decide (c = columns t - 1) then [(BottomRight, 0)] else [])
      else [])
  ++ (if decide (c = 0) then [(Left, r)] else [])
  ++ (if decide (c = columns t - 1) then [(Right, r)] else []).

(** The neighbour in direction [D]; -1 when there is none. *)
Definition neighbour_at (t : tile) (D : direction) : Z :=
  default (-1) (load (neighbours t) (tag_of D)).

(** The questions that go out: those for a neighbour that exists, each as
    the rank asked and the position. *)
Definition asked (t : tile) (r c : Z) : list (Z * Z) :=
  (fun q => (neighbour_at t q.1, q.2))
  <$> filter (fun q => neighbour_at t q.1 <> -1) (questions_for t r c).

(** The calls that post the questions [l], from slot [i] on: the question
    itself and the receive for its answer. *)
Fixpoint question_events (i : Z) (l : list (Z * Z)) : list event :=
  match l with
  | [] => []
  | (neighbour, position) :: l' =>
      MPI_Isend (Some position) neighbour QUESTION (AskRequests, i)
      :: MPI_Irecv neighbour ANSWER (AskResponses, i)
      :: question_events (i + 1) l'
  end.


(** [askAsync] for the neighbour in direction [D], and for a list of
    directions in turn. *)
Definition ask (t : tile) (D : direction) (position : Z) (w : worker)
    : option worker :=
  neighbour ← load (neighbours t) (tag_of D); askAsync neighbour position w.

Fixpoint ask_list (t : tile) (l : list (direction * Z)) (w : worker)
    : option worker :=
  match l with
  | [] => Some w
  | (D, position) :: l' => w' ← ask t D position w; ask_list t l' w'
  end.

(** The asking side between two iterations: no question is outstanding. *)
Record idle (w : worker) : Prop := {
  askRequests_eight : length (askRequests w) = 8%nat;
  askResponses_eight : length (askResponses w) = 8%nat;
  askResponseValues_eight : length (askResponseValues w) = 8%nat;
  no_question : askReqResCount w = 0;
}.

(** ** An iteration, in the specification's words *)

(** The draws of [rand] are integers of [0, RAND_MAX], an [int]. *)
Definition rand_in_range (o : oracle) : Prop :=
  RAND_MAX o <= INT_MAX /\ forall time, 0 <= rand o time <= RAND_MAX o.

(** The answers collected: the sum of the values that stand in the slots
    of the questions asked, the last slot first. *)
Definition remote_sum (w : worker) : Z :=
  foldl int_add 0
    (reverse (take (Z.to_nat (askReqResCount w)) (askResponseValues w))).

(** The tile after the proposal for the pixel [(r, c)] has been decided
    with the draw [u] and the neighbour sum [sum]: the pixel is negated
    exactly when [log u <= deltaE]. *)
Definition decided (o : oracle) (beta gammaValue : float) (t : tile)
    (current : image) (r c sum : Z) (u : float) : image :=
  if PrimFloat.leb (log o u)
       (deltaE beta gammaValue (px (initialSubImage t) r c) (px current r c) sum)
  then set_pixel current r c (char_wrap (- px current r c))
  else current.

(** [u] as [randomProbability] makes it of a result of [rand]. *)
Definition probability (o : oracle) (r : Z) : float :=
  PrimFloat.div (double_of_int r) (double_of_int (RAND_MAX o)).

(** ** Replies in flight *)

(** What a call does to the number of replies of direction [d] that have
    been posted and not reclaimed: a send with a request of
    [answerResponses[d]] adds one, a wait for it takes one away. *)
Definition reply_delta (d : Z) (e : event) : Z :=
  match e with
  | MPI_Isend _ _ _ (AnswerResponses, i) => if i =? d then 1 else 0
  | MPI_Wait (AnswerResponses, i) => if i =? d then -1 else 0
  | _ => 0
  end.

Definition in_flight (d : Z) (tr : list event) : Z :=
  foldr (fun e n => reply_delta d e + n) 0 tr.

(** At every point of the run [tr], at most one reply of direction [d] is
    in flight. *)
Definition one_reply_in_flight (d : Z) (tr : list event) : Prop :=
  forall pre, pre `prefix_of` tr -> 0 <= in_flight d pre <= 1.

(** The number in flight stays 0 or 1 along [evs], from [n] on. *)
Fixpoint stays (d : Z) (n : Z) (evs : list event) : Prop :=
  match evs with
  | [] => True
  | e :: evs' =>
      0 <= n + reply_delta d e <= 1 /\ stays d (n + reply_delta d e) evs'
  end.

(** The reply handles between two calls of [answerAll]: the slot of a
    direction holds an active request exactly when a reply is in flight,
    and is the null pointer otherwise. *)
Definition replies_tracked (w : worker) : Prop :=
  forall d,
    one_reply_in_flight d (trace w) /\
    (load (answerResponses w) d = Some PENDING /\ in_flight d (trace w) = 1
     \/ load (answerResponses w) d <> Some PENDING
        /\ load (answerResponses w) d <> Some REQUEST_NULL
        /\ in_flight d (trace w) = 0).

Definition all_kinds : list kind :=
  [Asking; Answering; Finishing; Random; Returning].

(** ** The termination handshake, in the specification's words *)

(** The neighbours that exist, in the order of the directions. *)
Definition existing (t : tile) : list Z :=
  filter (fun neighbour => neighbour <> -1) (neighbours t).

(** One FINISHED send and one FINISHED receive for each of the neighbours
    [l], from slot [i] on. *)
Fixpoint finished_events (i : Z) (l : list Z) : list event :=
  match l with
  | [] => []
  | neighbour :: l' =>
      MPI_Isend None neighbour FINISHED (FinishedRequests, i)
      :: MPI_Irecv neighbour FINISHED (FinishedResponses, i)
      :: finished_events (i + 1) l'
  end.

(** The FINISHED messages posted in a run. *)
Definition is_finished_message (e : event) : bool :=
  match e with
  | MPI_Isend _ _ tag _ | MPI_Irecv _ tag _ => tag =? FINISHED
  | _ => false
  end.

Definition finished_messages (tr : list event) : list event :=
  List.filter is_finished_message tr.

(** [k] rounds of waiting for the handshake: in each the completion test
    fails and the questions of the neighbours are served once. *)
Fixpoint serviced (k fuel : nat) (o : oracle) (t : tile) (w : worker)
    : option worker :=
  match k with
  | O => Some w
  | S k' =>
      let '(done, w) := testFinishedAll o w in
      if done then None
      else w ← answerAll fuel o t w; serviced k' fuel o t w
  end.

(** ** The coordinator's report *)

(** The message of lines 557-559. *)
Definition is_row_error (e : output) : bool :=
  match e with
  | to_stderr message _ =>
      bool_decide
        (message
         = "Error (Row Mode): rowCount is not divisible by the slave count"%string)
  | _ => false
  end.

(** What a run has written to standard error. *)
Definition is_stderr (e : output) : bool :=
  match e with to_stderr _ _ => true | _ => false end.

(** A step that never writes the row error. *)
Definition silent {A : Type} (m : step A) : Prop :=
  forall out, Forall (fun e => is_row_error e = false) out ->
              Forall (fun e => is_row_error e = false) (m out).1.

(** ** Uniform tiles *)

(** A tile whose pixels all are [v]. *)
Definition uniform (v : Z) (img : image) : Prop :=
  Forall (Forall (fun x => x = v)) img.

(** ** A run to evaluate *)

(** A 2x2 tile of +1 whose only neighbour, rank 2, is above it. *)
Definition example_tile : tile :=
  {| rows := 2; columns := 2;
     neighbours := [2; -1; -1; -1; -1; -1; -1; -1];
     initialSubImage := [[1; 1]; [1; 1]] |}.

(** A logarithm to evaluate with: like libm's it is [-inf] at 0 and 0 at 1;
    between them it is the tangent at 1. *)
Definition example_log (u : float) : float :=
  if PrimFloat.eqb u 0 then neg_infinity else PrimFloat.sub u 1.

(** An environment in which [rand] always returns 0, the neighbour's
    questions and its FINISHED message have arrived whenever the library is
    asked, and the neighbour's answers arrive at time 5: each is 2, the sum
    of the two pixels of the bottom row of a 2x2 tile of +1. *)
Definition example_oracle : oracle :=
  {| completes := fun time h =>
       match h.1 with
       | AskRequests | AskResponses => if (time <? 5)%nat then None else Some 2
       | _ => Some 0
       end;
     rand := fun _ => 0;
     RAND_MAX := 2147483647;
     log := example_log |}.

(** The state in which the worker of the example starts its iterations. *)
Definition example_worker : worker :=
  default (start example_tile) (initializeAnswers example_tile (start example_tile)).

(** The worker of the example after one iteration, after its sampling loop
    (of one iteration) and at the end of its run: with 5,000,001 processes
    the budget of a worker is one iteration. *)
Definition example_iterated : worker :=
  default example_worker
    (iteration 10 example_oracle 1 1 example_tile example_worker).

Definition example_sampled : worker :=
  default example_worker
    (sampler 10 10 example_oracle 1 1 example_tile 1 example_worker).

Definition example_final : worker :=
  default example_worker
    (snd <$> slave 10 example_oracle 5000001 1 1 1 example_tile).

(** A 3x3 tile of +1 without neighbours, and an environment in which [rand]
    always returns 1: the pixel picked is (1,1), in the middle. *)
Definition interior_tile : tile :=
  {| rows := 3; columns := 3;
     neighbours := replicate 8 (-1);
     initialSubImage := replicate 3 (replicate 3 1) |}.

Definition interior_oracle : oracle :=
  {| completes := fun _ _ => None;
     rand := fun _ => 1;
     RAND_MAX := 2147483647;
     log := example_log |}.

(** ** Further properties: their words *)

(** The messages that carry the rows of [img] back to the coordinator, the
    rows counted from [k]. *)
Definition rows_from (k : nat) (rows : list (list Z)) : list event :=
  imap (fun i row =>
          MPI_Send row MASTER_RANK (int_add FINAL_IMAGE_START (Z.of_nat (k + i))))
       rows.

Definition rows_sent (img : image) : list event := rows_from 0 img.

(** The ten messages that tell worker [slaveRank] of [slaveCount] its tile
    size and its neighbours when the workers are stacked one above the
    other: the worker above, the worker below, and nobody else. *)
Definition chain_topology (rowsPerSlave columnsPerSlave slaveCount slaveRank : Z)
    : list output :=
  [sendMessage [rowsPerSlave] slaveRank ROWS;
   sendMessage [columnsPerSlave] slaveRank COLUMNS;
   sendMessage [if slaveRank =? 1 then -1 else slaveRank - 1] slaveRank TOP;
   sendMessage [-1] slaveRank RIGHT;
   sendMessage [if slaveRank =? slaveCount then -1 else slaveRank + 1]
     slaveRank BOTTOM;
   sendMessage [-1] slaveRank LEFT;
   sendMessage [-1] slaveRank TOP_RIGHT;
   sendMessage [-1] slaveRank BOTTOM_RIGHT;
   sendMessage [-1] slaveRank BOTTOM_LEFT;
   sendMessage [-1] slaveRank TOP_LEFT].

Definition is_message (e : output) : bool :=
  match e with sendMessage _ _ _ => true | _ => false end.

(** The messages the coordinator sends to a run of [world_size] processes
    before the first row of the image: the tile size, 0 by 0, and the
    neighbours of each worker in turn. *)
Definition topology_messages (world_size : Z) : list output :=
  concat (chain_topology 0 0 (world_size - 1) <$> seqZ 1 (world_size - 1)).

(** A message that carries a row of the image to a worker. *)
Definition carries_row (e : output) : Prop :=
  match e with
  | sendMessage _ _ tag => IMAGE_START <= tag
  | _ => False
  end.

(** The receives for questions that [initializeAnswers] posts over the
    directions [ds]: one for each direction with a neighbour. *)
Definition standing_receives (t : tile) (ds : list Z) : list event :=
  foldr (fun d evs =>
           let neighbour := default (-1) (load (neighbours t) d) in
           if neighbour =? -1 then evs
           else MPI_Irecv neighbour QUESTION (AnswerRequests, d) :: evs)
        [] ds.

(** A receive for the next question stands for every neighbour. *)
Definition receives_stand (t : tile) (w : worker) : Prop :=
  forall d neighbour,
    load (neighbours t) d = Some neighbour -> neighbour <> -1 ->
    load (answerRequests w) d = Some PENDING.

(** A receive that stands in [w] stands in [w']. *)
Definition receives_kept (w w' : worker) : Prop :=
  forall d, load (answerRequests w) d = Some PENDING ->
            load (answerRequests w') d = Some PENDING.

(** From time [T] on, the library reports the first [count] questions and
    their answers complete whenever it is asked. *)
Definition answers_arrive (o : oracle) (T : nat) (count : Z) : Prop :=
  forall time i,
    (T <= time)%nat -> 0 <= i < count ->
    is_Some (completes o time (AskRequests, i)) /\
    is_Some (completes o time (AskResponses, i)).


(** Every answer awaited stands in its slot of [askResponseValues] as the
    library has delivered it, all at one time. *)
Definition answers_delivered (o : oracle) (w : worker) : Prop :=
  exists time,
    forall i, 0 <= i < askReqResCount w ->
              exists v, completes o time (AskResponses, i) = Some v
                        /\ load (askResponseValues w) i = Some v.

(** The receives for the answers awaited are all active, or all complete
    with their answers delivered. *)
Definition answers_awaited (o : oracle) (w : worker) : Prop :=
  (forall i, 0 <= i < askReqResCount w ->
             load (askResponses w) i = Some PENDING)
  \/ ((forall i, 0 <= i < askReqResCount w ->
                 load (askResponses w) i = Some REQUEST_NULL)
      /\ answers_delivered o w).

(** A call that names a rank names a neighbour of the tile, or, for the
    blocking send of a row, the coordinator. *)
Definition addressed (t : tile) (e : event) : Prop :=
  match e with
  | MPI_Isend _ rank _ _ | MPI_Irecv rank _ _ =>
      rank <> -1 /\ rank ∈ neighbours t
  | MPI_Send _ rank _ => rank = MASTER_RANK
  | _ => True
  end.

(** From [w] to [w'] the calls made all satisfy [P]. *)
Definition grows (P : event -> Prop) (w w' : worker) : Prop :=
  exists evs, trace w' = trace w ++ evs /\ Forall P evs.

(** A tile without neighbours: every slot of the neighbour list is -1. *)
Definition lone (t : tile) : Prop := Forall (fun neighbour => neighbour = -1) (neighbours t).

(** A draw, or a row sent to the coordinator. *)
Definition draw_or_row (e : event) : Prop :=
  kind_of e = Random \/ kind_of e = Returning.

(** From time [T] on, the library reports the first [count] FINISHED
    sends and receives complete whenever it is asked. *)
Definition finished_arrive (o : oracle) (T : nat) (count : Z) : Prop :=
  forall time i,
    (T <= time)%nat -> 0 <= i < count ->
    is_Some (completes o time (FinishedRequests, i)) /\
    is_Some (completes o time (FinishedResponses, i)).


(** A library that reports every question, every answer and every FINISHED
    message complete whenever it is asked. *)
Definition prompt (o : oracle) : Prop :=
  forall count, answers_arrive o 0 count /\ finished_arrive o 0 count.

(** The worker between two iterations. *)
Record between_iterations (t : tile) (w : worker) : Prop := {
  between_answering : answering t w;
  between_idle : idle w;
  between_finishedRequests : length (finishedRequests w) = 8%nat;
  between_finishedResponses : length (finishedResponses w) = 8%nat;
  between_finished : finishedReqResCount w = 0;
}.

(** An environment in which whatever the library is asked about is
    complete (every [int] received is 0) and [rand] always returns 0. *)
Definition prompt_oracle : oracle :=
  {| completes := fun _ _ => Some 0;
     rand := fun _ => 0;
     RAND_MAX := 2147483647;
     log := example_log |}.

(** ** The iterations of a run: their words *)

(** The calls of [rand] in a run of calls. An iteration of the sampler
    makes three: for the row, for the column and for the probability. *)
Definition is_draw (e : event) : bool :=
  match e with rand_call _ => true | _ => false end.

Definition draws (tr : list event) : Z :=
  Z.of_nat (length (List.filter is_draw tr)).

(** What follows the sampling loop in [slave]: the handshake and the rows. *)
Definition leave (fuel : nat) (o : oracle) (t : tile) (w : worker)
    : option worker :=
  w ← sendFinishedAll t w;
  w ← awaitFinished fuel fuel o t w;
  sendTile fuel t w.

(** The worker of the example at the end of a run of 2,500,001 processes,
    in which the budget of a worker is two iterations. *)
Definition example_twice : worker :=
  default example_worker
    (snd <$> slave 10 example_oracle 2500001 1 1 1 example_tile).

(** ** The questions served by a call of [answerAll]: their words *)

(** The time at which a call of [answerAll] that starts at [time] tests the
    standing receive of [direction]: it has by then tested, one test at a
    time, the receive of every neighbour that exists in a direction before
    it. *)
Definition tested_at (t : tile) (time : nat) (direction : Z) : nat :=
  (time + length (filter (fun neighbour : Z => (neighbour <> -1)%Z)
                    (take (Z.to_nat direction) (neighbours t))))%nat.

(** The question of the neighbour in direction [D] has arrived with
    position [p] when a call of [answerAll] that starts at [time] tests for
    it. *)
Definition question_arrived (o : oracle) (t : tile) (time : nat)
    (D : direction) (p : Z) : Prop :=
  neighbour_at t D <> -1 /\
  completes o (tested_at t time (tag_of D)) (AnswerRequests, tag_of D) = Some p.

(** ** The acceptance rule: its words *)

(** The asking side in the course of an iteration: the questions
    outstanding are counted from 0 in arrays of eight slots. *)
Definition asking (w : worker) : Prop :=
  length (askRequests w) = 8%nat /\ length (askResponses w) = 8%nat /\
  length (askResponseValues w) = 8%nat /\ 0 <= askReqResCount w <= 8.

(** The worker as an iteration finds it once the two calls of [rand] for
    the row and the column have been made. *)
Definition picked (o : oracle) (w : worker) : worker :=
  tick (emit (rand_call (rand o (S (clock w))))
          (tick (emit (rand_call (rand o (clock w))) w))).

(** An environment in which [rand] always returns 1, so that the pixel
    picked in [interior_tile] is the one in the middle and the probability
    drawn is 1 / RAND_MAX, above 0. *)
Definition small_draw_oracle : oracle :=
  {| completes := fun _ _ => None;
     rand := fun _ => 1;
     RAND_MAX := 2147483647;
     log := example_log |}.

(** The worker of [interior_tile] after one iteration, for
    [beta = gamma = 1/32], and at the end of a run of 1,666,667 processes,
    in which the budget of a worker is three iterations. *)
Definition interior_once : worker :=
  default (start interior_tile)
    (iteration 10 small_draw_oracle 0.03125 0.03125 interior_tile
       (start interior_tile)).

Definition interior_final : worker :=
  default (start interior_tile)
    (snd <$> slave 10 small_draw_oracle 1666667 1 0.03125 0.03125
               interior_tile).

(** ** Facts about C integers *)

Lemma int_wrap_id z : is_int z -> int_wrap z = z.
Proof.
  unfold is_int, INT_MIN, INT_MAX, int_wrap. intros H.
  rewrite Z.mod_small by lia. lia.
Qed.

Lemma int_wrap_range z : is_int (int_wrap z).
Proof.
  unfold is_int, INT_MIN, INT_MAX, int_wrap.
  pose proof (Z.mod_pos_bound (z + 2147483648) 4294967296). lia.
Qed.

Lemma char_wrap_id z : is_char z -> char_wrap z = z.
Proof.
  unfold is_char, char_wrap. intros H. rewrite Z.mod_small by lia. lia.
Qed.

Lemma int_add_exact a b : is_int (a + b) -> int_add a b = a + b.
Proof. apply int_wrap_id. Qed.

Lemma int_sub_exact a b : is_int (a - b) -> int_sub a b = a - b.
Proof. apply int_wrap_id. Qed.

Lemma int_mul_exact a b : is_int (a * b) -> int_mul a b = a * b.
Proof. apply int_wrap_id. Qed.

(** ** The neighbour sum *)

(** A loop from [c - 1] to [c + 1] runs its body three times, provided the
    counter can step past [c + 1] without wrapping. *)
Lemma for_le_three {A : Type} (fuel : nat) (c : Z) (body : Z -> A -> option A)
    (acc : A) :
  (4 <= fuel)%nat -> INT_MIN < c < INT_MAX - 1 ->
  for_le fuel (int_sub c 1) (int_add c 1) body acc =
  (a1 ← body (c - 1) acc; a2 ← body c a1; body (c + 1) a2).
Proof.
  unfold INT_MIN, INT_MAX. intros Hfuel Hc.
  do 4 (destruct fuel as [|fuel]; [lia|]).
  rewrite int_sub_exact, int_add_exact by (unfold is_int, INT_MIN, INT_MAX; lia).
  cbn [for_le].
  replace (c - 1 <=? c + 1) with true by lia.
  destruct (body (c - 1) acc) as [a1|]; [|done]. cbn [mbind option_bind].
  rewrite int_add_exact by (unfold is_int, INT_MIN, INT_MAX; lia).
  replace (c - 1 + 1) with c by lia.
  replace (c <=? c + 1) with true by lia.
  destruct (body c a1) as [a2|]; [|done]. cbn [mbind option_bind].
  rewrite int_add_exact by (unfold is_int, INT_MIN, INT_MAX; lia).
  replace (c + 1 <=? c + 1) with true by lia.
  destruct (body (c + 1) a2) as [a3|]; [|done]. cbn [mbind option_bind].
  rewrite int_add_exact by (unfold is_int, INT_MIN, INT_MAX; lia).
  replace (c + 1 + 1 <=? c + 1) with false by lia. done.
Qed.

Lemma pixel_in_tile img rows columns i j :
  tile_shape rows columns img -> 0 <= i < rows -> 0 <= j < columns ->
  pixel img i j = Some (px img i j).
Proof.
  intros [Hlen Hrows] Hi Hj. unfold px, pixel.
  replace (i <? 0) with false by lia. replace (j <? 0) with false by lia.
  cbn [orb].
  destruct (img !! Z.to_nat i) as [row|] eqn:Hrow.
  - cbn [mbind option_bind].
    assert (Z.of_nat (length row) = columns) as Hc.
    { rewrite Forall_forall in Hrows. apply Hrows.
      eapply list_elem_of_lookup_2, Hrow. }
    destruct (row !! Z.to_nat j) eqn:Hpx; [done|].
    apply lookup_ge_None in Hpx. lia.
  - apply lookup_ge_None in Hrow. lia.
Qed.

Lemma px_char img i j : char_pixels img -> is_char (px img i j).
Proof.
  intros Hch. unfold px, pixel.
  destruct ((i <? 0) || (j <? 0)); [unfold is_char; cbn; lia|].
  destruct (img !! Z.to_nat i) as [row|] eqn:Hrow; [|unfold is_char; cbn; lia].
  cbn [mbind option_bind].
  destruct (row !! Z.to_nat j) as [x|] eqn:Hx; [|unfold is_char; cbn; lia].
  cbn. unfold char_pixels in Hch.
  rewrite Forall_forall in Hch.
  specialize (Hch row (list_elem_of_lookup_2 _ _ _ Hrow)).
  rewrite Forall_forall in Hch. apply Hch.
  eapply list_elem_of_lookup_2, Hx.
Qed.

Lemma cell_bound img rows columns rc cc i j :
  char_pixels img -> -128 <= cell img rows columns rc cc i j <= 127.
Proof.
  intros Hch. unfold cell.
  destruct (_ && _); [apply px_char, Hch | lia].
Qed.

(** The body of the inner loop adds the cell. *)
Lemma summer_inner_body img rows columns rc cc i j sum :
  tile_shape rows columns img -> char_pixels img ->
  0 <= i < rows -> -2000 <= sum <= 2000 ->
  (if (0 <=? j) && (j <? columns) then
     if negb (i =? rc) || negb (j =? cc) then
       x ← pixel img i j; Some (int_add sum x)
     else Some sum
   else Some sum) = Some (sum + cell img rows columns rc cc i j).
Proof.
  intros Hshape Hch Hi Hsum. unfold cell.
  replace (0 <=? i) with true by lia. replace (i <? rows) with true by lia.
  cbn [andb].
  destruct ((0 <=? j) && (j <? columns)) eqn:Hj; cbn [andb]; [|f_equal; lia].
  destruct (negb (i =? rc) || negb (j =? cc)); [|f_equal; lia].
  rewrite (pixel_in_tile img rows columns) by (done || lia).
  cbn [mbind option_bind]. f_equal.
  pose proof (px_char img i j Hch) as Hpx. unfold is_char in Hpx.
  apply int_add_exact. unfold is_int, INT_MIN, INT_MAX. lia.
Qed.

Lemma summer_outer_body fuel img rows columns rc cc i sum :
  (4 <= fuel)%nat ->
  tile_shape rows columns img -> char_pixels img ->
  INT_MIN < cc < INT_MAX - 1 -> -1000 <= sum <= 1000 ->
  (if (0 <=? i) && (i <? rows) then
     for_le fuel (int_sub cc 1) (int_add cc 1)
       (fun j sum =>
          if (0 <=? j) && (j <? columns) then
            if negb (i =? rc) || negb (j =? cc) then
              x ← pixel img i j; Some (int_add sum x)
            else Some sum
          else Some sum)
       sum
   else Some sum) = Some (sum + row_part img rows columns rc cc i).
Proof.
  intros Hfuel Hshape Hch Hcc Hsum. unfold row_part.
  pose proof (cell_bound img rows columns rc cc i (cc - 1) Hch).
  pose proof (cell_bound img rows columns rc cc i cc Hch).
  pose proof (cell_bound img rows columns rc cc i (cc + 1) Hch).
  destruct ((0 <=? i) && (i <? rows)) eqn:Hi.
  - rewrite for_le_three by done.
    rewrite (summer_inner_body img rows columns rc cc i (cc - 1)) by (done || lia).
    cbn [mbind option_bind].
    rewrite (summer_inner_body img rows columns rc cc i cc) by (done || lia).
    cbn [mbind option_bind].
    rewrite (summer_inner_body img rows columns rc cc i (cc + 1)) by (done || lia).
    f_equal. lia.
  - unfold cell. rewrite Hi. cbn [andb]. f_equal. lia.
Qed.

Lemma row_part_bound img rows columns rc cc i :
  char_pixels img -> -384 <= row_part img rows columns rc cc i <= 381.
Proof.
  intros Hch. unfold row_part.
  pose proof (cell_bound img rows columns rc cc i (cc - 1) Hch).
  pose proof (cell_bound img rows columns rc cc i cc Hch).
  pose proof (cell_bound img rows columns rc cc i (cc + 1) Hch).
  lia.
Qed.

Lemma summer_rows fuel img rows columns rc cc :
  (4 <= fuel)%nat ->
  tile_shape rows columns img -> char_pixels img ->
  INT_MIN < rc < INT_MAX - 1 -> INT_MIN < cc < INT_MAX - 1 ->
  summer fuel img rows columns rc cc =
  Some (row_part img rows columns rc cc (rc - 1)
        + row_part img rows columns rc cc rc
        + row_part img rows columns rc cc (rc + 1)).
Proof.
  intros Hfuel Hshape Hch Hrc Hcc. unfold summer.
  pose proof (row_part_bound img rows columns rc cc (rc - 1) Hch).
  pose proof (row_part_bound img rows columns rc cc rc Hch).
  pose proof (row_part_bound img rows columns rc cc (rc + 1) Hch).
  rewrite for_le_three by done.
  rewrite (summer_outer_body fuel img rows columns rc cc (rc - 1)) by (done || lia).
  cbn [mbind option_bind].
  rewrite (summer_outer_body fuel img rows columns rc cc rc) by (done || lia).
  cbn [mbind option_bind].
  rewrite (summer_outer_body fuel img rows columns rc cc (rc + 1)) by (done || lia).
  f_equal; lia.
Qed.

Lemma counted_cell img rows columns rc cc (c : Z * Z) (rest : Z) :
  (if decide (0 <= c.1 < rows /\ 0 <= c.2 < columns /\ c <> (rc, cc))
   then px img c.1 c.2 + rest else rest)
  = cell img rows columns rc cc c.1 c.2 + rest.
Proof.
  destruct c as [i j]. unfold cell. cbn [fst snd].
  destruct (decide _) as [(Hi & Hj & Hc)|Hn].
  - replace (0 <=? i) with true by lia. replace (i <? rows) with true by lia.
    replace (0 <=? j) with true by lia. replace (j <? columns) with true by lia.
    cbn [andb].
    destruct (Z.eqb_spec i rc), (Z.eqb_spec j cc); cbn; try done.
    subst. done.
  - destruct (Z.leb_spec 0 i), (Z.ltb_spec i rows), (Z.leb_spec 0 j),
      (Z.ltb_spec j columns); cbn [andb]; try done.
    destruct (Z.eqb_spec i rc), (Z.eqb_spec j cc); cbn; try done;
      exfalso; apply Hn; (repeat split; try lia); congruence.
Qed.

Lemma window_sum_list img rows columns rc cc (l : list (Z * Z)) :
  foldr Z.add 0
    ((fun c => px img c.1 c.2) <$>
     filter (fun c => 0 <= c.1 < rows /\ 0 <= c.2 < columns /\ c <> (rc, cc)) l)
  = foldr Z.add 0 ((fun c => cell img rows columns rc cc c.1 c.2) <$> l).
Proof.
  induction l as [|c l IH]; [done|].
  rewrite filter_cons. cbn [fmap list_fmap foldr].
  rewrite <- IH, <- counted_cell.
  destruct (decide _); done.
Qed.

Lemma window_sum_cells img rows columns rc cc :
  window_sum img rows columns rc cc =
  row_part img rows columns rc cc (rc - 1)
  + row_part img rows columns rc cc rc
  + row_part img rows columns rc cc (rc + 1).
Proof.
  unfold window_sum. rewrite window_sum_list.
  unfold window, row_part.
  cbn [mbind list_bind app fmap list_fmap mret foldr fst snd]. lia.
Qed.

(** [summer] computes the sum the specification describes. *)
Lemma summer_window_sum fuel img rows columns rc cc :
  (4 <= fuel)%nat ->
  tile_shape rows columns img -> char_pixels img ->
  INT_MIN < rc < INT_MAX - 1 -> INT_MIN < cc < INT_MAX - 1 ->
  summer fuel img rows columns rc cc = Some (window_sum img rows columns rc cc).
Proof.
  intros. rewrite window_sum_cells. by apply summer_rows.
Qed.
Lemma load_Some {A} (arr : list A) (i : Z) :
  0 <= i < Z.of_nat (length arr) -> exists x, load arr i = Some x.
Proof.
  intros Hi. unfold load. replace (i <? 0) with false by lia.
  apply lookup_lt_is_Some. lia.
Qed.

Lemma store_Some {A} (arr : list A) (i : Z) (v : A) :
  0 <= i < Z.of_nat (length arr) -> store arr i v = Some (<[Z.to_nat i := v]> arr).
Proof.
  intros Hi. unfold store.
  replace (0 <=? i) with true by lia.
  replace (i <? Z.of_nat (length arr)) with true by lia. done.
Qed.

Lemma load_insert {A} (arr : list A) (i : Z) (v : A) :
  0 <= i < Z.of_nat (length arr) -> load (<[Z.to_nat i := v]> arr) i = Some v.
Proof.
  intros Hi. unfold load. replace (i <? 0) with false by lia.
  apply list_lookup_insert_eq. lia.
Qed.

Lemma load_insert_ne {A} (arr : list A) (i j : Z) (v : A) :
  0 <= i -> 0 <= j -> i <> j -> load (<[Z.to_nat i := v]> arr) j = load arr j.
Proof.
  intros Hi Hj Hne. unfold load. replace (j <? 0) with false by lia.
  apply list_lookup_insert_ne. lia.
Qed.

Lemma centres_in_range t direction p :
  well_formed t -> 0 <= direction < 8 -> INT_MIN < p < INT_MAX - 1 ->
  exists rc cc,
    rowCenter_of direction (rows t) p = Some rc /\
    columnCenter_of direction (columns t) p = Some cc /\
    INT_MIN < rc < INT_MAX - 1 /\ INT_MIN < cc < INT_MAX - 1.
Proof.
  intros Ht Hd Hp. destruct Ht as [_ Hr Hc _ _].
  unfold INT_MIN, INT_MAX in *.
  assert (direction = 0 \/ direction = 1 \/ direction = 2 \/ direction = 3 \/
          direction = 4 \/ direction = 5 \/ direction = 6 \/ direction = 7)
    as Hcases by lia.
  destruct Hcases as [->|[->|[->|[->|[->|[->|[->| ->]]]]]]];
    cbn; eexists _, _; (split; [done|]); (split; [done|]); lia.
Qed.

(** Reduce the projections of a state built by the setters, in stages
    that are each quick to check. *)
Ltac fields :=
  cbn [mbind option_bind];
  cbn [from_option id fst snd];
  cbn [requests set_requests];
  cbn [subImage positions answerRequests answerResponses askRequests
       askResponses askResponseValues askReqResCount finishedRequests
       finishedResponses finishedReqResCount clock trace
       set_subImage set_positions set_answerRequests set_answerResponses
       set_askRequests set_askResponses set_askResponseValues
       set_askReqResCount set_finishedRequests set_finishedResponses
       set_finishedReqResCount emit tick].

Ltac fields_in H :=
  cbn [mbind option_bind] in H;
  cbn [from_option id fst snd] in H;
  cbn [requests set_requests] in H;
  cbn [subImage positions answerRequests answerResponses askRequests
       askResponses askResponseValues askReqResCount finishedRequests
       finishedResponses finishedReqResCount clock trace
       set_subImage set_positions set_answerRequests set_answerResponses
       set_askRequests set_askResponses set_askResponseValues
       set_askReqResCount set_finishedRequests set_finishedResponses
       set_finishedReqResCount emit tick] in H.

(** Two states with the same fields are the same state. *)
Lemma worker_eq (w1 w2 : worker) :
  subImage w1 = subImage w2 -> positions w1 = positions w2 ->
  answerRequests w1 = answerRequests w2 ->
  answerResponses w1 = answerResponses w2 ->
  askRequests w1 = askRequests w2 -> askResponses w1 = askResponses w2 ->
  askResponseValues w1 = askResponseValues w2 ->
  askReqResCount w1 = askReqResCount w2 ->
  finishedRequests w1 = finishedRequests w2 ->
  finishedResponses w1 = finishedResponses w2 ->
  finishedReqResCount w1 = finishedReqResCount w2 ->
  clock w1 = clock w2 -> trace w1 = trace w2 -> w1 = w2.
Proof.
  destruct w1, w2. cbn [subImage positions answerRequests answerResponses
    askRequests askResponses askResponseValues askReqResCount finishedRequests
    finishedResponses finishedReqResCount clock trace].
  intros. subst. reflexivity.
Qed.

Ltac same_worker := apply (f_equal Some), worker_eq; fields; try reflexivity.

Lemma post_Some e a i w :
  0 <= i < Z.of_nat (length (requests a w)) ->
  post e (a, i) w
  = Some (emit e (set_requests a (<[Z.to_nat i := PENDING]> (requests a w)) w)).
Proof. intros Hi. unfold post. cbn [fst snd]. by rewrite store_Some. Qed.

Lemma wait_Some a i w :
  0 <= i < Z.of_nat (length (requests a w)) ->
  wait (a, i) w
  = Some (emit (MPI_Wait (a, i))
            (set_requests a (<[Z.to_nat i := REQUEST_NULL]> (requests a w)) w)).
Proof. intros Hi. unfold wait. cbn [fst snd]. by rewrite store_Some. Qed.

Lemma answerOne_answered fuel o t direction w :
  (4 <= fuel)%nat -> well_formed t -> questions_in_range o -> answering t w ->
  0 <= direction < 8 ->
  answerOne fuel o t direction w = Some (answered o t direction w).
Proof.
  intros Hfuel Ht Ho Hw Hd.
  pose proof (neighbours_eight t Ht) as Hn.
  destruct Hw as [Hp Hq Hr Hstand Hshape Hchars].
  destruct (load_Some (neighbours t) direction) as [nb Hnb]; [lia|].
  unfold answerOne, answered. rewrite Hnb. fields.
  destruct (nb =? -1) eqn:Hnone; [reflexivity|].
  assert (nb <> -1) as Hne by lia.
  specialize (Hstand direction nb Hnb Hne).
  unfold test. fields. rewrite Hstand. fields.
  destruct (completes o (clock w) (AnswerRequests, direction)) as [p|] eqn:Hc;
    [|reflexivity].
  specialize (Ho _ _ _ Hc).
  destruct (centres_in_range t direction p Ht Hd Ho)
    as (rc & cc & Hrc & Hcc & Hrcr & Hccr).
  rewrite store_Some by lia. fields.
  rewrite store_Some by lia. fields.
  rewrite load_insert by lia. fields.
  unfold initializeAnAnswer.
  rewrite post_Some by (fields; rewrite length_insert; lia). fields.
  rewrite list_insert_insert_eq.
  destruct (load_Some (answerResponses w) direction) as [resp Hresp]; [lia|].
  rewrite Hresp. fields.
  unfold answer_value. rewrite Hrc, Hcc. fields.
  destruct resp.
  - fields. rewrite summer_window_sum by done. fields.
    rewrite post_Some by (fields; lia). same_worker.
  - rewrite wait_Some by (fields; lia). fields.
    rewrite store_Some by (rewrite length_insert; lia). fields.
    rewrite summer_window_sum by done. fields.
    rewrite post_Some by (fields; rewrite !length_insert; lia). fields.
    same_worker; by rewrite ?list_insert_insert_eq.
  - rewrite wait_Some by (fields; lia). fields.
    rewrite store_Some by (rewrite length_insert; lia). fields.
    rewrite summer_window_sum by done. fields.
    rewrite post_Some by (fields; rewrite !length_insert; lia). fields.
    same_worker; by rewrite ?list_insert_insert_eq.
Qed.
Lemma directions_list : directions = [0; 1; 2; 3; 4; 5; 6; 7].
Proof. reflexivity. Qed.

Lemma direction_range d : d ∈ directions -> 0 <= d < 8.
Proof.
  rewrite directions_list. rewrite !elem_of_cons, elem_of_nil. lia.
Qed.

(** A loop whose body always succeeds is a fold. *)
Lemma for_each_total {A : Type} (P : A -> Prop) (l : list Z)
    (body : Z -> A -> option A) (f : Z -> A -> A) (acc : A) :
  (forall i a, i ∈ l -> P a -> body i a = Some (f i a) /\ P (f i a)) ->
  P acc ->
  for_each l body acc = Some (foldl (fun a i => f i a) acc l)
  /\ P (foldl (fun a i => f i a) acc l).
Proof.
  revert acc. induction l as [|i l IH]; intros acc Hbody Hacc; [done|].
  cbn [for_each foldl].
  destruct (Hbody i acc) as [-> Hnext]; [left|done|].
  cbn [mbind option_bind]. apply IH; [|done].
  intros j a Hj. apply Hbody. by right.
Qed.

(** What [answered] leaves alone. *)
Lemma answered_frame o t d w :
  subImage (answered o t d w) = subImage w /\
  askRequests (answered o t d w) = askRequests w /\
  askResponses (answered o t d w) = askResponses w /\
  askResponseValues (answered o t d w) = askResponseValues w /\
  askReqResCount (answered o t d w) = askReqResCount w /\
  finishedRequests (answered o t d w) = finishedRequests w /\
  finishedResponses (answered o t d w) = finishedResponses w /\
  finishedReqResCount (answered o t d w) = finishedReqResCount w.
Proof.
  unfold answered.
  destruct (_ =? -1); [done|].
  destruct (completes _ _ _); [|done].
  fields. destruct (load (answerResponses w) d) as [[]|]; fields; done.
Qed.

Lemma answered_answering o t d w :
  0 <= d < 8 -> answering t w -> answering t (answered o t d w).
Proof.
  intros Hd [Hp Hq Hr Hstand Hshape Hchars].
  unfold answered.
  destruct (_ =? -1); [done|].
  destruct (completes _ _ _); [|done].
  fields.
  assert (forall d' nb, load (neighbours t) d' = Some nb -> nb <> -1 ->
            load (<[Z.to_nat d:=PENDING]> (answerRequests w)) d' = Some PENDING)
    as Hgoal.
  { intros d' nb Hnb Hne. destruct (decide (d = d')) as [<-|Hdd].
    - apply load_insert. lia.
    - assert (0 <= d').
      { unfold load in Hnb. destruct (Z.ltb_spec d' 0); [done|lia]. }
      rewrite load_insert_ne by lia. by eapply Hstand. }
  destruct (load (answerResponses w) d) as [[]|]; fields;
    (split; fields; rewrite ?length_insert; done).
Qed.

Lemma answerAll_answeredAll fuel o t w :
  (4 <= fuel)%nat -> well_formed t -> questions_in_range o -> answering t w ->
  answerAll fuel o t w = Some (answeredAll o t w)
  /\ answering t (answeredAll o t w).
Proof.
  intros Hfuel Ht Ho Hw. unfold answerAll, answeredAll.
  apply (for_each_total (answering t)); [|done].
  intros d a Hd Ha. apply direction_range in Hd. split.
  - by apply answerOne_answered.
  - by apply answered_answering.
Qed.
Lemma answered_trace o t d w :
  trace (answered o t d w) = trace w ++ answer_events o t d w.
Proof.
  unfold answered, answer_events.
  destruct (_ =? -1); [by rewrite app_nil_r|].
  destruct (completes _ _ _); [|done].
  fields. destruct (load (answerResponses w) d) as [[]|]; fields;
    by rewrite <- ?app_assoc.
Qed.

Lemma tag_of_cases d :
  0 <= d < 8 -> exists D, d = tag_of D.
Proof.
  intros Hd.
  assert (d = 0 \/ d = 1 \/ d = 2 \/ d = 3 \/ d = 4 \/ d = 5 \/ d = 6 \/ d = 7)
    as Hcases by lia.
  destruct Hcases as [->|[->|[->|[->|[->|[->|[->| ->]]]]]]].
  - by exists Top.
  - by exists Right.
  - by exists Bottom.
  - by exists Left.
  - by exists TopRight.
  - by exists BottomRight.
  - by exists BottomLeft.
  - by exists TopLeft.
Qed.

Lemma tag_of_inj D1 D2 : tag_of D1 = tag_of D2 -> D1 = D2.
Proof.
  destruct D1, D2; intros H; try reflexivity; vm_compute in H; discriminate.
Qed.

Lemma tag_of_range D : 0 <= tag_of D < 8.
Proof. destruct D; split; by vm_compute. Qed.

(** The code's two switches compute the table of the specification. *)
Lemma answer_value_reply t img D p :
  answer_value t img (tag_of D) p = reply t img D p.
Proof. by destruct D. Qed.

Lemma answers_questions_nil t img : answers_questions t img [].
Proof.
  split.
  - intros D p H. by apply elem_of_nil in H.
  - intros v dest h H. by apply elem_of_nil in H.
Qed.

Lemma answers_questions_app t img evs1 evs2 :
  answers_questions t img evs1 -> answers_questions t img evs2 ->
  answers_questions t img (evs1 ++ evs2).
Proof.
  intros [Ha1 Hb1] [Ha2 Hb2]. split.
  - intros D p [H|H]%elem_of_app.
    + destruct (Ha1 D p H) as (nb & Hnb & Hin). exists nb. split; [done|].
      apply elem_of_app. by left.
    + destruct (Ha2 D p H) as (nb & Hnb & Hin). exists nb. split; [done|].
      apply elem_of_app. by right.
  - intros v dest h [H|H]%elem_of_app.
    + destruct (Hb1 v dest h H) as (D & p & Hh & Hin & Hv).
      exists D, p. split; [done|]. split; [|done]. apply elem_of_app. by left.
    + destruct (Hb2 v dest h H) as (D & p & Hh & Hin & Hv).
      exists D, p. split; [done|]. split; [|done]. apply elem_of_app. by right.
Qed.

Lemma answer_events_answers o t d w :
  length (neighbours t) = 8%nat -> 0 <= d < 8 ->
  answers_questions t (subImage w) (answer_events o t d w).
Proof.
  intros Hn Hd. unfold answer_events.
  destruct (load_Some (neighbours t) d) as [nb Hnb]; [lia|].
  rewrite Hnb. cbn [from_option id].
  destruct (nb =? -1); [apply answers_questions_nil|].
  destruct (tag_of_cases d Hd) as [D ->].
  destruct (completes _ _ _) as [p|].
  - rewrite answer_value_reply.
    destruct (load (answerResponses w) (tag_of D)) as [[]|]; cbn [app];
      (split;
       [ intros D' p' Hin; rewrite !elem_of_cons, elem_of_nil in Hin;
         assert (D' = D /\ p' = p) as [-> ->]
           by (destruct_or!; try done;
               match goal with H : MPI_Test _ _ _ = _ |- _ =>
                 injection H as H ->; by apply tag_of_inj in H end);
         exists nb; split; [done|];
         rewrite !elem_of_cons; tauto
       | intros v dest h Hin; rewrite !elem_of_cons, elem_of_nil in Hin;
         exists D, p; destruct_or!; try done;
         match goal with H : MPI_Isend _ _ _ _ = _ |- _ =>
           injection H as -> -> -> end;
         split; [done|]; split; [|done];
         rewrite !elem_of_cons; tauto ]).
  - split.
    + intros D' p' Hin. rewrite elem_of_cons, elem_of_nil in Hin.
      by destruct_or!.
    + intros v dest h Hin. rewrite elem_of_cons, elem_of_nil in Hin.
      by destruct_or!.
Qed.

Lemma answered_fold_answers o t (l : list Z) w :
  length (neighbours t) = 8%nat -> (forall d, d ∈ l -> 0 <= d < 8) ->
  let w' := foldl (fun w d => answered o t d w) w l in
  subImage w' = subImage w /\
  exists evs, trace w' = trace w ++ evs
              /\ answers_questions t (subImage w) evs.
Proof.
  intros Hn. revert w. induction l as [|d l IH]; intros w Hl; cbn [foldl].
  - split; [done|]. exists []. split; [by rewrite app_nil_r|].
    apply answers_questions_nil.
  - destruct (IH (answered o t d w)) as (Himg & evs & Htr & Hok).
    { intros d' Hd'. apply Hl. by right. }
    destruct (answered_frame o t d w) as (Hsame & _).
    rewrite Hsame in Himg, Hok. split; [done|].
    exists (answer_events o t d w ++ evs). split.
    + by rewrite Htr, answered_trace, app_assoc.
    + apply answers_questions_app; [|done].
      apply answer_events_answers; [done|]. apply Hl. by left.
Qed.


Lemma tested_at_next t time d :
  0 <= d < Z.of_nat (length (neighbours t)) ->
  tested_at t time (d + 1)
  = (tested_at t time d
     + (if (default 0 (load (neighbours t) d) =? -1)%Z then 0 else 1))%nat.
Proof.
  intros Hd. unfold tested_at, load. replace (d <? 0) with false by lia.
  replace (Z.to_nat (d + 1)) with (S (Z.to_nat d)) by lia.
  destruct (lookup_lt_is_Some_2 (neighbours t) (Z.to_nat d)) as [nb Hnb]; [lia|].
  rewrite Hnb. cbn [from_option id].
  erewrite take_S_r by exact Hnb. rewrite filter_app, length_app.
  rewrite filter_cons, filter_nil.
  destruct (Z.eqb_spec nb (-1)) as [->|Hne].
  - rewrite decide_False by (intros H; by apply H). cbn [length]. lia.
  - rewrite decide_True by done. cbn [length]. lia.
Qed.

Lemma answered_clock_next o t d w :
  clock (answered o t d w)
  = (clock w
     + (if (default 0 (load (neighbours t) d) =? -1)%Z then 0 else 1))%nat.
Proof.
  unfold answered. destruct (_ =? -1); [lia|].
  destruct (completes _ _ _); fields; [|lia].
  destruct (load (answerResponses w) d) as [[]|]; fields; lia.
Qed.

(** The tests that report a question in one round of the loop. *)
Lemma answer_events_test o t d w d' p :
  MPI_Test (AnswerRequests, d') true (Some p) ∈ answer_events o t d w
  <-> d' = d /\ default 0 (load (neighbours t) d) <> -1
      /\ completes o (clock w) (AnswerRequests, d) = Some p.
Proof.
  unfold answer_events.
  destruct (Z.eqb_spec (default 0 (load (neighbours t) d)) (-1)) as [Hnb|Hnb].
  { rewrite elem_of_nil. tauto. }
  destruct (completes o (clock w) (AnswerRequests, d)) as [q|].
  - destruct (load (answerResponses w) d) as [[]|]; cbn [app];
      rewrite !elem_of_cons, elem_of_nil; split;
      try (intros (-> & _ & [= ->]); by left);
      intros H; destruct_or!; try done; injection H as -> ->; done.
  - rewrite elem_of_cons, elem_of_nil. split; [|by intros (_ & _ & ?)].
    intros H. by destruct_or!.
Qed.

(** The tests of a call: the receive of each direction is tested at its
    time, and reports the question the library has for it then. *)
Lemma answered_fold_tests o t time n k w :
  0 <= k -> k + Z.of_nat n <= Z.of_nat (length (neighbours t)) ->
  clock w = tested_at t time k ->
  exists evs,
    trace (foldl (fun w d => answered o t d w) w (seqZ k (Z.of_nat n)))
    = trace w ++ evs /\
    forall d p,
      MPI_Test (AnswerRequests, d) true (Some p) ∈ evs
      <-> k <= d < k + Z.of_nat n
          /\ default 0 (load (neighbours t) d) <> -1
          /\ completes o (tested_at t time d) (AnswerRequests, d) = Some p.
Proof.
  revert k w. induction n as [|n IH]; intros k w Hk Hn Hclock.
  - rewrite seqZ_nil by lia. exists []. split; [by rewrite app_nil_r|].
    intros d p. rewrite elem_of_nil. split; [done|lia].
  - rewrite seqZ_cons by lia. cbn [foldl].
    replace (Z.pred (Z.of_nat (S n))) with (Z.of_nat n) by lia.
    destruct (IH (Z.succ k) (answered o t k w)) as (evs & Htr & Hevs);
      [lia|lia| |].
    { rewrite answered_clock_next, Hclock.
      replace (Z.succ k) with (k + 1) by lia. by rewrite tested_at_next by lia. }
    exists (answer_events o t k w ++ evs). split.
    { by rewrite Htr, answered_trace, app_assoc. }
    intros d p. rewrite elem_of_app, Hevs, answer_events_test, Hclock.
    split.
    + intros [(-> & Hnb & Hc)|(Hd & Hnb & Hc)]; (split; [lia|done]).
    + intros (Hd & Hnb & Hc).
      destruct (decide (d = k)) as [->|Hne]; [left; done|].
      right. split; [lia|done].
Qed.

Lemma neighbour_at_default t D :
  length (neighbours t) = 8%nat ->
  default 0 (load (neighbours t) (tag_of D)) = neighbour_at t D.
Proof.
  intros Hn. unfold neighbour_at.
  destruct (load_Some (neighbours t) (tag_of D)) as [nb ->]; [|done].
  pose proof (tag_of_range D). lia.
Qed.

(** C1. Whenever a worker serves its neighbours, the call returns and
    leaves the tile as it was; the receive of each neighbour is tested in
    turn, and a question that has arrived (direction [D], position [p]) is
    reported by its test and answered, in the same call, with the sum of the
    current pixels over the 3x3 window centred at the virtual off-edge
    coordinates of [D] and [p], without the centre and without the cells
    outside the tile; no other question is reported and no other value is
    sent as an answer. *)
Theorem answerAll_replies_with_window_sum fuel o t w :
  (4 <= fuel)%nat -> well_formed t -> questions_in_range o -> answering t w ->
  exists w' evs,
    answerAll fuel o t w = Some w' /\
    subImage w' = subImage w /\
    trace w' = trace w ++ evs /\
    (forall D p,
       question_arrived o t (clock w) D p
       <-> MPI_Test (AnswerRequests, tag_of D) true (Some p) ∈ evs) /\
    (forall D p,
       question_arrived o t (clock w) D p ->
       MPI_Isend (Some (reply t (subImage w) D p)) (neighbour_at t D) ANSWER
         (AnswerResponses, tag_of D) ∈ evs) /\
    answers_questions t (subImage w) evs.
Proof.
  intros Hfuel Ht Ho Hw.
  pose proof (neighbours_eight t Ht) as Hn.
  destruct (answerAll_answeredAll fuel o t w Hfuel Ht Ho Hw) as [Heq _].
  destruct (answered_fold_answers o t directions w Hn)
    as (Himg & evs & Htr & Hok).
  { intros d. apply direction_range. }
  destruct (answered_fold_tests o t (clock w) 8 0 w) as (evs' & Htr' & Htests);
    [lia|rewrite Hn; lia| |].
  { unfold tested_at. change (Z.to_nat 0) with 0%nat.
    rewrite take_0, filter_nil. cbn [length]. lia. }
  change (seqZ 0 (Z.of_nat 8)) with directions in Htr'.
  fold (answeredAll o t w) in Htr'. unfold answeredAll in Htr.
  fold (answeredAll o t w) in Htr.
  assert (evs' = evs) as -> by (eapply app_inv_head; by rewrite <- Htr, <- Htr').
  assert (forall D p,
            question_arrived o t (clock w) D p
            <-> MPI_Test (AnswerRequests, tag_of D) true (Some p) ∈ evs)
    as Harrived.
  { intros D p. rewrite Htests, neighbour_at_default by done.
    unfold question_arrived. pose proof (tag_of_range D).
    split; [intros [? ?]; split; [lia|done]|intros (_ & ? & ?); done]. }
  exists (answeredAll o t w), evs.
  split; [done|]. split; [done|]. split; [done|]. split; [done|].
  split; [|done].
  intros D p HD. pose proof HD as [Hnb _].
  apply Harrived in HD. destruct Hok as [Hok _].
  destruct (Hok D p HD) as (nb & Hload & Hin).
  unfold neighbour_at. by rewrite Hload.
Qed.
(** ** Footprints of the calls *)

(** The kind of an event is among those listed. *)
Ltac kind_in :=
  cbn [kind_of array_kind fst snd]; rewrite ?elem_of_cons; auto 10.

(** A state written out comes after [w] by the events it has added. *)
Ltac extends_by :=
  first
    [ exists []; split; [fields; by rewrite app_nil_r | constructor]
    | eexists; split;
      [ fields; rewrite <- ?app_assoc; cbn [app]; reflexivity
      | repeat constructor; first [kind_in | reflexivity | exact I] ] ].

(** The footprint of a state written out. *)
Ltac footprint_by :=
  split; [extends_by|];
  (split; [|split]); intros Hnot;
  first [ solve [exfalso; apply Hnot; kind_in]
        | unfold same_answers, same_asks, same_finished;
          repeat split; fields; reflexivity ].

Ltac quiet_by := split; [footprint_by | unfold same_tile; fields; reflexivity].

Lemma extends_refl ks w : extends ks w w.
Proof. exists []. by rewrite app_nil_r. Qed.

Lemma extends_trans ks w1 w2 w3 :
  extends ks w1 w2 -> extends ks w2 w3 -> extends ks w1 w3.
Proof.
  intros (e1 & H1 & F1) (e2 & H2 & F2). exists (e1 ++ e2). split.
  - by rewrite H2, H1, app_assoc.
  - by apply Forall_app.
Qed.

Lemma extends_weaken ks ks' w w' :
  ks ⊆ ks' -> extends ks w w' -> extends ks' w w'.
Proof.
  intros Hsub (evs & Htr & Hall). exists evs. split; [done|].
  eapply Forall_impl; [done|]. intros e [He Ht]. split; [by apply Hsub|done].
Qed.

Lemma footprint_refl ks w : footprint ks w w.
Proof. repeat split; apply extends_refl. Qed.

Lemma footprint_trans ks w1 w2 w3 :
  footprint ks w1 w2 -> footprint ks w2 w3 -> footprint ks w1 w3.
Proof.
  unfold footprint, same_answers, same_asks, same_finished.
  intros (E1 & A1 & B1 & C1) (E2 & A2 & B2 & C2).
  split; [by eapply extends_trans|].
  split; [|split].
  - intros Hn. specialize (A1 Hn). specialize (A2 Hn).
    destruct A1 as (? & ? & ? & ?), A2 as (? & ? & ? & ?).
    repeat split; congruence.
  - intros Hn. specialize (B1 Hn). specialize (B2 Hn).
    destruct B1 as (? & ? & ?), B2 as (? & ? & ?).
    repeat split; congruence.
  - intros Hn. specialize (C1 Hn). specialize (C2 Hn).
    destruct C1 as (? & ? & ?), C2 as (? & ? & ?).
    repeat split; congruence.
Qed.

Lemma footprint_weaken ks ks' w w' :
  ks ⊆ ks' -> footprint ks w w' -> footprint ks' w w'.
Proof.
  intros Hsub (E & A & B & C).
  split; [by eapply extends_weaken|].
  split; [|split]; intros Hn; [apply A|apply B|apply C];
    intros Hin; apply Hn, Hsub, Hin.
Qed.

Lemma same_tile_trans w1 w2 w3 :
  same_tile w1 w2 -> same_tile w2 w3 -> same_tile w1 w3.
Proof. unfold same_tile. congruence. Qed.

Lemma quiet_refl ks w : quiet ks w w.
Proof. split; [apply footprint_refl|done]. Qed.

Lemma quiet_trans ks w1 w2 w3 :
  quiet ks w1 w2 -> quiet ks w2 w3 -> quiet ks w1 w3.
Proof.
  intros [F1 T1] [F2 T2].
  split; [by eapply footprint_trans|by eapply same_tile_trans].
Qed.

Lemma quiet_weaken ks ks' w w' : ks ⊆ ks' -> quiet ks w w' -> quiet ks' w w'.
Proof. intros Hsub [F T]. split; [by eapply footprint_weaken|done]. Qed.

(** Inversion of the library calls. *)
Lemma post_inv e h w w' :
  post e h w = Some w' ->
  exists reqs, w' = emit e (set_requests h.1 reqs w).
Proof.
  unfold post. intros (reqs & _ & [= <-])%bind_Some. by exists reqs.
Qed.

Lemma wait_inv h w w' :
  wait h w = Some w' ->
  exists reqs, w' = emit (MPI_Wait h) (set_requests h.1 reqs w).
Proof.
  unfold wait. intros (reqs & _ & [= <-])%bind_Some. by exists reqs.
Qed.

Lemma test_inv o h buffer w flag w' :
  test o h buffer w = Some (flag, w') ->
  (exists v w1 reqs,
     completes o (clock w) h = Some v /\ buffer v w = Some w1 /\ flag = true /\
     w' = tick (emit (MPI_Test h true (Some v)) (set_requests h.1 reqs w1)))
  \/ (exists received, w' = tick (emit (MPI_Test h flag received) w)).
Proof.
  unfold test. intros (r & _ & H)%bind_Some. destruct r; [done| |].
  - injection H as <- <-. right. by eexists.
  - destruct (completes o (clock w) h) as [v|] eqn:Hc.
    + apply bind_Some in H as (w1 & Hb & H).
      apply bind_Some in H as (reqs & _ & [= <- <-]).
      left. by exists v, w1, reqs.
    + injection H as <- <-. right. by eexists.
Qed.

Lemma answerOne_quiet fuel o t d w w' :
  answerOne fuel o t d w = Some w' -> quiet [Answering] w w'.
Proof.
  unfold answerOne. intros (nb & _ & H)%bind_Some.
  destruct (nb =? -1); [injection H as <-; apply quiet_refl|].
  apply bind_Some in H as ([flag w1] & Htest & H).
  assert (quiet [Answering] w w1) as Hs1.
  { apply test_inv in Htest as [(v & w0 & reqs & _ & Hb & _ & ->)|[r ->]].
    - apply bind_Some in Hb as (ps & _ & [= <-]). quiet_by.
    - quiet_by. }
  destruct flag; [|injection H as <-; done].
  apply bind_Some in H as (position & _ & H).
  apply bind_Some in H as (w2 & Hpost & H).
  unfold initializeAnAnswer in Hpost. apply post_inv in Hpost as [reqs ->].
  apply bind_Some in H as (response & _ & H).
  apply bind_Some in H as (w3 & Hw3 & H).
  apply bind_Some in H as (rc & _ & H).
  apply bind_Some in H as (cc & _ & H).
  apply bind_Some in H as (sum & _ & H).
  apply post_inv in H as [reqs' ->].
  eapply quiet_trans; [exact Hs1|].
  eapply (quiet_trans _ _ w3); [|quiet_by].
  destruct response.
  - injection Hw3 as <-. quiet_by.
  - apply bind_Some in Hw3 as (w4 & Hwait & Hw3).
    apply wait_inv in Hwait as [reqs'' ->].
    apply bind_Some in Hw3 as (resps & _ & [= <-]). quiet_by.
  - apply bind_Some in Hw3 as (w4 & Hwait & Hw3).
    apply wait_inv in Hwait as [reqs'' ->].
    apply bind_Some in Hw3 as (resps & _ & [= <-]). quiet_by.
Qed.

(** A loop whose body keeps a relation that composes keeps it. *)
Lemma for_each_step (R : worker -> worker -> Prop) (l : list Z)
    (body : Z -> worker -> option worker) (w w' : worker) :
  (forall w, R w w) -> (forall w1 w2 w3, R w1 w2 -> R w2 w3 -> R w1 w3) ->
  (forall i w w', body i w = Some w' -> R w w') ->
  for_each l body w = Some w' -> R w w'.
Proof.
  intros Hrefl Htrans Hbody. revert w.
  induction l as [|i l IH]; intros w H; cbn [for_each] in H.
  - injection H as <-. apply Hrefl.
  - apply bind_Some in H as (w1 & H1 & H). eauto.
Qed.

Lemma answerAll_quiet fuel o t w w' :
  answerAll fuel o t w = Some w' -> quiet [Answering] w w'.
Proof.
  apply for_each_step.
  - apply quiet_refl.
  - apply quiet_trans.
  - intros i w1 w2. apply answerOne_quiet.
Qed.
Lemma askAsync_quiet neighbour position w w' :
  askAsync neighbour position w = Some w' -> quiet [Asking] w w'.
Proof.
  unfold askAsync. destruct (neighbour =? -1).
  { intros [= <-]. apply quiet_refl. }
  intros (w1 & H1 & H)%bind_Some. apply post_inv in H1 as [reqs ->].
  apply bind_Some in H as (w2 & H2 & [= <-]).
  apply post_inv in H2 as [reqs' ->]. quiet_by.
Qed.

Lemma askNeighbours_quiet t r c w w' :
  askNeighbours t r c w = Some w' -> quiet [Asking] w w'.
Proof.
  assert (forall d p w w',
            (load (neighbours t) d ≫= fun nb => askAsync nb p w) = Some w' ->
            quiet [Asking] w w') as Hask.
  { intros d p w1 w2 (nb & _ & H)%bind_Some. by eapply askAsync_quiet. }
  assert (forall (b : bool) d p w w',
            (if b then load (neighbours t) d ≫= fun nb => askAsync nb p w
             else Some w) = Some w' -> quiet [Asking] w w') as Hif.
  { intros [] d p w1 w2 H; [by eapply Hask|].
    injection H as <-. apply quiet_refl. }
  unfold askNeighbours. intros (w1 & H1 & H)%bind_Some.
  apply bind_Some in H as (w2 & H2 & H).
  apply bind_Some in H as (w3 & H3 & H).
  eapply (quiet_trans _ _ w1).
  { destruct (r =? 0); [|injection H1 as <-; apply quiet_refl].
    apply bind_Some in H1 as (wa & Ha & H1).
    apply bind_Some in H1 as (wb & Hb & H1).
    eapply quiet_trans; [by eapply Hask|].
    eapply quiet_trans; by eapply Hif. }
  eapply (quiet_trans _ _ w2).
  { destruct (r =? int_sub (rows t) 1); [|injection H2 as <-; apply quiet_refl].
    apply bind_Some in H2 as (wa & Ha & H2).
    apply bind_Some in H2 as (wb & Hb & H2).
    eapply quiet_trans; [by eapply Hask|].
    eapply quiet_trans; by eapply Hif. }
  eapply quiet_trans; by eapply Hif.
Qed.

Lemma testall_quiet o a count w flag w' :
  testall o a count w = (flag, w') -> quiet [array_kind a] w w'.
Proof.
  unfold testall. destruct (all_complete o a count w); intros [= <- <-].
  - destruct a; quiet_by.
  - destruct a; quiet_by.
Qed.

Lemma testAskAll_quiet o w flag w' :
  testAskAll o w = (flag, w') -> quiet [Asking] w w'.
Proof.
  unfold testAskAll. destruct (askReqResCount w >? 0).
  2: { intros [= <- <-]. apply quiet_refl. }
  destruct (testall o AskRequests (askReqResCount w) w) as [f1 w1] eqn:H1.
  destruct (testall o AskResponses (askReqResCount w1) w1) as [f2 w2] eqn:H2.
  intros [= <- <-].
  apply testall_quiet in H1, H2. cbn [array_kind] in H1, H2.
  eapply quiet_trans; [exact H1|]. eapply quiet_trans; [exact H2|].
  destruct f2; [quiet_by|apply quiet_refl].
Qed.
(** A list of kinds is part of another. *)
Ltac sub_kinds := intros ?; rewrite !elem_of_cons, !elem_of_nil; tauto.

Lemma askResult_loop_quiet fuel result w v w' :
  askResult_loop fuel result w = Some (v, w') -> quiet [Asking] w w'.
Proof.
  revert result w. induction fuel as [|fuel IH]; intros result w H; [done|].
  cbn [askResult_loop] in H.
  destruct (negb (askReqResCount w =? 0)).
  - apply bind_Some in H as (x & _ & H). apply IH in H.
    eapply quiet_trans; [|exact H]. quiet_by.
  - injection H as _ <-. apply quiet_refl.
Qed.

Lemma askResult_quiet fuel w v w' :
  askResult fuel w = Some (v, w') -> quiet [Asking] w w'.
Proof.
  unfold askResult. destruct (askReqResCount w >? 0).
  - apply askResult_loop_quiet.
  - intros [= _ <-]. apply quiet_refl.
Qed.

Lemma awaitAnswers_quiet n fuel o t w w' :
  awaitAnswers n fuel o t w = Some w' -> quiet [Asking; Answering] w w'.
Proof.
  revert w. induction n as [|n IH]; intros w H; [done|].
  cbn [awaitAnswers] in H.
  destruct (testAskAll o w) as [done w1] eqn:Htest.
  apply testAskAll_quiet in Htest.
  eapply quiet_trans.
  { eapply quiet_weaken; [|exact Htest]. sub_kinds. }
  destruct done; [injection H as <-; apply quiet_refl|].
  apply bind_Some in H as (w2 & Hans & H).
  apply answerAll_quiet in Hans.
  eapply quiet_trans; [|by apply IH].
  eapply quiet_weaken; [|exact Hans]. sub_kinds.
Qed.

Lemma call_rand_quiet o w r w' :
  call_rand o w = (r, w') -> quiet [Random] w w'.
Proof. unfold call_rand. intros [= _ <-]. quiet_by. Qed.

Lemma randomProbability_quiet o w u w' :
  randomProbability o w = (u, w') -> quiet [Random] w w'.
Proof.
  unfold randomProbability. destruct (call_rand o w) as [r w1] eqn:Hr.
  intros [= _ <-]. by eapply call_rand_quiet.
Qed.

Lemma flip_footprint ks r c w w' :
  flip r c w = Some w' -> footprint ks w w'.
Proof.
  unfold flip. intros (current & _ & [= <-])%bind_Some.
  split; [extends_by|].
  unfold same_answers, same_asks, same_finished.
  repeat split; fields; reflexivity.
Qed.

Lemma iteration_footprint fuel o beta gammaValue t w w' :
  iteration fuel o beta gammaValue t w = Some w' ->
  footprint [Asking; Answering; Random] w w'.
Proof.
  unfold iteration.
  destruct (call_rand o w) as [r1 w1] eqn:Hr1.
  intros (rowPosition & _ & H)%bind_Some.
  destruct (call_rand o w1) as [r2 w2] eqn:Hr2.
  apply bind_Some in H as (columnPosition & _ & H).
  apply bind_Some in H as (sum & _ & H).
  apply bind_Some in H as (w3 & Hask & H).
  apply bind_Some in H as (w4 & Hwait & H).
  apply bind_Some in H as ([answers w5] & Hres & H).
  apply bind_Some in H as (initial & _ & H).
  apply bind_Some in H as (current & _ & H).
  destruct (randomProbability o w5) as [u w6] eqn:Hu.
  apply call_rand_quiet in Hr1 as [Hr1 _], Hr2 as [Hr2 _].
  apply askNeighbours_quiet in Hask as [Hask _].
  apply awaitAnswers_quiet in Hwait as [Hwait _].
  apply askResult_quiet in Hres as [Hres _].
  apply randomProbability_quiet in Hu as [Hu _].
  eapply footprint_trans.
  { eapply footprint_weaken; [|exact Hr1]. sub_kinds. }
  eapply footprint_trans.
  { eapply footprint_weaken; [|exact Hr2]. sub_kinds. }
  eapply footprint_trans.
  { eapply footprint_weaken; [|exact Hask]. sub_kinds. }
  eapply footprint_trans.
  { eapply footprint_weaken; [|exact Hwait]. sub_kinds. }
  eapply footprint_trans.
  { eapply footprint_weaken; [|exact Hres]. sub_kinds. }
  eapply footprint_trans.
  { eapply footprint_weaken; [|exact Hu]. sub_kinds. }
  destruct (PrimFloat.leb _ _).
  - by eapply flip_footprint.
  - injection H as <-. apply footprint_refl.
Qed.

Lemma sampler_footprint n fuel o beta gammaValue t iterations w w' :
  sampler n fuel o beta gammaValue t iterations w = Some w' ->
  footprint [Asking; Answering; Random] w w'.
Proof.
  revert iterations w. induction n as [|n IH]; intros iterations w H; [done|].
  cbn [sampler] in H. destruct (negb (iterations =? 0)).
  - apply bind_Some in H as (w1 & Hit & H).
    eapply footprint_trans; [by eapply iteration_footprint|by eapply IH].
  - injection H as <-. apply footprint_refl.
Qed.

Lemma initializeAnswers_quiet t w w' :
  initializeAnswers t w = Some w' -> quiet [Answering] w w'.
Proof.
  apply for_each_step.
  - apply quiet_refl.
  - apply quiet_trans.
  - intros d w1 w2 (nb & _ & H)%bind_Some.
    destruct (nb =? -1); [injection H as <-; apply quiet_refl|].
    apply bind_Some in H as (w3 & Hpost & H).
    apply post_inv in Hpost as [reqs ->].
    apply bind_Some in H as (resps & _ & [= <-]). quiet_by.
Qed.

Lemma sendFinishedAll_quiet t w w' :
  sendFinishedAll t w = Some w' -> quiet [Finishing] w w'.
Proof.
  apply for_each_step.
  - apply quiet_refl.
  - apply quiet_trans.
  - intros d w1 w2 (nb & _ & H)%bind_Some.
    destruct (negb (nb =? -1)); [|injection H as <-; apply quiet_refl].
    apply bind_Some in H as (w3 & Hpost & H).
    apply post_inv in Hpost as [reqs ->].
    apply bind_Some in H as (w4 & Hpost & [= <-]).
    apply post_inv in Hpost as [reqs' ->]. quiet_by.
Qed.

Lemma testFinishedAll_quiet o w flag w' :
  testFinishedAll o w = (flag, w') -> quiet [Finishing] w w'.
Proof.
  unfold testFinishedAll. destruct (finishedReqResCount w >? 0).
  2: { intros [= <- <-]. apply quiet_refl. }
  destruct (testall o FinishedRequests (finishedReqResCount w) w)
    as [f1 w1] eqn:H1.
  destruct (testall o FinishedResponses (finishedReqResCount w1) w1)
    as [f2 w2] eqn:H2.
  intros [= <- <-].
  apply testall_quiet in H1, H2. cbn [array_kind] in H1, H2.
  by eapply quiet_trans.
Qed.

Lemma awaitFinished_quiet n fuel o t w w' :
  awaitFinished n fuel o t w = Some w' -> quiet [Finishing; Answering] w w'.
Proof.
  revert w. induction n as [|n IH]; intros w H; [done|].
  cbn [awaitFinished] in H.
  destruct (testFinishedAll o w) as [done w1] eqn:Htest.
  apply testFinishedAll_quiet in Htest.
  eapply quiet_trans.
  { eapply quiet_weaken; [|exact Htest]. sub_kinds. }
  destruct done; [injection H as <-; apply quiet_refl|].
  apply bind_Some in H as (w2 & Hans & H).
  apply answerAll_quiet in Hans.
  eapply quiet_trans; [|by apply IH].
  eapply quiet_weaken; [|exact Hans]. sub_kinds.
Qed.

Lemma for_lt_step {A : Type} (R : A -> A -> Prop) (fuel : nat) (i hi : Z)
    (body : Z -> A -> option A) (a a' : A) :
  (forall a, R a a) -> (forall a1 a2 a3, R a1 a2 -> R a2 a3 -> R a1 a3) ->
  (forall i a a', body i a = Some a' -> R a a') ->
  for_lt fuel i hi body a = Some a' -> R a a'.
Proof.
  intros Hrefl Htrans Hbody. revert i a.
  induction fuel as [|fuel IH]; intros i a H; [done|].
  cbn [for_lt] in H. destruct (i <? hi).
  - apply bind_Some in H as (a1 & H1 & H). eauto.
  - injection H as <-. apply Hrefl.
Qed.

Lemma sendTile_quiet fuel t w w' :
  sendTile fuel t w = Some w' -> quiet [Returning] w w'.
Proof.
  apply for_lt_step.
  - apply quiet_refl.
  - apply quiet_trans.
  - intros i w1 w2 (row & _ & [= <-])%bind_Some. quiet_by.
Qed.
(** ** The tile under the sampler *)

(** The only thing an iteration does to the tile is to negate the pixel it
    has picked. *)
Lemma iteration_tile fuel o beta gammaValue t w w' :
  iteration fuel o beta gammaValue t w = Some w' ->
  subImage w' = subImage w
  \/ exists r c current,
       pixel (subImage w) r c = Some current /\
       subImage w' = set_pixel (subImage w) r c (char_wrap (- current)).
Proof.
  unfold iteration.
  destruct (call_rand o w) as [r1 w1] eqn:Hr1.
  intros (rowPosition & _ & H)%bind_Some.
  destruct (call_rand o w1) as [r2 w2] eqn:Hr2.
  apply bind_Some in H as (columnPosition & _ & H).
  apply bind_Some in H as (sum & _ & H).
  apply bind_Some in H as (w3 & Hask & H).
  apply bind_Some in H as (w4 & Hwait & H).
  apply bind_Some in H as ([answers w5] & Hres & H).
  apply bind_Some in H as (initial & _ & H).
  apply bind_Some in H as (current & Hcur & H).
  destruct (randomProbability o w5) as [u w6] eqn:Hu.
  apply call_rand_quiet in Hr1 as [_ Hr1], Hr2 as [_ Hr2].
  apply askNeighbours_quiet in Hask as [_ Hask].
  apply awaitAnswers_quiet in Hwait as [_ Hwait].
  apply askResult_quiet in Hres as [_ Hres].
  apply randomProbability_quiet in Hu as [_ Hu].
  unfold same_tile in *.
  assert (subImage w5 = subImage w) as H5 by congruence.
  assert (subImage w6 = subImage w) as H6 by congruence.
  destruct (PrimFloat.leb _ _).
  - right. unfold flip in H.
    apply bind_Some in H as (current' & Hcur' & [= <-]).
    rewrite H6 in Hcur'.
    exists rowPosition, columnPosition, current'. split; [done|].
    cbn [subImage set_subImage]. by rewrite H6.
  - left. injection H as <-. done.
Qed.

Lemma set_pixel_binary img r c v :
  binary img -> v = -1 \/ v = 1 -> binary (set_pixel img r c v).
Proof.
  intros Himg Hv. unfold set_pixel.
  destruct (img !! Z.to_nat r) as [row|] eqn:Hrow; [|done].
  apply Forall_insert; [done|].
  apply Forall_insert; [|done].
  unfold binary in Himg. rewrite Forall_forall in Himg.
  apply Himg. by eapply list_elem_of_lookup_2.
Qed.

Lemma pixel_binary img r c v :
  binary img -> pixel img r c = Some v -> v = -1 \/ v = 1.
Proof.
  intros Himg. unfold pixel. destruct (_ || _); [done|].
  intros (row & Hrow & Hv)%bind_Some.
  unfold binary in Himg. rewrite Forall_forall in Himg.
  specialize (Himg row (list_elem_of_lookup_2 _ _ _ Hrow)).
  rewrite Forall_forall in Himg. apply Himg.
  by eapply list_elem_of_lookup_2.
Qed.

Lemma iteration_binary fuel o beta gammaValue t w w' :
  binary (subImage w) ->
  iteration fuel o beta gammaValue t w = Some w' -> binary (subImage w').
Proof.
  intros Hb [->|(r & c & current & Hcur & ->)]%iteration_tile; [done|].
  apply set_pixel_binary; [done|].
  destruct (pixel_binary _ _ _ _ Hb Hcur) as [-> | ->]; vm_compute; auto.
Qed.

(** C3. If every pixel of a tile is -1 or +1, then after any number of
    sampler iterations (whatever the random draws, the answers of the
    neighbours and the parameters are) every pixel of the current tile is
    still -1 or +1. *)
Theorem sampler_keeps_pixels_binary n fuel o beta gammaValue t iterations w w' :
  binary (subImage w) ->
  sampler n fuel o beta gammaValue t iterations w = Some w' ->
  binary (subImage w').
Proof.
  revert iterations w. induction n as [|n IH]; intros iterations w Hb H; [done|].
  cbn [sampler] in H. destruct (negb (iterations =? 0)).
  - apply bind_Some in H as (w1 & Hit & H).
    eapply IH; [|exact H]. by eapply iteration_binary.
  - by injection H as <-.
Qed.
(** ** The iteration budget *)

Lemma sampler_iterate (k n fuel : nat) o beta gammaValue t iterations w :
  (k < n)%nat -> iterations = Z.of_nat k -> iterations <= INT_MAX ->
  sampler n fuel o beta gammaValue t iterations w
  = iterate k (iteration fuel o beta gammaValue t) w.
Proof.
  revert n iterations w.
  induction k as [|k IH]; intros n iterations w Hn Hk Hmax.
  - destruct n as [|n]; [lia|]. cbn [sampler iterate].
    destruct (Z.eqb_spec iterations 0); [done|lia].
  - destruct n as [|n]; [lia|]. cbn [sampler iterate].
    destruct (Z.eqb_spec iterations 0); [lia|]. cbn [negb].
    destruct (iteration fuel o beta gammaValue t w) as [w1|]; [|done].
    cbn [mbind option_bind].
    apply IH; [lia| |pose proof (int_wrap_range (iterations - 1));
                     unfold int_sub, is_int in *; lia].
    rewrite int_sub_exact by (unfold is_int, INT_MIN, INT_MAX in *; lia).
    lia.
Qed.

Lemma iterations_per_worker world_size :
  2 <= world_size <= INT_MAX ->
  int_div TOTAL_ITERATIONS (int_sub world_size 1)
  = Some (5000000 / (world_size - 1)).
Proof.
  unfold INT_MAX. intros Hws. unfold int_div, TOTAL_ITERATIONS.
  rewrite int_sub_exact by (unfold is_int, INT_MIN, INT_MAX; lia).
  replace (world_size - 1 =? 0) with false by lia.
  rewrite Z.quot_div_nonneg by lia.
  pose proof (Z.div_pos 5000000 (world_size - 1)).
  pose proof (Z.div_le_upper_bound 5000000 (world_size - 1) 5000000).
  rewrite int_wrap_id; [done|]. unfold is_int, INT_MIN, INT_MAX. lia.
Qed.
(** ** The questions of an iteration *)

Lemma ask_list_app t l1 l2 w :
  ask_list t (l1 ++ l2) w = (w' ← ask_list t l1 w; ask_list t l2 w').
Proof.
  revert w. induction l1 as [|[D p] l1 IH]; intros w; [done|].
  cbn [app ask_list]. destruct (ask t D p w) as [w1|]; [|done].
  cbn [mbind option_bind]. apply IH.
Qed.

Lemma ask_list_if t (b : bool) (P : Prop) `{Decision P} D p w :
  (b = true <-> P) ->
  (if b then ask t D p w else Some w)
  = ask_list t (if decide P then [(D, p)] else []) w.
Proof.
  intros Hb. destruct b, (decide P) as [HP|HP].
  - cbn [ask_list]. by destruct (ask t D p w).
  - exfalso. apply HP. by apply Hb.
  - apply Hb in HP. done.
  - done.
Qed.

(** The cascade of lines 404-435 asks the directions of [questions_for]. *)
Lemma askNeighbours_ask_list t r c w :
  INT_MIN < rows t <= INT_MAX -> INT_MIN < columns t <= INT_MAX ->
  askNeighbours t r c w = ask_list t (questions_for t r c) w.
Proof.
  unfold INT_MIN, INT_MAX. intros Hr Hc.
  unfold askNeighbours, questions_for.
  rewrite !int_sub_exact by (unfold is_int, INT_MIN, INT_MAX; lia).
  destruct (Z.eqb_spec r 0), (Z.eqb_spec r (rows t - 1)),
    (Z.eqb_spec c 0), (Z.eqb_spec c (columns t - 1));
    repeat (match goal with
            | |- context [decide ?P] => destruct (decide P); try lia
            end);
    cbn [app ask_list]; unfold ask; cbn [tag_of mbind option_bind];
    repeat (match goal with
            | |- context [load ?l ?d ≫= ?f] => destruct (load l d ≫= f)
            end; cbn [mbind option_bind]);
    reflexivity.
Qed.

Lemma neighbour_at_load t D :
  length (neighbours t) = 8%nat ->
  load (neighbours t) (tag_of D) = Some (neighbour_at t D).
Proof.
  intros Hn. unfold neighbour_at.
  destruct (load_Some (neighbours t) (tag_of D)) as [nb ->]; [|done].
  pose proof (tag_of_range D). lia.
Qed.

Lemma askAsync_posts neighbour position w :
  neighbour <> -1 ->
  length (askRequests w) = 8%nat -> length (askResponses w) = 8%nat ->
  0 <= askReqResCount w < 8 ->
  exists w',
    askAsync neighbour position w = Some w' /\
    trace w' = trace w
               ++ [MPI_Isend (Some position) neighbour QUESTION
                     (AskRequests, askReqResCount w);
                   MPI_Irecv neighbour ANSWER (AskResponses, askReqResCount w)]
    /\ askReqResCount w' = askReqResCount w + 1
    /\ length (askRequests w') = 8%nat /\ length (askResponses w') = 8%nat
    /\ askResponseValues w' = askResponseValues w.
Proof.
  intros Hne Hq Hr Hc. unfold askAsync.
  replace (neighbour =? -1) with false by lia.
  rewrite post_Some by (fields; lia). fields.
  rewrite post_Some by (fields; lia). fields.
  eexists. split; [reflexivity|]. fields.
  rewrite <- app_assoc, !length_insert.
  rewrite int_add_exact by (unfold is_int, INT_MIN, INT_MAX; lia).
  done.
Qed.

Lemma ask_list_posts t (l : list (direction * Z)) w :
  length (neighbours t) = 8%nat ->
  length (askRequests w) = 8%nat -> length (askResponses w) = 8%nat ->
  let out := (fun q => (neighbour_at t q.1, q.2))
             <$> filter (fun q => neighbour_at t q.1 <> -1) l in
  0 <= askReqResCount w -> askReqResCount w + Z.of_nat (length out) <= 8 ->
  exists w',
    ask_list t l w = Some w' /\
    trace w' = trace w ++ question_events (askReqResCount w) out /\
    askReqResCount w' = askReqResCount w + Z.of_nat (length out) /\
    length (askRequests w') = 8%nat /\ length (askResponses w') = 8%nat /\
    askResponseValues w' = askResponseValues w.
Proof.
  intros Hn. revert w.
  induction l as [|[D p] l IH]; intros w Hq Hr out H0 H8.
  - exists w. cbn. rewrite app_nil_r. repeat split; try done. lia.
  - cbn [ask_list]. unfold ask. rewrite neighbour_at_load by done.
    cbn [mbind option_bind]. subst out. rewrite filter_cons in *.
    cbn [fst snd] in *.
    destruct (decide (neighbour_at t D <> -1)) as [Hex|Habs].
    + cbn [fmap list_fmap length question_events fst snd] in *.
      destruct (askAsync_posts (neighbour_at t D) p w Hex Hq Hr)
        as (w1 & -> & Htr & Hcount & Hq1 & Hr1 & Hv1); [lia|].
      cbn [mbind option_bind].
      destruct (IH w1 Hq1 Hr1) as (w' & -> & Htr' & Hcount' & Hq' & Hr' & Hv');
        [lia|lia|].
      exists w'. split; [done|]. rewrite Htr', Htr, Hcount', Hcount, Hv', Hv1.
      rewrite <- app_assoc. cbn [app]. repeat split; try done. lia.
    + assert (neighbour_at t D = -1) as -> by (destruct (decide (neighbour_at t D = -1)); [done|tauto]).
      unfold askAsync. cbn [Z.eqb Pos.eqb]. cbn [mbind option_bind].
      by apply IH.
Qed.

Lemma questions_for_length t r c : (length (questions_for t r c) <= 8)%nat.
Proof.
  unfold questions_for.
  repeat (match goal with
          | |- context [decide ?P] => destruct (decide P)
          end); cbn; lia.
Qed.

Lemma asked_length t r c : (length (asked t r c) <= 8)%nat.
Proof.
  unfold asked. rewrite length_fmap.
  etransitivity; [apply length_filter|apply questions_for_length].
Qed.


(** ** One iteration *)

Lemma pick_in_range r n :
  0 <= r <= INT_MAX -> 0 < n <= INT_MAX ->
  int_rem r n = Some (Z.rem r n) /\ 0 <= Z.rem r n < n.
Proof.
  unfold INT_MAX. intros Hr Hn. unfold int_rem.
  replace (n =? 0) with false by lia.
  pose proof (Z.rem_bound_pos r n). split; [|lia].
  rewrite int_wrap_id; [done|]. unfold is_int, INT_MIN, INT_MAX. lia.
Qed.

Lemma testAskAll_idle o w : askReqResCount w = 0 -> testAskAll o w = (true, w).
Proof. intros H0. unfold testAskAll. by rewrite H0. Qed.

Lemma askResult_idle fuel w : askReqResCount w = 0 -> askResult fuel w = Some (0, w).
Proof. intros H0. unfold askResult. by rewrite H0. Qed.

Lemma flip_in_tile t r c w :
  tile_shape (rows t) (columns t) (subImage w) ->
  0 <= r < rows t -> 0 <= c < columns t ->
  flip r c w
  = Some (set_subImage
            (set_pixel (subImage w) r c (char_wrap (- px (subImage w) r c))) w).
Proof.
  intros Hshape Hr Hc. unfold flip.
  by rewrite (pixel_in_tile _ (rows t) (columns t)).
Qed.

Lemma questions_for_interior t r c :
  0 < r < rows t - 1 -> 0 < c < columns t - 1 -> questions_for t r c = [].
Proof.
  intros Hr Hc. unfold questions_for.
  repeat (match goal with
          | |- context [decide ?P] => destruct (decide P); try lia
          end); done.
Qed.

(** The iteration for a pixel that touches no edge, step by step. *)
Lemma iteration_interior fuel o beta gammaValue t w :
  (4 <= fuel)%nat -> well_formed t -> rand_in_range o ->
  tile_shape (rows t) (columns t) (subImage w) -> char_pixels (subImage w) ->
  askReqResCount w = 0 ->
  let r1 := rand o (clock w) in
  let r2 := rand o (S (clock w)) in
  let r3 := rand o (S (S (clock w))) in
  let r := Z.rem r1 (rows t) in
  let c := Z.rem r2 (columns t) in
  0 < r < rows t - 1 -> 0 < c < columns t - 1 ->
  iteration fuel o beta gammaValue t w
  = Some (set_subImage
            (decided o beta gammaValue t (subImage w) r c
               (window_sum (subImage w) (rows t) (columns t) r c)
               (probability o r3))
            (tick (emit (rand_call r3)
               (tick (emit (rand_call r2)
                  (tick (emit (rand_call r1) w))))))).
Proof.
  intros Hfuel Ht [Hmax Ho] Hshape Hchars H0 r1 r2 r3 r c Hr Hc.
  destruct Ht as [Hn Hrows Hcols Hinit _]. unfold INT_MAX, INT_MIN in *.
  pose proof (Ho (clock w)) as H1. pose proof (Ho (S (clock w))) as H2.
  destruct (pick_in_range (rand o (clock w)) (rows t)) as [Hrow _];
    [(unfold INT_MAX; lia)..|].
  destruct (pick_in_range (rand o (S (clock w))) (columns t)) as [Hcol _];
    [(unfold INT_MAX; lia)..|].
  unfold iteration, call_rand. fields. rewrite Hrow. fields.
  rewrite Hcol. fields. fold r1 r2 r3 r c.
  rewrite summer_window_sum by (done || unfold INT_MIN, INT_MAX; lia). fields.
  rewrite askNeighbours_ask_list by (fields; unfold INT_MIN, INT_MAX; lia).
  rewrite questions_for_interior by done. cbn [ask_list]. fields.
  destruct fuel as [|fuel]; [lia|]. cbn [awaitAnswers].
  rewrite testAskAll_idle by (fields; done). fields.
  rewrite askResult_idle by (fields; done). fields.
  rewrite (pixel_in_tile _ (rows t) (columns t)) by (done || lia). fields.
  rewrite (pixel_in_tile _ (rows t) (columns t)) by (done || lia). fields.
  unfold randomProbability, call_rand. fields.
  rewrite int_add_exact.
  2: { rewrite Z.add_0_r, window_sum_cells.
       pose proof (row_part_bound (subImage w) (rows t) (columns t) r c (r - 1) Hchars).
       pose proof (row_part_bound (subImage w) (rows t) (columns t) r c r Hchars).
       pose proof (row_part_bound (subImage w) (rows t) (columns t) r c (r + 1) Hchars).
       unfold is_int, INT_MIN, INT_MAX. lia. }
  rewrite Z.add_0_r. unfold decided, probability.
  destruct (PrimFloat.leb _ _).
  - rewrite (flip_in_tile t) by (fields; done || lia). fields. reflexivity.
  - reflexivity.
Qed.

(** C10. An iteration whose pixel touches no edge of the tile
    ([0 < r < rows-1] and [0 < c < columns-1]) returns, and makes no call
    but its three draws: no question is sent; the count of outstanding
    questions stays 0, so that the completion test succeeds at once,
    without asking the library, and the answers collected sum to 0; the
    tile it leaves is decided by its own tile and the draws alone: it is
    the same under any other neighbours and any other behaviour of the
    network. *)
Theorem interior_iteration_is_local fuel o beta gammaValue t w :
  (4 <= fuel)%nat -> well_formed t -> rand_in_range o ->
  tile_shape (rows t) (columns t) (subImage w) -> char_pixels (subImage w) ->
  askReqResCount w = 0 ->
  let r1 := rand o (clock w) in
  let r2 := rand o (S (clock w)) in
  let r3 := rand o (S (S (clock w))) in
  let r := Z.rem r1 (rows t) in
  let c := Z.rem r2 (columns t) in
  0 < r < rows t - 1 -> 0 < c < columns t - 1 ->
  exists w',
    iteration fuel o beta gammaValue t w = Some w' /\
    trace w' = trace w ++ [rand_call r1; rand_call r2; rand_call r3] /\
    (let picked := tick (emit (rand_call r2) (tick (emit (rand_call r1) w))) in
     askNeighbours t r c picked = Some picked /\
     askReqResCount picked = 0 /\
     testAskAll o picked = (true, picked) /\
     askResult fuel picked = Some (0, picked)) /\
    askReqResCount w' = 0 /\
    subImage w'
    = decided o beta gammaValue t (subImage w) r c
        (window_sum (subImage w) (rows t) (columns t) r c) (probability o r3) /\
    (forall o2 t2,
       rand o2 = rand o -> RAND_MAX o2 = RAND_MAX o -> log o2 = log o ->
       rows t2 = rows t -> columns t2 = columns t ->
       initialSubImage t2 = initialSubImage t ->
       length (neighbours t2) = 8%nat ->
       exists w2, iteration fuel o2 beta gammaValue t2 w = Some w2
                  /\ subImage w2 = subImage w').
Proof.
  intros Hfuel Ht Ho Hshape Hchars H0 r1 r2 r3 r c Hr Hc.
  rewrite (iteration_interior fuel o beta gammaValue t w) by done.
  fold r1 r2 r3 r c. eexists. split; [reflexivity|]. fields.
  split; [by rewrite <- !app_assoc|].
  split.
  { split; [|split; [done|split]].
    - rewrite askNeighbours_ask_list.
      + by rewrite questions_for_interior.
      + destruct Ht as [_ Hrows _ _ _]. unfold INT_MIN, INT_MAX in *. lia.
      + destruct Ht as [_ _ Hcols _ _]. unfold INT_MIN, INT_MAX in *. lia.
    - by apply testAskAll_idle.
    - by apply askResult_idle. }
  split; [done|]. split; [done|].
  intros o2 t2 Hrand Hmax Hlog Hrows Hcols Hinit Hn.
  assert (well_formed t2) as Ht2.
  { destruct Ht. split; rewrite ?Hrows, ?Hcols, ?Hinit; done. }
  assert (rand_in_range o2) as Ho2.
  { destruct Ho as [Ha Hb]. split; rewrite ?Hmax, ?Hrand; done. }
  rewrite (iteration_interior fuel o2 beta gammaValue t2 w);
    rewrite ?Hrand, ?Hrows, ?Hcols; try done.
  eexists. split; [reflexivity|]. fields. fold r1 r2 r3 r c.
  unfold decided, probability. by rewrite Hlog, Hmax, Hinit.
Qed.
(** ** One reply in flight *)

Lemma in_flight_app d tr evs :
  in_flight d (tr ++ evs) = in_flight d tr + in_flight d evs.
Proof.
  unfold in_flight. induction tr as [|e tr IH]; cbn [app foldr]; [done|].
  rewrite IH. lia.
Qed.

Lemma in_flight_snoc d tr e :
  in_flight d (tr ++ [e]) = in_flight d tr + reply_delta d e.
Proof.
  rewrite in_flight_app. unfold in_flight at 2. cbn [foldr]. lia.
Qed.

Lemma prefix_snoc_cases {A : Type} (pre tr : list A) (e : A) :
  pre `prefix_of` tr ++ [e] -> pre `prefix_of` tr \/ pre = tr ++ [e].
Proof.
  intros [k Hk]. destruct k as [|x k _] using rev_ind.
  - right. by rewrite app_nil_r in Hk.
  - left. rewrite app_assoc in Hk. apply app_inj_tail in Hk as [-> _].
    by exists k.
Qed.

Lemma one_reply_snoc d tr e :
  one_reply_in_flight d tr -> 0 <= in_flight d tr + reply_delta d e <= 1 ->
  one_reply_in_flight d (tr ++ [e]).
Proof.
  intros Htr He pre [Hpre| ->]%prefix_snoc_cases; [by apply Htr|].
  by rewrite in_flight_snoc.
Qed.

Lemma one_reply_stays d tr evs :
  one_reply_in_flight d tr -> stays d (in_flight d tr) evs ->
  one_reply_in_flight d (tr ++ evs).
Proof.
  revert tr. induction evs as [|e evs IH]; intros tr Htr Hevs.
  - by rewrite app_nil_r.
  - destruct Hevs as [He Hevs].
    replace (tr ++ e :: evs) with ((tr ++ [e]) ++ evs)
      by (by rewrite <- app_assoc).
    apply IH; [by apply one_reply_snoc|].
    by rewrite in_flight_snoc.
Qed.

(** Calls that are not of the answering side move no reply. *)
Lemma reply_delta_other d e : kind_of e <> Answering -> reply_delta d e = 0.
Proof.
  destruct e as [? ? ? [[] ?]| | |? ? ?|[[] ?]| |]; cbn; try done.
Qed.

Lemma stays_others d n evs :
  0 <= n <= 1 -> Forall (fun e => reply_delta d e = 0) evs -> stays d n evs.
Proof.
  intros Hn Hall. induction Hall as [|e evs He _ IH]; [done|].
  cbn [stays]. rewrite He, Z.add_0_r. split; [lia|done].
Qed.

Lemma in_flight_others d evs :
  Forall (fun e => reply_delta d e = 0) evs -> in_flight d evs = 0.
Proof.
  intros Hall. induction Hall as [|e evs He _ IH]; [done|].
  unfold in_flight in *. cbn [foldr]. lia.
Qed.

(** A piece of the worker that makes no call of the answering side keeps
    the replies tracked. *)
Lemma footprint_replies_tracked ks w w' :
  Answering ∉ ks -> footprint ks w w' ->
  replies_tracked w -> replies_tracked w'.
Proof.
  intros Hks ((evs & Htr & Hevs) & _ & Hans & _) Hw d.
  destruct (Hans Hks) as (_ & _ & Hresp).
  assert (Forall (fun e => reply_delta d e = 0) evs) as Hzero.
  { eapply Forall_impl; [exact Hevs|]. intros e [He _].
    apply reply_delta_other. intros Heq. apply Hks. by rewrite <- Heq. }
  destruct (Hw d) as [Hone Hcases].
  assert (0 <= in_flight d (trace w) <= 1) as Hnow
    by (apply Hone; exists []; by rewrite app_nil_r).
  rewrite Htr, Hresp, in_flight_app, (in_flight_others d evs Hzero), Z.add_0_r.
  split; [|done]. apply one_reply_stays; [done|]. by apply stays_others.
Qed.

Lemma replies_tracked_quiet w w' evs :
  trace w' = trace w ++ evs -> answerResponses w' = answerResponses w ->
  (forall d, Forall (fun e => reply_delta d e = 0) evs) ->
  replies_tracked w -> replies_tracked w'.
Proof.
  intros Htr Hresp Hzero Hw d. specialize (Hzero d).
  destruct (Hw d) as [Hone Hcases].
  assert (0 <= in_flight d (trace w) <= 1) as Hnow
    by (apply Hone; exists []; by rewrite app_nil_r).
  rewrite Htr, Hresp, in_flight_app, (in_flight_others d evs Hzero), Z.add_0_r.
  split; [|done]. apply one_reply_stays; [done|]. by apply stays_others.
Qed.

Lemma store_inv {A : Type} (arr arr' : list A) (i : Z) (v : A) :
  store arr i v = Some arr' ->
  0 <= i < Z.of_nat (length arr) /\ arr' = <[Z.to_nat i := v]> arr.
Proof.
  unfold store.
  destruct (Z.leb_spec 0 i), (Z.ltb_spec i (Z.of_nat (length arr)));
    cbn [andb]; intros [= <-]; (split; [lia|done]).
Qed.

Lemma load_insert_cases {A : Type} (arr : list A) (i j : Z) (v : A) :
  0 <= i < Z.of_nat (length arr) ->
  load (<[Z.to_nat i := v]> arr) j = if decide (i = j) then Some v else load arr j.
Proof.
  intros Hi. destruct (decide (i = j)) as [<-|Hne].
  - by apply load_insert.
  - unfold load. destruct (Z.ltb_spec j 0); [done|].
    apply list_lookup_insert_ne. lia.
Qed.

(** Posting a reply where none is in flight. *)
Lemma reply_posted d w w' payload dest tag :
  replies_tracked w ->
  load (answerResponses w) d <> Some PENDING ->
  0 <= d < Z.of_nat (length (answerResponses w)) ->
  trace w' = trace w ++ [MPI_Isend payload dest tag (AnswerResponses, d)] ->
  answerResponses w' = <[Z.to_nat d := PENDING]> (answerResponses w) ->
  replies_tracked w'.
Proof.
  intros Hw Hnull Hd Htr Hresp d'. destruct (Hw d') as [Hone Hcases].
  assert (0 <= in_flight d' (trace w) <= 1) as Hnow
    by (apply Hone; exists []; by rewrite app_nil_r).
  rewrite Htr, Hresp, in_flight_snoc, load_insert_cases by done.
  cbn [reply_delta]. destruct (decide (d = d')) as [<-|Hne].
  - replace (d =? d) with true by lia.
    destruct Hcases as [[Hp _]|(_ & _ & H0)]; [done|].
    split; [apply one_reply_snoc; [done|]; cbn [reply_delta];
            replace (d =? d) with true by lia; lia|].
    left. split; [done|lia].
  - replace (d =? d') with false by lia. rewrite Z.add_0_r.
    split; [|done]. apply one_reply_snoc; [done|]. cbn [reply_delta].
    replace (d =? d') with false by lia. lia.
Qed.

(** Waiting for the reply in flight, and clearing its handle. *)
Lemma reply_reclaimed d w w' :
  replies_tracked w ->
  load (answerResponses w) d = Some PENDING ->
  0 <= d < Z.of_nat (length (answerResponses w)) ->
  trace w' = trace w ++ [MPI_Wait (AnswerResponses, d)] ->
  answerResponses w' = <[Z.to_nat d := NULL]> (answerResponses w) ->
  replies_tracked w'.
Proof.
  intros Hw Hp Hd Htr Hresp d'. destruct (Hw d') as [Hone Hcases].
  assert (0 <= in_flight d' (trace w) <= 1) as Hnow
    by (apply Hone; exists []; by rewrite app_nil_r).
  rewrite Htr, Hresp, in_flight_snoc, load_insert_cases by done.
  cbn [reply_delta]. destruct (decide (d = d')) as [<-|Hne].
  - replace (d =? d) with true by lia.
    destruct Hcases as [[_ H1]|(Hnp & _)]; [|done].
    split; [apply one_reply_snoc; [done|]; cbn [reply_delta];
            replace (d =? d) with true by lia; lia|].
    right. repeat split; [done|done|lia].
  - replace (d =? d') with false by lia. rewrite Z.add_0_r.
    split; [|done]. apply one_reply_snoc; [done|]. cbn [reply_delta].
    replace (d =? d') with false by lia. lia.
Qed.

Lemma post_inv_slot e a i w w' :
  post e (a, i) w = Some w' ->
  0 <= i < Z.of_nat (length (requests a w)) /\
  w' = emit e (set_requests a (<[Z.to_nat i := PENDING]> (requests a w)) w).
Proof.
  unfold post. cbn [fst snd].
  intros (reqs & [Hi ->]%store_inv & [= <-])%bind_Some. done.
Qed.

Lemma wait_inv_slot a i w w' :
  wait (a, i) w = Some w' ->
  0 <= i < Z.of_nat (length (requests a w)) /\
  w' = emit (MPI_Wait (a, i))
         (set_requests a (<[Z.to_nat i := REQUEST_NULL]> (requests a w)) w).
Proof.
  unfold wait. cbn [fst snd].
  intros (reqs & [Hi ->]%store_inv & [= <-])%bind_Some. done.
Qed.

Lemma zero_delta_singleton (e : event) :
  (forall d, reply_delta d e = 0) ->
  forall d, Forall (fun e => reply_delta d e = 0) [e].
Proof. intros H d. by apply Forall_singleton. Qed.

(** One round of [answerAll] keeps the replies tracked: where a reply is in
    flight it is waited for, and its handle cleared, before the next one is
    posted. *)
Lemma answerOne_replies_tracked fuel o t d w w' :
  answerOne fuel o t d w = Some w' -> replies_tracked w -> replies_tracked w'.
Proof.
  unfold answerOne. intros (nb & _ & H)%bind_Some Hw.
  destruct (nb =? -1); [by injection H as <-|].
  apply bind_Some in H as ([flag w1] & Htest & H).
  assert (replies_tracked w1 /\ answerResponses w1 = answerResponses w)
    as [Hw1 Hr1].
  { apply test_inv in Htest as [(v & w0 & reqs & _ & Hb & _ & ->)|[r ->]].
    - apply bind_Some in Hb as (ps & _ & [= <-]). split; [|done].
      eapply (replies_tracked_quiet w _ [_]); [fields; reflexivity|done| |done].
      by apply zero_delta_singleton.
    - split; [|done].
      eapply (replies_tracked_quiet w _ [_]); [fields; reflexivity|done| |done].
      by apply zero_delta_singleton. }
  destruct flag; [|by injection H as <-].
  apply bind_Some in H as (position & _ & H).
  apply bind_Some in H as (w2 & Hpost & H).
  unfold initializeAnAnswer in Hpost.
  apply post_inv_slot in Hpost as [_ ->].
  apply bind_Some in H as (response & Hresp & H).
  apply bind_Some in H as (w3 & Hw3 & H).
  apply bind_Some in H as (rc & _ & H).
  apply bind_Some in H as (cc & _ & H).
  apply bind_Some in H as (sum & _ & H).
  apply post_inv_slot in H as [Hd ->].
  set (w2 := emit (MPI_Irecv nb QUESTION (AnswerRequests, d)) _) in *.
  assert (replies_tracked w2) as Hw2.
  { eapply (replies_tracked_quiet w1 _ [_]);
      [subst w2; fields; reflexivity|done| |done].
    by apply zero_delta_singleton. }
  assert (answerResponses w2 = answerResponses w1) as Hr2 by done.
  assert (replies_tracked w3 /\ load (answerResponses w3) d <> Some PENDING
          /\ length (answerResponses w3) = length (answerResponses w2))
    as (Htracked & Hnull & Hlen).
  { destruct response.
    - injection Hw3 as <-. split; [done|]. rewrite Hresp. done.
    - exfalso. destruct (Hw2 d) as [_ [[Hp _]|(_ & Hn & _)]]; congruence.
    - apply bind_Some in Hw3 as (w4 & Hwait & Hw3).
      apply wait_inv_slot in Hwait as [Hd4 ->].
      apply bind_Some in Hw3 as (resps & [_ ->]%store_inv & [= <-]).
      cbn [requests] in Hd4. fields. rewrite list_insert_insert_eq.
      split; [|split].
      + eapply (reply_reclaimed d w2); [done|done|done| |].
        * fields. reflexivity.
        * fields. reflexivity.
      + rewrite load_insert by done. done.
      + by rewrite length_insert. }
  cbn [requests] in Hd.
  eapply (reply_posted d w3); [done|done|done| |].
  - fields. reflexivity.
  - fields. reflexivity.
Qed.

Lemma answerAll_replies_tracked fuel o t w w' :
  answerAll fuel o t w = Some w' -> replies_tracked w -> replies_tracked w'.
Proof.
  unfold answerAll. generalize directions as l. intros l. revert w.
  induction l as [|d l IH]; intros w H Hw; cbn [for_each] in H.
  - by injection H as <-.
  - apply bind_Some in H as (w1 & H1 & H).
    eapply IH; [exact H|]. by eapply answerOne_replies_tracked.
Qed.

Lemma awaitAnswers_replies_tracked n fuel o t w w' :
  awaitAnswers n fuel o t w = Some w' -> replies_tracked w -> replies_tracked w'.
Proof.
  revert w. induction n as [|n IH]; intros w H Hw; [done|].
  cbn [awaitAnswers] in H.
  destruct (testAskAll o w) as [done w1] eqn:Htest.
  apply testAskAll_quiet in Htest as [Htest _].
  assert (replies_tracked w1) as Hw1.
  { eapply footprint_replies_tracked; [|exact Htest|done].
    rewrite !elem_of_cons, elem_of_nil. by intros [|[]]. }
  destruct done; [by injection H as <-|].
  apply bind_Some in H as (w2 & Hans & H).
  eapply IH; [exact H|]. by eapply answerAll_replies_tracked.
Qed.

Lemma awaitFinished_replies_tracked n fuel o t w w' :
  awaitFinished n fuel o t w = Some w' -> replies_tracked w -> replies_tracked w'.
Proof.
  revert w. induction n as [|n IH]; intros w H Hw; [done|].
  cbn [awaitFinished] in H.
  destruct (testFinishedAll o w) as [done w1] eqn:Htest.
  apply testFinishedAll_quiet in Htest as [Htest _].
  assert (replies_tracked w1) as Hw1.
  { eapply footprint_replies_tracked; [|exact Htest|done].
    rewrite !elem_of_cons, elem_of_nil. by intros [|[]]. }
  destruct done; [by injection H as <-|].
  apply bind_Some in H as (w2 & Hans & H).
  eapply IH; [exact H|]. by eapply answerAll_replies_tracked.
Qed.

(** The lists of kinds without the answering side. *)
Ltac no_answering := rewrite ?elem_of_cons, elem_of_nil; intuition discriminate.

Lemma iteration_replies_tracked fuel o beta gammaValue t w w' :
  iteration fuel o beta gammaValue t w = Some w' ->
  replies_tracked w -> replies_tracked w'.
Proof.
  unfold iteration. intros H Hw.
  destruct (call_rand o w) as [r1 w1] eqn:Hr1.
  apply bind_Some in H as (rowPosition & _ & H).
  destruct (call_rand o w1) as [r2 w2] eqn:Hr2.
  apply bind_Some in H as (columnPosition & _ & H).
  apply bind_Some in H as (sum & _ & H).
  apply bind_Some in H as (w3 & Hask & H).
  apply bind_Some in H as (w4 & Hwait & H).
  apply bind_Some in H as ([answers w5] & Hres & H).
  apply bind_Some in H as (initial & _ & H).
  apply bind_Some in H as (current & _ & H).
  destruct (randomProbability o w5) as [u w6] eqn:Hu.
  apply call_rand_quiet in Hr1 as [Hr1 _], Hr2 as [Hr2 _].
  apply askNeighbours_quiet in Hask as [Hask _].
  apply askResult_quiet in Hres as [Hres _].
  apply randomProbability_quiet in Hu as [Hu _].
  assert (replies_tracked w1) as Hw1
    by (eapply footprint_replies_tracked; [|exact Hr1|done]; no_answering).
  assert (replies_tracked w2) as Hw2
    by (eapply footprint_replies_tracked; [|exact Hr2|done]; no_answering).
  assert (replies_tracked w3) as Hw3
    by (eapply footprint_replies_tracked; [|exact Hask|done]; no_answering).
  assert (replies_tracked w4) as Hw4
    by (by eapply awaitAnswers_replies_tracked).
  assert (replies_tracked w5) as Hw5
    by (eapply footprint_replies_tracked; [|exact Hres|done]; no_answering).
  assert (replies_tracked w6) as Hw6
    by (eapply footprint_replies_tracked; [|exact Hu|done]; no_answering).
  destruct (PrimFloat.leb _ _); [|by injection H as <-].
  eapply (footprint_replies_tracked []);
    [no_answering|by eapply flip_footprint|done].
Qed.

Lemma sampler_replies_tracked n fuel o beta gammaValue t iterations w w' :
  sampler n fuel o beta gammaValue t iterations w = Some w' ->
  replies_tracked w -> replies_tracked w'.
Proof.
  revert iterations w. induction n as [|n IH]; intros iterations w H Hw; [done|].
  cbn [sampler] in H. destruct (negb (iterations =? 0)).
  - apply bind_Some in H as (w1 & Hit & H).
    eapply IH; [exact H|]. by eapply iteration_replies_tracked.
  - by injection H as <-.
Qed.

(** Before the first question can arrive, every reply handle of a
    neighbour is the null pointer and no reply is in flight. *)
Lemma initializeAnswers_replies_tracked t w' :
  initializeAnswers t (start t) = Some w' -> replies_tracked w'.
Proof.
  assert (forall l w w',
            for_each l
              (fun direction w =>
                 neighbour ← load (neighbours t) direction;
                 if neighbour =? -1 then Some w
                 else
                   w ← initializeAnAnswer neighbour direction w;
                   resps ← store (answerResponses w) direction NULL;
                   Some (set_answerResponses resps w)) w = Some w' ->
            (forall d, in_flight d (trace w) = 0
                       /\ one_reply_in_flight d (trace w)
                       /\ load (answerResponses w) d <> Some PENDING
                       /\ load (answerResponses w) d <> Some REQUEST_NULL) ->
            replies_tracked w') as Hloop.
  { induction l as [|i l IH]; intros w w1 H Hw; cbn [for_each] in H.
    - injection H as <-. intros d. destruct (Hw d) as (H0 & H1 & H2 & H3).
      split; [done|]. by right.
    - apply bind_Some in H as (w2 & Hstep & H). eapply IH; [exact H|].
      apply bind_Some in Hstep as (nb & _ & Hstep).
      destruct (nb =? -1); [by injection Hstep as <-|].
      apply bind_Some in Hstep as (w3 & Hpost & Hstep).
      unfold initializeAnAnswer in Hpost.
      apply post_inv_slot in Hpost as [_ ->].
      apply bind_Some in Hstep as (resps & [Hi ->]%store_inv & [= <-]).
      intros d. destruct (Hw d) as (H0 & H1 & H2 & H3). fields.
      rewrite in_flight_snoc, H0. cbn [reply_delta].
      rewrite load_insert_cases by done.
      split; [done|]. split; [|destruct (decide (i = d)); done].
      apply one_reply_snoc; [done|]. rewrite H0. cbn [reply_delta]. lia. }
  intros H. eapply Hloop; [exact H|].
  intros d. cbn [start trace answerResponses]. split; [done|]. split.
  - intros pre ->%prefix_nil_inv. done.
  - unfold load. destruct (d <? 0); [done|].
    destruct (replicate 8 NULL !! Z.to_nat d) as [r|] eqn:Hr; [|done].
    apply lookup_replicate in Hr as [-> _]. done.
Qed.

(** ** The phases of a worker *)

Lemma slave_phases fuel o world_size world_rank beta gammaValue t code w' :
  slave fuel o world_size world_rank beta gammaValue t = Some (code, w') ->
  code = 0 /\
  exists iterations w1 w2 w3 w4,
    int_div TOTAL_ITERATIONS (int_sub world_size 1) = Some iterations /\
    initializeAnswers t (start t) = Some w1 /\
    sampler fuel fuel o beta gammaValue t iterations w1 = Some w2 /\
    sendFinishedAll t w2 = Some w3 /\
    awaitFinished fuel fuel o t w3 = Some w4 /\
    sendTile fuel t w4 = Some w'.
Proof.
  unfold slave. intros (iterations & Hit & H)%bind_Some.
  apply bind_Some in H as (w1 & H1 & H).
  apply bind_Some in H as (w2 & H2 & H).
  apply bind_Some in H as (w3 & H3 & H).
  apply bind_Some in H as (w4 & H4 & H).
  apply bind_Some in H as (w5 & H5 & [= <- <-]).
  split; [done|]. by exists iterations, w1, w2, w3, w4.
Qed.

Lemma slave_footprint fuel o world_size world_rank beta gammaValue t code w' :
  slave fuel o world_size world_rank beta gammaValue t = Some (code, w') ->
  footprint all_kinds (start t) w'.
Proof.
  intros (_ & iterations & w1 & w2 & w3 & w4 & _ & H1 & H2 & H3 & H4 & H5)
    %slave_phases.
  apply initializeAnswers_quiet in H1 as [H1 _].
  apply sampler_footprint in H2.
  apply sendFinishedAll_quiet in H3 as [H3 _].
  apply awaitFinished_quiet in H4 as [H4 _].
  apply sendTile_quiet in H5 as [H5 _].
  unfold all_kinds.
  eapply footprint_trans; [eapply footprint_weaken; [|exact H1]; sub_kinds|].
  eapply footprint_trans; [eapply footprint_weaken; [|exact H2]; sub_kinds|].
  eapply footprint_trans; [eapply footprint_weaken; [|exact H3]; sub_kinds|].
  eapply footprint_trans; [eapply footprint_weaken; [|exact H4]; sub_kinds|].
  eapply footprint_weaken; [|exact H5]. sub_kinds.
Qed.

Lemma slave_replies_tracked fuel o world_size world_rank beta gammaValue t
    code w' :
  slave fuel o world_size world_rank beta gammaValue t = Some (code, w') ->
  replies_tracked w'.
Proof.
  intros (_ & iterations & w1 & w2 & w3 & w4 & _ & H1 & H2 & H3 & H4 & H5)
    %slave_phases.
  apply initializeAnswers_replies_tracked in H1.
  apply sampler_replies_tracked in H2; [|done].
  apply sendFinishedAll_quiet in H3 as [H3 _].
  apply sendTile_quiet in H5 as [H5 _].
  eapply footprint_replies_tracked; [|exact H5|]; [no_answering|].
  eapply awaitFinished_replies_tracked; [exact H4|].
  eapply footprint_replies_tracked; [|exact H3|done]. no_answering.
Qed.

(** C7. In a run of a worker, at every point and for every direction, at
    most one reply is in flight: the replies posted with the handle of the
    direction exceed those waited for by one at most, so that a reply is
    posted only after the one before it, if any, has been waited for.
    These are all the replies there are: a message is sent with the tag
    ANSWER exactly when it is sent with a handle of [answerResponses].
    (A run that has not ended is the beginning of one that ends under
    another behaviour of the network from there on, so the points of all
    runs are covered.) *)
Theorem one_reply_in_flight_per_direction fuel o world_size world_rank
    beta gammaValue t code w' :
  slave fuel o world_size world_rank beta gammaValue t = Some (code, w') ->
  (forall d, one_reply_in_flight d (trace w')) /\
  (forall payload dest tag h,
     MPI_Isend payload dest tag h ∈ trace w' ->
     tag = ANSWER <-> h.1 = AnswerResponses).
Proof.
  intros H. split.
  - intros d. by destruct (slave_replies_tracked _ _ _ _ _ _ _ _ _ H d).
  - apply slave_footprint in H as ((evs & Htr & Hall) & _).
    cbn [start trace app] in Htr. rewrite Htr.
    intros payload dest tag h Hin.
    rewrite Forall_forall in Hall. destruct (Hall _ Hin) as [_ Htag].
    cbn [well_tagged] in Htag. destruct h as [[] i]; cbn [fst send_tag] in *;
      try done; injection Htag as <-; split; done.
Qed.
(** ** The termination handshake *)

Lemma awaitFinished_serviced n fuel o t w w' :
  awaitFinished n fuel o t w = Some w' ->
  exists k wk,
    (k < n)%nat /\ serviced k fuel o t w = Some wk
    /\ testFinishedAll o wk = (true, w').
Proof.
  revert w. induction n as [|n IH]; intros w H; [done|].
  cbn [awaitFinished] in H.
  destruct (testFinishedAll o w) as [done w1] eqn:Htest.
  destruct done.
  - injection H as <-. exists 0%nat, w. split; [lia|]. done.
  - apply bind_Some in H as (w2 & Hans & H).
    destruct (IH w2 H) as (k & wk & Hk & Hserv & Hlast).
    exists (S k), wk. split; [lia|]. split; [|done].
    cbn [serviced]. rewrite Htest, Hans. done.
Qed.

Lemma testall_inv o a count w flag w' :
  testall o a count w = (flag, w') ->
  all_complete o a count w = flag /\
  trace w' = trace w ++ [MPI_Testall a count flag] /\
  finishedReqResCount w' = finishedReqResCount w /\
  requests a w' = (if flag then free_all count (requests a w) else requests a w).
Proof.
  unfold testall. destruct (all_complete o a count w); intros [= <- <-].
  - destruct a; fields; done.
  - destruct a; fields; done.
Qed.

(** A completion test that succeeds has seen every request complete: both
    calls of [MPI_Testall] have set their flag, and the requests of both
    arrays are freed. *)
Lemma testFinishedAll_complete o w w' :
  testFinishedAll o w = (true, w') -> 0 < finishedReqResCount w ->
  trace w' = trace w
             ++ [MPI_Testall FinishedRequests (finishedReqResCount w) true;
                 MPI_Testall FinishedResponses (finishedReqResCount w) true].
Proof.
  unfold testFinishedAll. intros H Hn.
  replace (finishedReqResCount w >? 0) with true in H by lia.
  destruct (testall o FinishedRequests (finishedReqResCount w) w)
    as [f1 w1] eqn:H1.
  destruct (testall o FinishedResponses (finishedReqResCount w1) w1)
    as [f2 w2] eqn:H2.
  injection H as Hf <-. apply andb_true_iff in Hf as [-> ->].
  apply testall_inv in H1 as (_ & Ht1 & Hc1 & _).
  apply testall_inv in H2 as (_ & Ht2 & _ & _).
  by rewrite Ht2, Ht1, Hc1, <- app_assoc.
Qed.

Lemma sendFinished_loop t (ds : list Z) w :
  (forall d, d ∈ ds -> 0 <= d < Z.of_nat (length (neighbours t))) ->
  length (finishedRequests w) = 8%nat -> length (finishedResponses w) = 8%nat ->
  let out := filter (fun nb => nb <> -1)
               ((fun d => default 0 (load (neighbours t) d)) <$> ds) in
  0 <= finishedReqResCount w ->
  finishedReqResCount w + Z.of_nat (length out) <= 8 ->
  exists w',
    for_each ds
      (fun direction w =>
         neighbour ← load (neighbours t) direction;
         if negb (neighbour =? -1) then
           let i := finishedReqResCount w in
           w ← post (MPI_Isend None neighbour FINISHED (FinishedRequests, i))
                    (FinishedRequests, i) w;
           w ← post (MPI_Irecv neighbour FINISHED (FinishedResponses, i))
                    (FinishedResponses, i) w;
           Some (set_finishedReqResCount (int_add i 1) w)
         else Some w) w = Some w' /\
    trace w' = trace w ++ finished_events (finishedReqResCount w) out /\
    finishedReqResCount w' = finishedReqResCount w + Z.of_nat (length out).
Proof.
  revert w. induction ds as [|d ds IH]; intros w Hds Hq Hr out H0 H8.
  - exists w. cbn. rewrite app_nil_r. repeat split; try done. lia.
  - cbn [for_each].
    destruct (load_Some (neighbours t) d) as [nb Hnb]; [apply Hds; by left|].
    rewrite Hnb. cbn [mbind option_bind].
    subst out. cbn [fmap list_fmap] in *. rewrite Hnb in *.
    cbn [from_option id] in *. rewrite filter_cons in *.
    destruct (decide (nb <> -1)) as [Hex|Habs].
    + replace (nb =? -1) with false by lia. cbn [negb].
      cbn [length finished_events] in *.
      rewrite post_Some by (fields; lia). fields.
      rewrite post_Some by (fields; lia). fields.
      rewrite int_add_exact by (unfold is_int, INT_MIN, INT_MAX; lia).
      match goal with
      | |- context [for_each ds ?f ?w1] =>
          destruct (IH w1) as (w' & -> & Htr & Hcount)
      end.
      * intros d' Hd'. apply Hds. by right.
      * fields. by rewrite length_insert.
      * fields. by rewrite length_insert.
      * fields. lia.
      * fields. lia.
      * exists w'. split; [done|]. rewrite Htr, Hcount. fields.
        rewrite <- !app_assoc. cbn [app]. split; [done|lia].
    + assert (nb = -1) as -> by (destruct (decide (nb = -1)); [done|tauto]).
      cbn [Z.eqb Pos.eqb negb]. apply IH; try done.
      intros d' Hd'. apply Hds. by right.
Qed.

Lemma neighbours_by_direction t :
  length (neighbours t) = 8%nat ->
  (fun d => default 0 (load (neighbours t) d)) <$> directions = neighbours t.
Proof.
  intros Hn. destruct (neighbours t) as [|a [|b [|c [|d [|e [|f [|g [|h [|]]]]]]]]];
    try done.
Qed.

Lemma sendFinishedAll_posts t w :
  length (neighbours t) = 8%nat ->
  length (finishedRequests w) = 8%nat -> length (finishedResponses w) = 8%nat ->
  finishedReqResCount w = 0 ->
  exists w',
    sendFinishedAll t w = Some w' /\
    trace w' = trace w ++ finished_events 0 (existing t) /\
    finishedReqResCount w' = Z.of_nat (length (existing t)).
Proof.
  intros Hn Hq Hr H0. unfold sendFinishedAll, existing.
  destruct (sendFinished_loop t directions w) as (w' & Heq & Htr & Hcount);
    try done.
  - intros d Hd%direction_range. lia.
  - lia.
  - rewrite neighbours_by_direction, H0 by done.
    pose proof (length_filter (fun nb => nb <> -1) (neighbours t)). lia.
  - rewrite neighbours_by_direction in * by done. rewrite H0 in *.
    exists w'. done.
Qed.

Lemma finished_messages_app tr1 tr2 :
  finished_messages (tr1 ++ tr2) = finished_messages tr1 ++ finished_messages tr2.
Proof. apply List.filter_app. Qed.

Lemma finished_messages_events i l :
  finished_messages (finished_events i l) = finished_events i l.
Proof.
  revert i. induction l as [|nb l IH]; intros i; [done|].
  cbn [finished_events]. unfold finished_messages in *.
  cbn [List.filter is_finished_message].
  replace (FINISHED =? FINISHED) with true by done. by rewrite IH.
Qed.

(** Calls that are not of the finishing side post no FINISHED message. *)
Lemma finished_messages_others (ks : list kind) evs :
  Finishing ∉ ks ->
  Forall (fun e => kind_of e ∈ ks /\ well_tagged e) evs ->
  finished_messages evs = [].
Proof.
  intros Hks Hall. induction Hall as [|e evs [He Ht] _ IH]; [done|].
  unfold finished_messages in *. cbn [List.filter]. rewrite IH.
  destruct (is_finished_message e) eqn:Hf; [|done].
  exfalso. apply Hks.
  destruct e as [? ? tag [[] ?]|? tag [[] ?]| | | | |];
    cbn [is_finished_message well_tagged send_tag receive_tag fst] in *;
    try done; try (injection Ht as <-; done).
Qed.

Lemma extends_finished_messages (ks : list kind) w w' :
  Finishing ∉ ks -> extends ks w w' ->
  finished_messages (trace w') = finished_messages (trace w).
Proof.
  intros Hks (evs & Htr & Hall).
  rewrite Htr, finished_messages_app, (finished_messages_others ks evs Hks Hall).
  apply app_nil_r.
Qed.

Lemma testFinishedAll_finished_messages o w flag w' :
  testFinishedAll o w = (flag, w') ->
  finished_messages (trace w') = finished_messages (trace w).
Proof.
  unfold testFinishedAll. destruct (finishedReqResCount w >? 0).
  2: { by intros [= <- <-]. }
  destruct (testall o FinishedRequests (finishedReqResCount w) w)
    as [f1 w1] eqn:H1.
  destruct (testall o FinishedResponses (finishedReqResCount w1) w1)
    as [f2 w2] eqn:H2.
  intros [= <- <-].
  apply testall_inv in H1 as (_ & Ht1 & _ & _).
  apply testall_inv in H2 as (_ & Ht2 & _ & _).
  rewrite Ht2, Ht1, !finished_messages_app. cbn. by rewrite !app_nil_r.
Qed.

Lemma awaitFinished_finished_messages n fuel o t w w' :
  awaitFinished n fuel o t w = Some w' ->
  finished_messages (trace w') = finished_messages (trace w).
Proof.
  revert w. induction n as [|n IH]; intros w H; [done|].
  cbn [awaitFinished] in H.
  destruct (testFinishedAll o w) as [done w1] eqn:Htest.
  apply testFinishedAll_finished_messages in Htest.
  destruct done; [by injection H as <-|].
  apply bind_Some in H as (w2 & Hans & H).
  apply answerAll_quiet in Hans as [(Hans & _) _].
  rewrite (IH w2 H), <- Htest.
  eapply extends_finished_messages; [|exact Hans]. no_answering.
Qed.

Lemma testFinishedAll_count o w flag w' :
  testFinishedAll o w = (flag, w') ->
  finishedReqResCount w' = finishedReqResCount w.
Proof.
  unfold testFinishedAll. destruct (finishedReqResCount w >? 0).
  2: { by intros [= <- <-]. }
  destruct (testall o FinishedRequests (finishedReqResCount w) w)
    as [f1 w1] eqn:H1.
  destruct (testall o FinishedResponses (finishedReqResCount w1) w1)
    as [f2 w2] eqn:H2.
  intros [= <- <-].
  apply testall_inv in H1 as (_ & _ & Hc1 & _).
  apply testall_inv in H2 as (_ & _ & Hc2 & _). congruence.
Qed.

Lemma serviced_count k fuel o t w w' :
  serviced k fuel o t w = Some w' ->
  finishedReqResCount w' = finishedReqResCount w.
Proof.
  revert w. induction k as [|k IH]; intros w H; cbn [serviced] in H.
  - by injection H as <-.
  - destruct (testFinishedAll o w) as [done w1] eqn:Htest.
    apply testFinishedAll_count in Htest. destruct done; [done|].
    apply bind_Some in H as (w2 & Hans & H).
    apply answerAll_quiet in Hans as [(_ & _ & _ & Hfin) _].
    destruct Hfin as (_ & _ & Hc); [no_answering|].
    rewrite (IH w2 H). congruence.
Qed.

(** C4. A worker that returns has, once its iterations are over, posted
    one FINISHED send and one FINISHED receive for each neighbour that
    exists (and these are all the FINISHED messages of its run); it has
    then gone through some rounds in each of which the completion test
    failed and [answerAll] was called once, up to a test that succeeded:
    both calls of [MPI_Testall], over the sends and over the receives,
    have reported every request complete. Only then are the rows of the
    tile sent: no row is sent before that test, and the worker returns
    after them. *)
Theorem worker_leaves_after_the_handshake fuel o world_size world_rank
    beta gammaValue t code w' :
  length (neighbours t) = 8%nat ->
  slave fuel o world_size world_rank beta gammaValue t = Some (code, w') ->
  exists w2 w3 k wk w4 rows_sent,
    sendFinishedAll t w2 = Some w3 /\
    trace w3 = trace w2 ++ finished_events 0 (existing t) /\
    finished_messages (trace w') = finished_events 0 (existing t) /\
    serviced k fuel o t w3 = Some wk /\
    testFinishedAll o wk = (true, w4) /\
    (existing t <> [] ->
     trace w4
     = trace wk
       ++ [MPI_Testall FinishedRequests (Z.of_nat (length (existing t))) true;
           MPI_Testall FinishedResponses (Z.of_nat (length (existing t))) true]) /\
    Forall (fun e => kind_of e <> Returning) (trace w4) /\
    trace w' = trace w4 ++ rows_sent /\
    Forall (fun e => kind_of e = Returning) rows_sent /\
    code = 0.
Proof.
  intros Hn (-> & iterations & w1 & w2 & w3 & w4 & _ & H1 & H2 & H3 & H4 & H5)
    %slave_phases.
  pose proof (initializeAnswers_quiet _ _ _ H1) as [F1 _].
  pose proof (sampler_footprint _ _ _ _ _ _ _ _ _ H2) as F2.
  pose proof (sendFinishedAll_quiet _ _ _ H3) as [F3 _].
  pose proof (awaitFinished_quiet _ _ _ _ _ _ H4) as [F4 _].
  pose proof (sendTile_quiet _ _ _ _ H5) as [((rows_sent & Hrows & Hall) & _) _].
  (* the finishing side is untouched while sampling *)
  assert (footprint [Asking; Answering; Random] (start t) w2) as F12.
  { eapply footprint_trans; [|exact F2].
    eapply footprint_weaken; [|exact F1]. sub_kinds. }
  destruct F12 as (E12 & _ & _ & Hfin).
  destruct Hfin as (Hq & Hr & Hc); [no_answering|].
  destruct (sendFinishedAll_posts t w2) as (w3' & Heq & Htr3 & Hcount3);
    [done|by rewrite Hq|by rewrite Hr|by rewrite Hc|].
  rewrite H3 in Heq. injection Heq as <-.
  destruct (awaitFinished_serviced _ _ _ _ _ _ H4) as (k & wk & _ & Hserv & Hlast).
  exists w2, w3, k, wk, w4, rows_sent.
  split; [done|]. split; [done|]. split.
  { destruct (proj1 (sendTile_quiet _ _ _ _ H5)) as (E5 & _).
    rewrite (extends_finished_messages [Returning] w4 w') by (done || no_answering).
    rewrite (awaitFinished_finished_messages _ _ _ _ _ _ H4).
    rewrite Htr3, finished_messages_app, finished_messages_events.
    rewrite (extends_finished_messages [Asking; Answering; Random] (start t) w2)
      by (done || no_answering).
    done. }
  split; [done|]. split; [done|]. split.
  { intros Hex. pose proof (serviced_count _ _ _ _ _ _ Hserv) as Hck.
    rewrite Hcount3 in Hck. rewrite <- Hck.
    apply (testFinishedAll_complete o); [done|]. rewrite Hck.
    destruct (existing t); [done|]. cbn [length]. lia. }
  split.
  { assert (footprint [Asking; Answering; Finishing; Random] (start t) w4)
      as ((evs & Htr & Hevs) & _).
    { eapply footprint_trans;
        [eapply footprint_weaken; [|exact F1]; sub_kinds|].
      eapply footprint_trans;
        [eapply footprint_weaken; [|exact F2]; sub_kinds|].
      eapply footprint_trans;
        [eapply footprint_weaken; [|exact F3]; sub_kinds|].
      eapply footprint_weaken; [|exact F4]. sub_kinds. }
    cbn [start trace app] in Htr. rewrite Htr.
    eapply Forall_impl; [exact Hevs|]. intros e [He _] Heq.
    rewrite Heq in He. revert He. no_answering. }
  split; [done|]. split; [|done].
  eapply Forall_impl; [exact Hall|]. intros e [He _].
  rewrite elem_of_cons, elem_of_nil in He. tauto.
Qed.
(** ** The budget of a run *)

Lemma sampler_returns_iterate n fuel o beta gammaValue t iterations w w' :
  0 <= iterations <= INT_MAX ->
  sampler n fuel o beta gammaValue t iterations w = Some w' ->
  iterate (Z.to_nat iterations) (iteration fuel o beta gammaValue t) w = Some w'.
Proof.
  unfold INT_MAX. revert iterations w.
  induction n as [|n IH]; intros iterations w Hi H; [done|].
  cbn [sampler] in H. destruct (Z.eqb_spec iterations 0) as [->|Hne].
  - by injection H as <-.
  - cbn [negb] in H. apply bind_Some in H as (w1 & Hit & H).
    rewrite int_sub_exact in H by (unfold is_int, INT_MIN, INT_MAX; lia).
    apply IH in H; [|lia].
    replace (Z.to_nat iterations) with (S (Z.to_nat (iterations - 1))) by lia.
    cbn [iterate]. rewrite Hit. exact H.
Qed.

Lemma draws_app tr evs : draws (tr ++ evs) = draws tr + draws evs.
Proof.
  unfold draws. rewrite List.filter_app, length_app. lia.
Qed.

(** Calls of other kinds are no draws. *)
Lemma extends_draws ks w w' :
  Random ∉ ks -> extends ks w w' -> draws (trace w') = draws (trace w).
Proof.
  intros Hks (evs & -> & Hall). rewrite draws_app.
  assert (draws evs = 0) as ->; [|lia].
  unfold draws. induction Hall as [|e evs [He _] _ IH]; [done|].
  cbn [List.filter]. destruct e; cbn [is_draw]; try exact IH.
  cbn [kind_of] in He. done.
Qed.

Lemma call_rand_draws o w r w' :
  call_rand o w = (r, w') -> draws (trace w') = draws (trace w) + 1.
Proof.
  unfold call_rand. intros [= _ <-]. fields. by rewrite draws_app.
Qed.

Lemma iteration_draws fuel o beta gammaValue t w w' :
  iteration fuel o beta gammaValue t w = Some w' ->
  draws (trace w') = draws (trace w) + 3.
Proof.
  unfold iteration.
  destruct (call_rand o w) as [r1 w1] eqn:Hr1.
  intros (rowPosition & _ & H)%bind_Some.
  destruct (call_rand o w1) as [r2 w2] eqn:Hr2.
  apply bind_Some in H as (columnPosition & _ & H).
  apply bind_Some in H as (sum & _ & H).
  apply bind_Some in H as (w3 & Hask & H).
  apply bind_Some in H as (w4 & Hwait & H).
  apply bind_Some in H as ([answers w5] & Hres & H).
  apply bind_Some in H as (initial & _ & H).
  apply bind_Some in H as (current & _ & H).
  unfold randomProbability in H.
  destruct (call_rand o w5) as [r3 w6] eqn:Hr3.
  apply call_rand_draws in Hr1, Hr2, Hr3.
  apply askNeighbours_quiet in Hask as [[Hask _] _].
  apply awaitAnswers_quiet in Hwait as [[Hwait _] _].
  apply askResult_quiet in Hres as [[Hres _] _].
  apply extends_draws in Hask; [|no_answering].
  apply extends_draws in Hwait; [|no_answering].
  apply extends_draws in Hres; [|no_answering].
  assert (draws (trace w') = draws (trace w6)) as ->; [|lia].
  destruct (PrimFloat.leb _ _).
  - unfold flip in H. apply bind_Some in H as (x & _ & [= <-]). by fields.
  - by injection H as <-.
Qed.

Lemma iterate_draws k fuel o beta gammaValue t w w' :
  iterate k (iteration fuel o beta gammaValue t) w = Some w' ->
  draws (trace w') = draws (trace w) + 3 * Z.of_nat k.
Proof.
  revert w. induction k as [|k IH]; intros w H.
  - injection H as <-. lia.
  - cbn [iterate] in H. apply bind_Some in H as (w1 & Hit & H).
    apply iteration_draws in Hit. apply IH in H. lia.
Qed.

(** C6. A worker of a run of [world_size] processes, of which
    [world_size - 1] are workers, performs exactly
    floor(5,000,000 / (world_size - 1)) iterations of the sampler: a run of
    [slave] that returns is the start-up, that many iterations one after the
    other, and the handshake with the rows; and as each iteration calls
    [rand] three times and nothing else does, the run has made three times
    that many draws. *)
Theorem worker_iteration_budget fuel o world_size world_rank beta gammaValue
    t code w' :
  2 <= world_size <= INT_MAX ->
  slave fuel o world_size world_rank beta gammaValue t = Some (code, w') ->
  let workers := world_size - 1 in
  let budget := 5000000 / workers in
  exists w0 w1,
    initializeAnswers t (start t) = Some w0 /\
    iterate (Z.to_nat budget) (iteration fuel o beta gammaValue t) w0 = Some w1 /\
    leave fuel o t w1 = Some w' /\
    draws (trace w0) = 0 /\
    draws (trace w1) = 3 * budget /\
    draws (trace w') = 3 * budget.
Proof.
  intros Hws Hrun workers budget.
  apply slave_phases in Hrun
    as (_ & iterations & w1 & w2 & w3 & w4 & Hit & H1 & H2 & H3 & H4 & H5).
  rewrite iterations_per_worker in Hit by done. injection Hit as <-.
  fold workers budget in H2.
  assert (0 <= budget <= 5000000) as Hb.
  { subst budget workers. unfold INT_MAX in Hws. split.
    - apply Z.div_pos; lia.
    - apply Z.div_le_upper_bound; lia. }
  apply sampler_returns_iterate in H2; [|unfold INT_MAX; lia].
  exists w1, w2. split; [done|]. split; [done|].
  split; [unfold leave; by rewrite H3; cbn; rewrite H4|].
  assert (draws (trace w1) = 0) as Hd1.
  { apply initializeAnswers_quiet in H1 as [[H1 _] _].
    apply extends_draws in H1; [|no_answering]. by rewrite H1. }
  assert (draws (trace w2) = 3 * budget) as Hd2.
  { apply iterate_draws in H2. lia. }
  split; [done|]. split; [done|].
  apply sendFinishedAll_quiet in H3 as [[H3 _] _].
  apply awaitFinished_quiet in H4 as [[H4 _] _].
  apply sendTile_quiet in H5 as [[H5 _] _].
  apply extends_draws in H3; [|no_answering].
  apply extends_draws in H4; [|no_answering].
  apply extends_draws in H5; [|no_answering].
  lia.
Qed.
(** ** The coordinator *)

Lemma silent_ret {A : Type} (a : A) : silent (ret a).
Proof. by intros out H. Qed.

Lemma silent_stop {A : Type} (e : outcome) : silent (@stop A e).
Proof. by intros out H. Qed.

Lemma silent_say e : is_row_error e = false -> silent (say e).
Proof.
  intros He out H. cbn. apply Forall_app. split; [done|].
  by apply Forall_singleton.
Qed.

Lemma silent_bind {A B : Type} (m : step A) (k : A -> step B) :
  silent m -> (forall a out out', m out = (out', inr a) -> silent (k a)) ->
  silent (bind m k).
Proof.
  intros Hm Hk out H. unfold bind. specialize (Hm out H).
  destruct (m out) as [out' [e|a]] eqn:Hrun; [done|].
  eapply Hk; done.
Qed.

Lemma silent_each l body :
  (forall i, silent (body i)) -> silent (each l body).
Proof.
  intros Hbody. induction l as [|i l IH]; [apply silent_ret|].
  cbn [each]. apply silent_bind; [done|]. intros _ _ _ _. exact IH.
Qed.

Lemma silent_each_until l body :
  (forall i, silent (body i)) -> silent (each_until l body).
Proof.
  intros Hbody. induction l as [|i l IH]; [apply silent_ret|].
  cbn [each_until]. apply silent_bind; [done|]. intros [] _ _ _; [exact IH|].
  apply silent_ret.
Qed.

Lemma silent_send_to world_size data destination tag :
  silent (send_to world_size data destination tag).
Proof.
  unfold send_to. destruct (_ && _); [by apply silent_say|apply silent_stop].
Qed.

Lemma silent_divide a b : silent (divide a b).
Proof. unfold divide. destruct (int_div a b); [apply silent_ret|apply silent_stop]. Qed.

Lemma silent_modulo a b : silent (modulo a b).
Proof. unfold modulo. destruct (int_rem a b); [apply silent_ret|apply silent_stop]. Qed.

Lemma silent_sendTopology ws sc rps cps rank :
  silent (sendTopology ws sc rps cps rank).
Proof.
  unfold sendTopology.
  repeat (apply silent_bind; [apply silent_send_to|intros _ _ _ _]).
  apply silent_send_to.
Qed.

Lemma divide_zero b out out' q :
  divide 0 b out = (out', inr q) -> q = 0.
Proof.
  unfold divide, int_div. destruct (b =? 0); [done|].
  change (Z.quot 0 b) with 0. by intros [= _ <-].
Qed.

Ltac silence :=
  repeat first
    [ apply silent_ret | apply silent_stop | apply silent_send_to
    | apply silent_divide | apply silent_modulo | apply silent_sendTopology
    | apply silent_say; reflexivity
    | apply silent_each; intros ?
    | apply silent_bind; [|intros ? ? ? ?] ].

(** With [rowCount] left at 0 the test of line 555 never fires. *)
Lemma silent_master created matrix world_size :
  silent (master created matrix world_size).
Proof.
  unfold master, master_from.
  apply silent_bind.
  { apply silent_each_until. intros i. destruct (created i); silence. }
  intros [] _ _ _; cbn [negb]; [|apply silent_ret].
  apply silent_bind; [by apply silent_say|]. intros _ _ _ _.
  apply silent_bind; [apply silent_divide|]. intros q out out' ->%divide_zero.
  replace (int_mul 0 (int_sub world_size 1)) with 0 by reflexivity.
  cbn [Z.eqb negb]. silence.
Qed.

(** Nor does [main] write it for the coordinator. *)
Lemma main_master_silent created matrix argc world_size e :
  e ∈ (main_master created matrix argc world_size).1 -> is_row_error e = false.
Proof.
  unfold main_master.
  match goal with
  | |- context [match ?run [] with _ => _ end] =>
      assert (silent run) as Hsilent; [|specialize (Hsilent [] (Forall_nil_2 _));
      destruct (run []) as [out [x|x]]]
  end.
  { destruct (negb (argc =? 5)); [silence|].
    apply silent_bind; [by apply silent_say|]. intros _ _ _ _.
    apply silent_bind; [apply silent_master|]. intros error _ _ _.
    destruct (negb (error =? 0)); silence. }
  - cbn [fst] in *. rewrite Forall_forall in Hsilent. apply Hsilent.
  - cbn [fst] in *. rewrite Forall_forall in Hsilent. apply Hsilent.
Qed.

(** C9, at an input that breaks it: four processes (three workers) and an
    image of 8 rows, which 3 does not divide. The coordinator reports
    nothing on standard error, hands out tiles of 0 rows ([rowCount] is
    never read from the image and stays 0) and stops in the division by
    [rowsPerSlave] of line 594. Nor would the report, had [rowCount] been
    8, have ended the run: the branch of line 555 prints and goes on to send
    the tiles. And whatever the number of processes, the threads and the
    arguments are, the coordinator never writes the report. *)
Theorem coordinator_does_not_report_indivisible_rows :
  List.filter is_stderr
    (main_master (fun _ => true) (fun _ => replicate 32 1) 5 4).1 = [] /\
  (main_master (fun _ => true) (fun _ => replicate 32 1) 5 4).2
  = DivisionByZero /\
  List.filter is_stderr
    (master_from (fun _ => true) (fun _ => replicate 32 1) 8 8 4 []).1
  = [to_stderr "Error (Row Mode): rowCount is not divisible by the slave count"
       [3; 8]] /\
  List.In (sendMessage [2] 1 ROWS)
    (master_from (fun _ => true) (fun _ => replicate 32 1) 8 8 4 []).1 /\
  (master_from (fun _ => true) (fun _ => replicate 32 1) 8 8 4 []).2
  = inl InvalidRank /\
  (forall created matrix argc world_size e,
     e ∈ (main_master created matrix argc world_size).1 ->
     is_row_error e = false).
Proof.
  split; [by vm_compute|]. split; [by vm_compute|].
  split; [by vm_compute|]. split.
  { vm_compute. tauto. }
  split; [by vm_compute|]. apply main_master_silent.
Qed.
(** ** Binary64: the quotient of two small integers

    [randomProbability] divides the [double] of a result of [rand] by the
    [double] of [RAND_MAX]. The lemmas below follow the division of the
    standard library's specification of binary64 ([SpecFloat]) for two
    integers [0 <= k <= M < 2^31]. *)

Lemma digits2_pos_bounds (p : positive) :
  2 ^ (Z.pos (digits2_pos p) - 1) <= Z.pos p < 2 ^ Z.pos (digits2_pos p).
Proof.
  induction p as [p IH|p IH|]; cbn [digits2_pos].
  - rewrite Pos2Z.inj_succ. replace (Z.succ (Z.pos (digits2_pos p)) - 1)
      with (Z.succ (Z.pos (digits2_pos p) - 1)) by lia.
    rewrite !Z.pow_succ_r by lia. lia.
  - rewrite Pos2Z.inj_succ. replace (Z.succ (Z.pos (digits2_pos p)) - 1)
      with (Z.succ (Z.pos (digits2_pos p) - 1)) by lia.
    rewrite !Z.pow_succ_r by lia. lia.
  - by vm_compute.
Qed.

(** The number of digits of a positive number is fixed by its size. *)
Lemma digits2_pos_unique (p : positive) (d : Z) :
  2 ^ (d - 1) <= Z.pos p < 2 ^ d -> Z.pos (digits2_pos p) = d.
Proof.
  intros Hp. pose proof (digits2_pos_bounds p) as Hd.
  assert (0 < d).
  { destruct (Z.ltb_spec 0 d); [done|]. 
    assert (2 ^ d <= 2 ^ 0) by (apply Z.pow_le_mono_r; lia).
    change (2 ^ 0) with 1 in *. lia. }
  destruct (Z.lt_trichotomy (Z.pos (digits2_pos p)) d) as [Hlt|[Heq|Hgt]];
    [|done|].
  - assert (2 ^ Z.pos (digits2_pos p) <= 2 ^ (d - 1))
      by (apply Z.pow_le_mono_r; lia). lia.
  - assert (2 ^ d <= 2 ^ (Z.pos (digits2_pos p) - 1))
      by (apply Z.pow_le_mono_r; lia). lia.
Qed.

Lemma iter_xO_value (p n : positive) :
  Z.pos (Pos.iter xO p n) = Z.pos p * 2 ^ Z.pos n.
Proof.
  induction n as [|n IH] using Pos.peano_ind.
  - cbn [Pos.iter]. lia.
  - rewrite Pos.iter_succ, Pos2Z.inj_succ, Z.pow_succ_r by lia.
    rewrite Pos2Z.inj_xO, IH. lia.
Qed.

Lemma fexp_normal (e : Z) : -1074 <= e - 53 -> fexp prec emax e = e - 53.
Proof. intros. unfold fexp, SpecFloat.emin, prec, emax. lia. Qed.

(** A mantissa of 53 digits is left as it is by the rounding. *)
Lemma binary_round_aux_exact (s : bool) (m : positive) (e : Z) :
  Z.pos (digits2_pos m) = 53 -> -1074 <= e <= 971 ->
  binary_round_aux prec emax s (Z.pos m) e loc_Exact = S754_finite s m e.
Proof.
  intros Hd He. unfold binary_round_aux, shr_fexp.
  cbn [Zdigits2 shr_record_of_loc]. rewrite Hd.
  rewrite fexp_normal by lia.
  replace (53 + e - 53 - e) with 0 by lia. cbn [shr shr_m loc_of_shr_record round_nearest_even Zdigits2].
  rewrite Hd, fexp_normal by lia.
  replace (53 + e - 53 - e) with 0 by lia. cbn [shr shr_m].
  replace (e <=? emax - prec) with true; [done|].
  unfold emax, prec. lia.
Qed.

(** The conversion of a positive number of fewer than 53 digits: its
    digits are moved to the top of the mantissa. *)
Lemma binary_normalize_small (p : positive) :
  let d := Z.pos (digits2_pos p) in
  d < 53 ->
  binary_normalize prec emax (Z.pos p) 0 false
  = S754_finite false (Pos.iter xO p (Z.to_pos (53 - d))) (d - 53).
Proof.
  intros d Hd. unfold binary_normalize, binary_round.
  fold d. rewrite fexp_normal by lia. unfold shl_align.
  assert (d + 0 - 53 - 0 = Z.neg (Z.to_pos (53 - d))) as ->.
  { rewrite <- Pos2Z.opp_pos. rewrite Z2Pos.id; clearbody d; lia. }
  apply binary_round_aux_exact; [|lia].
  apply digits2_pos_unique. rewrite iter_xO_value.
  pose proof (digits2_pos_bounds p) as Hp. fold d in Hp.
  rewrite Z2Pos.id by lia.
  assert (2 ^ 53 = 2 ^ (53 - d) * 2 ^ d) as ->
    by (rewrite <- Z.pow_add_r by lia; f_equal; lia).
  assert (2 ^ (53 - 1) = 2 ^ (53 - d) * 2 ^ (d - 1)) as ->
    by (rewrite <- Z.pow_add_r by lia; f_equal; lia).
  assert (0 < 2 ^ (53 - d)) by (apply Z.pow_pos_nonneg; lia). nia.
Qed.

Lemma double_of_int_positive (z : Z) :
  0 < z < 2 ^ 52 ->
  exists m d,
    Prim2SF (double_of_int z) = S754_finite false m (d - 53)
    /\ Z.pos (digits2_pos m) = 53
    /\ 2 ^ (d - 1) <= z < 2 ^ d /\ 0 < d < 53
    /\ Z.pos m = z * 2 ^ (53 - d).
Proof.
  intros Hz. destruct z as [|p|p]; [lia| |lia].
  pose proof (digits2_pos_bounds p) as Hp.
  set (d := Z.pos (digits2_pos p)) in *.
  assert (d < 53) as Hd.
  { destruct (Z.ltb_spec d 53); [done|].
    assert (2 ^ 52 <= 2 ^ (d - 1)) by (apply Z.pow_le_mono_r; lia). lia. }
  exists (Pos.iter xO p (Z.to_pos (53 - d))), d.
  assert (Z.pos (Pos.iter xO p (Z.to_pos (53 - d))) = Z.pos p * 2 ^ (53 - d))
    as Hv by (rewrite iter_xO_value, Z2Pos.id by lia; done).
  split; [|split; [|split; [done|split; [lia|done]]]].
  - unfold double_of_int. replace (Z.pos p <? 0) with false by lia.
    rewrite of_uint63_spec, Uint63.of_Z_spec.
    rewrite Z.mod_small.
    + by apply binary_normalize_small.
    + assert (2 ^ 52 < Uint63Axioms.wB) by (by vm_compute). lia.
  - apply digits2_pos_unique. rewrite Hv.
    assert (2 ^ 53 = 2 ^ (53 - d) * 2 ^ d) as ->
      by (rewrite <- Z.pow_add_r by lia; f_equal; lia).
    assert (2 ^ (53 - 1) = 2 ^ (53 - d) * 2 ^ (d - 1)) as ->
      by (rewrite <- Z.pow_add_r by lia; f_equal; lia).
    assert (0 < 2 ^ (53 - d)) by (apply Z.pow_pos_nonneg; lia). nia.
Qed.

Lemma new_location_spec (m r : Z) :
  0 < m -> 0 <= r < m ->
  match new_location m r with
  | loc_Exact => r = 0
  | loc_Inexact Lt => 0 < r /\ 2 * r < m
  | loc_Inexact Eq => 0 < r /\ 2 * r = m
  | loc_Inexact Gt => 0 < r /\ m < 2 * r
  end.
Proof.
  intros Hm Hr. unfold new_location, new_location_even, new_location_odd.
  destruct (Z.even m) eqn:Heven.
  - destruct (Z.eqb_spec r 0); [done|].
    destruct (Z.compare_spec (2 * r) m); lia.
  - destruct (Z.eqb_spec r 0); [done|].
    assert (Z.odd m = true) as [k Hk]%Z.odd_spec
      by (by rewrite <- Z.negb_even, Heven).
    destruct (Z.compare_spec (2 * r + 1) m); lia.
Qed.

Lemma shr_record_of_loc_m m l : shr_m (shr_record_of_loc m l) = m.
Proof. by destruct l as [|[]]. Qed.

Lemma loc_of_shr_record_of_loc m l :
  loc_of_shr_record (shr_record_of_loc m l) = l.
Proof. by destruct l as [|[]]. Qed.

Lemma shr_fexp_53 (p : positive) (e : Z) (l : location) :
  Z.pos (digits2_pos p) = 53 -> -1074 <= e ->
  shr_fexp prec emax (Z.pos p) e l = (shr_record_of_loc (Z.pos p) l, e).
Proof.
  intros Hd He. unfold shr_fexp. cbn [Zdigits2]. rewrite Hd.
  rewrite fexp_normal by lia. by replace (53 + e - 53 - e) with 0 by lia.
Qed.

Lemma shr_fexp_54 (p : positive) (e : Z) (l : location) :
  Z.pos (digits2_pos p) = 54 -> -1074 <= e ->
  shr_fexp prec emax (Z.pos p) e l
  = (shr_1 (shr_record_of_loc (Z.pos p) l), e + 1).
Proof.
  intros Hd He. unfold shr_fexp. cbn [Zdigits2]. rewrite Hd.
  rewrite fexp_normal by lia. by replace (54 + e - 53 - e) with 1 by lia.
Qed.

Lemma digits_53_or_54 (p : positive) :
  2 ^ 52 <= Z.pos p < 2 ^ 54 ->
  (Z.pos (digits2_pos p) = 53 /\ Z.pos p < 2 ^ 53)
  \/ (Z.pos (digits2_pos p) = 54 /\ 2 ^ 53 <= Z.pos p).
Proof.
  intros Hp. destruct (Z.ltb_spec (Z.pos p) (2 ^ 53)).
  - left. split; [|done]. apply digits2_pos_unique. change (53 - 1) with 52. lia.
  - right. split; [|done]. apply digits2_pos_unique. change (54 - 1) with 53. lia.
Qed.

(** The end of a rounding: a mantissa that rounding up has made 2^53 is
    brought back to 53 digits. *)
Lemma binary_round_aux_end (q1 e : Z) :
  2 ^ 52 <= q1 <= 2 ^ 53 -> -1074 <= e <= 970 ->
  exists m t,
    (let '(mrs, e') := shr_fexp prec emax q1 e loc_Exact in
     match shr_m mrs with
     | 0 => S754_zero false
     | Z.pos m => if e' <=? emax - prec then S754_finite false m e'
                  else S754_infinity false
     | Z.neg _ => S754_nan
     end) = S754_finite false m (e + t)
    /\ 2 ^ 52 <= Z.pos m < 2 ^ 53 /\ 0 <= t <= 1 /\ Z.pos m * 2 ^ t = q1.
Proof.
  intros Hq He. destruct q1 as [|p|p]; [lia| |lia].
  destruct (Z.eq_dec (Z.pos p) (2 ^ 53)) as [Heq|Hne].
  - injection Heq as ->. exists 4503599627370496%positive, 1.
    rewrite shr_fexp_54 by (done || lia). cbn [shr_record_of_loc shr_1 shr_m].
    replace (e + 1 <=? emax - prec) with true by (unfold emax, prec; lia).
    split; [done|]. split; [by vm_compute|]. split; [lia|by vm_compute].
  - destruct (digits_53_or_54 p) as [[Hd Hlt]|[Hd Hge]]; [lia| |lia].
    exists p, 0. rewrite shr_fexp_53 by (done || lia).
    cbn [shr_record_of_loc shr_m].
    replace (e <=? emax - prec) with true by (unfold emax, prec; lia).
    rewrite Z.add_0_r. split; [done|]. split; [lia|]. split; [lia|].
    change (2 ^ 0) with 1. lia.
Qed.

Lemma round_nearest_even_cases (m : Z) (l : location) :
  round_nearest_even m l
  = match l with
    | loc_Exact | loc_Inexact Lt => m
    | loc_Inexact Eq => if Z.even m then m else m + 1
    | loc_Inexact Gt => m + 1
    end.
Proof. by destruct l as [|[]]. Qed.

(** The rounding of a quotient [q + r / m2] of 53 or 54 digits: the
    mantissa has 53 digits and is within half a unit of the quotient. *)
Lemma binary_round_aux_quotient (q r m2 e : Z) :
  2 ^ 52 <= q < 2 ^ 54 -> 0 < m2 -> 0 <= r < m2 -> -1074 <= e <= 960 ->
  exists m s,
    binary_round_aux prec emax false q e (new_location m2 r)
    = S754_finite false m (e + s)
    /\ 2 ^ 52 <= Z.pos m < 2 ^ 53 /\ 0 <= s <= 2
    /\ Z.abs (2 * (Z.pos m * 2 ^ s) * m2 - 2 * (q * m2 + r)) <= 2 ^ s * m2.
Proof.
  intros Hq Hm2 Hr He.
  pose proof (new_location_spec m2 r Hm2 Hr) as Hloc.
  destruct q as [|p|p]; [lia| |lia].
  unfold binary_round_aux.
  destruct (digits_53_or_54 p Hq) as [[Hd Hlt]|[Hd Hge]].
  - rewrite shr_fexp_53 by (done || lia).
    rewrite shr_record_of_loc_m, loc_of_shr_record_of_loc.
    set (q1 := round_nearest_even (Z.pos p) (new_location m2 r)).
    assert (q1 = Z.pos p \/ q1 = Z.pos p + 1) as Hq1.
    { subst q1. rewrite round_nearest_even_cases.
      destruct (new_location m2 r) as [|[]]; try tauto.
      destruct (Z.even _); tauto. }
    destruct (binary_round_aux_end q1 e) as (m & t & -> & Hm & Ht & Hv);
      [lia|lia|].
    exists m, t. split; [done|]. split; [done|]. split; [lia|].
    rewrite Hv.
    assert (1 <= 2 ^ t) by (apply (Z.pow_le_mono_r 2 0 t); lia).
    subst q1. rewrite round_nearest_even_cases in *.
    destruct (new_location m2 r) as [|[]]; try destruct (Z.even _); nia.
  - rewrite shr_fexp_54 by (done || lia).
    assert (2 ^ 53 = 2 * 2 ^ 52) as Hpow by (by vm_compute).
    assert (2 ^ 54 = 2 * 2 ^ 53) as Hpow' by (by vm_compute).
    destruct p as [p'|p'|]; [| |by vm_compute in Hge];
      destruct (new_location m2 r) as [|[]];
      cbn [shr_record_of_loc shr_1 orb shr_m loc_of_shr_record
           round_nearest_even];
      try destruct (Z.even (Z.pos p'));
      match goal with
      | |- context [shr_fexp prec emax ?q1 _ loc_Exact] =>
          destruct (binary_round_aux_end q1 (e + 1))
            as (m & t & -> & Hm & Ht & Hv); [lia|lia|];
          exists m, (1 + t); rewrite Z.add_assoc;
          (split; [done|]); (split; [done|]); (split; [lia|]);
          rewrite (Z.pow_add_r 2 1 t) by lia; change (2 ^ 1) with 2;
          assert (1 <= 2 ^ t) by (apply (Z.pow_le_mono_r 2 0 t); lia);
          nia
      end.
Qed.

(** The quotient of two numbers with mantissas of 53 digits. *)
Lemma SFdiv_normal (m1 m2 : positive) (e1 e2 : Z) :
  Z.pos (digits2_pos m1) = 53 -> Z.pos (digits2_pos m2) = 53 ->
  -900 <= e1 - e2 <= 900 ->
  exists m s,
    SFdiv prec emax (S754_finite false m1 e1) (S754_finite false m2 e2)
    = S754_finite false m (e1 - e2 - 53 + s)
    /\ 2 ^ 52 <= Z.pos m < 2 ^ 53 /\ 0 <= s <= 2
    /\ Z.abs (2 * (Z.pos m * 2 ^ s) * Z.pos m2 - 2 * (Z.pos m1 * 2 ^ 53))
       <= 2 ^ s * Z.pos m2.
Proof.
  intros Hd1 Hd2 He. unfold SFdiv, SFdiv_core_binary. cbn [Zdigits2 xorb].
  rewrite Hd1, Hd2.
  rewrite fexp_normal by lia.
  replace (Z.min (53 + e1 - (53 + e2) - 53) (e1 - e2))
    with (e1 - e2 - 53) by lia.
  replace (e1 - e2 - (e1 - e2 - 53)) with 53 by lia.
  rewrite Z.shiftl_mul_pow2 by lia.
  pose proof (Z_div_mod (Z.pos m1 * 2 ^ 53) (Z.pos m2) eq_refl) as Hdiv.
  destruct (Z.div_eucl (Z.pos m1 * 2 ^ 53) (Z.pos m2)) as [q r].
  destruct Hdiv as [Heq Hr].
  pose proof (digits2_pos_bounds m1) as Hm1. rewrite Hd1 in Hm1.
  pose proof (digits2_pos_bounds m2) as Hm2. rewrite Hd2 in Hm2.
  change (53 - 1) with 52 in *.
  assert (2 ^ 53 = 2 * 2 ^ 52) as Hpow by (by vm_compute).
  assert (2 ^ 54 = 2 * 2 ^ 53) as Hpow' by (by vm_compute).
  assert (0 < 2 ^ 52) by (by vm_compute).
  assert (2 ^ 52 <= q < 2 ^ 54) as Hq by nia.
  destruct (binary_round_aux_quotient q r (Z.pos m2) (e1 - e2 - 53))
    as (m & s & -> & Hm & Hs & Hbound); [done|lia|done|lia|].
  exists m, s. split; [done|]. split; [done|]. split; [done|].
  rewrite Heq. replace (Z.pos m2 * q + r) with (q * Z.pos m2 + r) by lia.
  done.
Qed.

(** The quotient of two positive integers [k <= M] as [randomProbability]
    computes it: a mantissa [m] of 53 digits and an exponent [-E] of at most
    -52, with [m * 2^-E] within half a unit of the last place of [k / M]. *)
Lemma ratio_spec (k M : Z) :
  0 < k <= M -> M < 2 ^ 31 ->
  exists m E,
    Prim2SF (double_of_int k / double_of_int M) = S754_finite false m (- E)
    /\ 2 ^ 52 <= Z.pos m < 2 ^ 53 /\ 52 <= E <= 84
    /\ Z.abs (2 * Z.pos m * M - k * 2 ^ (E + 1)) <= M.
Proof.
  intros Hk HM.
  assert (2 ^ 31 < 2 ^ 52) by (by vm_compute).
  destruct (double_of_int_positive k) as (m1 & dk & HK1 & Hd1 & Hdk & Hdk' & Hm1);
    [lia|].
  destruct (double_of_int_positive M) as (m2 & dM & HM2 & Hd2 & HdM & HdM' & Hm2);
    [lia|].
  rewrite div_spec, HK1, HM2. unfold SF64div.
  assert (dk <= dM) as Hdd.
  { destruct (Z.leb_spec dk dM); [done|].
    assert (2 ^ dM <= 2 ^ (dk - 1)) by (apply Z.pow_le_mono_r; lia). lia. }
  assert (dM <= 31) as HdM31.
  { destruct (Z.leb_spec dM 31); [done|].
    assert (2 ^ 31 <= 2 ^ (dM - 1)) by (apply Z.pow_le_mono_r; lia). lia. }
  destruct (SFdiv_normal m1 m2 (dk - 53) (dM - 53))
    as (m & s & -> & Hm & Hs & Hbound); [done|done|lia|].
  set (A := 2 ^ (53 - dk)) in *. set (B := 2 ^ (53 - dM)) in *.
  assert (0 < A) by (apply Z.pow_pos_nonneg; lia).
  assert (0 < B) by (apply Z.pow_pos_nonneg; lia).
  assert (1 <= 2 ^ s) as Hs1 by (apply (Z.pow_le_mono_r 2 0 s); lia).
  assert (2 ^ 53 = 2 * 2 ^ 52) as Hpow by (by vm_compute).
  assert (0 < 2 ^ 52) by (by vm_compute).
  (* the exponent *)
  assert (s <= 1 \/ dk < dM) as Hcase.
  { destruct (Z.eq_dec dk dM) as [Heq|]; [|lia]. left.
    destruct (Z.leb_spec s 1); [done|]. exfalso.
    assert (s = 2) as -> by lia. change (2 ^ 2) with 4 in *.
    assert (A = B) by (subst A B; by rewrite Heq).
    assert (Z.pos m1 <= Z.pos m2) by nia. nia. }
  set (E := 53 + dM - dk - s).
  exists m, E. replace (dk - 53 - (dM - 53) - 53 + s) with (- E) by lia.
  split; [done|]. split; [done|]. split; [lia|].
  (* the bound *)
  set (P := 2 ^ s * B). assert (0 < P) by nia.
  assert (A * 2 ^ 53 * 2 = 2 ^ (E + 1) * P) as Hid.
  { transitivity (2 ^ (107 - dk)); subst A B P.
    - replace (107 - dk) with ((53 - dk) + 53 + 1) by lia.
      rewrite !Z.pow_add_r by lia. reflexivity.
    - replace (107 - dk) with ((E + 1) + (s + (53 - dM))) by lia.
      rewrite !Z.pow_add_r by lia. reflexivity. }
  set (T := 2 ^ (E + 1)) in *.
  rewrite Hm1, Hm2 in Hbound.
  apply Z.abs_le. apply Z.abs_le in Hbound. nia.
Qed.

Lemma Prim2SF_one : Prim2SF 1 = S754_finite false 4503599627370496 (-52).
Proof. reflexivity. Qed.

Lemma Prim2SF_zero : Prim2SF 0 = S754_zero false.
Proof. reflexivity. Qed.

Lemma ratio_of_zero (M : Z) :
  0 < M < 2 ^ 31 -> (double_of_int 0 / double_of_int M)%float = 0%float.
Proof.
  intros HM. assert (2 ^ 31 < 2 ^ 52) by (by vm_compute).
  destruct (double_of_int_positive M) as (m2 & dM & HM2 & _); [lia|].
  apply Prim2SF_inj. rewrite div_spec, HM2.
  change (double_of_int 0) with 0%float. by rewrite Prim2SF_zero.
Qed.

Lemma ratio_of_one (M : Z) :
  0 < M < 2 ^ 31 -> (double_of_int M / double_of_int M)%float = 1%float.
Proof.
  intros HM.
  destruct (ratio_spec M M) as (m & E & Hu & Hm & HE & Hbound); [lia|lia|].
  apply Prim2SF_inj. rewrite Hu, Prim2SF_one.
  assert (2 ^ (E + 1) = 2 * 2 ^ E) as HT
    by (rewrite Z.add_1_r, Z.pow_succ_r by lia; done).
  assert (2 ^ 53 = 2 * 2 ^ 52) as Hpow by (by vm_compute).
  assert (2 ^ 52 <= 2 ^ E) by (apply Z.pow_le_mono_r; lia).
  assert (Z.pos m = 2 ^ E) as HmE by (apply Z.abs_le in Hbound; nia).
  assert (E = 52) as ->.
  { destruct (Z.eq_dec E 52); [done|].
    assert (2 ^ 53 <= 2 ^ E) by (apply Z.pow_le_mono_r; lia). lia. }
  change (2 ^ 52) with (Z.pos 4503599627370496) in HmE.
  by injection HmE as ->.
Qed.

Lemma ratio_in_unit_interval (k M : Z) :
  0 <= k <= M -> 0 < M < 2 ^ 31 ->
  let u := (double_of_int k / double_of_int M)%float in
  (0 <=? u)%float = true /\ (u <=? 1)%float = true.
Proof.
  intros Hk HM u. subst u.
  destruct (Z.eq_dec k 0) as [->|Hne].
  { by rewrite ratio_of_zero by done. }
  destruct (ratio_spec k M) as (m & E & Hu & Hm & HE & Hbound); [lia|lia|].
  rewrite !leb_spec, Hu, Prim2SF_one, Prim2SF_zero.
  split; [done|]. unfold SFleb, SFcompare.
  destruct (Z.compare_spec (- E) (-52)) as [Heq|Hlt|Hgt]; [|done|lia].
  assert (E = 52) as -> by lia.
  assert (2 ^ 53 = 2 * 2 ^ 52) as Hpow by (by vm_compute).
  assert (Z.pos m = 2 ^ 52) as Hm' by (apply Z.abs_le in Hbound; nia).
  change (2 ^ 52) with (Z.pos 4503599627370496) in Hm'.
  by injection Hm' as ->.
Qed.

(** Distinct results of [rand] give distinct probabilities, in the same
    order. *)
Lemma ratio_increasing (k k' M : Z) :
  0 <= k < k' -> k' <= M -> M < 2 ^ 31 ->
  (double_of_int k / double_of_int M <? double_of_int k' / double_of_int M)%float
  = true.
Proof.
  intros Hk Hk' HM.
  destruct (ratio_spec k' M) as (m' & E' & Hu' & Hm' & HE' & Hbound');
    [lia|lia|].
  rewrite ltb_spec, Hu'.
  destruct (Z.eq_dec k 0) as [->|Hne].
  { rewrite ratio_of_zero by lia. by rewrite Prim2SF_zero. }
  destruct (ratio_spec k M) as (m & E & Hu & Hm & HE & Hbound); [lia|lia|].
  rewrite Hu. unfold SFltb, SFcompare.
  assert (2 ^ 53 = 2 * 2 ^ 52) as Hpow by (by vm_compute).
  assert (2 ^ 31 < 2 ^ 52) as H31 by (by vm_compute).
  assert (0 < 2 ^ 52) by (by vm_compute).
  assert (2 ^ 53 <= 2 ^ (E + 1)) by (apply Z.pow_le_mono_r; lia).
  assert (2 ^ 53 <= 2 ^ (E' + 1)) by (apply Z.pow_le_mono_r; lia).
  apply Z.abs_le in Hbound, Hbound'.
  destruct (Z.compare_spec (- E) (- E')) as [Heq|Hlt|Hgt]; [|done|].
  - assert (E' = E) as -> by lia.
    set (T := 2 ^ (E + 1)) in *.
    rewrite Pos.compare_cont_spec. cbn [Pos.switch_Eq].
    destruct (Pos.compare_spec m m') as [->|Hlt|Hgt]; [|done|]; exfalso; nia.
  - exfalso.
    assert (2 * 2 ^ (E + 1) <= 2 ^ (E' + 1)).
    { rewrite <- (Z.pow_succ_r 2) by lia. apply Z.pow_le_mono_r; lia. }
    set (T := 2 ^ (E + 1)) in *. set (T' := 2 ^ (E' + 1)) in *. nia.
Qed.

(** A product with 1 is exact. *)
Lemma mul_one_r (x : float) : (x * 1)%float = x.
Proof.
  apply Prim2SF_inj. rewrite mul_spec, Prim2SF_one.
  pose proof (Prim2SF_valid x) as Hvalid.
  destruct (Prim2SF x) as [s|s| |s m e]; try (by destruct s); [done|].
  unfold SF64mul, SFmul. rewrite xorb_false_r.
  cbn [valid_binary] in Hvalid. unfold bounded, canonical_mantissa in Hvalid.
  apply andb_prop in Hvalid as [Hcanon Hmax].
  apply Z.eqb_eq in Hcanon. apply Z.leb_le in Hmax.
  rewrite Pos.mul_comm.
  let t := eval cbv in (4503599627370496 * m)%positive in
  change (4503599627370496 * m)%positive with t.
  unfold binary_round_aux, shr_fexp. cbn [Zdigits2 digits2_pos shr_record_of_loc].
  set (d := Z.pos (digits2_pos m)) in *.
  match goal with
  | |- context [fexp prec emax (Z.pos ?p + (e + -52))] =>
      replace (Z.pos p + (e + -52)) with (d + e) by (subst d; lia)
  end.
  rewrite Hcanon. replace (e - (e + -52)) with 52 by lia.
  cbv [shr SpecFloat.iter_pos shr_1 orb].
  cbn [shr_m loc_of_shr_record round_nearest_even Zdigits2].
  fold d. replace (e + -52 + 52) with e by lia.
  rewrite Hcanon, Z.sub_diag. cbn [shr shr_m].
  by replace (e <=? emax - prec) with true by lia.
Qed.
(** ** The acceptance rule *)

Lemma askResult_loop_sum fuel result w v w' :
  0 <= askReqResCount w <= INT_MAX ->
  askResult_loop fuel result w = Some (v, w') ->
  v = foldl int_add result
        (reverse (take (Z.to_nat (askReqResCount w)) (askResponseValues w))).
Proof.
  unfold INT_MAX. revert result w.
  induction fuel as [|fuel IH]; intros result w Hc H; [done|].
  cbn [askResult_loop] in H.
  destruct (Z.eqb_spec (askReqResCount w) 0) as [H0|H0]; cbn [negb] in H.
  - injection H as <- _. by rewrite H0.
  - apply bind_Some in H as (x & Hx & H). fields_in Hx.
    rewrite int_sub_exact in Hx, H by (unfold is_int, INT_MIN, INT_MAX; lia).
    apply IH in H; [|fields; lia]. fields_in H. rewrite H.
    unfold load in Hx. replace (askReqResCount w - 1 <? 0) with false in Hx by lia.
    replace (Z.to_nat (askReqResCount w))
      with (S (Z.to_nat (askReqResCount w - 1))) by lia.
    erewrite take_S_r by exact Hx. by rewrite reverse_snoc.
Qed.

Lemma askResult_remote_sum fuel w v w' :
  askReqResCount w <= INT_MAX ->
  askResult fuel w = Some (v, w') -> v = remote_sum w.
Proof.
  intros Hc. unfold askResult, remote_sum.
  destruct (Z.gtb_spec (askReqResCount w) 0) as [Hpos|Hneg].
  - apply askResult_loop_sum. lia.
  - intros [= <- _]. by replace (Z.to_nat (askReqResCount w)) with 0%nat by lia.
Qed.

Lemma askResult_clock fuel w v w' :
  askResult fuel w = Some (v, w') -> clock w' = clock w.
Proof.
  assert (forall fuel result w v w',
            askResult_loop fuel result w = Some (v, w') -> clock w' = clock w)
    as Hloop.
  { clear. induction fuel as [|fuel IH]; intros result w v w' H; [done|].
    cbn [askResult_loop] in H. destruct (negb _).
    - apply bind_Some in H as (x & _ & H). by apply IH in H.
    - by injection H as _ <-. }
  unfold askResult. destruct (_ >? 0); [apply Hloop|]. by intros [= _ <-].
Qed.

Lemma testall_askReqResCount o a count w flag w' :
  testall o a count w = (flag, w') -> askReqResCount w' = askReqResCount w.
Proof.
  unfold testall. destruct (all_complete o a count w); intros [= <- <-];
    destruct a; fields; done.
Qed.

Lemma testAskAll_count o w flag w' :
  testAskAll o w = (flag, w') -> askReqResCount w' = askReqResCount w.
Proof.
  unfold testAskAll. destruct (askReqResCount w >? 0).
  2: { by intros [= <- <-]. }
  destruct (testall o AskRequests (askReqResCount w) w) as [f1 w1] eqn:H1.
  destruct (testall o AskResponses (askReqResCount w1) w1) as [f2 w2] eqn:H2.
  intros [= <- <-].
  apply testall_askReqResCount in H1, H2.
  destruct f2; fields; congruence.
Qed.

Lemma awaitAnswers_count n fuel o t w w' :
  awaitAnswers n fuel o t w = Some w' -> askReqResCount w' = askReqResCount w.
Proof.
  revert w. induction n as [|n IH]; intros w H; [done|].
  cbn [awaitAnswers] in H.
  destruct (testAskAll o w) as [done w1] eqn:Htest.
  apply testAskAll_count in Htest.
  destruct done; [by injection H as <-|].
  apply bind_Some in H as (w2 & Hans & H).
  apply answerAll_quiet in Hans as [(_ & Hasks & _) _].
  destruct Hasks as (_ & _ & _ & Hc); [no_answering|].
  rewrite (IH w2 H). congruence.
Qed.

Lemma int_rem_divisor r n v : int_rem r n = Some v -> n <> 0.
Proof. unfold int_rem. by destruct (Z.eqb_spec n 0). Qed.

Lemma askResult_trace fuel w v w' :
  askResult fuel w = Some (v, w') -> trace w' = trace w.
Proof.
  assert (forall fuel result w v w',
            askResult_loop fuel result w = Some (v, w') -> trace w' = trace w)
    as Hloop.
  { clear. induction fuel as [|fuel IH]; intros result w v w' H; [done|].
    cbn [askResult_loop] in H. destruct (negb _).
    - apply bind_Some in H as (x & _ & H). by apply IH in H.
    - by injection H as _ <-. }
  unfold askResult. destruct (_ >? 0); [apply Hloop|]. by intros [= _ <-].
Qed.

Lemma iteration_decided fuel o beta gammaValue t w w' :
  (4 <= fuel)%nat -> well_formed t -> rand_in_range o ->
  tile_shape (rows t) (columns t) (subImage w) -> char_pixels (subImage w) ->
  idle w ->
  iteration fuel o beta gammaValue t w = Some w' ->
  let r := Z.rem (rand o (clock w)) (rows t) in
  let c := Z.rem (rand o (S (clock w))) (columns t) in
  let picked :=
    tick (emit (rand_call (rand o (S (clock w))))
            (tick (emit (rand_call (rand o (clock w))) w))) in
  0 <= r < rows t /\ 0 <= c < columns t /\
  exists w_asked w_answered,
    askNeighbours t r c picked = Some w_asked /\
    awaitAnswers fuel fuel o t w_asked = Some w_answered /\
    subImage w_answered = subImage w /\
    subImage w'
    = decided o beta gammaValue t (subImage w) r c
        (int_add (window_sum (subImage w) (rows t) (columns t) r c)
           (remote_sum w_answered))
        (probability o (rand o (clock w_answered))) /\
    trace w' = trace w_answered ++ [rand_call (rand o (clock w_answered))].
Proof.
  intros Hfuel Ht [Hmax Ho] Hshape Hchars [Hq Hs Hv H0] H r c picked.
  destruct Ht as [Hn Hrows Hcols Hinit _]. unfold INT_MAX, INT_MIN in *.
  pose proof (Ho (clock w)) as H1. pose proof (Ho (S (clock w))) as H2.
  unfold iteration, call_rand in H. fields_in H.
  apply bind_Some in H as (rowPosition & Hrow & H).
  pose proof (int_rem_divisor _ _ _ Hrow) as Hrows0.
  destruct (pick_in_range (rand o (clock w)) (rows t)) as [Hrow' Hr];
    [(unfold INT_MAX; lia)..|].
  rewrite Hrow' in Hrow. injection Hrow as <-. fields_in H.
  apply bind_Some in H as (columnPosition & Hcol & H).
  pose proof (int_rem_divisor _ _ _ Hcol) as Hcols0.
  destruct (pick_in_range (rand o (S (clock w))) (columns t)) as [Hcol' Hc];
    [(unfold INT_MAX; lia)..|].
  rewrite Hcol' in Hcol. injection Hcol as <-. fields_in H.
  fold r c in H, Hr, Hc. fold picked in H.
  rewrite summer_window_sum in H by (done || unfold INT_MIN, INT_MAX; lia).
  fields_in H.
  apply bind_Some in H as (w_asked & Hask & H).
  apply bind_Some in H as (w_answered & Hwait & H).
  apply bind_Some in H as ([answers w_summed] & Hsum & H).
  split; [done|]. split; [done|]. exists w_asked, w_answered.
  split; [done|]. split; [done|].
  assert (subImage w_asked = subImage w) as Htile1.
  { apply askNeighbours_quiet in Hask as [_ ->]. subst picked. by fields. }
  assert (subImage w_answered = subImage w) as Htile2.
  { apply awaitAnswers_quiet in Hwait as [_ ->]. done. }
  assert (subImage w_summed = subImage w) as Htile3.
  { pose proof Hsum as Hsum'. apply askResult_quiet in Hsum' as [_ ->]. done. }
  split; [done|].
  assert (askReqResCount w_answered <= INT_MAX) as Hcount.
  { rewrite (awaitAnswers_count _ _ _ _ _ _ Hwait).
    rewrite askNeighbours_ask_list in Hask by (unfold INT_MIN, INT_MAX; lia).
    pose proof (asked_length t r c) as Hlen.
    destruct (ask_list_posts t (questions_for t r c) picked Hn)
      as (w2 & Heq & _ & Hc2 & _); fold (asked t r c);
      try (subst picked; fields; done || lia).
    rewrite Heq in Hask. injection Hask as <-. rewrite Hc2.
    fold (asked t r c). subst picked. fields. rewrite H0. unfold INT_MAX. lia. }
  rewrite (askResult_remote_sum _ _ _ _ Hcount Hsum) in H.
  pose proof (askResult_trace _ _ _ _ Hsum) as Htrace.
  apply askResult_clock in Hsum as Hclock.
  rewrite (pixel_in_tile (initialSubImage t) (rows t) (columns t)) in H by done.
  fields_in H. rewrite Htile3 in H.
  rewrite (pixel_in_tile (subImage w) (rows t) (columns t)) in H by done.
  fields_in H. unfold randomProbability, call_rand in H. fields_in H.
  rewrite Hclock in H. unfold decided, probability.
  destruct (PrimFloat.leb _ _).
  - rewrite (flip_in_tile t) in H by (fields; rewrite ?Htile3; done).
    fields_in H. rewrite Htile3 in H. injection H as <-. fields.
    by rewrite Htrace.
  - injection H as <-. fields. by rewrite Htrace.
Qed.

Lemma pixel_uniform v img r c x :
  uniform v img -> pixel img r c = Some x -> x = v.
Proof.
  intros Himg. unfold pixel. destruct (_ || _); [done|].
  intros (row & Hrow & Hv)%bind_Some.
  unfold uniform in Himg. rewrite Forall_forall in Himg.
  specialize (Himg row (list_elem_of_lookup_2 _ _ _ Hrow)).
  rewrite Forall_forall in Himg. apply Himg.
  by eapply list_elem_of_lookup_2.
Qed.

Lemma px_uniform v img rows columns r c :
  uniform v img -> tile_shape rows columns img ->
  0 <= r < rows -> 0 <= c < columns -> px img r c = v.
Proof.
  intros Himg Hshape Hr Hc.
  eapply pixel_uniform; [done|]. by eapply pixel_in_tile.
Qed.

Lemma px_set_pixel img rows columns r c v :
  tile_shape rows columns img -> 0 <= r < rows -> 0 <= c < columns ->
  px (set_pixel img r c v) r c = v.
Proof.
  intros [Hlen Hrows] Hr Hc. unfold px, pixel, set_pixel.
  replace (r <? 0) with false by lia. replace (c <? 0) with false by lia.
  cbn [orb].
  destruct (img !! Z.to_nat r) as [row|] eqn:Hrow.
  2: { apply lookup_ge_None in Hrow. lia. }
  pose proof (lookup_lt_Some _ _ _ Hrow) as Hlt.
  rewrite (list_lookup_insert_eq img (Z.to_nat r)) by done.
  cbn [mbind option_bind].
  rewrite (list_lookup_insert_eq row (Z.to_nat c)); [done|].
  rewrite Forall_forall in Hrows.
  specialize (Hrows row (list_elem_of_lookup_2 _ _ _ Hrow)). lia.
Qed.

Lemma uniform_chars img : uniform 1 img -> char_pixels img.
Proof.
  unfold uniform, char_pixels. intros H.
  eapply Forall_impl; [exact H|]. intros row Hrow.
  eapply Forall_impl; [exact Hrow|]. intros x ->. by vm_compute.
Qed.

Lemma example_oracle_in_range : rand_in_range example_oracle.
Proof. split; [by vm_compute|]. intros time. by vm_compute. Qed.

Lemma example_tile_well_formed : well_formed example_tile.
Proof.
  split; [reflexivity|by vm_compute|by vm_compute| |].
  - split; [reflexivity|repeat constructor].
  - repeat (constructor; try by vm_compute).
Qed.

Lemma example_tile_uniform : uniform 1 (initialSubImage example_tile).
Proof. repeat constructor. Qed.

(** C2 as stated fails on the range of the draw: [rand] may return 0, and
    [u] is then 0, not a number of (0, 1]. *)
Lemma draw_may_be_zero :
  ~ (forall o w,
       rand_in_range o -> 0 < RAND_MAX o ->
       PrimFloat.ltb 0 (randomProbability o w).1 = true).
Proof.
  intros H.
  specialize (H example_oracle example_worker).
  specialize (H example_oracle_in_range eq_refl). vm_compute in H. discriminate.
Qed.

(** C5 as stated fails: in the run of the example the tile is uniformly +1,
    [beta = gamma = 1], the neighbour answers as a uniform tile does, and
    the first draw is 0; [log(0) = -inf <= deltaE] and the pixel (0,0) is
    flipped: the final image is not the initial one. *)
Lemma uniform_tile_may_flip :
  ~ (forall fuel o world_size world_rank beta gammaValue t code w',
       rand_in_range o -> log o 0 = neg_infinity ->
       well_formed t -> uniform 1 (initialSubImage t) ->
       PrimFloat.ltb 0 beta = true -> PrimFloat.ltb 0 gammaValue = true ->
       slave fuel o world_size world_rank beta gammaValue t = Some (code, w') ->
       subImage w' = initialSubImage t).
Proof.
  intros H.
  specialize (H 10%nat example_oracle 5000001 1 1%float 1%float example_tile).
  specialize (fun code w' =>
                H code w' example_oracle_in_range eq_refl
                  example_tile_well_formed example_tile_uniform eq_refl eq_refl).
  destruct (slave 10 example_oracle 5000001 1 1 1 example_tile)
    as [[code w']|] eqn:Hrun; [|vm_compute in Hrun; discriminate].
  specialize (H code w' eq_refl).
  assert (px (subImage w') 0 0 = -1) as Hpx.
  { vm_compute in Hrun. injection Hrun as _ <-. reflexivity. }
  rewrite H in Hpx. vm_compute in Hpx. discriminate.
Qed.
(** * The theorems at the example *)

Lemma example_worker_idle : idle example_worker.
Proof. split; reflexivity. Qed.

Lemma example_worker_shape :
  tile_shape (rows example_tile) (columns example_tile) (subImage example_worker).
Proof. split; [reflexivity|repeat constructor]. Qed.

Lemma example_worker_chars : char_pixels (subImage example_worker).
Proof. repeat (constructor; try by vm_compute). Qed.

Lemma example_worker_binary : binary (subImage example_worker).
Proof. repeat (constructor; try by right). Qed.

Lemma example_questions : questions_in_range example_oracle.
Proof. intros time d p [= <-]. by vm_compute. Qed.

Lemma example_worker_answering : answering example_tile example_worker.
Proof.
  split; try reflexivity.
  - intros d nb Hd Hnb. unfold load in *.
    destruct (d <? 0) eqn:Hneg; [done|].
    destruct (Z.to_nat d) as [|[|[|[|[|[|[|[|n]]]]]]]] eqn:Hn;
      cbn in Hd; try (injection Hd as <-; done); done.
  - exact example_worker_shape.
  - exact example_worker_chars.
Qed.

Lemma example_question_arrived :
  question_arrived example_oracle example_tile (clock example_worker) Top 0.
Proof. split; [by vm_compute|reflexivity]. Qed.

Lemma answerAll_replies_with_window_sum_witness :
  (4 <= 4)%nat /\ well_formed example_tile /\
  questions_in_range example_oracle /\ answering example_tile example_worker /\
  exists w' evs,
    answerAll 4 example_oracle example_tile example_worker = Some w' /\
    subImage w' = subImage example_worker /\
    trace w' = trace example_worker ++ evs /\
    (forall D p,
       question_arrived example_oracle example_tile (clock example_worker) D p
       <-> MPI_Test (AnswerRequests, tag_of D) true (Some p) ∈ evs) /\
    (forall D p,
       question_arrived example_oracle example_tile (clock example_worker) D p ->
       MPI_Isend (Some (reply example_tile (subImage example_worker) D p))
         (neighbour_at example_tile D) ANSWER (AnswerResponses, tag_of D)
       ∈ evs) /\
    answers_questions example_tile (subImage example_worker) evs /\
    MPI_Isend (Some 2) 2 ANSWER (AnswerResponses, TOP) ∈ evs.
Proof.
  split; [lia|]. split; [exact example_tile_well_formed|].
  split; [exact example_questions|]. split; [exact example_worker_answering|].
  destruct (answerAll_replies_with_window_sum 4 example_oracle example_tile
              example_worker)
    as (w' & evs & Hrun & Himg & Htr & Htests & Hsent & Hok);
    [lia|exact example_tile_well_formed|exact example_questions
    |exact example_worker_answering|].
  exists w', evs.
  split; [exact Hrun|]. split; [exact Himg|]. split; [exact Htr|].
  split; [exact Htests|]. split; [exact Hsent|]. split; [exact Hok|].
  exact (Hsent Top 0 example_question_arrived).
Defined.

Lemma example_iteration :
  iteration 10 example_oracle 1 1 example_tile example_worker
  = Some example_iterated.
Proof. vm_compute. reflexivity. Qed.

Lemma example_sampler :
  sampler 10 10 example_oracle 1 1 example_tile 1 example_worker
  = Some example_sampled.
Proof. vm_compute. reflexivity. Qed.

Lemma example_slave :
  slave 10 example_oracle 5000001 1 1 1 example_tile = Some (0, example_final).
Proof. vm_compute. reflexivity. Qed.

Lemma sampler_keeps_pixels_binary_witness :
  binary (subImage example_worker) /\
  sampler 10 10 example_oracle 1 1 example_tile 1 example_worker
  = Some example_sampled /\
  binary (subImage example_sampled).
Proof.
  split; [exact example_worker_binary|]. split; [exact example_sampler|].
  exact (sampler_keeps_pixels_binary 10 10 example_oracle 1 1 example_tile 1
           example_worker example_sampled example_worker_binary example_sampler).
Defined.

Lemma worker_leaves_after_the_handshake_witness :
  length (neighbours example_tile) = 8%nat /\
  slave 10 example_oracle 5000001 1 1 1 example_tile = Some (0, example_final) /\
  exists w2 w3 k wk w4 rows_sent,
    sendFinishedAll example_tile w2 = Some w3 /\
    trace w3 = trace w2 ++ finished_events 0 (existing example_tile) /\
    finished_messages (trace example_final)
    = finished_events 0 (existing example_tile) /\
    serviced k 10 example_oracle example_tile w3 = Some wk /\
    testFinishedAll example_oracle wk = (true, w4) /\
    (existing example_tile <> [] ->
     trace w4
     = trace wk
       ++ [MPI_Testall FinishedRequests
             (Z.of_nat (length (existing example_tile))) true;
           MPI_Testall FinishedResponses
             (Z.of_nat (length (existing example_tile))) true]) /\
    Forall (fun e => kind_of e <> Returning) (trace w4) /\
    trace example_final = trace w4 ++ rows_sent /\
    Forall (fun e => kind_of e = Returning) rows_sent /\
    0 = 0.
Proof.
  split; [reflexivity|]. split; [exact example_slave|].
  exact (worker_leaves_after_the_handshake 10 example_oracle 5000001 1 1 1
           example_tile 0 example_final eq_refl example_slave).
Defined.

Lemma example_slave_twice :
  slave 10 example_oracle 2500001 1 1 1 example_tile = Some (0, example_twice).
Proof. vm_compute. reflexivity. Qed.

Lemma worker_iteration_budget_witness :
  2 <= 2500001 <= INT_MAX /\
  slave 10 example_oracle 2500001 1 1 1 example_tile = Some (0, example_twice) /\
  exists w0 w1,
    initializeAnswers example_tile (start example_tile) = Some w0 /\
    iterate (Z.to_nat (5000000 / (2500001 - 1)))
      (iteration 10 example_oracle 1 1 example_tile) w0 = Some w1 /\
    leave 10 example_oracle example_tile w1 = Some example_twice /\
    draws (trace w0) = 0 /\
    draws (trace w1) = 3 * (5000000 / (2500001 - 1)) /\
    draws (trace example_twice) = 3 * (5000000 / (2500001 - 1)).
Proof.
  split; [by vm_compute|]. split; [exact example_slave_twice|].
  apply (worker_iteration_budget 10 example_oracle 2500001 1 1 1 example_tile
           0 example_twice); [by vm_compute|exact example_slave_twice].
Defined.

Lemma one_reply_in_flight_per_direction_witness :
  slave 10 example_oracle 5000001 1 1 1 example_tile = Some (0, example_final) /\
  (forall d, one_reply_in_flight d (trace example_final)) /\
  (forall payload dest tag h,
     MPI_Isend payload dest tag h ∈ trace example_final ->
     tag = ANSWER <-> h.1 = AnswerResponses).
Proof.
  split; [exact example_slave|].
  exact (one_reply_in_flight_per_direction 10 example_oracle 5000001 1 1 1
           example_tile 0 example_final example_slave).
Defined.


Lemma interior_oracle_in_range : rand_in_range interior_oracle.
Proof. split; [by vm_compute|]. intros time. by vm_compute. Qed.

Lemma interior_tile_well_formed : well_formed interior_tile.
Proof.
  split; [reflexivity|by vm_compute|by vm_compute| |].
  - split; [reflexivity|repeat constructor].
  - repeat (constructor; try by vm_compute).
Qed.

Lemma interior_iteration_is_local_witness :
  (4 <= 4)%nat /\ well_formed interior_tile /\ rand_in_range interior_oracle /\
  tile_shape (rows interior_tile) (columns interior_tile)
    (subImage (start interior_tile)) /\
  char_pixels (subImage (start interior_tile)) /\
  askReqResCount (start interior_tile) = 0 /\
  0 < Z.rem 1 3 < 3 - 1 /\
  exists w',
    iteration 4 interior_oracle 1 1 interior_tile (start interior_tile) = Some w' /\
    trace w' = [rand_call 1; rand_call 1; rand_call 1] /\
    askReqResCount w' = 0 /\
    subImage w'
    = decided interior_oracle 1 1 interior_tile (subImage (start interior_tile))
        1 1 (window_sum (subImage (start interior_tile)) 3 3 1 1)
        (probability interior_oracle 1).
Proof.
  split; [lia|]. split; [exact interior_tile_well_formed|].
  split; [exact interior_oracle_in_range|].
  split; [exact (initial_shape _ interior_tile_well_formed)|].
  split; [exact (initial_chars _ interior_tile_well_formed)|].
  split; [reflexivity|]. split; [by vm_compute|].
  destruct (interior_iteration_is_local 4 interior_oracle 1 1 interior_tile
              (start interior_tile))
    as (w' & Hrun & Htrace & _ & Hcount & Himg & _);
    [lia|exact interior_tile_well_formed|exact interior_oracle_in_range
    |exact (initial_shape _ interior_tile_well_formed)
    |exact (initial_chars _ interior_tile_well_formed)
    |reflexivity|by vm_compute|by vm_compute|].
  exists w'. split; [exact Hrun|]. split; [exact Htrace|].
  split; [exact Hcount|]. exact Himg.
Defined.
(** * Further properties of the code *)

(** ** The neighbour sum at the edges *)

Lemma binary_chars img : binary img -> char_pixels img.
Proof.
  unfold binary, char_pixels. intros H.
  eapply Forall_impl; [exact H|]. intros row Hrow.
  eapply Forall_impl; [exact Hrow|]. intros x [-> | ->]; by vm_compute.
Qed.

Lemma px_binary img i j : binary img -> -1 <= px img i j <= 1.
Proof.
  intros Hb. unfold px.
  destruct (pixel img i j) as [x|] eqn:Hx; cbn; [|lia].
  destruct (pixel_binary img i j x Hb Hx) as [-> | ->]; lia.
Qed.

Lemma cell_binary img rows columns rc cc i j :
  binary img -> -1 <= cell img rows columns rc cc i j <= 1.
Proof.
  intros Hb. unfold cell. destruct (_ && _); [by apply px_binary|lia].
Qed.

Lemma cell_centre img rows columns rc cc : cell img rows columns rc cc rc cc = 0.
Proof.
  unfold cell. rewrite !Z.eqb_refl. cbn [negb orb].
  by rewrite andb_false_r.
Qed.

Lemma cell_outside img rows columns rc cc i j :
  i < 0 \/ rows <= i \/ j < 0 \/ columns <= j ->
  cell img rows columns rc cc i j = 0.
Proof.
  intros H. unfold cell.
  destruct (Z.leb_spec 0 i), (Z.ltb_spec i rows), (Z.leb_spec 0 j),
    (Z.ltb_spec j columns); cbn [andb]; try done; lia.
Qed.

(** X1. On a tile of pixels -1 and +1, [summer] returns for every centre,
    on the tile or off it, and its result lies between -8 and 8: the
    window has nine cells and the centre is never counted. *)
Theorem summer_of_binary_tile_bounded fuel img rows columns rc cc :
  (4 <= fuel)%nat ->
  tile_shape rows columns img -> binary img ->
  INT_MIN < rc < INT_MAX - 1 -> INT_MIN < cc < INT_MAX - 1 ->
  exists sum,
    summer fuel img rows columns rc cc = Some sum /\ -8 <= sum <= 8.
Proof.
  intros Hfuel Hshape Hb Hrc Hcc.
  rewrite summer_rows by (done || by apply binary_chars).
  eexists. split; [reflexivity|]. unfold row_part.
  rewrite cell_centre.
  pose proof (cell_binary img rows columns rc cc (rc - 1) (cc - 1) Hb).
  pose proof (cell_binary img rows columns rc cc (rc - 1) cc Hb).
  pose proof (cell_binary img rows columns rc cc (rc - 1) (cc + 1) Hb).
  pose proof (cell_binary img rows columns rc cc rc (cc - 1) Hb).
  pose proof (cell_binary img rows columns rc cc rc (cc + 1) Hb).
  pose proof (cell_binary img rows columns rc cc (rc + 1) (cc - 1) Hb).
  pose proof (cell_binary img rows columns rc cc (rc + 1) cc Hb).
  pose proof (cell_binary img rows columns rc cc (rc + 1) (cc + 1) Hb).
  lia.
Qed.

(** X2. A window that misses the tile sums to 0 and reads no pixel:
    [summer] returns 0 when the centre is more than one row or one column
    away from the tile, and whenever the tile has no rows or no columns,
    whatever stands in memory at [subImage] (the result is the same for
    every image, the empty one included). *)
Theorem summer_off_the_tile_is_zero fuel img rows columns rc cc :
  (4 <= fuel)%nat ->
  INT_MIN < rc < INT_MAX - 1 -> INT_MIN < cc < INT_MAX - 1 ->
  rc < -1 \/ rows < rc \/ cc < -1 \/ columns < cc \/ rows <= 0 \/ columns <= 0 ->
  summer fuel img rows columns rc cc = Some 0.
Proof.
  intros Hfuel Hrc Hcc Hout. unfold summer.
  assert (forall i j sum,
            rc - 1 <= i <= rc + 1 -> cc - 1 <= j <= cc + 1 ->
            (0 <=? i) && (i <? rows) = true ->
            (if (0 <=? j) && (j <? columns) then
               if negb (i =? rc) || negb (j =? cc) then
                 x ← pixel img i j; Some (int_add sum x)
               else Some sum
             else Some sum) = Some sum) as Hinner.
  { intros i j sum Hi Hj Hrow.
    destruct (Z.leb_spec 0 j), (Z.ltb_spec j columns); cbn [andb];
      try reflexivity.
    destruct (Z.leb_spec 0 i), (Z.ltb_spec i rows); cbn [andb] in Hrow;
      try discriminate. exfalso. lia. }
  assert (forall i sum,
            rc - 1 <= i <= rc + 1 ->
            (if (0 <=? i) && (i <? rows) then
               for_le fuel (int_sub cc 1) (int_add cc 1)
                 (fun j sum =>
                    if (0 <=? j) && (j <? columns) then
                      if negb (i =? rc) || negb (j =? cc) then
                        x ← pixel img i j; Some (int_add sum x)
                      else Some sum
                    else Some sum)
                 sum
             else Some sum) = Some sum) as Houter.
  { intros i sum Hi.
    destruct ((0 <=? i) && (i <? rows)) eqn:Hrow; [|done].
    rewrite for_le_three by done.
    do 2 (rewrite Hinner by (assumption || lia); cbn [mbind option_bind]).
    apply Hinner; (assumption || lia). }
  rewrite for_le_three by done.
  do 2 (rewrite Houter by lia; cbn [mbind option_bind]).
  apply Houter. lia.
Qed.

(** ** Collecting the answers *)

Lemma askResult_loop_total fuel result w :
  0 <= askReqResCount w <= Z.of_nat (length (askResponseValues w)) ->
  askReqResCount w <= INT_MAX ->
  (Z.to_nat (askReqResCount w) < fuel)%nat ->
  askResult_loop fuel result w
  = Some (foldl int_add result
            (reverse (take (Z.to_nat (askReqResCount w)) (askResponseValues w))),
          set_askReqResCount 0 w).
Proof.
  unfold INT_MAX. revert result w.
  induction fuel as [|fuel IH]; intros result w Hc Hmax Hfuel; [lia|].
  cbn [askResult_loop].
  destruct (Z.eqb_spec (askReqResCount w) 0) as [H0|H0]; cbn [negb].
  - assert (set_askReqResCount 0 w = w) as ->
      by (apply worker_eq; fields; try reflexivity; done).
    by rewrite H0.
  - fields. rewrite int_sub_exact by (unfold is_int, INT_MIN, INT_MAX; lia).
    destruct (load_Some (askResponseValues w) (askReqResCount w - 1)) as [x Hx];
      [lia|].
    rewrite Hx. fields. rewrite IH by (fields; lia). fields.
    unfold load in Hx. replace (askReqResCount w - 1 <? 0) with false in Hx by lia.
    replace (Z.to_nat (askReqResCount w))
      with (S (Z.to_nat (askReqResCount w - 1))) by lia.
    erewrite take_S_r by exact Hx. rewrite reverse_snoc. cbn [foldl].
    reflexivity.
Qed.

Lemma askResult_total fuel w :
  0 <= askReqResCount w <= Z.of_nat (length (askResponseValues w)) ->
  askReqResCount w <= INT_MAX ->
  (Z.to_nat (askReqResCount w) < fuel)%nat ->
  askResult fuel w = Some (remote_sum w, set_askReqResCount 0 w).
Proof.
  intros Hc Hmax Hfuel. unfold askResult, remote_sum.
  destruct (Z.gtb_spec (askReqResCount w) 0) as [Hpos|Hneg].
  - by apply askResult_loop_total.
  - assert (askReqResCount w = 0) as H0 by lia.
    assert (set_askReqResCount 0 w = w) as ->
      by (apply worker_eq; fields; try reflexivity; done).
    by rewrite H0.
Qed.

(** X3. [askResult] with [count] answers outstanding (0 <= count, within
    the array of values) returns the [int] sum of the values of the slots
    [count-1] down to 0 and leaves the count at 0; nothing else of the
    state changes and no library call is made. *)
Theorem askResult_sums_and_resets fuel w :
  0 <= askReqResCount w <= Z.of_nat (length (askResponseValues w)) ->
  askReqResCount w <= INT_MAX ->
  (Z.to_nat (askReqResCount w) < fuel)%nat ->
  askResult fuel w = Some (remote_sum w, set_askReqResCount 0 w).
Proof. apply askResult_total. Qed.

Lemma askResult_sums_and_resets_witness :
  0 <= askReqResCount (set_askReqResCount 2 example_final)
  <= Z.of_nat (length (askResponseValues (set_askReqResCount 2 example_final))) /\
  askReqResCount (set_askReqResCount 2 example_final) <= INT_MAX /\
  (Z.to_nat (askReqResCount (set_askReqResCount 2 example_final)) < 3)%nat /\
  askResult 3 (set_askReqResCount 2 example_final)
  = Some (remote_sum (set_askReqResCount 2 example_final),
          set_askReqResCount 0 (set_askReqResCount 2 example_final)).
Proof.
  split; [by vm_compute|]. split; [by vm_compute|]. split; [vm_compute; lia|].
  apply askResult_sums_and_resets; [by vm_compute|by vm_compute|vm_compute; lia].
Defined.

(** ** The tile through a run *)

Lemma set_pixel_shape img rows columns r c v :
  tile_shape rows columns img -> tile_shape rows columns (set_pixel img r c v).
Proof.
  intros [Hlen Hrows]. unfold set_pixel.
  destruct (img !! Z.to_nat r) as [row|] eqn:Hrow; [|done].
  split; [by rewrite (length_insert img)|].
  apply Forall_insert; [done|]. rewrite (length_insert row).
  rewrite Forall_forall in Hrows. apply Hrows.
  by eapply list_elem_of_lookup_2.
Qed.

Lemma pixel_nonneg img r c x : pixel img r c = Some x -> 0 <= r /\ 0 <= c.
Proof.
  unfold pixel.
  destruct (Z.ltb_spec r 0), (Z.ltb_spec c 0); cbn [orb]; try done.
Qed.

Lemma pixel_set_pixel_ne img r c v i j :
  0 <= r -> 0 <= c -> (i, j) <> (r, c) ->
  pixel (set_pixel img r c v) i j = pixel img i j.
Proof.
  intros Hr Hc Hne. unfold pixel, set_pixel.
  destruct (Z.ltb_spec i 0), (Z.ltb_spec j 0); cbn [orb]; try done.
  destruct (img !! Z.to_nat r) as [row|] eqn:Hrow; [|done].
  destruct (decide (i = r)) as [->|Hi].
  - rewrite (list_lookup_insert_eq img (Z.to_nat r)) by (by eapply lookup_lt_Some).
    rewrite Hrow. cbn [mbind option_bind].
    apply list_lookup_insert_ne. intros Heq. apply Hne. f_equal. lia.
  - rewrite (list_lookup_insert_ne img) by lia. done.
Qed.

Lemma pixel_set_pixel_eq img r c v x :
  pixel img r c = Some x -> pixel (set_pixel img r c v) r c = Some v.
Proof.
  intros Hx. pose proof (pixel_nonneg _ _ _ _ Hx) as [Hr Hc].
  revert Hx. unfold pixel, set_pixel.
  replace (r <? 0) with false by lia. replace (c <? 0) with false by lia.
  cbn [orb].
  destruct (img !! Z.to_nat r) as [row|] eqn:Hrow; [|done].
  cbn [mbind option_bind]. intros Hx.
  rewrite (list_lookup_insert_eq img (Z.to_nat r)) by (by eapply lookup_lt_Some).
  cbn [mbind option_bind].
  apply list_lookup_insert_eq. by eapply lookup_lt_Some.
Qed.

Lemma iteration_shape fuel o beta gammaValue t w w' rows columns :
  tile_shape rows columns (subImage w) ->
  iteration fuel o beta gammaValue t w = Some w' ->
  tile_shape rows columns (subImage w').
Proof.
  intros Hshape [-> | (r & c & current & _ & ->)]%iteration_tile; [done|].
  by apply set_pixel_shape.
Qed.

Lemma sampler_shape n fuel o beta gammaValue t iterations w w' rows columns :
  tile_shape rows columns (subImage w) ->
  sampler n fuel o beta gammaValue t iterations w = Some w' ->
  tile_shape rows columns (subImage w').
Proof.
  revert iterations w. induction n as [|n IH]; intros iterations w Hs H; [done|].
  cbn [sampler] in H. destruct (negb (iterations =? 0)).
  - apply bind_Some in H as (w1 & Hit & H).
    eapply IH; [|exact H]. by eapply iteration_shape.
  - by injection H as <-.
Qed.

(** X4. An iteration that returns has changed one pixel at most: either
    the tile is as it was, or one pixel of it has been negated (as a
    [char]) and every other pixel is as it was. The tile keeps its number
    of rows and columns. *)
Theorem iteration_changes_one_pixel_at_most fuel o beta gammaValue t w w'
    rows columns :
  tile_shape rows columns (subImage w) ->
  iteration fuel o beta gammaValue t w = Some w' ->
  tile_shape rows columns (subImage w') /\
  (subImage w' = subImage w \/
   exists r c current,
     pixel (subImage w) r c = Some current /\
     pixel (subImage w') r c = Some (char_wrap (- current)) /\
     forall i j, (i, j) <> (r, c) ->
                 pixel (subImage w') i j = pixel (subImage w) i j).
Proof.
  intros Hshape H. split; [by eapply iteration_shape|].
  apply iteration_tile in H as [Hsame | (r & c & current & Hpx & Hflip)];
    [by left|right].
  exists r, c, current. rewrite Hflip. split; [done|].
  split; [by eapply pixel_set_pixel_eq|].
  intros i j Hne. pose proof (pixel_nonneg _ _ _ _ Hpx) as [Hr Hc].
  by apply pixel_set_pixel_ne.
Qed.

Lemma iteration_changes_one_pixel_at_most_witness :
  tile_shape 2 2 (subImage example_worker) /\
  iteration 10 example_oracle 1 1 example_tile example_worker
  = Some example_iterated /\
  tile_shape 2 2 (subImage example_iterated) /\
  (subImage example_iterated = subImage example_worker \/
   exists r c current,
     pixel (subImage example_worker) r c = Some current /\
     pixel (subImage example_iterated) r c = Some (char_wrap (- current)) /\
     forall i j, (i, j) <> (r, c) ->
                 pixel (subImage example_iterated) i j
                 = pixel (subImage example_worker) i j).
Proof.
  split; [exact example_worker_shape|]. split; [exact example_iteration|].
  exact (iteration_changes_one_pixel_at_most 10 example_oracle 1 1 example_tile
           example_worker example_iterated 2 2 example_worker_shape
           example_iteration).
Defined.

Lemma sendTile_loop fuel t (k : nat) w :
  Z.of_nat (length (subImage w)) = rows t -> rows t <= INT_MAX ->
  (k <= length (subImage w))%nat ->
  (length (subImage w) - k < fuel)%nat ->
  exists w',
    for_lt fuel (Z.of_nat k) (rows t)
      (fun i w =>
         row ← load (subImage w) i;
         Some (emit (MPI_Send row MASTER_RANK (int_add FINAL_IMAGE_START i)) w))
      w = Some w' /\
    trace w' = trace w ++ rows_from k (drop k (subImage w)) /\
    subImage w' = subImage w.
Proof.
  unfold INT_MAX. revert k w.
  induction fuel as [|fuel IH]; intros k w Hlen Hmax Hk Hfuel; [lia|].
  cbn [for_lt]. destruct (Z.ltb_spec (Z.of_nat k) (rows t)) as [Hlt|Hge].
  - destruct (load_Some (subImage w) (Z.of_nat k)) as [row Hrow]; [lia|].
    rewrite Hrow. cbn [mbind option_bind].
    rewrite int_add_exact by (unfold is_int, INT_MIN, INT_MAX; lia).
    replace (Z.of_nat k + 1) with (Z.of_nat (S k)) by lia.
    destruct (IH (S k)
                (emit (MPI_Send row MASTER_RANK
                         (int_add FINAL_IMAGE_START (Z.of_nat k))) w))
      as (w' & -> & Htr & Himg); fields; try lia.
    exists w'. split; [done|]. fields_in Htr. fields_in Himg.
    split; [|done]. rewrite Htr, <- app_assoc. f_equal.
    unfold load in Hrow. replace (Z.of_nat k <? 0) with false in Hrow by lia.
    rewrite Nat2Z.id in Hrow.
    rewrite (drop_S _ _ _ Hrow). unfold rows_from. cbn [imap app].
    rewrite Nat.add_0_r. f_equal. apply imap_ext. intros i x _. cbn.
    do 3 f_equal. lia.
  - exists w. split; [done|]. split; [|done].
    rewrite drop_ge by lia. unfold rows_from. cbn. by rewrite app_nil_r.
Qed.

Lemma sendTile_rows fuel t w :
  Z.of_nat (length (subImage w)) = rows t -> rows t <= INT_MAX ->
  (length (subImage w) < fuel)%nat ->
  exists w',
    sendTile fuel t w = Some w' /\
    trace w' = trace w ++ rows_sent (subImage w) /\
    subImage w' = subImage w.
Proof.
  intros Hlen Hmax Hfuel.
  destruct (sendTile_loop fuel t 0 w) as (w' & H & Htr & Himg);
    [done|done|lia|lia|].
  exists w'. done.
Qed.

(** X5. The last loop of the worker, on a tile of [rows] rows, sends row
    [i] of the current tile to rank 0 with the tag FINAL_IMAGE_START + i,
    for i = 0, ..., rows - 1 in this order, and nothing else; a tile
    without rows sends nothing. The tile is left as it was. *)
Theorem sendTile_sends_every_row_in_order fuel t w :
  Z.of_nat (length (subImage w)) = rows t -> rows t <= INT_MAX ->
  (length (subImage w) < fuel)%nat ->
  exists w',
    sendTile fuel t w = Some w' /\
    trace w' = trace w ++ rows_sent (subImage w) /\
    length (rows_sent (subImage w)) = Z.to_nat (rows t) /\
    subImage w' = subImage w.
Proof.
  intros Hlen Hmax Hfuel.
  destruct (sendTile_rows fuel t w Hlen Hmax Hfuel) as (w' & H & Htr & Himg).
  exists w'. split; [done|]. split; [done|]. split; [|done].
  unfold rows_sent, rows_from. rewrite length_imap. lia.
Qed.

Lemma sendTile_sends_every_row_in_order_witness :
  Z.of_nat (length (subImage example_iterated)) = rows example_tile /\
  rows example_tile <= INT_MAX /\
  (length (subImage example_iterated) < 3)%nat /\
  exists w',
    sendTile 3 example_tile example_iterated = Some w' /\
    trace w' = trace example_iterated ++ rows_sent (subImage example_iterated) /\
    length (rows_sent (subImage example_iterated))
    = Z.to_nat (rows example_tile) /\
    subImage w' = subImage example_iterated.
Proof.
  split; [reflexivity|]. split; [by vm_compute|]. split; [vm_compute; lia|].
  apply sendTile_sends_every_row_in_order;
    [reflexivity|by vm_compute|vm_compute; lia].
Defined.

Lemma sendTile_loop_inv fuel t (k : nat) w w' :
  Z.of_nat (length (subImage w)) = rows t -> rows t <= INT_MAX ->
  (k <= length (subImage w))%nat ->
  for_lt fuel (Z.of_nat k) (rows t)
    (fun i w =>
       row ← load (subImage w) i;
       Some (emit (MPI_Send row MASTER_RANK (int_add FINAL_IMAGE_START i)) w))
    w = Some w' ->
  trace w' = trace w ++ rows_from k (drop k (subImage w)) /\
  subImage w' = subImage w.
Proof.
  unfold INT_MAX. revert k w.
  induction fuel as [|fuel IH]; intros k w Hlen Hmax Hk H; [done|].
  cbn [for_lt] in H. destruct (Z.ltb_spec (Z.of_nat k) (rows t)) as [Hlt|Hge].
  - apply bind_Some in H as (w1 & Hbody & H).
    apply bind_Some in Hbody as (row & Hrow & [= <-]).
    rewrite int_add_exact in H by (unfold is_int, INT_MIN, INT_MAX; lia).
    replace (Z.of_nat k + 1) with (Z.of_nat (S k)) in H by lia.
    apply IH in H as [Htr Himg]; fields; try lia.
    fields_in Htr. fields_in Himg.
    split; [|done]. rewrite Htr, <- app_assoc. f_equal.
    unfold load in Hrow. replace (Z.of_nat k <? 0) with false in Hrow by lia.
    rewrite Nat2Z.id in Hrow.
    rewrite (drop_S _ _ _ Hrow). unfold rows_from. cbn [imap app].
    rewrite Nat.add_0_r. f_equal. apply imap_ext. intros i x _. cbn.
    do 3 f_equal. lia.
  - injection H as <-. split; [|done].
    rewrite drop_ge by lia. unfold rows_from. cbn. by rewrite app_nil_r.
Qed.

(** The tile of a worker keeps the shape the coordinator gave it up to the
    point where its rows are sent. *)
Lemma slave_tile_before_return fuel o world_size world_rank beta gammaValue
    t code w' :
  well_formed t ->
  slave fuel o world_size world_rank beta gammaValue t = Some (code, w') ->
  exists w4,
    sendTile fuel t w4 = Some w' /\
    tile_shape (rows t) (columns t) (subImage w4) /\
    extends [Asking; Answering; Finishing; Random] (start t) w4.
Proof.
  intros Ht (_ & iterations & w1 & w2 & w3 & w4 & _ & H1 & H2 & H3 & H4 & H5)
    %slave_phases.
  exists w4. split; [done|].
  pose proof (initializeAnswers_quiet _ _ _ H1) as [F1 T1].
  pose proof (sampler_footprint _ _ _ _ _ _ _ _ _ H2) as F2.
  pose proof (sendFinishedAll_quiet _ _ _ H3) as [F3 T3].
  pose proof (awaitFinished_quiet _ _ _ _ _ _ H4) as [F4 T4].
  split.
  - unfold same_tile in *. rewrite T4, T3.
    eapply sampler_shape; [|exact H2]. rewrite T1.
    apply (initial_shape t Ht).
  - destruct F1 as [E1 _], F2 as [E2 _], F3 as [E3 _], F4 as [E4 _].
    eapply extends_trans; [|eapply extends_weaken; [|exact E4]; sub_kinds].
    eapply extends_trans; [|eapply extends_weaken; [|exact E3]; sub_kinds].
    eapply extends_trans; [|eapply extends_weaken; [|exact E2]; sub_kinds].
    eapply extends_weaken; [|exact E1]. sub_kinds.
Qed.

(** X6. What a worker that returns sends to the coordinator is its final
    tile: the run ends with the rows of the tile as it stands at the end,
    row [i] with the tag FINAL_IMAGE_START + i, and before them nothing
    is sent with [MPI_Send]. *)
Theorem slave_sends_back_its_final_tile fuel o world_size world_rank
    beta gammaValue t code w' :
  well_formed t ->
  slave fuel o world_size world_rank beta gammaValue t = Some (code, w') ->
  exists before,
    trace w' = before ++ rows_sent (subImage w') /\
    Forall (fun e => kind_of e <> Returning) before /\
    tile_shape (rows t) (columns t) (subImage w').
Proof.
  intros Ht H.
  destruct (slave_tile_before_return _ _ _ _ _ _ _ _ _ Ht H)
    as (w4 & Hsend & [Hlen Hrows] & (evs & Htr & Hall)).
  pose proof (rows_range t Ht) as Hr. unfold INT_MAX in Hr.
  apply sendTile_loop_inv with (k := 0%nat) in Hsend as [Htr' Himg];
    [|done|unfold INT_MAX; lia|lia].
  exists (trace w4). rewrite Himg. rewrite drop_0 in Htr'.
  split; [exact Htr'|]. split; [|by split].
  rewrite Htr. cbn [start trace app].
  eapply Forall_impl; [exact Hall|]. intros e [Hk _] Heq. rewrite Heq in Hk.
  revert Hk. rewrite !elem_of_cons, elem_of_nil. intuition discriminate.
Qed.

Lemma slave_sends_back_its_final_tile_witness :
  well_formed example_tile /\
  slave 10 example_oracle 5000001 1 1 1 example_tile = Some (0, example_final) /\
  exists before,
    trace example_final = before ++ rows_sent (subImage example_final) /\
    Forall (fun e => kind_of e <> Returning) before /\
    tile_shape (rows example_tile) (columns example_tile)
      (subImage example_final).
Proof.
  split; [exact example_tile_well_formed|]. split; [exact example_slave|].
  exact (slave_sends_back_its_final_tile 10 example_oracle 5000001 1 1 1
           example_tile 0 example_final example_tile_well_formed example_slave).
Defined.

(** ** Budgets and tiles at the edge *)

(** X7. With more than 5,000,000 workers the budget of a worker is 0: a
    worker that returns has made no draw and asked no question, and the
    tile it sends back is the tile it received. *)
Theorem no_iteration_beyond_five_million_workers fuel o world_size world_rank
    beta gammaValue t code w' :
  5000001 < world_size <= INT_MAX ->
  slave fuel o world_size world_rank beta gammaValue t = Some (code, w') ->
  subImage w' = initialSubImage t /\
  Forall (fun e => kind_of e <> Random /\ kind_of e <> Asking) (trace w').
Proof.
  unfold INT_MAX.
  intros Hws (_ & iterations & w1 & w2 & w3 & w4 & Hit & H1 & H2 & H3 & H4 & H5)
    %slave_phases.
  assert (iterations = 0) as ->.
  { unfold int_div in Hit.
    rewrite int_sub_exact in Hit by (unfold is_int, INT_MIN, INT_MAX; lia).
    destruct (Z.eqb_spec (world_size - 1) 0); [lia|].
    unfold TOTAL_ITERATIONS in Hit.
    rewrite Z.quot_small in Hit by lia. by injection Hit as <-. }
  assert (w2 = w1) as ->.
  { destruct fuel as [|fuel]; [done|]. cbn in H2. by injection H2 as <-. }
  pose proof (initializeAnswers_quiet _ _ _ H1) as [[E1 _] T1].
  pose proof (sendFinishedAll_quiet _ _ _ H3) as [[E3 _] T3].
  pose proof (awaitFinished_quiet _ _ _ _ _ _ H4) as [[E4 _] T4].
  pose proof (sendTile_quiet _ _ _ _ H5) as [[E5 _] T5].
  unfold same_tile in *. split; [by rewrite T5, T4, T3, T1|].
  assert (extends [Answering; Finishing; Returning] (start t) w')
    as (evs & Htr & Hall).
  { eapply extends_trans; [|eapply extends_weaken; [|exact E5]; sub_kinds].
    eapply extends_trans; [|eapply extends_weaken; [|exact E4]; sub_kinds].
    eapply extends_trans; [|eapply extends_weaken; [|exact E3]; sub_kinds].
    eapply extends_weaken; [|exact E1]. sub_kinds. }
  rewrite Htr. cbn [start trace app].
  eapply Forall_impl; [exact Hall|]. intros e [Hk _].
  split; intros Heq; rewrite Heq in Hk; revert Hk;
    rewrite !elem_of_cons, elem_of_nil; intuition discriminate.
Qed.

Lemma no_iteration_beyond_five_million_workers_witness :
  5000001 < 6000000 <= INT_MAX /\
  slave 10 example_oracle 6000000 1 1 1 example_tile
  = Some (0, default example_worker
               (snd <$> slave 10 example_oracle 6000000 1 1 1 example_tile)) /\
  subImage (default example_worker
              (snd <$> slave 10 example_oracle 6000000 1 1 1 example_tile))
  = initialSubImage example_tile.
Proof.
  assert (slave 10 example_oracle 6000000 1 1 1 example_tile
          = Some (0, default example_worker
                       (snd <$> slave 10 example_oracle 6000000 1 1 1
                                  example_tile))) as Hrun
    by (vm_compute; reflexivity).
  split; [by vm_compute|]. split; [exact Hrun|].
  destruct (no_iteration_beyond_five_million_workers 10 example_oracle 6000000
              1 1 1 example_tile 0 _ ltac:(by vm_compute) Hrun) as [Himg _].
  exact Himg.
Defined.

(** X8. A worker whose tile has no rows, or no columns, and whose budget
    is at least one iteration never returns: its first iteration computes
    [rand() % 0]. *)
Theorem slave_fails_on_an_empty_tile fuel o world_size world_rank
    beta gammaValue t :
  rows t = 0 \/ columns t = 0 ->
  2 <= world_size <= 5000001 ->
  (forall w, iteration fuel o beta gammaValue t w = None) /\
  slave fuel o world_size world_rank beta gammaValue t = None.
Proof.
  intros Hempty Hws.
  assert (forall w, iteration fuel o beta gammaValue t w = None) as Hit.
  { assert (forall r, int_rem r 0 = None) as Hzero by done.
    intros w. unfold iteration, call_rand.
    destruct Hempty as [-> | ->]; [by rewrite Hzero|].
    destruct (int_rem (rand o (clock w)) (rows t)); [|done].
    cbn [mbind option_bind]. by rewrite Hzero. }
  split; [exact Hit|].
  unfold slave.
  rewrite iterations_per_worker by (unfold INT_MAX; lia).
  cbn [mbind option_bind].
  destruct (initializeAnswers t (start t)) as [w1|]; [|done].
  cbn [mbind option_bind].
  assert (5000000 / (world_size - 1) <> 0) as Hpos.
  { pose proof (Z.div_str_pos 5000000 (world_size - 1)). lia. }
  destruct fuel as [|n]; [done|]. cbn [sampler].
  destruct (Z.eqb_spec (5000000 / (world_size - 1)) 0); [done|]. cbn [negb].
  by rewrite Hit.
Qed.

Lemma slave_fails_on_an_empty_tile_witness :
  (rows (Build_tile 0 0 (replicate 8 (-1)) []) = 0
   \/ columns (Build_tile 0 0 (replicate 8 (-1)) []) = 0) /\
  2 <= 4 <= 5000001 /\
  slave 10 example_oracle 4 1 1 1 (Build_tile 0 0 (replicate 8 (-1)) []) = None.
Proof.
  split; [by left|]. split; [by vm_compute|].
  apply (slave_fails_on_an_empty_tile 10 example_oracle 4 1 1 1
           (Build_tile 0 0 (replicate 8 (-1)) []));
    [by left|by vm_compute].
Defined.

(** ** The coordinator's messages *)

Lemma send_to_says world_size data destination tag out :
  0 <= destination < world_size ->
  send_to world_size data destination tag out
  = (out ++ [sendMessage data destination tag], inr tt).
Proof.
  intros H. unfold send_to.
  replace (0 <=? destination) with true by lia.
  replace (destination <? world_size) with true by lia. done.
Qed.

Lemma bind_says {B : Type} (m : step unit) (k : unit -> step B) out out' :
  m out = (out', inr tt) -> bind m k out = k tt out'.
Proof. intros H. unfold bind. by rewrite H. Qed.

Lemma sendTopology_chain world_size slaveCount rowsPerSlave columnsPerSlave
    slaveRank out :
  1 <= slaveRank <= slaveCount -> slaveCount < world_size <= INT_MAX ->
  sendTopology world_size slaveCount rowsPerSlave columnsPerSlave slaveRank out
  = (out ++ chain_topology rowsPerSlave columnsPerSlave slaveCount slaveRank,
     inr tt).
Proof.
  unfold INT_MAX. intros Hk Hws. unfold sendTopology.
  rewrite !Z.rem_1_r. cbn [Z.eqb Pos.eqb].
  rewrite !orb_true_r.
  rewrite !int_sub_exact, !int_add_exact
    by (unfold is_int, INT_MIN, INT_MAX; lia).
  replace (slaveRank <=? 1) with (slaveRank =? 1)
    by (destruct (Z.eqb_spec slaveRank 1), (Z.leb_spec slaveRank 1); done || lia).
  replace (slaveRank >? slaveCount - 1) with (slaveRank =? slaveCount)
    by (destruct (Z.eqb_spec slaveRank slaveCount),
          (Z.gtb_spec slaveRank (slaveCount - 1)); done || lia).
  do 9 (erewrite bind_says; [|apply send_to_says; lia]).
  rewrite send_to_says by lia.
  rewrite <- !app_assoc. reflexivity.
Qed.

(** X9. For worker [slaveRank] of [slaveCount] (1 <= slaveRank <=
    slaveCount < world_size) the coordinator sends ten messages, in this
    order: ROWS, COLUMNS, and the eight neighbours TOP, RIGHT, BOTTOM, LEFT,
    TOP_RIGHT, BOTTOM_RIGHT, BOTTOM_LEFT, TOP_LEFT. The workers form a
    chain: TOP is [slaveRank - 1] (-1 for the first worker), BOTTOM is
    [slaveRank + 1] (-1 for the last one), and the six others are -1. *)
Theorem sendTopology_stacks_the_workers world_size slaveCount rowsPerSlave
    columnsPerSlave slaveRank out :
  1 <= slaveRank <= slaveCount -> slaveCount < world_size <= INT_MAX ->
  sendTopology world_size slaveCount rowsPerSlave columnsPerSlave slaveRank out
  = (out ++ chain_topology rowsPerSlave columnsPerSlave slaveCount slaveRank,
     inr tt).
Proof. apply sendTopology_chain. Qed.

Lemma sendTopology_stacks_the_workers_witness :
  1 <= 2 <= 3 /\ 3 < 4 <= INT_MAX /\
  sendTopology 4 3 2 8 2 [] = ([] ++ chain_topology 2 8 3 2, inr tt).
Proof.
  split; [lia|]. split; [by vm_compute|].
  apply sendTopology_stacks_the_workers; [lia|by vm_compute].
Defined.

Lemma bind_runs {A B : Type} (m : step A) (k : A -> step B) out out' a :
  m out = (out', inr a) -> bind m k out = k a out'.
Proof. intros H. unfold bind. by rewrite H. Qed.

Lemma bind_stops {A B : Type} (m : step A) (k : A -> step B) out out' e :
  m out = (out', inl e) -> bind m k out = (out', inl e).
Proof. intros H. unfold bind. by rewrite H. Qed.

Lemma each_says (f : Z -> list output) l body out :
  (forall i out, i ∈ l -> body i out = (out ++ f i, inr tt)) ->
  each l body out = (out ++ concat (f <$> l), inr tt).
Proof.
  revert out. induction l as [|i l IH]; intros out Hbody.
  - cbn. by rewrite app_nil_r.
  - cbn [each]. erewrite bind_runs by (apply Hbody; by left).
    rewrite IH by (intros; apply Hbody; by right).
    cbn [fmap list_fmap concat]. by rewrite app_assoc.
Qed.

Lemma each_until_all l body out :
  (forall i, i ∈ l -> body i out = (out, inr true)) ->
  each_until l body out = (out, inr true).
Proof.
  induction l as [|i l IH]; intros Hbody; [done|].
  cbn [each_until]. erewrite bind_runs by (apply Hbody; by left).
  apply IH. intros; apply Hbody; by right.
Qed.

Lemma master_divides_by_zero created matrix world_size out :
  (forall i, 0 <= i < THREADS -> created i = true) ->
  1 <= world_size <= INT_MAX ->
  master created matrix world_size out
  = (out ++ [to_stdout "ok" []]
         ++ concat (chain_topology 0 0 (world_size - 1)
                      <$> seqZ 1 (world_size - 1)),
     inl DivisionByZero).
Proof.
  unfold INT_MAX. intros Hcreated Hws. unfold master, master_from.
  erewrite bind_runs.
  2: { apply each_until_all. intros i Hi%elem_of_seqZ.
       rewrite Hcreated by lia. done. }
  cbn [negb]. erewrite bind_runs by reflexivity.
  rewrite int_sub_exact by (unfold is_int, INT_MIN, INT_MAX; lia).
  destruct (Z.eq_dec world_size 1) as [->|Hne].
  - erewrite bind_stops by reflexivity.
    rewrite seqZ_nil by lia. cbn [fmap list_fmap concat].
    by rewrite app_nil_r.
  - erewrite (bind_runs (divide 0 (world_size - 1))).
    2: { unfold divide, int_div.
         destruct (Z.eqb_spec (world_size - 1) 0); [lia|]. reflexivity. }
    change (Z.quot 0 (world_size - 1)) with 0.
    change (int_wrap 0) with 0.
    change (int_mul 0 (world_size - 1)) with 0. cbn [Z.eqb negb].
    erewrite bind_runs by reflexivity.
    erewrite bind_runs.
    2: { apply (each_says (chain_topology 0 0 (world_size - 1))).
         intros i out' Hi%elem_of_seqZ.
         apply sendTopology_chain; unfold INT_MAX; lia. }
    erewrite bind_stops; [by rewrite app_assoc|].
    unfold N. rewrite seqZ_cons by lia. cbn [each].
    erewrite bind_stops; [reflexivity|]. reflexivity.
Qed.

Lemma each_until_fails (created : Z -> bool) e l out :
  (exists i, i ∈ l /\ created i = false) ->
  each_until l
    (fun i => if created i then ret true else bind (say e) (fun _ => ret false))
    out
  = (out ++ [e], inr false).
Proof.
  induction l as [|i l IH]; intros (k & Hk & Hfail).
  - by apply elem_of_nil in Hk.
  - cbn [each_until]. destruct (created i) eqn:Hi.
    + erewrite bind_runs by reflexivity. apply IH.
      apply elem_of_cons in Hk as [-> | Hk]; [congruence|by exists k].
    + erewrite bind_runs by reflexivity. reflexivity.
Qed.

Lemma master_thread_failure created matrix world_size out :
  (exists i, 0 <= i < THREADS /\ created i = false) ->
  master created matrix world_size out
  = (out ++ [to_stderr "pthread_create failed!" []], inr EXIT_FAILURE).
Proof.
  intros (i & Hi & Hfail). unfold master, master_from.
  erewrite bind_runs.
  2: { apply each_until_fails. exists i. split; [|done].
       apply elem_of_seqZ. lia. }
  reflexivity.
Qed.

Lemma main_master_created created matrix world_size :
  (forall i, 0 <= i < THREADS -> created i = true) ->
  1 <= world_size <= INT_MAX ->
  main_master created matrix 5 world_size
  = ([to_stdout "Running in row mode." []; to_stdout "ok" []]
       ++ topology_messages world_size,
     DivisionByZero).
Proof.
  intros Hcreated Hws. unfold main_master. cbn [Z.eqb Pos.eqb negb].
  erewrite bind_runs by reflexivity.
  erewrite bind_stops by (by apply master_divides_by_zero).
  reflexivity.
Qed.

Lemma main_master_failure created matrix world_size :
  (exists i, 0 <= i < THREADS /\ created i = false) ->
  main_master created matrix 5 world_size
  = ([to_stdout "Running in row mode." [];
      to_stderr "pthread_create failed!" [];
      to_stderr "Error in master" []],
     Returned EXIT_FAILURE).
Proof.
  intros Hfail. unfold main_master. cbn [Z.eqb Pos.eqb negb].
  erewrite bind_runs by reflexivity.
  erewrite bind_runs by (by apply master_thread_failure).
  reflexivity.
Qed.

Lemma created_cases (created : Z -> bool) :
  (forall i, 0 <= i < THREADS -> created i = true)
  \/ (exists i, 0 <= i < THREADS /\ created i = false).
Proof.
  unfold THREADS.
  destruct (created 0) eqn:H0; [|right; exists 0; split; [lia|done]].
  destruct (created 1) eqn:H1; [|right; exists 1; split; [lia|done]].
  destruct (created 2) eqn:H2; [|right; exists 2; split; [lia|done]].
  destruct (created 3) eqn:H3; [|right; exists 3; split; [lia|done]].
  left. intros i Hi.
  assert (i = 0 \/ i = 1 \/ i = 2 \/ i = 3) as [->|[->|[->| ->]]] by lia; done.
Qed.

(** What the process has put out is a prefix of what its main thread
    would, and the whole of it unless a signal ends it. *)
Lemma main_process_prefix created matrix f argc world_size :
  let thread := main_master created matrix argc world_size in
  let run := main_process created matrix f argc world_size in
  (run.1 `prefix_of` thread.1 /\ run.2 = Signalled
   /\ argc = 5 /\ created 0 = true)
  \/ (run.1 = thread.1 /\ run.2 = Ended thread.2).
Proof.
  unfold main_process.
  destruct (main_master created matrix argc world_size) as [out e].
  cbn [fst snd]. destruct f as [|after]; [by right|].
  destruct (Z.eqb_spec argc 5) as [->|]; [|by right].
  destruct (created 0); [|by right]. cbn [andb].
  destruct (_ <=? _)%nat; [|by right].
  left. split; [apply prefix_take|done].
Qed.

Lemma filter_prefix {A : Type} (f : A -> bool) (l1 l2 : list A) :
  l1 `prefix_of` l2 -> List.filter f l1 `prefix_of` List.filter f l2.
Proof.
  intros [k ->]. rewrite List.filter_app. by apply prefix_app_r.
Qed.

Lemma filter_all {A : Type} (f : A -> bool) (l : list A) :
  Forall (fun x => f x = true) l -> List.filter f l = l.
Proof.
  induction 1 as [|x l Hx _ IH]; [done|]. cbn [List.filter].
  by rewrite Hx, IH.
Qed.

Lemma messages_no_stderr (l : list output) :
  Forall (fun e => is_message e = true) l -> List.filter is_stderr l = [].
Proof.
  induction 1 as [|e l He _ IH]; [done|].
  destruct e; try discriminate He. exact IH.
Qed.

(** The messages before the first row are messages, none carries a row. *)
Lemma topology_messages_only world_size :
  Forall (fun e => is_message e = true /\ ~ carries_row e)
    (topology_messages world_size).
Proof.
  unfold topology_messages. apply Forall_concat, Forall_fmap, Forall_forall.
  intros rank _. unfold chain_topology.
  repeat (constructor; [split; [reflexivity|by vm_compute]|]). constructor.
Qed.

Lemma main_master_outputs created matrix world_size :
  1 <= world_size <= INT_MAX ->
  let thread := main_master created matrix 5 world_size in
  List.filter is_message thread.1 `prefix_of` topology_messages world_size /\
  Forall (fun e => ~ carries_row e /\
                   match e with
                   | receiveMessage _ _ | to_file _ => False
                   | _ => True
                   end) thread.1 /\
  (thread.2 = DivisionByZero \/ thread.2 = Returned EXIT_FAILURE).
Proof.
  intros Hws. destruct (created_cases created) as [Hall|Hfail].
  - rewrite main_master_created by done. cbn [fst snd].
    pose proof (topology_messages_only world_size) as Htop.
    split; [|split; [|by left]].
    + cbn [app List.filter is_message]. rewrite filter_all; [done|].
      eapply Forall_impl; [exact Htop|]. by intros e [He _].
    + cbn [app]. do 2 (constructor; [split; [by intros []|done]|]).
      eapply Forall_impl; [exact Htop|]. intros e [He Hrow]. split; [done|].
      by destruct e.
  - rewrite main_master_failure by done. cbn [fst snd].
    split; [apply prefix_nil|]. split; [|by right].
    repeat (constructor; [split; [by intros []|done]|]). constructor.
Qed.

(** X10. With five arguments, whatever the image, the number of
    processes, the threads that could be created and the point at which a
    reader thread brings the process down, the coordinator never sends a
    row of the image, never receives a result and never writes the output
    file: the messages it sends are the first of those that tell the
    workers, one after the other, that their tile has 0 rows and 0 columns
    and who their neighbours in the chain are, and the process ends by the
    threads' signal, with EXIT_FAILURE for a thread that could not be
    created, or in an integer division by zero. Left alone by its four
    threads, the main thread sends all of these messages, writes nothing on
    standard error and stops in the division by [rowsPerSlave = 0] for the
    first row of the image (with one process, in the division by
    [slaveCount = 0] before it). *)
Theorem coordinator_stops_before_the_first_row created matrix f world_size :
  1 <= world_size <= INT_MAX ->
  let run := main_process created matrix f 5 world_size in
  List.filter is_message run.1 `prefix_of` topology_messages world_size /\
  (forall e, e ∈ run.1 ->
     ~ carries_row e /\
     match e with receiveMessage _ _ | to_file _ => False | _ => True end) /\
  (run.2 = Signalled \/ run.2 = Ended DivisionByZero
   \/ run.2 = Ended (Returned EXIT_FAILURE)) /\
  ((forall i, 0 <= i < THREADS -> created i = true) -> f = Spared ->
   List.filter is_message run.1 = topology_messages world_size /\
   List.filter is_stderr run.1 = [] /\
   run.2 = Ended DivisionByZero).
Proof.
  intros Hws run.
  destruct (main_master_outputs created matrix world_size Hws)
    as (Hmsgs & Hall & Hend).
  pose proof (main_process_prefix created matrix f 5 world_size) as Hrun.
  fold run in Hrun. cbv zeta in Hrun.
  rewrite Forall_forall in Hall.
  split; [|split; [|split]].
  - destruct Hrun as [(Hpre & _)|(-> & _)]; [|done].
    etransitivity; [by apply filter_prefix|done].
  - intros e He. apply Hall.
    destruct Hrun as [(Hpre & _)|(<- & _)]; [|done].
    destruct Hpre as [k ->]. apply elem_of_app. by left.
  - destruct Hrun as [(_ & -> & _)|(_ & ->)]; [by left|].
    destruct Hend as [-> | ->]; tauto.
  - intros Hcreated ->. subst run. unfold main_process.
    rewrite main_master_created by done. cbn [fst snd].
    pose proof (topology_messages_only world_size) as Htop.
    split; [|split; [|done]].
    + cbn [app List.filter is_message]. rewrite filter_all; [done|].
      eapply Forall_impl; [exact Htop|]. by intros e [He _].
    + cbn [app List.filter is_stderr].
      apply messages_no_stderr.
      eapply Forall_impl; [exact Htop|]. by intros e [He _].
Qed.

Lemma coordinator_stops_before_the_first_row_witness :
  (1 <= 4 <= INT_MAX) /\
  main_process (fun _ => true) (fun _ => replicate 32 1) (Hit 13) 5 4
  = ([to_stdout "Running in row mode." []; to_stdout "ok" []]
       ++ chain_topology 0 0 3 1 ++ [sendMessage [0] 2 ROWS; sendMessage [0] 2 COLUMNS],
     Signalled) /\
  List.filter is_message
    (main_process (fun _ => true) (fun _ => replicate 32 1) (Hit 13) 5 4).1
  `prefix_of` topology_messages 4 /\
  (forall e,
     e ∈ (main_process (fun _ => true) (fun _ => replicate 32 1) (Hit 13) 5 4).1 ->
     ~ carries_row e /\
     match e with receiveMessage _ _ | to_file _ => False | _ => True end).
Proof.
  split; [by vm_compute|]. split; [reflexivity|].
  destruct (coordinator_stops_before_the_first_row (fun _ => true)
              (fun _ => replicate 32 1) (Hit 13) 4)
    as (Hmsgs & Hnone & _); [by vm_compute|].
  split; [exact Hmsgs|exact Hnone].
Defined.

(** X11. The coordinator's early returns send nothing. With an argument
    count other than 5 it writes the usage line on standard error and
    [main] returns 1; no thread has been started. With 5 arguments and a
    first [pthread_create] that fails, no thread exists either: the
    failure is written on standard error, [master] returns EXIT_FAILURE,
    and [main] reports the error in master and returns that value. When a
    later [pthread_create] fails the main thread does the same, unless a
    reader thread started before ends the process first: what has been
    written is then a part of it. In every case no message is sent. *)
Theorem coordinator_early_returns created matrix f argc world_size :
  (argc <> 5 ->
   main_process created matrix f argc world_size
   = ([to_stderr
         "Please, run the program as denoiser <input> <output> <beta> <pi>" []],
      Ended (Returned 1))) /\
  (argc = 5 -> created 0 = false ->
   main_process created matrix f argc world_size
   = ([to_stdout "Running in row mode." [];
       to_stderr "pthread_create failed!" [];
       to_stderr "Error in master" []],
      Ended (Returned EXIT_FAILURE))) /\
  (argc = 5 ->
   (exists i, 0 <= i < THREADS /\ created i = false) ->
   let run := main_process created matrix f argc world_size in
   List.filter is_message run.1 = [] /\
   run.1 `prefix_of` [to_stdout "Running in row mode." [];
                      to_stderr "pthread_create failed!" [];
                      to_stderr "Error in master" []] /\
   (run.2 = Signalled
    \/ run = ([to_stdout "Running in row mode." [];
               to_stderr "pthread_create failed!" [];
               to_stderr "Error in master" []],
              Ended (Returned EXIT_FAILURE)))).
Proof.
  split; [|split].
  - intros Hargc. unfold main_process, main_master.
    destruct (Z.eqb_spec argc 5); [done|]. cbn. by destruct f.
  - intros -> Hfail. unfold main_process.
    rewrite main_master_failure by (exists 0; split; [by vm_compute|done]).
    rewrite Hfail. by destruct f.
  - intros -> Hfail run.
    pose proof (main_process_prefix created matrix f 5 world_size) as Hrun.
    fold run in Hrun. cbv zeta in Hrun.
    rewrite main_master_failure in Hrun by done. cbn [fst snd] in Hrun.
    destruct Hrun as [(Hpre & Hend & _)|(Hout & Hend)].
    + split; [|split; [done|by left]].
      apply (filter_prefix is_message) in Hpre. cbn in Hpre.
      by apply prefix_nil_inv in Hpre.
    + split; [by rewrite Hout|]. split; [by rewrite Hout|]. right.
      destruct run as [out e]. cbn [fst snd] in *. by subst.
Qed.

Lemma coordinator_early_returns_witness :
  (exists i, 0 <= i < THREADS /\ (fun i => negb (i =? 2)) i = false) /\
  main_process (fun i => negb (i =? 2)) (fun _ => []) (Hit 0) 5 4
  = ([to_stdout "Running in row mode." []], Signalled) /\
  List.filter is_message
    (main_process (fun i => negb (i =? 2)) (fun _ => []) (Hit 0) 5 4).1 = [] /\
  main_process (fun i => negb (i =? 2)) (fun _ => []) Spared 5 4
  = ([to_stdout "Running in row mode." [];
      to_stderr "pthread_create failed!" [];
      to_stderr "Error in master" []],
     Ended (Returned EXIT_FAILURE)).
Proof.
  assert (exists i, 0 <= i < THREADS /\ (fun i => negb (i =? 2)) i = false)
    as Hfail by (exists 2; split; [by vm_compute|reflexivity]).
  split; [exact Hfail|]. split; [reflexivity|].
  destruct (coordinator_early_returns (fun i => negb (i =? 2)) (fun _ => [])
              (Hit 0) 5 4) as (_ & _ & H).
  destruct (H eq_refl Hfail) as (Hnone & _ & _).
  split; [exact Hnone|]. reflexivity.
Defined.

(** ** The standing receives *)

Lemma initializeAnswers_loop t (ds : list Z) w :
  (forall d, d ∈ ds -> 0 <= d < Z.of_nat (length (neighbours t))) ->
  (forall d, d ∈ ds -> 0 <= d < 8) ->
  length (answerRequests w) = 8%nat -> length (answerResponses w) = 8%nat ->
  exists w',
    for_each ds
      (fun direction w =>
         neighbour ← load (neighbours t) direction;
         if neighbour =? -1 then Some w
         else
           w ← initializeAnAnswer neighbour direction w;
           resps ← store (answerResponses w) direction NULL;
           Some (set_answerResponses resps w)) w = Some w' /\
    trace w' = trace w ++ standing_receives t ds /\
    length (answerRequests w') = 8%nat /\ length (answerResponses w') = 8%nat /\
    receives_kept w w' /\
    (forall d nb, d ∈ ds -> load (neighbours t) d = Some nb -> nb <> -1 ->
                  load (answerRequests w') d = Some PENDING
                  /\ load (answerResponses w') d = Some NULL) /\
    (forall d, d ∉ ds ->
               load (answerRequests w') d = load (answerRequests w) d
               /\ load (answerResponses w') d = load (answerResponses w) d) /\
    subImage w' = subImage w /\ positions w' = positions w /\
    clock w' = clock w.
Proof.
  revert w. induction ds as [|d ds IH]; intros w Hds Hd8 Hq Hr.
  - exists w. cbn. rewrite app_nil_r.
    split; [done|]. split; [done|]. split; [done|]. split; [done|].
    split; [by intros d|]. split; [|done].
    intros d nb Hd. by apply elem_of_nil in Hd.
  - cbn [for_each standing_receives foldr].
    destruct (load_Some (neighbours t) d) as [nb Hnb]; [apply Hds; by left|].
    pose proof (Hd8 d ltac:(by left)) as Hd.
    rewrite Hnb. cbn [mbind option_bind from_option id].
    destruct (Z.eqb_spec nb (-1)) as [->|Hne]; cbn [mbind option_bind].
    + destruct (IH w) as (w' & -> & Htr & Hq' & Hr' & Hkept & Hnew & Hold & Hrest);
        [intros; apply Hds; by right|intros; apply Hd8; by right|done|done|].
      exists w'. split; [done|]. split; [done|]. split; [done|]. split; [done|].
      split; [done|]. split; [|split; [|done]].
      * intros d' nb' [->|Hin]%elem_of_cons Hnb' Hne'; [congruence|eauto].
      * intros d' Hnot. apply Hold. intros Hin. apply Hnot. by right.
    + change (initializeAnAnswer nb d w)
        with (post (MPI_Irecv nb QUESTION (AnswerRequests, d))
                (AnswerRequests, d) w).
      rewrite post_Some by (cbn [requests]; lia). fields.
      rewrite store_Some by lia. fields.
      set (w1 := set_answerResponses _ _).
      destruct (IH w1) as (w' & -> & Htr & Hq' & Hr' & Hkept & Hnew & Hold & Hrest);
        [intros; apply Hds; by right|intros; apply Hd8; by right
        |subst w1; fields; by rewrite length_insert
        |subst w1; fields; by rewrite length_insert|].
      exists w'. split; [done|].
      assert (load (answerRequests w1) d = Some PENDING) as Hposted
        by (subst w1; fields; apply load_insert; lia).
      split; [|split; [done|split; [done|split; [|split; [|split]]]]].
      * rewrite Htr. subst w1. fields. by rewrite <- app_assoc.
      * intros d' Hd'. apply Hkept. subst w1. fields.
        rewrite load_insert_cases by lia. destruct (decide (d = d')); done.
      * intros d' nb' Hin Hnb' Hne'.
        destruct (decide (d' ∈ ds)) as [Hds'|Hds']; [by eapply Hnew|].
        apply elem_of_cons in Hin as [->|Hin]; [|done].
        destruct (Hold d Hds') as [-> ->]. split; [done|].
        subst w1. fields. apply load_insert. lia.
      * intros d' Hnot.
        assert (d <> d') as Hdd by (intros ->; apply Hnot; by left).
        destruct (Hold d') as [-> ->]; [intros Hin; apply Hnot; by right|].
        subst w1. fields. rewrite !load_insert_cases by lia.
        destruct (decide (d = d')); done.
      * destruct Hrest as (-> & -> & ->). by subst w1.
Qed.

Lemma load_range {A : Type} (arr : list A) (i : Z) (x : A) :
  load arr i = Some x -> 0 <= i < Z.of_nat (length arr).
Proof.
  unfold load. destruct (Z.ltb_spec i 0) as [Hneg|Hpos]; [done|].
  intros Hx%lookup_lt_Some. lia.
Qed.

Lemma direction_in d : 0 <= d < 8 -> d ∈ directions.
Proof. intros Hd. unfold directions, DIRECTIONS. apply elem_of_seqZ. lia. Qed.

Lemma initializeAnswers_start t :
  length (neighbours t) = 8%nat ->
  exists w,
    initializeAnswers t (start t) = Some w /\
    trace w = standing_receives t directions /\
    receives_stand t w /\
    (forall d neighbour,
       load (neighbours t) d = Some neighbour -> neighbour <> -1 ->
       load (answerResponses w) d = Some NULL) /\
    subImage w = initialSubImage t /\ clock w = 0%nat.
Proof.
  intros Hn.
  destruct (initializeAnswers_loop t directions (start t))
    as (w & Hrun & Htr & _ & _ & _ & Hnew & _ & Himg & _ & Hclock); try done.
  - intros d Hd%direction_range. lia.
  - intros d Hd%direction_range. lia.
  - exists w. split; [done|]. split; [done|].
    split; [|split; [|done]].
    + intros d nb Hnb Hne. eapply Hnew; [|done..].
      apply direction_in. apply load_range in Hnb. lia.
    + intros d nb Hnb Hne. eapply Hnew; [|done..].
      apply direction_in. apply load_range in Hnb. lia.
Qed.

(** X12. [initializeAnswers], called on the fresh arrays of a worker with
    eight neighbour slots, returns; it posts one receive tagged QUESTION
    for each direction that has a neighbour, in the order of the
    directions and with the request of that direction, and nothing for a
    direction without neighbour. Afterwards the receive stands in
    [answerRequests[d]] and [answerResponses[d]] is the null pointer, for
    every such direction [d]. *)
Theorem initializeAnswers_posts_a_receive_per_neighbour t :
  length (neighbours t) = 8%nat ->
  exists w,
    initializeAnswers t (start t) = Some w /\
    trace w = standing_receives t directions /\
    receives_stand t w /\
    (forall d neighbour,
       load (neighbours t) d = Some neighbour -> neighbour <> -1 ->
       load (answerResponses w) d = Some NULL) /\
    subImage w = initialSubImage t /\ clock w = 0%nat.
Proof. apply initializeAnswers_start. Qed.

Lemma initializeAnswers_posts_a_receive_per_neighbour_witness :
  length (neighbours example_tile) = 8%nat /\
  exists w,
    initializeAnswers example_tile (start example_tile) = Some w /\
    trace w = standing_receives example_tile directions /\
    receives_stand example_tile w /\
    (forall d neighbour,
       load (neighbours example_tile) d = Some neighbour -> neighbour <> -1 ->
       load (answerResponses w) d = Some NULL) /\
    subImage w = initialSubImage example_tile /\ clock w = 0%nat.
Proof.
  split; [reflexivity|].
  apply initializeAnswers_posts_a_receive_per_neighbour. reflexivity.
Defined.

Lemma receives_kept_refl w : receives_kept w w.
Proof. by intros d. Qed.

Lemma receives_kept_trans w1 w2 w3 :
  receives_kept w1 w2 -> receives_kept w2 w3 -> receives_kept w1 w3.
Proof. intros H12 H23 d Hd. by apply H23, H12. Qed.

Lemma footprint_receives_kept (ks : list kind) w w' :
  Answering ∉ ks -> footprint ks w w' -> receives_kept w w'.
Proof.
  intros Hks (_ & _ & Hans & _). destruct (Hans Hks) as (_ & Hreq & _).
  intros d. by rewrite Hreq.
Qed.

Lemma test_inv_slot o a i buffer w flag w' :
  test o (a, i) buffer w = Some (flag, w') ->
  (exists v w1,
     buffer v w = Some w1 /\ flag = true /\
     0 <= i < Z.of_nat (length (requests a w1)) /\
     w' = tick (emit (MPI_Test (a, i) true (Some v))
                  (set_requests a (<[Z.to_nat i := REQUEST_NULL]> (requests a w1))
                     w1)))
  \/ (exists received, w' = tick (emit (MPI_Test (a, i) flag received) w)).
Proof.
  unfold test. cbn [fst snd]. intros (r & _ & H)%bind_Some. destruct r; [done| |].
  - injection H as <- <-. right. by eexists.
  - destruct (completes o (clock w) (a, i)) as [v|] eqn:Hc.
    + apply bind_Some in H as (w1 & Hb & H).
      apply bind_Some in H as (reqs & [Hi ->]%store_inv & [= <- <-]).
      left. by exists v, w1.
    + injection H as <- <-. right. by eexists.
Qed.

Lemma answerOne_receives_kept fuel o t d w w' :
  answerOne fuel o t d w = Some w' -> receives_kept w w'.
Proof.
  unfold answerOne. intros (nb & _ & H)%bind_Some.
  destruct (nb =? -1); [injection H as <-; apply receives_kept_refl|].
  apply bind_Some in H as ([flag w1] & Htest & H).
  assert (forall d', d' <> d ->
            load (answerRequests w1) d' = load (answerRequests w) d') as Hother.
  { apply test_inv_slot in Htest as [(v & w0 & Hb & _ & Hi & ->)|[r ->]];
      [|done].
    apply bind_Some in Hb as (ps & _ & [= <-]). fields_in Hi. fields.
    intros d' Hne. rewrite load_insert_cases by done.
    destruct (decide (d = d')); [congruence|done]. }
  destruct flag.
  2: { injection H as <-. intros d' Hd'.
       apply test_inv_slot in Htest as [(v & w0 & _ & [=] & _)|[r ->]].
       exact Hd'. }
  apply bind_Some in H as (position & _ & H).
  apply bind_Some in H as (w2 & Hpost & H).
  unfold initializeAnAnswer in Hpost.
  apply post_inv_slot in Hpost as [Hd ->]. cbn [requests] in Hd.
  apply bind_Some in H as (response & _ & H).
  apply bind_Some in H as (w3 & Hw3 & H).
  apply bind_Some in H as (rc & _ & H).
  apply bind_Some in H as (cc & _ & H).
  apply bind_Some in H as (sum & _ & H).
  apply post_inv_slot in H as [_ ->].
  assert (answerRequests w3
          = <[Z.to_nat d := PENDING]> (answerRequests w1)) as Hreqs.
  { destruct response.
    - by injection Hw3 as <-.
    - apply bind_Some in Hw3 as (w4 & Hwait & Hw3).
      apply wait_inv_slot in Hwait as [_ ->].
      apply bind_Some in Hw3 as (resps & _ & [= <-]). done.
    - apply bind_Some in Hw3 as (w4 & Hwait & Hw3).
      apply wait_inv_slot in Hwait as [_ ->].
      apply bind_Some in Hw3 as (resps & _ & [= <-]). done. }
  intros d' Hd'. fields. rewrite Hreqs, load_insert_cases by done.
  destruct (decide (d = d')) as [|Hne]; [done|].
  rewrite Hother by done. exact Hd'.
Qed.

Lemma answerAll_receives_kept fuel o t w w' :
  answerAll fuel o t w = Some w' -> receives_kept w w'.
Proof.
  apply (for_each_step receives_kept).
  - apply receives_kept_refl.
  - apply receives_kept_trans.
  - intros d w1 w2. apply answerOne_receives_kept.
Qed.

(** A relation between states that every call of [answerAll] respects, and
    every piece of the worker that leaves the answering side alone, holds
    between the states of a worker from its initialisation on. *)
Section AnsweringSide.

Variable R : worker -> worker -> Prop.
Hypothesis R_refl : forall w, R w w.
Hypothesis R_trans : forall w1 w2 w3, R w1 w2 -> R w2 w3 -> R w1 w3.
Hypothesis R_answerAll :
  forall fuel o t w w', answerAll fuel o t w = Some w' -> R w w'.
Hypothesis R_footprint :
  forall (ks : list kind) w w', Answering ∉ ks -> footprint ks w w' -> R w w'.

Lemma awaitAnswers_related n fuel o t w w' :
  awaitAnswers n fuel o t w = Some w' -> R w w'.
Proof.
  revert w. induction n as [|n IH]; intros w H; [done|].
  cbn [awaitAnswers] in H.
  destruct (testAskAll o w) as [done w1] eqn:Htest.
  apply testAskAll_quiet in Htest as [Htest _].
  eapply R_trans; [eapply R_footprint; [|exact Htest]; no_answering|].
  destruct done; [injection H as <-; apply R_refl|].
  apply bind_Some in H as (w2 & Hans & H).
  eapply R_trans; [by eapply R_answerAll|by apply IH].
Qed.

Lemma awaitFinished_related n fuel o t w w' :
  awaitFinished n fuel o t w = Some w' -> R w w'.
Proof.
  revert w. induction n as [|n IH]; intros w H; [done|].
  cbn [awaitFinished] in H.
  destruct (testFinishedAll o w) as [done w1] eqn:Htest.
  apply testFinishedAll_quiet in Htest as [Htest _].
  eapply R_trans; [eapply R_footprint; [|exact Htest]; no_answering|].
  destruct done; [injection H as <-; apply R_refl|].
  apply bind_Some in H as (w2 & Hans & H).
  eapply R_trans; [by eapply R_answerAll|by apply IH].
Qed.

Lemma iteration_related fuel o beta gammaValue t w w' :
  iteration fuel o beta gammaValue t w = Some w' -> R w w'.
Proof.
  unfold iteration. intros H.
  destruct (call_rand o w) as [r1 w1] eqn:Hr1.
  apply bind_Some in H as (rowPosition & _ & H).
  destruct (call_rand o w1) as [r2 w2] eqn:Hr2.
  apply bind_Some in H as (columnPosition & _ & H).
  apply bind_Some in H as (sum & _ & H).
  apply bind_Some in H as (w3 & Hask & H).
  apply bind_Some in H as (w4 & Hwait & H).
  apply bind_Some in H as ([answers w5] & Hres & H).
  apply bind_Some in H as (initial & _ & H).
  apply bind_Some in H as (current & _ & H).
  destruct (randomProbability o w5) as [u w6] eqn:Hu.
  apply call_rand_quiet in Hr1 as [Hr1 _], Hr2 as [Hr2 _].
  apply askNeighbours_quiet in Hask as [Hask _].
  apply askResult_quiet in Hres as [Hres _].
  apply randomProbability_quiet in Hu as [Hu _].
  eapply R_trans; [eapply R_footprint; [|exact Hr1]; no_answering|].
  eapply R_trans; [eapply R_footprint; [|exact Hr2]; no_answering|].
  eapply R_trans; [eapply R_footprint; [|exact Hask]; no_answering|].
  eapply R_trans; [by eapply awaitAnswers_related|].
  eapply R_trans; [eapply R_footprint; [|exact Hres]; no_answering|].
  eapply R_trans; [eapply R_footprint; [|exact Hu]; no_answering|].
  destruct (PrimFloat.leb _ _); [|injection H as <-; apply R_refl].
  eapply (R_footprint []); [no_answering|by eapply flip_footprint].
Qed.

Lemma sampler_related n fuel o beta gammaValue t iterations w w' :
  sampler n fuel o beta gammaValue t iterations w = Some w' -> R w w'.
Proof.
  revert iterations w. induction n as [|n IH]; intros iterations w H; [done|].
  cbn [sampler] in H. destruct (negb (iterations =? 0)).
  - apply bind_Some in H as (w1 & Hit & H).
    eapply R_trans; [by eapply iteration_related|by eapply IH].
  - injection H as <-. apply R_refl.
Qed.

Lemma slave_related fuel o world_size world_rank beta gammaValue t code w' :
  slave fuel o world_size world_rank beta gammaValue t = Some (code, w') ->
  exists w1, initializeAnswers t (start t) = Some w1 /\ R w1 w'.
Proof.
  intros (_ & iterations & w1 & w2 & w3 & w4 & _ & H1 & H2 & H3 & H4 & H5)
    %slave_phases.
  exists w1. split; [done|].
  apply sendFinishedAll_quiet in H3 as [H3 _].
  apply sendTile_quiet in H5 as [H5 _].
  eapply R_trans; [by eapply sampler_related|].
  eapply R_trans; [eapply R_footprint; [|exact H3]; no_answering|].
  eapply R_trans; [by eapply awaitFinished_related|].
  eapply R_footprint; [|exact H5]. no_answering.
Qed.

End AnsweringSide.

(** X13. A worker never cancels or frees the receive it keeps posted for
    the questions of a neighbour: each time one completes, [answerAll]
    posts it again. When the worker returns, a receive for a question is
    still active in [answerRequests[d]] for every direction [d] that has a
    neighbour. *)
Theorem slave_returns_with_its_receives_posted fuel o world_size world_rank
    beta gammaValue t code w' :
  length (neighbours t) = 8%nat ->
  slave fuel o world_size world_rank beta gammaValue t = Some (code, w') ->
  forall d neighbour,
    load (neighbours t) d = Some neighbour -> neighbour <> -1 ->
    load (answerRequests w') d = Some PENDING.
Proof.
  intros Hn H.
  destruct (slave_related receives_kept receives_kept_refl receives_kept_trans
              answerAll_receives_kept footprint_receives_kept
              _ _ _ _ _ _ _ _ _ H) as (w1 & Hinit & Hkept).
  destruct (initializeAnswers_start t Hn) as (w1' & Hinit' & _ & Hstand & _).
  rewrite Hinit in Hinit'. injection Hinit' as <-.
  intros d nb Hnb Hne. apply Hkept. by eapply Hstand.
Qed.

Lemma slave_returns_with_its_receives_posted_witness :
  length (neighbours example_tile) = 8%nat /\
  slave 10 example_oracle 5000001 1 1 1 example_tile = Some (0, example_final) /\
  forall d neighbour,
    load (neighbours example_tile) d = Some neighbour -> neighbour <> -1 ->
    load (answerRequests example_final) d = Some PENDING.
Proof.
  split; [reflexivity|]. split; [exact example_slave|].
  exact (slave_returns_with_its_receives_posted 10 example_oracle 5000001 1 1 1
           example_tile 0 example_final eq_refl example_slave).
Defined.

(** ** Waiting for the answers *)

Lemma all_complete_true o a count w :
  count <= Z.of_nat (length (requests a w)) ->
  (forall i, 0 <= i < count -> is_Some (completes o (clock w) (a, i))) ->
  all_complete o a count w = true.
Proof.
  intros Hlen Hc. unfold all_complete. apply forallb_forall.
  intros i Hi%list_elem_of_In. unfold slots in Hi.
  apply elem_of_seqZ in Hi.
  destruct (load_Some (requests a w) i) as [r ->]; [lia|].
  destruct r; try done. apply bool_decide_eq_true. apply Hc. lia.
Qed.

Lemma testall_state o a count w flag w' :
  testall o a count w = (flag, w') ->
  clock w' = S (clock w) /\
  length (askRequests w') = length (askRequests w) /\
  length (askResponses w') = length (askResponses w) /\
  askReqResCount w' = askReqResCount w /\
  (a <> AskRequests -> askRequests w' = askRequests w) /\
  (a <> AskResponses -> askResponses w' = askResponses w) /\
  askResponseValues w' = askResponseValues w.
Proof.
  unfold testall, free_all.
  destruct (all_complete o a count w); intros [= <- <-];
    destruct a; fields; rewrite ?length_imap; done.
Qed.

Lemma testAskAll_state o w flag w' :
  testAskAll o w = (flag, w') ->
  (clock w <= clock w')%nat /\
  (0 < askReqResCount w -> flag = false -> (clock w < clock w')%nat) /\
  length (askRequests w') = length (askRequests w) /\
  length (askResponses w') = length (askResponses w) /\
  askReqResCount w' = askReqResCount w /\
  length (askResponseValues w') = length (askResponseValues w).
Proof.
  unfold testAskAll.
  destruct (Z.gtb_spec (askReqResCount w) 0) as [Hpos|Hneg].
  2: { intros [= <- <-]. repeat split; try done; lia. }
  destruct (testall o AskRequests (askReqResCount w) w) as [f1 w1] eqn:H1.
  destruct (testall o AskResponses (askReqResCount w1) w1) as [f2 w2] eqn:H2.
  intros [= <- <-].
  apply testall_state in H1 as (Hc1 & Hq1 & Hr1 & Hn1 & _ & _ & Hv1).
  apply testall_state in H2 as (Hc2 & Hq2 & Hr2 & Hn2 & _ & _ & Hv2).
  destruct f2; fields; unfold deliver_answers; rewrite ?length_imap;
    repeat split; try lia; congruence.
Qed.

Lemma testAskAll_succeeds o T w :
  answers_arrive o T (askReqResCount w) -> (T <= clock w)%nat ->
  askReqResCount w <= Z.of_nat (length (askRequests w)) ->
  askReqResCount w <= Z.of_nat (length (askResponses w)) ->
  exists w', testAskAll o w = (true, w').
Proof.
  intros Ho HT Hq Hr. unfold testAskAll.
  destruct (askReqResCount w >? 0); [|by eexists].
  destruct (testall o AskRequests (askReqResCount w) w) as [f1 w1] eqn:H1.
  destruct (testall o AskResponses (askReqResCount w1) w1) as [f2 w2] eqn:H2.
  pose proof (testall_state _ _ _ _ _ _ H1) as (Hc1 & _ & _ & Hn1 & _ & Hr1 & _).
  assert (f1 = true) as ->.
  { unfold testall in H1. rewrite all_complete_true in H1.
    - by injection H1 as <- _.
    - done.
    - intros i Hi. by apply Ho. }
  assert (f2 = true) as ->.
  { unfold testall in H2. rewrite all_complete_true in H2.
    - by injection H2 as <- _.
    - cbn [requests]. rewrite Hn1, Hr1 by done. done.
    - intros i Hi. rewrite Hn1 in Hi. apply Ho; [lia|done]. }
  by eexists.
Qed.

Lemma answered_clock o t d w : (clock w <= clock (answered o t d w))%nat.
Proof.
  unfold answered.
  destruct (_ =? -1); [done|].
  destruct (completes _ _ _); [|fields; lia].
  fields. destruct (load (answerResponses w) d) as [[]|]; fields; lia.
Qed.

Lemma answeredAll_clock o t w : (clock w <= clock (answeredAll o t w))%nat.
Proof.
  unfold answeredAll. generalize directions as l. intros l. revert w.
  induction l as [|d l IH]; intros w; [done|]. cbn [foldl].
  etransitivity; [apply (answered_clock o t d)|apply IH].
Qed.

Lemma answering_quiet (ks : list kind) t w w' :
  Answering ∉ ks -> quiet ks w w' -> answering t w -> answering t w'.
Proof.
  intros Hks [(_ & _ & Hans & _) Htile] [Hp Hq Hr Hstand Hshape Hchars].
  destruct (Hans Hks) as (Hp' & Hq' & Hr'). unfold same_tile in Htile.
  split; rewrite ?Hp', ?Hq', ?Hr', ?Htile; done.
Qed.

Lemma awaitAnswers_returns n fuel o t T w :
  (4 <= fuel)%nat -> well_formed t -> questions_in_range o -> answering t w ->
  askReqResCount w <= Z.of_nat (length (askRequests w)) ->
  askReqResCount w <= Z.of_nat (length (askResponses w)) ->
  answers_arrive o T (askReqResCount w) ->
  (T - clock w < n)%nat ->
  exists w',
    awaitAnswers n fuel o t w = Some w' /\ answering t w' /\
    length (askRequests w') = length (askRequests w) /\
    length (askResponses w') = length (askResponses w) /\
    length (askResponseValues w') = length (askResponseValues w).
Proof.
  intros Hfuel Ht Hq. revert w.
  induction n as [|n IH]; intros w Hw Hlq Hlr Ho Hn; [lia|].
  cbn [awaitAnswers].
  destruct (testAskAll o w) as [done w1] eqn:Htest.
  pose proof (testAskAll_state _ _ _ _ Htest)
    as (Hc1 & Hlt & Hq1 & Hr1 & Hn1 & Hv1).
  assert (answering t w1) as Hw1.
  { eapply answering_quiet; [|by eapply testAskAll_quiet|done]. no_answering. }
  destruct done; [by eexists|].
  assert (clock w < T)%nat as Hbefore.
  { destruct (decide (T <= clock w)%nat) as [Hafter|]; [|lia].
    destruct (testAskAll_succeeds o T w Ho Hafter Hlq Hlr) as (w2 & Heq).
    congruence. }
  assert (0 < askReqResCount w) as Hpos.
  { destruct (Z.ltb_spec 0 (askReqResCount w)) as [|Hle]; [done|].
    unfold testAskAll in Htest.
    replace (askReqResCount w >? 0) with false in Htest by lia. done. }
  specialize (Hlt Hpos eq_refl).
  destruct (answerAll_answeredAll fuel o t w1 Hfuel Ht Hq Hw1) as [Heq Hw2].
  rewrite Heq. cbn [mbind option_bind].
  pose proof (answeredAll_clock o t w1) as Hc2.
  pose proof (answerAll_quiet _ _ _ _ _ Heq) as [(_ & Hasks & _) _].
  destruct Hasks as (Hq2 & Hr2 & Hv2 & Hn2); [no_answering|].
  destruct (IH (answeredAll o t w1)) as (w' & Hrun & Hw' & Hq' & Hr' & Hv');
    [done|rewrite Hq2, Hn2, Hq1, Hn1; done
    |rewrite Hr2, Hn2, Hr1, Hn1; done
    |by rewrite Hn2, Hn1|lia|].
  exists w'. split; [done|]. split; [done|].
  rewrite Hq', Hr', Hv', Hq2, Hr2, Hv2. done.
Qed.





(** ** The answers collected *)

Lemma all_complete_inv o a count w i :
  all_complete o a count w = true -> 0 <= i < count ->
  load (requests a w) i = Some PENDING ->
  is_Some (completes o (clock w) (a, i)).
Proof.
  unfold all_complete. intros Hall Hi Hp.
  rewrite forallb_forall in Hall. specialize (Hall i).
  rewrite Hp in Hall. apply bool_decide_eq_true in Hall; [done|].
  apply list_elem_of_In. unfold slots. apply elem_of_seqZ. lia.
Qed.

Lemma load_imap {A B : Type} (f : nat -> A -> B) (l : list A) (i : Z) :
  load (imap f l) i = f (Z.to_nat i) <$> load l i.
Proof. unfold load. destruct (i <? 0); [done|]. apply list_lookup_imap. Qed.

Lemma testAskAll_delivers o w flag w' :
  testAskAll o w = (flag, w') ->
  askReqResCount w <= Z.of_nat (length (askResponseValues w)) ->
  answers_awaited o w ->
  answers_awaited o w' /\
  (flag = true -> answers_delivered o w') /\
  length (askResponseValues w') = length (askResponseValues w).
Proof.
  intros H Hlen Hinv.
  pose proof (testAskAll_count _ _ _ _ H) as Hcount.
  revert H. unfold testAskAll.
  destruct (Z.gtb_spec (askReqResCount w) 0) as [Hpos|Hneg].
  2: { intros [= <- <-]. split; [done|]. split; [|done].
       intros _. exists 0%nat. intros i Hi. lia. }
  destruct (testall o AskRequests (askReqResCount w) w) as [f1 w1] eqn:H1.
  destruct (testall o AskResponses (askReqResCount w1) w1) as [f2 w2] eqn:H2.
  intros [= <- <-].
  pose proof (testall_state _ _ _ _ _ _ H1) as (_ & _ & _ & Hn1 & _ & Hr1 & _).
  specialize (Hr1 ltac:(done)).
  assert (askResponseValues w1 = askResponseValues w) as Hv1.
  { unfold testall in H1.
    destruct (all_complete _ _ _ _); by injection H1 as _ <-. }
  rewrite Hn1 in *.
  assert (askResponseValues w2 = askResponseValues w1
          /\ askReqResCount w2 = askReqResCount w
          /\ askResponses w2
             = (if f2 then free_all (askReqResCount w) (askResponses w1)
                else askResponses w1)
          /\ all_complete o AskResponses (askReqResCount w) w1 = f2)
    as (Hv2 & Hn2 & Hr2 & Hall).
  { unfold testall in H2.
    destruct (all_complete _ _ _ _); injection H2 as <- <-; fields; done. }
  destruct f2.
  2: { fields. rewrite andb_false_r.
       split; [|split; [done|by rewrite Hv2, Hv1]].
       unfold answers_awaited, answers_delivered.
       rewrite Hn2, Hr2, Hr1, Hv2, Hv1. exact Hinv. }
  assert (forall i, 0 <= i < askReqResCount w ->
            load (free_all (askReqResCount w) (askResponses w1)) i
            = Some REQUEST_NULL) as Hfreed.
  { intros i Hi. unfold free_all. rewrite load_imap.
    replace (Z.of_nat (Z.to_nat i)) with i by lia.
    replace (i <? askReqResCount w) with true by lia.
    rewrite Hr1.
    destruct Hinv as [Hp|[Hp _]]; rewrite (Hp i Hi); done. }
  assert (answers_delivered o
            (set_askResponseValues
               (deliver_answers o (clock w1) (askReqResCount w)
                  (askResponses w1) (askResponseValues w1)) w2)) as Hdel.
  { destruct Hinv as [Hp|[Hp (time & Hdel)]].
    - exists (clock w1). fields. rewrite Hn2. intros i Hi.
      destruct (all_complete_inv o AskResponses _ w1 i Hall Hi) as [v Hv].
      { cbn [requests]. rewrite Hr1. by apply Hp. }
      exists v. split; [done|].
      unfold deliver_answers. rewrite load_imap.
      replace (Z.of_nat (Z.to_nat i)) with i by lia.
    replace (i <? askReqResCount w) with true by lia.
      rewrite Hr1. specialize (Hp i Hi). unfold load in Hp.
      replace (i <? 0) with false in Hp by lia. rewrite Hp.
      replace (Z.of_nat (Z.to_nat i)) with i by lia. rewrite Hv.
      destruct (load_Some (askResponseValues w1) i) as [x ->]; [|done].
      rewrite Hv1. lia.
    - exists time. fields. rewrite Hn2. intros i Hi.
      destruct (Hdel i Hi) as (v & Hv & Hload). exists v. split; [done|].
      unfold deliver_answers. rewrite load_imap.
      replace (Z.of_nat (Z.to_nat i)) with i by lia.
    replace (i <? askReqResCount w) with true by lia.
      rewrite Hr1. specialize (Hp i Hi). unfold load in Hp.
      replace (i <? 0) with false in Hp by lia. rewrite Hp.
      rewrite Hv1, Hload. done. }
  fields. split; [|split; [done|]].
  - right. split; [|done]. fields. rewrite Hn2, Hr2. exact Hfreed.
  - unfold deliver_answers. by rewrite length_imap, Hv1.
Qed.

Lemma awaitAnswers_delivers n fuel o t w w' :
  awaitAnswers n fuel o t w = Some w' ->
  askReqResCount w <= Z.of_nat (length (askResponseValues w)) ->
  answers_awaited o w -> answers_delivered o w'.
Proof.
  revert w. induction n as [|n IH]; intros w H Hlen Hinv; [done|].
  cbn [awaitAnswers] in H.
  destruct (testAskAll o w) as [done w1] eqn:Htest.
  pose proof (testAskAll_count _ _ _ _ Htest) as Hn1.
  destruct (testAskAll_delivers _ _ _ _ Htest Hlen Hinv) as (Hinv1 & Hdone & Hv1).
  destruct done; [injection H as <-; by apply Hdone|].
  apply bind_Some in H as (w2 & Hans & H).
  apply answerAll_quiet in Hans as [(_ & Hasks & _) _].
  destruct Hasks as (_ & Hr2 & Hv2 & Hn2); [no_answering|].
  apply (IH w2 H).
  - rewrite Hn2, Hv2, Hn1, Hv1. done.
  - unfold answers_awaited, answers_delivered.
    rewrite Hn2, Hr2, Hv2. exact Hinv1.
Qed.

Lemma askAsync_pending neighbour position w w' :
  askAsync neighbour position w = Some w' ->
  length (askResponses w) = 8%nat ->
  0 <= askReqResCount w ->
  (forall i, 0 <= i < askReqResCount w ->
             load (askResponses w) i = Some PENDING) ->
  length (askResponses w') = 8%nat /\
  0 <= askReqResCount w' /\
  (forall i, 0 <= i < askReqResCount w' ->
             load (askResponses w') i = Some PENDING) /\
  askResponseValues w' = askResponseValues w.
Proof.
  unfold askAsync. intros H Hlen H0 Hp.
  destruct (neighbour =? -1); [by injection H as <-|].
  apply bind_Some in H as (w1 & Hpost1 & H).
  apply post_inv_slot in Hpost1 as [_ ->].
  apply bind_Some in H as (w2 & Hpost2 & [= <-]).
  apply post_inv_slot in Hpost2 as [Hslot ->].
  fields_in Hslot. fields.
  rewrite int_add_exact by (unfold is_int, INT_MIN, INT_MAX; lia).
  rewrite length_insert. split; [done|]. split; [lia|]. split; [|done].
  intros i Hi. rewrite load_insert_cases by lia.
  destruct (decide (askReqResCount w = i)); [done|]. apply Hp. lia.
Qed.

Lemma ask_list_pending t l w w' :
  ask_list t l w = Some w' ->
  length (askResponses w) = 8%nat ->
  0 <= askReqResCount w ->
  (forall i, 0 <= i < askReqResCount w ->
             load (askResponses w) i = Some PENDING) ->
  (forall i, 0 <= i < askReqResCount w' ->
             load (askResponses w') i = Some PENDING) /\
  askResponseValues w' = askResponseValues w.
Proof.
  revert w. induction l as [|[D p] l IH]; intros w H Hlen H0 Hp.
  - by injection H as <-.
  - cbn [ask_list] in H. apply bind_Some in H as (w1 & Hask & H).
    unfold ask in Hask. apply bind_Some in Hask as (nb & _ & Hask).
    destruct (askAsync_pending _ _ _ _ Hask Hlen H0 Hp)
      as (Hlen1 & H01 & Hp1 & Hv1).
    destruct (IH w1 H Hlen1 H01 Hp1) as [Hp' Hv']. split; [done|].
    by rewrite Hv', Hv1.
Qed.

(** X15. The remote part of the neighbour sum is made of the answers the
    library has delivered: when the wait of an iteration is over, for
    each of the questions it has posted (one per neighbour asked, in the
    slots 0, 1, ...) the value in [askResponseValues] is the [int] that
    the library stored on completing the receive of that slot, all
    completions reported by one call of [MPI_Testall]. These slots are
    the ones [askResult] adds up. *)
Theorem iteration_sums_the_answers_received fuel o beta gammaValue t w w' :
  (4 <= fuel)%nat -> well_formed t -> rand_in_range o ->
  tile_shape (rows t) (columns t) (subImage w) -> char_pixels (subImage w) ->
  idle w ->
  iteration fuel o beta gammaValue t w = Some w' ->
  let r := Z.rem (rand o (clock w)) (rows t) in
  let c := Z.rem (rand o (S (clock w))) (columns t) in
  exists w_asked w_answered,
    askNeighbours t r c
      (tick (emit (rand_call (rand o (S (clock w))))
               (tick (emit (rand_call (rand o (clock w))) w))))
    = Some w_asked /\
    awaitAnswers fuel fuel o t w_asked = Some w_answered /\
    askReqResCount w_answered = Z.of_nat (length (asked t r c)) /\
    answers_delivered o w_answered.
Proof.
  intros Hfuel Ht Ho Hshape Hchars Hidle H r c.
  destruct (iteration_decided _ _ _ _ _ _ _ Hfuel Ht Ho Hshape Hchars Hidle H)
    as (_ & _ & w_asked & w_answered & Hask & Hwait & _ & _).
  fold r c in Hask.
  exists w_asked, w_answered. split; [done|]. split; [done|].
  destruct Hidle as [Hq Hs Hv H0].
  destruct Ht as [Hn Hrows Hcols _ _]. unfold INT_MAX in *.
  pose proof Hask as Hlist.
  rewrite askNeighbours_ask_list in Hlist by (unfold INT_MIN, INT_MAX; lia).
  pose proof (asked_length t r c) as Hlen.
  destruct (ask_list_posts t (questions_for t r c)
              (tick (emit (rand_call (rand o (S (clock w))))
                       (tick (emit (rand_call (rand o (clock w))) w)))) Hn)
    as (w2 & Heq & _ & Hc2 & _ & _ & Hv2); fold (asked t r c);
    try (fields; done || lia).
  rewrite Heq in Hlist. injection Hlist as ->.
  fields_in Hc2. fields_in Hv2. rewrite H0 in Hc2.
  fold (asked t r c) in Hc2.
  apply ask_list_pending in Heq as [Hpending _]; fields; try (done || lia).
  pose proof (awaitAnswers_count _ _ _ _ _ _ Hwait) as Hcount.
  split; [lia|].
  eapply awaitAnswers_delivers; [exact Hwait| |by left].
  rewrite Hc2, Hv2, Hv. lia.
Qed.

Lemma iteration_sums_the_answers_received_witness :
  (4 <= 10)%nat /\ well_formed example_tile /\ rand_in_range example_oracle /\
  tile_shape (rows example_tile) (columns example_tile) (subImage example_worker) /\
  char_pixels (subImage example_worker) /\ idle example_worker /\
  iteration 10 example_oracle 1 1 example_tile example_worker
  = Some example_iterated /\
  exists w_answered,
    askReqResCount w_answered = Z.of_nat (length (asked example_tile 0 0)) /\
    answers_delivered example_oracle w_answered.
Proof.
  split; [lia|]. split; [exact example_tile_well_formed|].
  split; [exact example_oracle_in_range|]. split; [exact example_worker_shape|].
  split; [exact example_worker_chars|]. split; [exact example_worker_idle|].
  split; [exact example_iteration|].
  destruct (iteration_sums_the_answers_received 10 example_oracle 1 1
              example_tile example_worker example_iterated)
    as (w_asked & w_answered & _ & _ & Hcount & Hdelivered);
    [lia|exact example_tile_well_formed|exact example_oracle_in_range
    |exact example_worker_shape|exact example_worker_chars
    |exact example_worker_idle|exact example_iteration|].
  exists w_answered. split; [exact Hcount|exact Hdelivered].
Defined.

(** ** The answers at the edges of a tile *)

Lemma px_outside img rows columns i j :
  tile_shape rows columns img ->
  i < 0 \/ rows <= i \/ j < 0 \/ columns <= j -> px img i j = 0.
Proof.
  intros [Hlen Hrows] Hout. unfold px, pixel.
  destruct (Z.ltb_spec i 0), (Z.ltb_spec j 0); cbn [orb]; try done.
  destruct (img !! Z.to_nat i) as [row|] eqn:Hrow; [|done].
  cbn [mbind option_bind].
  rewrite Forall_forall in Hrows.
  specialize (Hrows row (list_elem_of_lookup_2 _ _ _ Hrow)).
  apply lookup_lt_Some in Hrow.
  rewrite (lookup_ge_None_2 row) by lia. done.
Qed.

Lemma cell_px img rows columns rc cc i j :
  tile_shape rows columns img -> (i, j) <> (rc, cc) ->
  cell img rows columns rc cc i j = px img i j.
Proof.
  intros Hshape Hne. unfold cell.
  destruct (Z.leb_spec 0 i), (Z.ltb_spec i rows), (Z.leb_spec 0 j),
    (Z.ltb_spec j columns); cbn [andb];
    try (symmetry; apply (px_outside img rows columns); [done|lia]).
  destruct (Z.eqb_spec i rc), (Z.eqb_spec j cc); cbn [negb orb]; try done.
  congruence.
Qed.

Lemma summer_pixels fuel img rows columns rc cc :
  (4 <= fuel)%nat ->
  tile_shape rows columns img -> char_pixels img ->
  INT_MIN < rc < INT_MAX - 1 -> INT_MIN < cc < INT_MAX - 1 ->
  summer fuel img rows columns rc cc
  = Some (px img (rc - 1) (cc - 1) + px img (rc - 1) cc + px img (rc - 1) (cc + 1)
          + (px img rc (cc - 1) + 0 + px img rc (cc + 1))
          + (px img (rc + 1) (cc - 1) + px img (rc + 1) cc
             + px img (rc + 1) (cc + 1))).
Proof.
  intros Hfuel Hshape Hch Hrc Hcc. rewrite summer_rows by done.
  unfold row_part. rewrite cell_centre.
  rewrite !(cell_px img rows columns) by (done || intros [=]; lia). done.
Qed.

(** X16. What [summer] returns at the off-edge centres [answerAll] uses,
    on a tile of at least one row and one column. A question from a
    diagonal neighbour is answered with the one corner pixel that touches
    it; a question from the neighbour above about column [p] with the sum
    of the pixels of the first row in the columns [p-1], [p], [p+1] (those
    outside the tile count 0), and likewise below, to the left and to the
    right. *)
Theorem summer_at_the_off_edge_centres fuel img rows columns p :
  (4 <= fuel)%nat ->
  tile_shape rows columns img -> char_pixels img ->
  1 <= rows < INT_MAX - 1 -> 1 <= columns < INT_MAX - 1 ->
  INT_MIN < p < INT_MAX - 1 ->
  summer fuel img rows columns (-1) p
  = Some (px img 0 (p - 1) + px img 0 p + px img 0 (p + 1)) /\
  summer fuel img rows columns rows p
  = Some (px img (rows - 1) (p - 1) + px img (rows - 1) p
          + px img (rows - 1) (p + 1)) /\
  summer fuel img rows columns p (-1)
  = Some (px img (p - 1) 0 + px img p 0 + px img (p + 1) 0) /\
  summer fuel img rows columns p columns
  = Some (px img (p - 1) (columns - 1) + px img p (columns - 1)
          + px img (p + 1) (columns - 1)) /\
  summer fuel img rows columns (-1) (-1) = Some (px img 0 0) /\
  summer fuel img rows columns (-1) columns = Some (px img 0 (columns - 1)) /\
  summer fuel img rows columns rows columns
  = Some (px img (rows - 1) (columns - 1)) /\
  summer fuel img rows columns rows (-1) = Some (px img (rows - 1) 0).
Proof.
  unfold INT_MIN, INT_MAX. intros Hfuel Hshape Hch Hr Hc Hp.
  assert (forall i j, i < 0 \/ rows <= i \/ j < 0 \/ columns <= j ->
                      px img i j = 0) as Hout
    by (intros; by eapply px_outside).
  repeat split;
    rewrite summer_pixels by (done || unfold INT_MIN, INT_MAX; lia);
    f_equal;
    repeat match goal with
           | |- context [px img ?i ?j] => rewrite (Hout i j) by lia
           end;
    change (-1 + 1) with 0; lia.
Qed.

Lemma summer_at_the_off_edge_centres_witness :
  (4 <= 4)%nat /\ tile_shape 2 2 (subImage example_iterated) /\
  char_pixels (subImage example_iterated) /\
  (1 <= 2 < INT_MAX - 1) /\ (1 <= 2 < INT_MAX - 1) /\
  (INT_MIN < 0 < INT_MAX - 1) /\
  summer 4 (subImage example_iterated) 2 2 (-1) 0
  = Some (px (subImage example_iterated) 0 (0 - 1)
          + px (subImage example_iterated) 0 0
          + px (subImage example_iterated) 0 (0 + 1)) /\
  summer 4 (subImage example_iterated) 2 2 (-1) (-1)
  = Some (px (subImage example_iterated) 0 0).
Proof.
  assert (tile_shape 2 2 (subImage example_iterated)) as Hshape
    by (split; [reflexivity|repeat constructor]).
  assert (char_pixels (subImage example_iterated)) as Hchars
    by (repeat (constructor; try by vm_compute)).
  split; [lia|]. split; [exact Hshape|]. split; [exact Hchars|].
  split; [by vm_compute|]. split; [by vm_compute|]. split; [by vm_compute|].
  destruct (summer_at_the_off_edge_centres 4 (subImage example_iterated) 2 2 0)
    as (Htop & _ & _ & _ & Hcorner & _);
    [lia|exact Hshape|exact Hchars|by vm_compute|by vm_compute|by vm_compute|].
  split; [exact Htop|exact Hcorner].
Defined.

(** ** A flip undone *)

Lemma set_pixel_twice img r c v v' :
  set_pixel (set_pixel img r c v) r c v' = set_pixel img r c v'.
Proof.
  unfold set_pixel.
  destruct (img !! Z.to_nat r) as [row|] eqn:Hrow.
  - rewrite (list_lookup_insert_eq img) by (by eapply lookup_lt_Some).
    rewrite (list_insert_insert_eq img), (list_insert_insert_eq row). done.
  - by rewrite Hrow.
Qed.

Lemma set_pixel_same img r c x :
  pixel img r c = Some x -> set_pixel img r c x = img.
Proof.
  intros Hx. pose proof (pixel_nonneg _ _ _ _ Hx) as [Hr Hc].
  revert Hx. unfold pixel, set_pixel.
  replace (r <? 0) with false by lia. replace (c <? 0) with false by lia.
  cbn [orb].
  destruct (img !! Z.to_nat r) as [row|] eqn:Hrow; [|done].
  cbn [mbind option_bind]. intros Hx.
  rewrite (list_insert_id row) by done. by apply list_insert_id.
Qed.

(** X17. A flip negates one pixel as a [char] and fails outside the tile.
    Two flips of the same pixel restore the tile, unless the pixel is
    -128, the one [char] whose negation does not fit: that pixel is left
    as it is by each flip. In particular a pixel -1 or +1 is restored. *)
Theorem flip_twice_restores_the_tile r c w x :
  pixel (subImage w) r c = Some x -> is_char x ->
  exists w1 w2,
    flip r c w = Some w1 /\ flip r c w1 = Some w2 /\
    pixel (subImage w1) r c = Some (if x =? -128 then -128 else - x) /\
    subImage w2 = subImage w.
Proof.
  unfold is_char. intros Hx Hch. unfold flip at 1. rewrite Hx.
  cbn [mbind option_bind]. eexists. eexists. split; [reflexivity|].
  assert (char_wrap (- x) = if x =? -128 then -128 else - x) as Hneg.
  { destruct (Z.eqb_spec x (-128)) as [->|Hne]; [reflexivity|].
    apply char_wrap_id. unfold is_char. lia. }
  unfold flip. fields.
  rewrite (pixel_set_pixel_eq _ _ _ _ _ Hx). cbn [mbind option_bind].
  split; [reflexivity|]. fields. split; [by rewrite Hneg|].
  rewrite set_pixel_twice. apply set_pixel_same. rewrite Hx. f_equal.
  rewrite Hneg. destruct (Z.eqb_spec x (-128)) as [->|Hne]; [reflexivity|].
  rewrite char_wrap_id by (unfold is_char; lia). lia.
Qed.

Lemma flip_twice_restores_the_tile_witness :
  pixel (subImage example_iterated) 0 0 = Some (-1) /\ is_char (-1) /\
  exists w1 w2,
    flip 0 0 example_iterated = Some w1 /\ flip 0 0 w1 = Some w2 /\
    pixel (subImage w1) 0 0 = Some (if -1 =? -128 then -128 else - -1) /\
    subImage w2 = subImage example_iterated.
Proof.
  split; [reflexivity|]. split; [by vm_compute|].
  apply (flip_twice_restores_the_tile 0 0 example_iterated (-1));
    [reflexivity|by vm_compute].
Defined.

(** ** The ranks a worker names *)

Ltac grows_by :=
  first
    [ exists []; split; [fields; by rewrite app_nil_r | constructor]
    | eexists; split;
      [ fields; rewrite <- ?app_assoc; cbn [app]; reflexivity
      | repeat constructor; cbn [addressed]; done ] ].

Lemma grows_refl P w : grows P w w.
Proof. exists []. by rewrite app_nil_r. Qed.

Lemma grows_trans P w1 w2 w3 : grows P w1 w2 -> grows P w2 w3 -> grows P w1 w3.
Proof.
  intros (e1 & H1 & F1) (e2 & H2 & F2). exists (e1 ++ e2). split.
  - by rewrite H2, H1, app_assoc.
  - by apply Forall_app.
Qed.

Lemma load_elem {A : Type} (arr : list A) (i : Z) (x : A) :
  load arr i = Some x -> x ∈ arr.
Proof.
  unfold load. destruct (i <? 0); [done|]. apply list_elem_of_lookup_2.
Qed.

Lemma testall_addressed t o a count w flag w' :
  testall o a count w = (flag, w') -> grows (addressed t) w w'.
Proof.
  unfold testall. destruct (all_complete o a count w); intros [= <- <-];
    destruct a; grows_by.
Qed.

Lemma testAskAll_addressed t o w flag w' :
  testAskAll o w = (flag, w') -> grows (addressed t) w w'.
Proof.
  unfold testAskAll. destruct (askReqResCount w >? 0).
  2: { intros [= <- <-]. apply grows_refl. }
  destruct (testall o AskRequests (askReqResCount w) w) as [f1 w1] eqn:H1.
  destruct (testall o AskResponses (askReqResCount w1) w1) as [f2 w2] eqn:H2.
  intros [= <- <-].
  apply (testall_addressed t) in H1, H2.
  eapply grows_trans; [exact H1|]. eapply grows_trans; [exact H2|].
  destruct f2; [grows_by|apply grows_refl].
Qed.

Lemma testFinishedAll_addressed t o w flag w' :
  testFinishedAll o w = (flag, w') -> grows (addressed t) w w'.
Proof.
  unfold testFinishedAll. destruct (finishedReqResCount w >? 0).
  2: { intros [= <- <-]. apply grows_refl. }
  destruct (testall o FinishedRequests (finishedReqResCount w) w)
    as [f1 w1] eqn:H1.
  destruct (testall o FinishedResponses (finishedReqResCount w1) w1)
    as [f2 w2] eqn:H2.
  intros [= <- <-].
  apply (testall_addressed t) in H1, H2. by eapply grows_trans.
Qed.

Lemma answerOne_addressed fuel o t d w w' :
  answerOne fuel o t d w = Some w' -> grows (addressed t) w w'.
Proof.
  unfold answerOne. intros (nb & Hnb%load_elem & H)%bind_Some.
  destruct (Z.eqb_spec nb (-1)) as [|Hne];
    [injection H as <-; apply grows_refl|].
  apply bind_Some in H as ([flag w1] & Htest & H).
  assert (grows (addressed t) w w1) as Hs1.
  { apply test_inv in Htest as [(v & w0 & reqs & _ & Hb & _ & ->)|[r ->]].
    - apply bind_Some in Hb as (ps & _ & [= <-]). grows_by.
    - grows_by. }
  destruct flag; [|injection H as <-; done].
  apply bind_Some in H as (position & _ & H).
  apply bind_Some in H as (w2 & Hpost & H).
  unfold initializeAnAnswer in Hpost. apply post_inv in Hpost as [reqs ->].
  apply bind_Some in H as (response & _ & H).
  apply bind_Some in H as (w3 & Hw3 & H).
  apply bind_Some in H as (rc & _ & H).
  apply bind_Some in H as (cc & _ & H).
  apply bind_Some in H as (sum & _ & H).
  apply post_inv in H as [reqs' ->].
  eapply grows_trans; [exact Hs1|].
  eapply (grows_trans _ _ w3); [|grows_by].
  destruct response.
  - injection Hw3 as <-. grows_by.
  - apply bind_Some in Hw3 as (w4 & Hwait & Hw3).
    apply wait_inv in Hwait as [reqs'' ->].
    apply bind_Some in Hw3 as (resps & _ & [= <-]). grows_by.
  - apply bind_Some in Hw3 as (w4 & Hwait & Hw3).
    apply wait_inv in Hwait as [reqs'' ->].
    apply bind_Some in Hw3 as (resps & _ & [= <-]). grows_by.
Qed.

Lemma answerAll_addressed fuel o t w w' :
  answerAll fuel o t w = Some w' -> grows (addressed t) w w'.
Proof.
  apply for_each_step.
  - apply grows_refl.
  - apply grows_trans.
  - intros i w1 w2. apply answerOne_addressed.
Qed.

Lemma askAsync_addressed t neighbour position w w' :
  neighbour ∈ neighbours t ->
  askAsync neighbour position w = Some w' -> grows (addressed t) w w'.
Proof.
  intros Hin. unfold askAsync.
  destruct (Z.eqb_spec neighbour (-1)) as [|Hne].
  { intros [= <-]. apply grows_refl. }
  intros (w1 & H1 & H)%bind_Some. apply post_inv in H1 as [reqs ->].
  apply bind_Some in H as (w2 & H2 & [= <-]).
  apply post_inv in H2 as [reqs' ->]. grows_by.
Qed.

Lemma askNeighbours_addressed t r c w w' :
  askNeighbours t r c w = Some w' -> grows (addressed t) w w'.
Proof.
  assert (forall d p w w',
            (load (neighbours t) d ≫= fun nb => askAsync nb p w) = Some w' ->
            grows (addressed t) w w') as Hask.
  { intros d p w1 w2 (nb & Hnb%load_elem & H)%bind_Some.
    by eapply askAsync_addressed. }
  assert (forall (b : bool) d p w w',
            (if b then load (neighbours t) d ≫= fun nb => askAsync nb p w
             else Some w) = Some w' -> grows (addressed t) w w') as Hif.
  { intros [] d p w1 w2 H; [by eapply Hask|].
    injection H as <-. apply grows_refl. }
  unfold askNeighbours. intros (w1 & H1 & H)%bind_Some.
  apply bind_Some in H as (w2 & H2 & H).
  apply bind_Some in H as (w3 & H3 & H).
  eapply (grows_trans _ _ w1).
  { destruct (r =? 0); [|injection H1 as <-; apply grows_refl].
    apply bind_Some in H1 as (wa & Ha & H1).
    apply bind_Some in H1 as (wb & Hb & H1).
    eapply grows_trans; [by eapply Hask|].
    eapply grows_trans; by eapply Hif. }
  eapply (grows_trans _ _ w2).
  { destruct (r =? int_sub (rows t) 1); [|injection H2 as <-; apply grows_refl].
    apply bind_Some in H2 as (wa & Ha & H2).
    apply bind_Some in H2 as (wb & Hb & H2).
    eapply grows_trans; [by eapply Hask|].
    eapply grows_trans; by eapply Hif. }
  eapply grows_trans; by eapply Hif.
Qed.

Lemma awaitAnswers_addressed n fuel o t w w' :
  awaitAnswers n fuel o t w = Some w' -> grows (addressed t) w w'.
Proof.
  revert w. induction n as [|n IH]; intros w H; [done|].
  cbn [awaitAnswers] in H.
  destruct (testAskAll o w) as [done w1] eqn:Htest.
  apply (testAskAll_addressed t) in Htest.
  eapply grows_trans; [exact Htest|].
  destruct done; [injection H as <-; apply grows_refl|].
  apply bind_Some in H as (w2 & Hans & H).
  eapply grows_trans; [by eapply answerAll_addressed|by apply IH].
Qed.

Lemma awaitFinished_addressed n fuel o t w w' :
  awaitFinished n fuel o t w = Some w' -> grows (addressed t) w w'.
Proof.
  revert w. induction n as [|n IH]; intros w H; [done|].
  cbn [awaitFinished] in H.
  destruct (testFinishedAll o w) as [done w1] eqn:Htest.
  apply (testFinishedAll_addressed t) in Htest.
  eapply grows_trans; [exact Htest|].
  destruct done; [injection H as <-; apply grows_refl|].
  apply bind_Some in H as (w2 & Hans & H).
  eapply grows_trans; [by eapply answerAll_addressed|by apply IH].
Qed.

Lemma iteration_addressed fuel o beta gammaValue t w w' :
  iteration fuel o beta gammaValue t w = Some w' -> grows (addressed t) w w'.
Proof.
  unfold iteration, randomProbability, call_rand.
  intros (rowPosition & _ & H)%bind_Some.
  apply bind_Some in H as (columnPosition & _ & H).
  apply bind_Some in H as (sum & _ & H).
  apply bind_Some in H as (w3 & Hask & H).
  apply bind_Some in H as (w4 & Hwait & H).
  apply bind_Some in H as ([answers w5] & Hres & H).
  apply bind_Some in H as (initial & _ & H).
  apply bind_Some in H as (current & _ & H).
  apply askNeighbours_addressed in Hask.
  apply awaitAnswers_addressed in Hwait.
  apply askResult_trace in Hres.
  eapply grows_trans; [|eapply grows_trans; [exact Hask|]]; [grows_by|].
  eapply grows_trans; [exact Hwait|].
  eapply (grows_trans _ _ w5); [exists []; by rewrite Hres, app_nil_r|].
  destruct (PrimFloat.leb _ _).
  - unfold flip in H. apply bind_Some in H as (x & _ & [= <-]). grows_by.
  - injection H as <-. grows_by.
Qed.

Lemma sampler_addressed n fuel o beta gammaValue t iterations w w' :
  sampler n fuel o beta gammaValue t iterations w = Some w' ->
  grows (addressed t) w w'.
Proof.
  revert iterations w. induction n as [|n IH]; intros iterations w H; [done|].
  cbn [sampler] in H. destruct (negb (iterations =? 0)).
  - apply bind_Some in H as (w1 & Hit & H).
    eapply grows_trans; [by eapply iteration_addressed|by eapply IH].
  - injection H as <-. apply grows_refl.
Qed.

Lemma initializeAnswers_addressed t w w' :
  initializeAnswers t w = Some w' -> grows (addressed t) w w'.
Proof.
  apply for_each_step.
  - apply grows_refl.
  - apply grows_trans.
  - intros d w1 w2 (nb & Hnb%load_elem & H)%bind_Some.
    destruct (Z.eqb_spec nb (-1)) as [|Hne];
      [injection H as <-; apply grows_refl|].
    apply bind_Some in H as (w3 & Hpost & H).
    apply post_inv in Hpost as [reqs ->].
    apply bind_Some in H as (resps & _ & [= <-]). grows_by.
Qed.

Lemma sendFinishedAll_addressed t w w' :
  sendFinishedAll t w = Some w' -> grows (addressed t) w w'.
Proof.
  apply for_each_step.
  - apply grows_refl.
  - apply grows_trans.
  - intros d w1 w2 (nb & Hnb%load_elem & H)%bind_Some.
    destruct (Z.eqb_spec nb (-1)) as [|Hne]; cbn [negb] in H;
      [injection H as <-; apply grows_refl|].
    apply bind_Some in H as (w3 & Hpost & H).
    apply post_inv in Hpost as [reqs ->].
    apply bind_Some in H as (w4 & Hpost & [= <-]).
    apply post_inv in Hpost as [reqs' ->]. grows_by.
Qed.

Lemma sendTile_addressed fuel t w w' :
  sendTile fuel t w = Some w' -> grows (addressed t) w w'.
Proof.
  apply for_lt_step.
  - apply grows_refl.
  - apply grows_trans.
  - intros i w1 w2 (row & _ & [= <-])%bind_Some. grows_by.
Qed.

(** X18. A worker names no rank but those the coordinator gave it: in a
    run that returns, every non-blocking send and receive is addressed to
    a rank of its neighbour list that is not -1 (no message is ever posted
    for a direction without neighbour), and every blocking send goes to
    rank 0, the coordinator. *)
Theorem slave_names_its_neighbours_only fuel o world_size world_rank
    beta gammaValue t code w' :
  slave fuel o world_size world_rank beta gammaValue t = Some (code, w') ->
  Forall (addressed t) (trace w').
Proof.
  intros (_ & iterations & w1 & w2 & w3 & w4 & _ & H1 & H2 & H3 & H4 & H5)
    %slave_phases.
  apply initializeAnswers_addressed in H1.
  apply sampler_addressed in H2.
  apply sendFinishedAll_addressed in H3.
  apply awaitFinished_addressed in H4.
  apply sendTile_addressed in H5.
  destruct (grows_trans _ _ _ _ H1
              (grows_trans _ _ _ _ H2
                 (grows_trans _ _ _ _ H3 (grows_trans _ _ _ _ H4 H5))))
    as (evs & Htr & Hall).
  rewrite Htr. cbn [start trace app]. exact Hall.
Qed.

Lemma slave_names_its_neighbours_only_witness :
  slave 10 example_oracle 5000001 1 1 1 example_tile = Some (0, example_final) /\
  Forall (addressed example_tile) (trace example_final).
Proof.
  split; [exact example_slave|].
  exact (slave_names_its_neighbours_only 10 example_oracle 5000001 1 1 1
           example_tile 0 example_final example_slave).
Defined.

(** ** A worker alone *)

Lemma lone_load t d nb : lone t -> load (neighbours t) d = Some nb -> nb = -1.
Proof.
  intros Hl Hnb%load_elem. unfold lone in Hl. rewrite Forall_forall in Hl.
  by apply Hl.
Qed.

Lemma for_each_same (l : list Z) (body : Z -> worker -> option worker) w w' :
  (forall i w w', body i w = Some w' -> w' = w) ->
  for_each l body w = Some w' -> w' = w.
Proof.
  intros Hbody. apply (for_each_step (fun w w' => w' = w)); [done| |done].
  by intros w1 w2 w3 -> ->.
Qed.

Lemma initializeAnswers_lone t w w' :
  lone t -> initializeAnswers t w = Some w' -> w' = w.
Proof.
  intros Hl. apply for_each_same.
  intros d w1 w2 (nb & Hnb & H)%bind_Some.
  rewrite (lone_load t d nb Hl Hnb) in H. by injection H as <-.
Qed.

Lemma answerAll_lone fuel o t w w' :
  lone t -> answerAll fuel o t w = Some w' -> w' = w.
Proof.
  intros Hl. apply for_each_same.
  intros d w1 w2. unfold answerOne. intros (nb & Hnb & H)%bind_Some.
  rewrite (lone_load t d nb Hl Hnb) in H. by injection H as <-.
Qed.

Lemma sendFinishedAll_lone t w w' :
  lone t -> sendFinishedAll t w = Some w' -> w' = w.
Proof.
  intros Hl. apply for_each_same.
  intros d w1 w2 (nb & Hnb & H)%bind_Some.
  rewrite (lone_load t d nb Hl Hnb) in H. by injection H as <-.
Qed.

Lemma askNeighbours_lone t r c w w' :
  lone t -> askNeighbours t r c w = Some w' -> w' = w.
Proof.
  intros Hl.
  assert (forall d p w w',
            (load (neighbours t) d ≫= fun nb => askAsync nb p w) = Some w' ->
            w' = w) as Hask.
  { intros d p w1 w2 (nb & Hnb & H)%bind_Some.
    rewrite (lone_load t d nb Hl Hnb) in H. by injection H as <-. }
  assert (forall (b : bool) d p w w',
            (if b then load (neighbours t) d ≫= fun nb => askAsync nb p w
             else Some w) = Some w' -> w' = w) as Hif.
  { intros [] d p w1 w2 H; [by eapply Hask|]. by injection H as <-. }
  unfold askNeighbours. intros (w1 & H1 & H)%bind_Some.
  apply bind_Some in H as (w2 & H2 & H).
  apply bind_Some in H as (w3 & H3 & H).
  apply Hif in H, H3. subst w' w3.
  assert (w2 = w1) as ->.
  { destruct (r =? int_sub (rows t) 1); [|by injection H2 as <-].
    apply bind_Some in H2 as (wa & Ha & H2).
    apply bind_Some in H2 as (wb & Hb & H2).
    apply Hask in Ha. apply Hif in Hb, H2. congruence. }
  destruct (r =? 0); [|by injection H1 as <-].
  apply bind_Some in H1 as (wa & Ha & H1).
  apply bind_Some in H1 as (wb & Hb & H1).
  apply Hask in Ha. apply Hif in Hb, H1. congruence.
Qed.

Lemma iteration_lone fuel o beta gammaValue t w w' :
  lone t -> askReqResCount w = 0 ->
  iteration fuel o beta gammaValue t w = Some w' ->
  grows draw_or_row w w' /\ askReqResCount w' = 0
  /\ finishedReqResCount w' = finishedReqResCount w.
Proof.
  intros Hl H0. unfold iteration, randomProbability, call_rand.
  intros (rowPosition & _ & H)%bind_Some.
  apply bind_Some in H as (columnPosition & _ & H).
  apply bind_Some in H as (sum & _ & H).
  apply bind_Some in H as (w3 & Hask & H).
  apply (askNeighbours_lone _ _ _ _ _ Hl) in Hask. subst w3.
  apply bind_Some in H as (w4 & Hwait & H).
  destruct fuel as [|fuel]; [done|]. cbn [awaitAnswers] in Hwait.
  rewrite testAskAll_idle in Hwait by (fields; done). injection Hwait as <-.
  rewrite askResult_idle in H by (fields; done). fields_in H.
  apply bind_Some in H as (initial & _ & H).
  apply bind_Some in H as (current & _ & H).
  assert (forall e, kind_of e = Random -> draw_or_row e) as Hdraw by (by left).
  destruct (PrimFloat.leb _ _).
  - unfold flip in H. apply bind_Some in H as (x & _ & [= <-]).
    split; [|by fields].
    eexists. split; [fields; rewrite <- ?app_assoc; cbn [app]; reflexivity|].
    repeat constructor; by apply Hdraw.
  - injection H as <-. split; [|by fields].
    eexists. split; [fields; rewrite <- ?app_assoc; cbn [app]; reflexivity|].
    repeat constructor; by apply Hdraw.
Qed.

Lemma sampler_lone n fuel o beta gammaValue t iterations w w' :
  lone t -> askReqResCount w = 0 ->
  sampler n fuel o beta gammaValue t iterations w = Some w' ->
  grows draw_or_row w w' /\ askReqResCount w' = 0
  /\ finishedReqResCount w' = finishedReqResCount w.
Proof.
  intros Hl. revert iterations w.
  induction n as [|n IH]; intros iterations w H0 H; [done|].
  cbn [sampler] in H. destruct (negb (iterations =? 0)).
  - apply bind_Some in H as (w1 & Hit & H).
    apply iteration_lone in Hit as (G1 & C1 & F1); [|done..].
    apply IH in H as (G2 & C2 & F2); [|done].
    split; [by eapply grows_trans|]. split; [done|congruence].
  - injection H as <-. split; [apply grows_refl|done].
Qed.

(** X19. Once it has received its tile (from line 374 on), a worker
    without neighbours posts no request and neither tests nor waits for
    one: in a run that returns, each of the calls recorded from there on,
    those of MPI and those of [rand], is a draw of [rand] or the blocking
    send of a row to the coordinator. The completion tests of the two
    waiting loops succeed without a call of the library. *)
Theorem lone_worker_only_draws_and_returns_rows fuel o world_size world_rank
    beta gammaValue t code w' :
  lone t ->
  slave fuel o world_size world_rank beta gammaValue t = Some (code, w') ->
  Forall draw_or_row (trace w').
Proof.
  intros Hl (_ & iterations & w1 & w2 & w3 & w4 & _ & H1 & H2 & H3 & H4 & H5)
    %slave_phases.
  apply (initializeAnswers_lone _ _ _ Hl) in H1. subst w1.
  apply (sampler_lone _ _ _ _ _ _ _ _ _ Hl) in H2 as (G2 & _ & F2); [|done].
  apply (sendFinishedAll_lone _ _ _ Hl) in H3. subst w3.
  assert (w4 = w2) as ->.
  { destruct fuel as [|n]; [done|]. cbn [awaitFinished] in H4.
    unfold testFinishedAll in H4. rewrite F2 in H4. cbn in H4.
    by injection H4 as <-. }
  apply sendTile_quiet in H5 as [((evs & Htr & Hall) & _) _].
  destruct G2 as (evs2 & Htr2 & Hall2).
  rewrite Htr, Htr2. cbn [start trace app]. apply Forall_app. split; [done|].
  eapply Forall_impl; [exact Hall|]. intros e [Hk _]. right.
  revert Hk. rewrite elem_of_cons, elem_of_nil. tauto.
Qed.

Lemma lone_worker_only_draws_and_returns_rows_witness :
  lone interior_tile /\
  slave 10 interior_oracle 5000001 1 1 1 interior_tile
  = Some (0, default example_worker
               (snd <$> slave 10 interior_oracle 5000001 1 1 1 interior_tile)) /\
  Forall draw_or_row
    (trace (default example_worker
              (snd <$> slave 10 interior_oracle 5000001 1 1 1 interior_tile))).
Proof.
  assert (lone interior_tile) as Hl by (repeat constructor).
  assert (slave 10 interior_oracle 5000001 1 1 1 interior_tile
          = Some (0, default example_worker
                       (snd <$> slave 10 interior_oracle 5000001 1 1 1
                                  interior_tile))) as Hrun
    by (vm_compute; reflexivity).
  split; [exact Hl|]. split; [exact Hrun|].
  exact (lone_worker_only_draws_and_returns_rows 10 interior_oracle 5000001 1
           1 1 interior_tile 0 _ Hl Hrun).
Defined.

(** ** Waiting for the neighbours to finish *)

Lemma testall_finished_state o a count w flag w' :
  testall o a count w = (flag, w') ->
  clock w' = S (clock w) /\
  length (finishedRequests w') = length (finishedRequests w) /\
  length (finishedResponses w') = length (finishedResponses w) /\
  finishedReqResCount w' = finishedReqResCount w /\
  (a <> FinishedResponses -> finishedResponses w' = finishedResponses w).
Proof.
  unfold testall, free_all.
  destruct (all_complete o a count w); intros [= <- <-];
    destruct a; fields; rewrite ?length_imap; done.
Qed.

Lemma testFinishedAll_state o w flag w' :
  testFinishedAll o w = (flag, w') ->
  (clock w <= clock w')%nat /\
  (0 < finishedReqResCount w -> flag = false -> (clock w < clock w')%nat) /\
  length (finishedRequests w') = length (finishedRequests w) /\
  length (finishedResponses w') = length (finishedResponses w) /\
  finishedReqResCount w' = finishedReqResCount w.
Proof.
  unfold testFinishedAll.
  destruct (Z.gtb_spec (finishedReqResCount w) 0) as [Hpos|Hneg].
  2: { intros [= <- <-]. repeat split; try done; lia. }
  destruct (testall o FinishedRequests (finishedReqResCount w) w)
    as [f1 w1] eqn:H1.
  destruct (testall o FinishedResponses (finishedReqResCount w1) w1)
    as [f2 w2] eqn:H2.
  intros [= <- <-].
  apply testall_finished_state in H1 as (Hc1 & Hq1 & Hr1 & Hn1 & _).
  apply testall_finished_state in H2 as (Hc2 & Hq2 & Hr2 & Hn2 & _).
  repeat split; try lia; congruence.
Qed.

Lemma testFinishedAll_succeeds o T w :
  finished_arrive o T (finishedReqResCount w) -> (T <= clock w)%nat ->
  finishedReqResCount w <= Z.of_nat (length (finishedRequests w)) ->
  finishedReqResCount w <= Z.of_nat (length (finishedResponses w)) ->
  exists w', testFinishedAll o w = (true, w').
Proof.
  intros Ho HT Hq Hr. unfold testFinishedAll.
  destruct (finishedReqResCount w >? 0); [|by eexists].
  destruct (testall o FinishedRequests (finishedReqResCount w) w)
    as [f1 w1] eqn:H1.
  destruct (testall o FinishedResponses (finishedReqResCount w1) w1)
    as [f2 w2] eqn:H2.
  pose proof (testall_finished_state _ _ _ _ _ _ H1)
    as (Hc1 & _ & _ & Hn1 & Hr1).
  assert (f1 = true) as ->.
  { unfold testall in H1. rewrite all_complete_true in H1.
    - by injection H1 as <- _.
    - done.
    - intros i Hi. by apply Ho. }
  assert (f2 = true) as ->.
  { unfold testall in H2. rewrite all_complete_true in H2.
    - by injection H2 as <- _.
    - cbn [requests]. rewrite Hn1, Hr1 by done. done.
    - intros i Hi. rewrite Hn1 in Hi. apply Ho; [lia|done]. }
  by eexists.
Qed.

Lemma awaitFinished_returns n fuel o t T w :
  (4 <= fuel)%nat -> well_formed t -> questions_in_range o -> answering t w ->
  finishedReqResCount w <= Z.of_nat (length (finishedRequests w)) ->
  finishedReqResCount w <= Z.of_nat (length (finishedResponses w)) ->
  finished_arrive o T (finishedReqResCount w) ->
  (T - clock w < n)%nat ->
  exists w', awaitFinished n fuel o t w = Some w'.
Proof.
  intros Hfuel Ht Hq. revert w.
  induction n as [|n IH]; intros w Hw Hlq Hlr Ho Hn; [lia|].
  cbn [awaitFinished].
  destruct (testFinishedAll o w) as [done w1] eqn:Htest.
  destruct done; [by eexists|].
  pose proof (testFinishedAll_state _ _ _ _ Htest)
    as (Hc1 & Hlt & Hq1 & Hr1 & Hn1).
  assert (clock w < T)%nat as Hbefore.
  { destruct (decide (T <= clock w)%nat) as [Hafter|]; [|lia].
    destruct (testFinishedAll_succeeds o T w Ho Hafter Hlq Hlr) as (w2 & Heq).
    congruence. }
  assert (0 < finishedReqResCount w) as Hpos.
  { destruct (Z.ltb_spec 0 (finishedReqResCount w)) as [|Hle]; [done|].
    unfold testFinishedAll in Htest.
    replace (finishedReqResCount w >? 0) with false in Htest by lia. done. }
  specialize (Hlt Hpos eq_refl).
  assert (answering t w1) as Hw1.
  { eapply answering_quiet; [|by eapply testFinishedAll_quiet|done].
    no_answering. }
  destruct (answerAll_answeredAll fuel o t w1 Hfuel Ht Hq Hw1) as [Heq Hw2].
  rewrite Heq. cbn [mbind option_bind].
  pose proof (answeredAll_clock o t w1) as Hc2.
  pose proof (answerAll_quiet _ _ _ _ _ Heq) as [(_ & _ & _ & Hfin) _].
  destruct Hfin as (Hq2 & Hr2 & Hn2); [no_answering|].
  apply IH; [done|rewrite Hq2, Hn2, Hq1, Hn1; done
            |rewrite Hr2, Hn2, Hr1, Hn1; done
            |by rewrite Hn2, Hn1|lia].
Qed.





(** ** A run that returns *)

Lemma char_wrap_range z : is_char (char_wrap z).
Proof.
  unfold is_char, char_wrap. pose proof (Z.mod_pos_bound (z + 128) 256). lia.
Qed.

Lemma set_pixel_chars img r c v :
  char_pixels img -> is_char v -> char_pixels (set_pixel img r c v).
Proof.
  intros Himg Hv. unfold set_pixel.
  destruct (img !! Z.to_nat r) as [row|] eqn:Hrow; [|done].
  apply Forall_insert; [done|].
  apply Forall_insert; [|done].
  unfold char_pixels in Himg. rewrite Forall_forall in Himg.
  apply Himg. by eapply list_elem_of_lookup_2.
Qed.

Lemma iteration_returns fuel o beta gammaValue t w :
  (8 < fuel)%nat -> well_formed t -> 1 <= rows t -> 1 <= columns t ->
  rand_in_range o -> questions_in_range o -> prompt o ->
  between_iterations t w ->
  exists w',
    iteration fuel o beta gammaValue t w = Some w' /\ between_iterations t w'.
Proof.
  intros Hfuel Ht Hr1 Hc1 [Hmax Ho] Hq Hprompt [Hw [Hq8 Hs8 Hv8 H0] Hfq Hfr Hf0].
  pose proof Ht as [Hn Hrows Hcols Hinit _]. unfold INT_MAX, INT_MIN in *.
  pose proof Hw as [_ _ _ _ Hshape Hchars].
  pose proof (Ho (clock w)) as H1. pose proof (Ho (S (clock w))) as H2.
  destruct (pick_in_range (rand o (clock w)) (rows t)) as [Hrow Hr];
    [(unfold INT_MAX; lia)..|].
  destruct (pick_in_range (rand o (S (clock w))) (columns t)) as [Hcol Hc];
    [(unfold INT_MAX; lia)..|].
  unfold iteration, call_rand. fields. rewrite Hrow. fields.
  rewrite Hcol. fields.
  set (r := Z.rem (rand o (clock w)) (rows t)) in *.
  set (c := Z.rem (rand o (S (clock w))) (columns t)) in *.
  set (picked := tick (emit (rand_call (rand o (S (clock w))))
                         (tick (emit (rand_call (rand o (clock w))) w)))).
  rewrite summer_window_sum by (done || unfold INT_MIN, INT_MAX; lia). fields.
  (* the questions *)
  pose proof (asked_length t r c) as Hlen.
  destruct (ask_list_posts t (questions_for t r c) picked Hn)
    as (w2 & Hask & _ & Hc2 & Hq2 & Hs2 & Hv2); fold (asked t r c);
    try (subst picked; fields; done || lia).
  rewrite <- askNeighbours_ask_list in Hask by (unfold INT_MIN, INT_MAX; lia).
  rewrite Hask. fields.
  assert (askReqResCount w2 = Z.of_nat (length (asked t r c))) as Hcount2
    by (rewrite Hc2; subst picked; fields; rewrite H0; unfold asked; lia).
  pose proof (askNeighbours_quiet _ _ _ _ _ Hask) as Hquiet2.
  assert (answering t picked) as Hpicked.
  { destruct Hw as [Hp Ha Hb Hstand Hsh Hch]. by split. }
  assert (answering t w2) as Hw2.
  { eapply answering_quiet; [|exact Hquiet2|done]. no_answering. }
  (* the wait *)
  destruct (awaitAnswers_returns fuel fuel o t 0 w2)
    as (w3 & Hwait & Hw3 & Hq3 & Hs3 & Hv3); try done; try lia.
  { apply Hprompt. }
  rewrite Hwait. fields.
  pose proof (awaitAnswers_count _ _ _ _ _ _ Hwait) as Hcount3.
  pose proof (awaitAnswers_quiet _ _ _ _ _ _ Hwait) as [(_ & _ & _ & Hfin3) Htile3].
  destruct Hfin3 as (Hfq3 & Hfr3 & Hf3);
    [rewrite ?elem_of_cons, elem_of_nil; intuition discriminate|].
  destruct Hquiet2 as [(_ & _ & _ & Hfin2) Htile2].
  destruct Hfin2 as (Hfq2 & Hfr2 & Hf2);
    [rewrite ?elem_of_cons, elem_of_nil; intuition discriminate|].
  unfold same_tile in *.
  assert (subImage w3 = subImage w) as Htile
    by (rewrite Htile3, Htile2; by subst picked).
  (* the answers *)
  rewrite askResult_total by (rewrite ?Hv3, ?Hv2, ?Hcount3, ?Hcount2;
                              subst picked; fields; unfold INT_MAX; lia).
  fields.
  rewrite (pixel_in_tile (initialSubImage t) (rows t) (columns t)) by done.
  fields. rewrite Htile.
  rewrite (pixel_in_tile (subImage w) (rows t) (columns t)) by done. fields.
  unfold randomProbability, call_rand. fields.
  destruct Hw3 as [Hp3 Ha3 Hb3 Hstand3 Hsh3 Hch3].
  assert (length (finishedRequests w3) = 8%nat) as Hfq8
    by (rewrite Hfq3, Hfq2; by subst picked).
  assert (length (finishedResponses w3) = 8%nat) as Hfr8
    by (rewrite Hfr3, Hfr2; by subst picked).
  assert (finishedReqResCount w3 = 0) as Hf03
    by (rewrite Hf3, Hf2; by subst picked).
  assert (length (askResponseValues w3) = 8%nat) as Hv38
    by (rewrite Hv3, Hv2; by subst picked).
  destruct (PrimFloat.leb _ _).
  - rewrite (flip_in_tile t) by (fields; rewrite ?Htile; done).
    eexists. split; [reflexivity|]. fields. rewrite Htile.
    split; [split|split|..]; fields; try done; try congruence.
    + by apply set_pixel_shape.
    + apply set_pixel_chars; [done|apply char_wrap_range].
  - eexists. split; [reflexivity|].
    split; [split|split|..]; fields; try done; congruence.
Qed.

Lemma iterate_returns k fuel o beta gammaValue t w :
  (8 < fuel)%nat -> well_formed t -> 1 <= rows t -> 1 <= columns t ->
  rand_in_range o -> questions_in_range o -> prompt o ->
  between_iterations t w ->
  exists w',
    iterate k (iteration fuel o beta gammaValue t) w = Some w'
    /\ between_iterations t w'.
Proof.
  intros Hfuel Ht Hr Hc Ho Hq Hp. revert w.
  induction k as [|k IH]; intros w Hw; [by exists w|].
  cbn [iterate].
  destruct (iteration_returns fuel o beta gammaValue t w) as (w1 & -> & Hw1);
    try done.
  cbn [mbind option_bind]. by apply IH.
Qed.

Lemma initializeAnswers_between t :
  well_formed t ->
  exists w, initializeAnswers t (start t) = Some w /\ between_iterations t w.
Proof.
  intros Ht. pose proof Ht as [Hn _ _ Hshape Hchars].
  destruct (initializeAnswers_loop t directions (start t))
    as (w & Hrun & _ & Hq & Hr & _ & Hnew & _ & Himg & Hpos & _); try done.
  { intros d Hd%direction_range. lia. }
  { intros d Hd%direction_range. lia. }
  exists w. split; [done|].
  pose proof (initializeAnswers_quiet _ _ _ Hrun) as [(_ & Hasks & _ & Hfin) _].
  destruct Hasks as (Ha1 & Ha2 & Ha3 & Ha4);
    [rewrite ?elem_of_cons, elem_of_nil; intuition discriminate|].
  destruct Hfin as (Hf1 & Hf2 & Hf3);
    [rewrite ?elem_of_cons, elem_of_nil; intuition discriminate|].
  split; [split|split|..]; rewrite ?Hpos, ?Himg, ?Ha1, ?Ha2, ?Ha3, ?Ha4,
    ?Hf1, ?Hf2, ?Hf3; try done.
  intros d nb Hnb Hne. eapply Hnew; [|done..].
  apply direction_in. apply load_range in Hnb. lia.
Qed.

Lemma sendFinishedAll_lengths t w w' :
  sendFinishedAll t w = Some w' ->
  length (finishedRequests w') = length (finishedRequests w) /\
  length (finishedResponses w') = length (finishedResponses w).
Proof.
  apply (for_each_step
           (fun w w' =>
              length (finishedRequests w') = length (finishedRequests w) /\
              length (finishedResponses w') = length (finishedResponses w))).
  - done.
  - intros w1 w2 w3 [-> ->] [-> ->]. done.
  - intros d w1 w2 (nb & _ & H)%bind_Some.
    destruct (negb (nb =? -1)); [|by injection H as <-].
    apply bind_Some in H as (w3 & Hpost & H).
    apply post_inv_slot in Hpost as [_ ->].
    apply bind_Some in H as (w4 & Hpost & [= <-]).
    apply post_inv_slot in Hpost as [_ ->]. fields.
    by rewrite !length_insert.
Qed.

Lemma slave_returns fuel o world_size world_rank beta gammaValue t :
  well_formed t -> 1 <= rows t -> 1 <= columns t ->
  rand_in_range o -> questions_in_range o -> prompt o ->
  2 <= world_size <= INT_MAX ->
  (8 < fuel)%nat ->
  (Z.to_nat (5000000 / (world_size - 1)) < fuel)%nat ->
  (Z.to_nat (rows t) < fuel)%nat ->
  exists w', slave fuel o world_size world_rank beta gammaValue t = Some (0, w').
Proof.
  intros Ht Hr Hc Ho Hq Hp Hws Hfuel Hbudget Hrows. unfold slave.
  rewrite iterations_per_worker by done. cbn [mbind option_bind].
  destruct (initializeAnswers_between t Ht) as (w1 & -> & Hw1).
  cbn [mbind option_bind].
  assert (0 <= 5000000 / (world_size - 1) <= 5000000) as Hb.
  { unfold INT_MAX in Hws. split.
    - apply Z.div_pos; lia.
    - apply Z.div_le_upper_bound; lia. }
  rewrite (sampler_iterate (Z.to_nat (5000000 / (world_size - 1))))
    by (done || unfold INT_MAX; lia).
  destruct (iterate_returns (Z.to_nat (5000000 / (world_size - 1))) fuel o
              beta gammaValue t w1) as (w2 & -> & Hw2); try done.
  cbn [mbind option_bind].
  destruct Hw2 as [Hans2 _ Hfq2 Hfr2 Hf2].
  pose proof Ht as [Hn Hrange _ _ _].
  destruct (sendFinishedAll_posts t w2 Hn Hfq2 Hfr2 Hf2)
    as (w3 & Hsend & _ & Hcount3).
  rewrite Hsend. cbn [mbind option_bind].
  pose proof (sendFinishedAll_lengths _ _ _ Hsend) as [Hfq3 Hfr3].
  pose proof (sendFinishedAll_quiet _ _ _ Hsend) as Hquiet3.
  assert (answering t w3) as Hans3.
  { eapply answering_quiet; [|exact Hquiet3|done].
    rewrite ?elem_of_cons, elem_of_nil. intuition discriminate. }
  assert (Z.of_nat (length (existing t)) <= 8) as Hex.
  { unfold existing. pose proof (length_filter (fun nb => nb <> -1) (neighbours t)).
    lia. }
  destruct (awaitFinished_returns fuel fuel o t 0 w3) as (w4 & Hwait);
    try done; try lia.
  { apply Hp. }
  rewrite Hwait. cbn [mbind option_bind].
  pose proof (awaitFinished_quiet _ _ _ _ _ _ Hwait) as [_ Htile4].
  destruct Hans3 as [_ _ _ _ [Hlen3 _] _]. unfold same_tile in Htile4.
  destruct (sendTile_rows fuel t w4) as (w5 & -> & _);
    [by rewrite Htile4|unfold INT_MAX in *; lia|rewrite Htile4; lia|].
  by eexists.
Qed.

(** X21. A worker returns when the library is prompt. On a tile of at
    least one row and one column, with draws in [0, RAND_MAX], questions
    whose positions are in range, and a library that reports the worker's
    questions, their answers and the FINISHED messages complete whenever
    it is asked, [slave] goes through its whole budget of iterations, the
    handshake and the sending of its rows, and returns 0: no loop of the
    worker can run forever and no access leaves an array. *)
Theorem slave_returns_when_the_library_is_prompt fuel o world_size world_rank
    beta gammaValue t :
  well_formed t -> 1 <= rows t -> 1 <= columns t ->
  rand_in_range o -> questions_in_range o -> prompt o ->
  2 <= world_size <= INT_MAX ->
  (8 < fuel)%nat ->
  (Z.to_nat (5000000 / (world_size - 1)) < fuel)%nat ->
  (Z.to_nat (rows t) < fuel)%nat ->
  exists w', slave fuel o world_size world_rank beta gammaValue t = Some (0, w').
Proof. apply slave_returns. Qed.

Lemma prompt_oracle_prompt : prompt prompt_oracle.
Proof. intros count. split; intros time i _ _; split; by eexists. Qed.

Lemma slave_returns_when_the_library_is_prompt_witness :
  well_formed example_tile /\ 1 <= rows example_tile /\
  1 <= columns example_tile /\ rand_in_range prompt_oracle /\
  questions_in_range prompt_oracle /\ prompt prompt_oracle /\
  (2 <= 5000001 <= INT_MAX) /\ (8 < 10)%nat /\
  (Z.to_nat (5000000 / (5000001 - 1)) < 10)%nat /\
  (Z.to_nat (rows example_tile) < 10)%nat /\
  exists w', slave 10 prompt_oracle 5000001 1 1 1 example_tile = Some (0, w').
Proof.
  assert (rand_in_range prompt_oracle) as Ho
    by (split; [by vm_compute|intros time; by vm_compute]).
  assert (questions_in_range prompt_oracle) as Hq
    by (intros time d p [= <-]; by vm_compute).
  split; [exact example_tile_well_formed|]. split; [by vm_compute|].
  split; [by vm_compute|]. split; [exact Ho|]. split; [exact Hq|].
  split; [exact prompt_oracle_prompt|]. split; [by vm_compute|].
  split; [lia|]. split; [vm_compute; lia|]. split; [vm_compute; lia|].
  apply slave_returns_when_the_library_is_prompt;
    [exact example_tile_well_formed|by vm_compute|by vm_compute|exact Ho
    |exact Hq|exact prompt_oracle_prompt|by vm_compute|lia
    |vm_compute; lia|vm_compute; lia].
Defined.

(** ** The neighbour sum at the example *)

Lemma summer_of_binary_tile_bounded_witness :
  (4 <= 4)%nat /\ tile_shape 2 2 (subImage example_worker) /\
  binary (subImage example_worker) /\
  (INT_MIN < 0 < INT_MAX - 1) /\ (INT_MIN < 2 < INT_MAX - 1) /\
  exists sum,
    summer 4 (subImage example_worker) 2 2 0 2 = Some sum /\ -8 <= sum <= 8.
Proof.
  split; [lia|]. split; [exact example_worker_shape|].
  split; [exact example_worker_binary|].
  split; [by vm_compute|]. split; [by vm_compute|].
  apply summer_of_binary_tile_bounded;
    [lia|exact example_worker_shape|exact example_worker_binary
    |by vm_compute|by vm_compute].
Defined.

Lemma summer_off_the_tile_is_zero_witness :
  (4 <= 4)%nat /\ (INT_MIN < 4 < INT_MAX - 1) /\ (INT_MIN < 0 < INT_MAX - 1) /\
  (4 < -1 \/ 2 < 4 \/ 0 < -1 \/ 2 < 0 \/ 2 <= 0 \/ 2 <= 0) /\
  summer 4 (subImage example_worker) 2 2 4 0 = Some 0.
Proof.
  split; [lia|]. split; [by vm_compute|]. split; [by vm_compute|].
  split; [right; left; lia|].
  apply summer_off_the_tile_is_zero;
    [lia|by vm_compute|by vm_compute|right; left; lia].
Defined.
(** ** The acceptance rule, iteration after iteration *)

Lemma askAsync_asking neighbour position w w' :
  askAsync neighbour position w = Some w' -> asking w -> asking w'.
Proof.
  unfold askAsync. destruct (neighbour =? -1); [by intros [= <-]|].
  intros (w1 & H1 & H)%bind_Some (Hq & Hs & Hv & H0).
  apply post_inv_slot in H1 as [Hi ->].
  apply bind_Some in H as (w2 & H2 & [= <-]).
  apply post_inv_slot in H2 as [_ ->].
  fields_in Hi. unfold asking. fields.
  rewrite !length_insert.
  rewrite int_add_exact by (unfold is_int, INT_MIN, INT_MAX; lia).
  repeat split; (done || lia).
Qed.

Lemma askNeighbours_asking t r c w w' :
  askNeighbours t r c w = Some w' -> asking w -> asking w'.
Proof.
  assert (forall d p w w',
            (load (neighbours t) d ≫= fun nb => askAsync nb p w) = Some w' ->
            asking w -> asking w') as Hask.
  { intros d p w1 w2 (nb & _ & H)%bind_Some. by eapply askAsync_asking. }
  assert (forall (b : bool) d p w w',
            (if b then load (neighbours t) d ≫= fun nb => askAsync nb p w
             else Some w) = Some w' -> asking w -> asking w') as Hif.
  { intros [] d p w1 w2 H; [by eapply Hask|]. by injection H as <-. }
  unfold askNeighbours. intros (w1 & H1 & H)%bind_Some Hw.
  apply bind_Some in H as (w2 & H2 & H).
  apply bind_Some in H as (w3 & H3 & H).
  assert (asking w1) as Hw1.
  { destruct (r =? 0); [|by injection H1 as <-].
    apply bind_Some in H1 as (wa & Ha & H1).
    apply bind_Some in H1 as (wb & Hb & H1).
    eapply Hif; [exact H1|]. eapply Hif; [exact Hb|]. by eapply Hask. }
  assert (asking w2) as Hw2.
  { destruct (r =? int_sub (rows t) 1); [|by injection H2 as <-].
    apply bind_Some in H2 as (wa & Ha & H2).
    apply bind_Some in H2 as (wb & Hb & H2).
    eapply Hif; [exact H2|]. eapply Hif; [exact Hb|]. by eapply Hask. }
  eapply Hif; [exact H|]. by eapply Hif.
Qed.

Lemma awaitAnswers_asking n fuel o t w w' :
  awaitAnswers n fuel o t w = Some w' -> asking w -> asking w'.
Proof.
  revert w. induction n as [|n IH]; intros w H Hw; [done|].
  cbn [awaitAnswers] in H.
  destruct (testAskAll o w) as [done w1] eqn:Htest.
  apply testAskAll_state in Htest as (_ & _ & Hq & Hs & Hc & Hv).
  assert (asking w1) as Hw1.
  { unfold asking in *. by rewrite Hq, Hs, Hc, Hv. }
  destruct done; [by injection H as <-|].
  apply bind_Some in H as (w2 & Hans & H).
  apply answerAll_quiet in Hans as [(_ & Hasks & _) _].
  destruct Hasks as (Hq2 & Hs2 & Hv2 & Hc2); [no_answering|].
  apply (IH w2 H). unfold asking in *. by rewrite Hq2, Hs2, Hc2, Hv2.
Qed.

Lemma askResult_loop_idle fuel result w v w' :
  askResult_loop fuel result w = Some (v, w') -> asking w -> idle w'.
Proof.
  revert result w. induction fuel as [|fuel IH]; intros result w H Hw; [done|].
  cbn [askResult_loop] in H.
  destruct (Z.eqb_spec (askReqResCount w) 0) as [H0|H0]; cbn [negb] in H.
  - injection H as _ <-. by destruct Hw as (? & ? & ? & ?).
  - apply bind_Some in H as (x & _ & H). apply IH in H; [done|].
    destruct Hw as (? & ? & ? & ?). unfold asking. fields.
    rewrite int_sub_exact by (unfold is_int, INT_MIN, INT_MAX; lia).
    repeat split; (done || lia).
Qed.

Lemma askResult_makes_idle fuel w v w' :
  askResult fuel w = Some (v, w') -> asking w -> idle w'.
Proof.
  unfold askResult. destruct (Z.gtb_spec (askReqResCount w) 0).
  - apply askResult_loop_idle.
  - intros [= _ <-] (? & ? & ? & ?). split; (done || lia).
Qed.

(** An iteration that returns leaves no question outstanding. *)
Lemma iteration_idle fuel o beta gammaValue t w w' :
  iteration fuel o beta gammaValue t w = Some w' -> idle w -> idle w'.
Proof.
  unfold iteration, call_rand. fields.
  intros (rowPosition & _ & H)%bind_Some [Hq Hs Hv H0]. fields_in H.
  apply bind_Some in H as (columnPosition & _ & H).
  apply bind_Some in H as (sum & _ & H).
  apply bind_Some in H as (w3 & Hask & H).
  apply bind_Some in H as (w4 & Hwait & H).
  apply bind_Some in H as ([answers w5] & Hres & H).
  apply bind_Some in H as (initial & _ & H).
  apply bind_Some in H as (current & _ & H).
  unfold randomProbability, call_rand in H. fields_in H.
  apply askNeighbours_asking in Hask.
  2: { unfold asking. fields. repeat split; (done || lia). }
  apply awaitAnswers_asking in Hwait; [|done].
  apply askResult_makes_idle in Hres as [Hq5 Hs5 Hv5 H5]; [|done].
  destruct (PrimFloat.leb _ _).
  - unfold flip in H. apply bind_Some in H as (x & _ & [= <-]).
    split; fields; done.
  - injection H as <-. split; fields; done.
Qed.

(** C2, amended. An iteration that returns has picked the pixel
    [(r, c) = (rand() % rows, rand() % columns)], asked its questions and
    waited for the answers. With [sum] the sum of its window in the tile
    plus the answers collected, it computes, in binary64 and from left to
    right, [deltaE = -2*gamma*observed[r][c]*current[r][c] -
    2*beta*current[r][c]*sum]; it calls [rand] once more, the last call of
    the iteration, and takes [u = (double) rand() / RAND_MAX]; and it
    negates the pixel exactly when [log(u) <= deltaE], leaving every other
    pixel as it was. For a result of [rand] in [0, RAND_MAX], [u] lies in
    the closed interval [0, 1] and is 0 when [rand] returns 0; distinct
    results give distinct [u], in the same order, so that [u] is spread
    over its RAND_MAX + 1 values as [rand] spreads its results. *)
Theorem iteration_flips_when_log_le_deltaE fuel o beta gammaValue t w w' :
  (4 <= fuel)%nat -> well_formed t -> rand_in_range o -> 0 < RAND_MAX o ->
  tile_shape (rows t) (columns t) (subImage w) -> char_pixels (subImage w) ->
  idle w ->
  iteration fuel o beta gammaValue t w = Some w' ->
  exists r c w_asked w_answered,
    r = Z.rem (rand o (clock w)) (rows t) /\
    c = Z.rem (rand o (S (clock w))) (columns t) /\
    0 <= r < rows t /\ 0 <= c < columns t /\
    askNeighbours t r c (picked o w) = Some w_asked /\
    awaitAnswers fuel fuel o t w_asked = Some w_answered /\
    let observed := double_of_int (px (initialSubImage t) r c) in
    let current := double_of_int (px (subImage w) r c) in
    let sum :=
      double_of_int
        (int_add (window_sum (subImage w) (rows t) (columns t) r c)
           (remote_sum w_answered)) in
    let dE :=
      (-2 * gammaValue * observed * current - 2 * beta * current * sum)%float in
    let draw := rand o (clock w_answered) in
    let u := (double_of_int draw / double_of_int (RAND_MAX o))%float in
    trace w' = trace w_answered ++ [rand_call draw] /\
    (0 <=? u)%float = true /\ (u <=? 1)%float = true /\
    (draw = 0 -> u = 0%float) /\
    (forall k k',
       0 <= k < k' -> k' <= RAND_MAX o ->
       (double_of_int k / double_of_int (RAND_MAX o)
        <? double_of_int k' / double_of_int (RAND_MAX o))%float = true) /\
    subImage w'
    = if (log o u <=? dE)%float
      then set_pixel (subImage w) r c (char_wrap (- px (subImage w) r c))
      else subImage w.
Proof.
  intros Hfuel Ht Ho Hpos Hshape Hchars Hidle H.
  destruct (iteration_decided _ _ _ _ _ _ _ Hfuel Ht Ho Hshape Hchars Hidle H)
    as (Hr & Hc & w_asked & w_answered & Hask & Hwait & _ & Himg & Htrace).
  destruct Ho as [Hmax Ho]. unfold INT_MAX in Hmax.
  assert (2147483647 < 2 ^ 31) as H31 by (by vm_compute).
  eexists _, _, w_asked, w_answered.
  split; [reflexivity|]. split; [reflexivity|].
  split; [done|]. split; [done|]. split; [done|]. split; [done|].
  cbv zeta. split; [done|].
  destruct (ratio_in_unit_interval (rand o (clock w_answered)) (RAND_MAX o))
    as [H0 H1]; [apply Ho|lia|].
  split; [done|]. split; [done|]. split.
  { intros ->. apply ratio_of_zero. lia. }
  split.
  { intros k k' Hk Hk'. apply ratio_increasing; lia. }
  exact Himg.
Qed.

Lemma iteration_flips_when_log_le_deltaE_witness :
  (4 <= 10)%nat /\ well_formed example_tile /\ rand_in_range example_oracle /\
  0 < RAND_MAX example_oracle /\
  tile_shape (rows example_tile) (columns example_tile) (subImage example_worker) /\
  char_pixels (subImage example_worker) /\ idle example_worker /\
  iteration 10 example_oracle 1 1 example_tile example_worker
  = Some example_iterated /\
  exists w_answered,
    trace example_iterated
    = trace w_answered ++ [rand_call (rand example_oracle (clock w_answered))] /\
    subImage example_iterated
    = if (log example_oracle
            (double_of_int (rand example_oracle (clock w_answered))
             / double_of_int (RAND_MAX example_oracle))
          <=? -2 * 1 * double_of_int (px (initialSubImage example_tile) 0 0)
                * double_of_int (px (subImage example_worker) 0 0)
              - 2 * 1 * double_of_int (px (subImage example_worker) 0 0)
                * double_of_int
                    (int_add (window_sum (subImage example_worker) 2 2 0 0)
                       (remote_sum w_answered)))%float
      then set_pixel (subImage example_worker) 0 0
             (char_wrap (- px (subImage example_worker) 0 0))
      else subImage example_worker.
Proof.
  split; [lia|]. split; [exact example_tile_well_formed|].
  split; [exact example_oracle_in_range|]. split; [reflexivity|].
  split; [exact example_worker_shape|].
  split; [exact example_worker_chars|]. split; [exact example_worker_idle|].
  split; [exact example_iteration|].
  destruct (iteration_flips_when_log_le_deltaE 10 example_oracle 1 1
              example_tile example_worker example_iterated)
    as (r & c & w_asked & w_answered & -> & -> & _ & _ & _ & _ & Htrace
        & _ & _ & _ & _ & Himg);
    [lia|exact example_tile_well_formed|exact example_oracle_in_range
    |reflexivity|exact example_worker_shape|exact example_worker_chars
    |exact example_worker_idle|exact example_iteration|].
  exists w_answered. split; [exact Htrace|exact Himg].
Defined.

Lemma iterate_idle k fuel o beta gammaValue t w w' :
  iterate k (iteration fuel o beta gammaValue t) w = Some w' ->
  idle w -> idle w'.
Proof.
  revert w. induction k as [|k IH]; intros w H Hw.
  - by injection H as <-.
  - cbn [iterate] in H. apply bind_Some in H as (w1 & Hit & H).
    apply (IH w1 H). by eapply iteration_idle.
Qed.

(** A run that ends on another tile than it started on has a first
    iteration that changes the tile. *)
Lemma iterate_first_change k (f : worker -> option worker) (img : image) w w' :
  iterate k f w = Some w' -> subImage w = img -> subImage w' <> img ->
  exists j w_j w_j',
    (j < k)%nat /\ iterate j f w = Some w_j /\ subImage w_j = img /\
    f w_j = Some w_j' /\ subImage w_j' <> img.
Proof.
  revert w. induction k as [|k IH]; intros w H Hw Hw'.
  - injection H as <-. done.
  - cbn [iterate] in H. apply bind_Some in H as (w1 & Hf & H).
    destruct (decide (subImage w1 = img)) as [Heq|Hne].
    + destruct (IH w1 H Heq Hw') as (j & w_j & w_j' & Hj & Hrun & Himg & Hstep).
      exists (S j), w_j, w_j'. split; [lia|]. split; [|done].
      cbn [iterate]. by rewrite Hf.
    + exists 0%nat, w, w1. split; [lia|]. done.
Qed.

(** The energy difference on a tile of +1: the two products with the
    pixel values are exact. *)
Lemma deltaE_uniform beta gammaValue sum :
  deltaE beta gammaValue 1 1 sum
  = (-2 * gammaValue - 2 * beta * double_of_int sum)%float.
Proof.
  unfold deltaE. change (double_of_int 1) with 1%float.
  by rewrite !mul_one_r.
Qed.

(** On a tile of +1 an iteration keeps the tile exactly when the test
    fails. *)
Lemma uniform_iteration fuel o beta gammaValue t w w' :
  (4 <= fuel)%nat -> well_formed t -> rand_in_range o ->
  uniform 1 (initialSubImage t) -> subImage w = initialSubImage t ->
  idle w ->
  iteration fuel o beta gammaValue t w = Some w' ->
  exists r c w_asked w_answered,
    r = Z.rem (rand o (clock w)) (rows t) /\
    c = Z.rem (rand o (S (clock w))) (columns t) /\
    askNeighbours t r c (picked o w) = Some w_asked /\
    awaitAnswers fuel fuel o t w_asked = Some w_answered /\
    let sum :=
      double_of_int
        (int_add (window_sum (initialSubImage t) (rows t) (columns t) r c)
           (remote_sum w_answered)) in
    let dE := (-2 * gammaValue - 2 * beta * sum)%float in
    let u := (double_of_int (rand o (clock w_answered))
              / double_of_int (RAND_MAX o))%float in
    (subImage w' = initialSubImage t <-> (log o u <=? dE)%float = false) /\
    ((log o u <=? dE)%float = true -> px (subImage w') r c = -1).
Proof.
  intros Hfuel Ht Ho Huni Hsame Hidle H.
  pose proof (initial_shape t Ht) as Hshape.
  assert (tile_shape (rows t) (columns t) (subImage w)) as Hshape'
    by (by rewrite Hsame).
  assert (char_pixels (subImage w)) as Hchars
    by (rewrite Hsame; by apply uniform_chars).
  destruct (iteration_decided _ _ _ _ _ _ _ Hfuel Ht Ho Hshape' Hchars Hidle H)
    as (Hr & Hc & w_asked & w_answered & Hask & Hwait & _ & Himg & _).
  eexists _, _, w_asked, w_answered.
  split; [reflexivity|]. split; [reflexivity|].
  split; [done|]. split; [done|]. cbv zeta.
  unfold decided, probability in Himg. rewrite Hsame in Himg.
  rewrite !(px_uniform 1 _ (rows t) (columns t)) in Himg by done.
  rewrite deltaE_uniform in Himg. rewrite Himg.
  destruct (PrimFloat.leb _ _).
  - assert (px (set_pixel (initialSubImage t)
                  (Z.rem (rand o (clock w)) (rows t))
                  (Z.rem (rand o (S (clock w))) (columns t))
                  (char_wrap (- (1))))
               (Z.rem (rand o (clock w)) (rows t))
               (Z.rem (rand o (S (clock w))) (columns t)) = -1) as Hpx
      by (by rewrite (px_set_pixel _ (rows t) (columns t))).
    split; [|done]. split; [|done].
    intros Heq. rewrite Heq in Hpx.
    rewrite (px_uniform 1 _ (rows t) (columns t)) in Hpx by done. done.
  - split; [done|]. done.
Qed.

(** C5, amended. Take a worker whose observed tile is uniformly +1, any
    [beta] and [gamma] (positive or not), and a run of [slave] that
    returns. Every iteration of the run that finds the tile still
    uniformly +1 picks a pixel [(r, c)], computes
    [deltaE = -2*gamma - 2*beta*sum] and draws
    [u = (double) rand() / RAND_MAX]; it leaves the tile as it was exactly
    when [log(u) <= deltaE] fails, and when it holds the pixel picked
    becomes -1. Over the whole run the tile at the end is the initial one
    unless one of these iterations changes it, that is unless a proposal
    passes the test; nothing keeps the test from passing. *)
Theorem uniform_tile_kept_unless_accepted fuel o world_size world_rank beta
    gammaValue t code w' :
  (4 <= fuel)%nat -> well_formed t -> rand_in_range o ->
  uniform 1 (initialSubImage t) -> 2 <= world_size <= INT_MAX ->
  slave fuel o world_size world_rank beta gammaValue t = Some (code, w') ->
  let budget := Z.to_nat (5000000 / (world_size - 1)) in
  exists w0,
    initializeAnswers t (start t) = Some w0 /\
    (forall j w_j w_j',
       iterate j (iteration fuel o beta gammaValue t) w0 = Some w_j ->
       subImage w_j = initialSubImage t ->
       iteration fuel o beta gammaValue t w_j = Some w_j' ->
       exists r c w_asked w_answered,
         r = Z.rem (rand o (clock w_j)) (rows t) /\
         c = Z.rem (rand o (S (clock w_j))) (columns t) /\
         askNeighbours t r c (picked o w_j) = Some w_asked /\
         awaitAnswers fuel fuel o t w_asked = Some w_answered /\
         let sum :=
           double_of_int
             (int_add
                (window_sum (initialSubImage t) (rows t) (columns t) r c)
                (remote_sum w_answered)) in
         let dE := (-2 * gammaValue - 2 * beta * sum)%float in
         let u := (double_of_int (rand o (clock w_answered))
                   / double_of_int (RAND_MAX o))%float in
         (subImage w_j' = initialSubImage t
          <-> (log o u <=? dE)%float = false) /\
         ((log o u <=? dE)%float = true -> px (subImage w_j') r c = -1)) /\
    (subImage w' <> initialSubImage t ->
     exists j w_j w_j',
       (j < budget)%nat /\
       iterate j (iteration fuel o beta gammaValue t) w0 = Some w_j /\
       subImage w_j = initialSubImage t /\
       iteration fuel o beta gammaValue t w_j = Some w_j' /\
       subImage w_j' <> initialSubImage t).
Proof.
  intros Hfuel Ht Ho Huni Hws Hrun budget.
  apply slave_phases in Hrun
    as (_ & iterations & w1 & w2 & w3 & w4 & Hit & H1 & H2 & H3 & H4 & H5).
  rewrite iterations_per_worker in Hit by done. injection Hit as <-.
  assert (0 <= 5000000 / (world_size - 1) <= 5000000) as Hb.
  { unfold INT_MAX in Hws. split.
    - apply Z.div_pos; lia.
    - apply Z.div_le_upper_bound; lia. }
  apply sampler_returns_iterate in H2; [|unfold INT_MAX; lia].
  fold budget in H2.
  pose proof (initializeAnswers_quiet _ _ _ H1) as [(_ & Hasks & _) Htile1].
  destruct Hasks as (Hq & Hs & Hv & Hc); [no_answering|].
  assert (subImage w1 = initialSubImage t) as Hsame by (by rewrite Htile1).
  assert (idle w1) as Hidle by (split; [rewrite Hq|rewrite Hs|rewrite Hv|rewrite Hc]; done).
  exists w1. split; [done|]. split.
  - intros j w_j w_j' Hj Hsame_j H.
    pose proof (iterate_idle _ _ _ _ _ _ _ _ Hj Hidle) as Hidle_j.
    by eapply uniform_iteration.
  - intros Hne.
    apply sendFinishedAll_quiet in H3 as [_ Htile3].
    apply awaitFinished_quiet in H4 as [_ Htile4].
    apply sendTile_quiet in H5 as [_ Htile5].
    unfold same_tile in *.
    eapply iterate_first_change; [exact H2|done|]. congruence.
Qed.

Lemma small_draw_oracle_in_range : rand_in_range small_draw_oracle.
Proof. split; [by vm_compute|]. intros time. by vm_compute. Qed.

Lemma interior_tile_uniform : uniform 1 (initialSubImage interior_tile).
Proof. repeat constructor. Qed.

Lemma interior_iteration_once :
  iteration 10 small_draw_oracle 0.03125 0.03125 interior_tile
    (start interior_tile)
  = Some interior_once.
Proof. vm_compute. reflexivity. Qed.

Lemma interior_slave :
  slave 10 small_draw_oracle 1666667 1 0.03125 0.03125 interior_tile
  = Some (0, interior_final).
Proof. vm_compute. reflexivity. Qed.

Lemma interior_final_changed :
  subImage interior_final <> initialSubImage interior_tile.
Proof. vm_compute. discriminate. Qed.

Lemma uniform_tile_kept_unless_accepted_witness :
  (4 <= 10)%nat /\ well_formed interior_tile /\
  rand_in_range small_draw_oracle /\
  uniform 1 (initialSubImage interior_tile) /\
  2 <= 1666667 <= INT_MAX /\
  slave 10 small_draw_oracle 1666667 1 0.03125 0.03125 interior_tile
  = Some (0, interior_final) /\
  (exists w_answered,
     (subImage interior_once = initialSubImage interior_tile
      <-> (log small_draw_oracle
             (double_of_int (rand small_draw_oracle (clock w_answered))
              / double_of_int (RAND_MAX small_draw_oracle))
           <=? -2 * 0.03125
               - 2 * 0.03125
                 * double_of_int
                     (int_add
                        (window_sum (initialSubImage interior_tile) 3 3 1 1)
                        (remote_sum w_answered)))%float = false)) /\
  px (subImage interior_once) 1 1 = -1 /\
  (exists j w_j w_j',
     (j < 3)%nat /\
     iterate j (iteration 10 small_draw_oracle 0.03125 0.03125 interior_tile)
       (start interior_tile) = Some w_j /\
     subImage w_j = initialSubImage interior_tile /\
     iteration 10 small_draw_oracle 0.03125 0.03125 interior_tile w_j
     = Some w_j' /\
     subImage w_j' <> initialSubImage interior_tile).
Proof.
  split; [lia|]. split; [exact interior_tile_well_formed|].
  split; [exact small_draw_oracle_in_range|].
  split; [exact interior_tile_uniform|]. split; [by vm_compute|].
  split; [exact interior_slave|].
  destruct (uniform_tile_kept_unless_accepted 10 small_draw_oracle 1666667 1
              0.03125 0.03125 interior_tile 0 interior_final)
    as (w0 & Hstart & Heach & Hrun);
    [lia|exact interior_tile_well_formed|exact small_draw_oracle_in_range
    |exact interior_tile_uniform|by vm_compute|exact interior_slave|].
  assert (w0 = start interior_tile) as ->
    by (vm_compute in Hstart; by injection Hstart as <-).
  split; [|split; [reflexivity|exact (Hrun interior_final_changed)]].
  destruct (Heach 0%nat (start interior_tile) interior_once eq_refl eq_refl
              interior_iteration_once)
    as (r & c & w_asked & w_answered & -> & -> & _ & _ & Hiff & _).
  exists w_answered. exact Hiff.
Defined.

(** Nor is the test passed at [u = 0] only. In [interior_tile], uniformly
    +1, with [beta = gamma = 1/32] and [rand] returning 1, the pixel in the
    middle is proposed with [u = 1 / RAND_MAX], above 0, and
    [deltaE = -1/16 - 8/16]: the logarithm of [u] lies below it (libm's is
    about -21.5, that of the example about -1) and the pixel is flipped. *)
Lemma positive_draw_may_flip_uniform_tile :
  ~ (forall fuel o world_size world_rank beta gammaValue t code w',
       rand_in_range o -> (forall time, 0 < rand o time) ->
       well_formed t -> uniform 1 (initialSubImage t) ->
       PrimFloat.ltb 0 beta = true -> PrimFloat.ltb 0 gammaValue = true ->
       slave fuel o world_size world_rank beta gammaValue t = Some (code, w') ->
       subImage w' = initialSubImage t).
Proof.
  intros H.
  specialize (H 10%nat small_draw_oracle 5000001 1 0.03125%float
                0.03125%float interior_tile).
  specialize (fun code w' =>
                H code w' small_draw_oracle_in_range (fun _ => eq_refl)
                  interior_tile_well_formed interior_tile_uniform
                  eq_refl eq_refl).
  destruct (slave 10 small_draw_oracle 5000001 1 0.03125 0.03125 interior_tile)
    as [[code w']|] eqn:Hrun; [|vm_compute in Hrun; discriminate].
  specialize (H code w' eq_refl).
  assert (px (subImage w') 1 1 = -1) as Hpx.
  { vm_compute in Hrun. injection Hrun as _ <-. reflexivity. }
  rewrite H in Hpx. vm_compute in Hpx. discriminate.
Qed.
